(* ===== verification/_CoqProject ===== *)
-Q . S2P
Prelude.v
Wire.v
Utf8.v
Ring.v
Screen.v
Encodings.v
Crypto.v
StdCrypto.v
Json.v
JsonText.v
Session.v
Control.v
Orch.v
Sender.v
Handlers.v
Traces.v
Atoms.v
Threads.v
Access.v
Refine.v
Scenario.v
Authority.v
Invariant.v
Outbound.v
Bounds.v
Interleave.v
Goroutines.v
Races.v
Split.v
Sizes.v
Fanout.v
GoTime.v
GoFlag.v
RelayClient.v
Messages.v
Reconnect.v
Run.v
Farewell.v
Whole.v
Qr.v
Cli.v
Main.v
Soak.v
Harness.v
