(* ===== verification/Prelude.v ===== *)
(** * A verification development for onlytty's runner

    onlytty shares a command running in a local pseudo-terminal with a browser,
    end-to-end encrypted, through a relay that is not trusted.  The program
    verified here is the Go code under runner/: the command line
    (cmd/onlytty), the wire protocol and crypto (internal/protocol), the pty
    session and its resume buffer (internal/ptysession), the relay's control
    plane (internal/relayclient), the orchestrator that joins them
    (internal/runner), and the load harness (cmd/soak).

    ** How the parts meet

    [run] of cmd/onlytty registers a session with the relay, derives two keys
    from a secret that only the link's fragment carries, starts the command in a
    pty and hands everything to the orchestrator.  The orchestrator mirrors the
    command's output to the local terminal and, sealed, to the relay; and it
    applies the viewers' sealed frames - control requests, input, resizes - to
    the pty when the frame is authentic, fresh and from the viewer in control.
    When the relay drops the runner socket, a loop dials again and, when the
    relay has lost the session, re-creates it within its original deadline.

    ** The files

    Shared:
    - Prelude: Go's errors, bytes, big-endian integers, slices; generic lemmas.
    - Utf8, Encodings, Json, JsonText, GoTime, GoFlag: the parts of Go's
      standard library the code computes with (runes; base32 and base64;
      encoding/json and what it reads back of what it wrote; durations, clocks
      and their float64 arithmetic; the flag package and the texts of
      durations), written out and proved about.

    Components (each names its source file in its own header):
    - Wire: internal/protocol/wire.go.
    - Crypto, StdCrypto: internal/protocol/crypto.go, over the class
      [Primitives] of the crypto packages it calls, and those packages bit for
      bit (SHA-256, HMAC, HKDF, PBKDF2, AES-GCM) as an instance that satisfies
      [PrimitivesLaws]; the repository's golden vectors are evaluated on it.
    - Ring, Session: internal/ptysession/ring.go and session.go.
    - Screen, Control, Orch, Sender, Handlers: internal/runner/runner.go - the
      output scanner, the viewer state and its critical sections, the state and
      the monad of the methods, the outgoing half, the incoming half.
      [Handlers.step] is one event (a message, a socket up or down, a chunk of
      output or of local input, a resize, a keepalive, SIGUSR1, the child's
      exit, a shutdown, a tick of the clock, an iteration of the sender), its
      method run without interruption; [Handlers.run] is any sequence of them.
    - Atoms, Threads: the same methods and goroutines of runner.go at the grain
      they interleave at.  In Atoms a method is a sequence of atoms - a critical
      section, an atomic load or store, a channel operation, a call on the pty,
      a socket write - over a heap of connections; in Threads each goroutine
      runs the atoms of its tasks and between two atoms any other may run
      ([Threads.ystep]); Threads also has the rely-guarantee logic that
      theorems about all interleavings are proved in, and a scheduler
      ([Threads.schedule]) to evaluate single ones.
    - Reconnect: reclaimTTL and connectLoop of runner.go.
    - Run: Orchestrator.Run of runner.go, its goroutines as a step relation
      ([Run.rstep]) whose steps run the events of Handlers and the iterations
      of Reconnect, up to the value it returns.
    - RelayClient: internal/relayclient/client.go.
    - Qr, Cli, Main: cmd/onlytty/qr.go and main.go; Cli has run and its texts,
      Main the flags, the usage text and the way from the arguments to run.
    - Soak, Harness: cmd/soak/main.go and rss.go; Soak has the Go viewer, one
      pair and the report, Harness its main: the pairs' goroutines, the storm
      and the deadline as a step relation over the shared counters.

    Specifications and theorems about the orchestrator:
    - Access: the abstract machine of who may type (owner, replay floors, spent
      grant), without ciphers, queues, connections or routing labels.
    - Traces, Refine: frame lemmas; the exact effect of each event on the host
      side of the state, the pty and the local terminal.
    - Scenario: the concrete session that the witnesses evaluate.
    - Authority, Invariant, Outbound: the theorems over all runs.
    - Bounds: the routines that index and slice, with accesses that can panic.
    - Interleave: the critical sections of handleBinary, the teardown and
      Revoke as steps of their own, and what their interleavings amount to.
    - Goroutines: the invariant of every world the goroutines of Threads can
      reach, and where each call on the pty comes from; Races: what the order
      of two goroutines' atoms decides.
    - Split: goroutines that each run a critical section and then act on what
      it decided, after the lock is released ([Split.sstep]), for any state and
      any sections; Sizes (SetSize: the size recorded, then the pty's ioctl) is
      its instance.
    - Fanout: a chunk's way from the command to the viewers - the ring written,
      the count read, the queue, the drop mark, the snapshots, the writes, the
      failing ones too, and the connection's end - as steps of their own.
    - Messages: the JSON the runner writes to the relay, read back.
    - Farewell: EXIT and the bye, over Outbound and Run.
    - Whole: Run and Authority put together - every pty call of a run of Run,
      however its goroutines interleave, has a source.

    ** What the theorems show

    - Authority over the pty (Authority): the orchestrator refines Access for
      every sequence of events; only an authentic, fresh frame of the owner
      reaches the pty, and as exactly the call it asks for; replays are inert
      across reconnects; the view-only and once policies hold over whole runs;
      a fresh frame does what it asks for, exactly when it may, and its reply is
      queued; the relay's routing labels carry no authority; the local terminal
      is never cut off.
    - Every interleaving (Atoms, Goroutines, Races): a method whose atoms run
      uninterrupted is the step of Handlers; between any two atoms the viewer
      state, the queues, the counters and the single-sender invariant are well
      formed; every call on the pty was checked for authenticity, freshness and
      control, in this order, by the task that makes it, and a viewer's calls
      have rising numbers; after a revocation only the message whose check came
      before it can still make one; and a grant's reply can overtake the
      revocation of that grant.
    - Concurrency, part by part (Interleave, Sizes, Fanout, Run, Whole):
      interleaved critical sections amount to whole handlers one at a time; the
      one call a revocation can still let through; the reader's sections
      terminate; the recorded size is the pty's while no SetSize records
      between another's record and its ioctl, and a run in which they diverge; a
      viewer that joined misses no output while the sender lives, whatever is
      dropped and repainted meanwhile; a dropped chunk is repaired before
      anything else is said, but the repaint can wait for the next message; a
      sender that stopped writes nothing more; Run, one handler at a time,
      returns the command's exit code or, when told to end or no longer
      sharing, possibly -1; once cancelled it returns within nine steps of its
      own.
    - Between handlers (Invariant): a well-formedness invariant of every
      state; the exit code is the child's; the pty is torn down once.
    - What the relay socket receives (Outbound): strictly increasing sequence
      numbers, the queue in order, what the repaint of a joining viewer says -
      its CONTROL byte is that of the routing id, wrong for the owner; that a
      queued chunk is sent twice around a repaint, that a control reply dropped
      on a full queue is not sent again, and that a repaint sent after a grant
      tells the owner its own control is taken.
    - The end (Farewell): the viewers are told the exit code Run returns, behind
      everything queued before; and output the pump reads after the exit watcher
      has spoken goes out behind the bye, at which the relay closes the session.
    - No panic (Bounds): no message from the relay, no output of the command
      and no payload takes an index or a slice out of range.
    - End to end (Soak): a viewer greeted by the runner takes control and all
      it types reaches the pty, through any relabelling.
    - The load harness (Harness): every pair is accounted for in the counters;
      status 0 means a relay that answered, no leak, and each pair with a
      session or a create that failed with 503 or capacity in its text; the
      harness ends once its deadline has passed.
    - Frames and payloads (StdCrypto, Wire, Messages): Open accepts exactly
      what Seal makes, round trips, exact acceptance, golden vectors, totality
      of DeriveKeys; the relay reads a to_viewer message and a registration as
      what they were made of.
    - Buffers and screen (Ring, Screen): the ring is the tail of the output,
      the snapshot its longest suffix of whole runes; the scanner's index loop
      computes the effect of the chunk's tokens, and loses a toggle that is cut
      by a chunk's end.
    - Deadlines and reconnection (Reconnect): the re-created lifetime is the
      time left, never zero and never an extension; the loop gives up only for
      a cause; the backoff doubles to its cap.
    - Relay and command line (RelayClient, Cli, Main, Qr): https or local http
      only; the secret only in the fragment and never in a request; no command
      without an accepted registration; the exit code, from the arguments to
      the child; the command behind -- taken verbatim, the spellings of a flag
      agreeing, the declared flags in the program's variables with their last
      values or printed defaults, the expiry shown accepted as a --ttl; raw mode
      restored on every path; random texts keep their entropy; the QR art is the
      code.

    ** Conventions

    A Go value with an error is [result]; a machine integer is a [Z] with its
    wrap-around written out ([u64], [u32], [i32], [i64]); a string or a byte
    slice is a list of bytes; a map is a [gmap].  A method of the orchestrator
    is a computation in the state and effect monad [Orch.M], reasoned about
    with its [wp]; a run of the command line is in [Cli.R], which accumulates
    actions and may end with an exit code.  What the code does not decide is an
    input: crypto/rand and select (class [Env]), write outcomes, clocks, HTTP
    answers and handshakes, net/url (class [UrlPackage]).  The laws assumed of
    a parameter are classes with a concrete instance ([PrimitivesLaws] by
    [go_crypto], [EnvLaws] by [demo_env]).

    Fuel: [range_runes] and the JSON quoter take the number of bytes and
    consume at least one per step; the parser of JSON values takes one more
    than the length of its input (a level takes two steps and has two brackets,
    a member or an element one step and a comma or the brackets' share);
    [decimal_digits] takes the binary logarithm, an upper bound of the number
    of digits (proved by [parse_int64_itoa]); [ipv6_groups] takes the eight
    groups of an address; the soak viewer's [reads] takes the number of
    messages; [duration_terms] takes the length of the text, of which a term
    takes at least one byte.  [mark_loop]'s fuel is the chunk's length, and the theorem on
    its tokens holds for every chunk.

    ** What is not modelled

    - The theorems over [Handlers.run] and Run are about handlers run one at a
      time; what interleavings inside a handler add is the subject of
      Goroutines, Races, Interleave, Sizes and Fanout, and theorems about
      [Handlers.run] that interleavings would break are not stated.  In Threads
      a task may be taken up at any time its goroutine is free (also after the
      loops that Run ends), the stores of altScreen within one chunk are one
      atom, so is the body of shutdown (a sync.Once), and an atom that reads an
      immutable field may be one with the critical section behind it.
    - Time passes only in clock events and inputs; sleeps and tickers are the
      order of events.  In Run the operating system decides when the command
      ends and when the other side of the pty is closed, in any order.
    - os/signal, the websocket, pty, term and QR packages, the kernel; the
      texts of the errors of Cli.  The parsing of the load harness's flags (its
      main starts from their values) and the sleeps of its goroutines.
    - The relay (portal/, Elixir), the browser viewer (JavaScript) and the
      deployment files; the relay's messages are arbitrary inputs here.

    ** Plan

    The numbering of frames and the delivery of output in Threads, where Run's
    loops would end as they do in Run; the texts of the command line's errors;
    the load harness's flags through GoFlag. *)
From stdpp Require Export base tactics numbers list gmap strings.
From Stdlib Require Export ZArith Lia.
From Stdlib Require Import Strings.Byte.

(** ** Notations and scopes *)

Abbreviation byte := Byte.byte.
Abbreviation bytes := (list Byte.byte).

(** Literals: the bytes of a string constant of the source (Go strings are
    byte sequences). *)
Definition str (s : string) : bytes := String.list_byte_of_string s.

(** ** Errors: Go's (value, error) pairs *)

Inductive result (E A : Type) : Type :=
| Ok (a : A)
| Err (e : E).
Arguments Ok {E A} a.
Arguments Err {E A} e.

#[export] Instance result_ret {E} : MRet (result E) := fun _ a => Ok a.
#[export] Instance result_bind {E} : MBind (result E) :=
  fun _ _ f m => match m with Ok a => f a | Err e => Err e end.

#[export] Instance result_eq_dec {E A} `{EqDecision E, EqDecision A} :
  EqDecision (result E A).
Proof. solve_decision. Defined.

#[export] Instance Ok_inj {E A} : Inj (=) (=) (@Ok E A).
Proof. by intros a b [=]. Qed.

Definition is_ok {E A} (r : result E A) : bool :=
  match r with Ok _ => true | Err _ => false end.

(** ** Bytes and machine integers *)

#[export] Instance byte_eq_dec : EqDecision byte := Byte.byte_eq_dec.

Definition Z_of_byte (b : byte) : Z := Z.of_N (Byte.to_N b).

Definition byte_of_Z (z : Z) : byte :=
  match Byte.of_N (Z.to_N (z mod 256)) with
  | Some b => b
  | None => Byte.x00
  end.

(** The conversions uint64(z), uint32(z), int32(z) of the source. *)
Definition u64 (z : Z) : Z := z mod 2 ^ 64.
Definition u32 (z : Z) : Z := z mod 2 ^ 32.
Definition i32 (z : Z) : Z := (z + 2 ^ 31) mod 2 ^ 32 - 2 ^ 31.

(** binary.BigEndian.PutUint*: the n bytes of z, most significant first. *)
Fixpoint be_encode (n : nat) (z : Z) : bytes :=
  match n with
  | O => []
  | S k => byte_of_Z (Z.shiftr z (8 * Z.of_nat k)) :: be_encode k z
  end.

(** binary.BigEndian.Uint*: the number those bytes spell. *)
Definition be_decode (l : bytes) : Z :=
  foldl (fun acc b => acc * 256 + Z_of_byte b)%Z 0%Z l.

(** ** Slices *)

(** make([]byte, n) *)
Definition make_bytes (n : nat) : bytes := replicate n Byte.x00.

(** b[i:j] *)
Definition slice {A} (b : list A) (i j : nat) : list A := take (j - i) (drop i b).

(** copy(b[off:], src): as many bytes as fit, the length of b unchanged. *)
Definition copy_at {A} (b : list A) (off : nat) (src : list A) : list A :=
  take off b ++ take (length b - off) src ++ drop (off + length src) b.

(** b[i] of a slice, as a number; 0 out of range, which the source never reads. *)
Definition byte_at (b : bytes) (i : nat) : Z :=
  match b !! i with Some x => Z_of_byte x | None => 0 end.

#[export] Instance byte_countable : Countable byte.
Proof.
  refine (inj_countable Byte.to_N Byte.of_N _).
  intros b. apply Byte.of_to_N.
Defined.

(** ** Lemmas *)

Lemma Z_of_byte_range b : (0 <= Z_of_byte b < 256)%Z.
Proof. unfold Z_of_byte. pose proof (Byte.to_N_bounded b). lia. Qed.

Lemma byte_of_Z_of_byte b : byte_of_Z (Z_of_byte b) = b.
Proof.
  unfold byte_of_Z. pose proof (Z_of_byte_range b).
  rewrite Z.mod_small by done. unfold Z_of_byte.
  by rewrite N2Z.id, Byte.of_to_N.
Qed.

Lemma Z_of_byte_of_Z z : Z_of_byte (byte_of_Z z) = (z mod 256)%Z.
Proof.
  unfold byte_of_Z, Z_of_byte.
  pose proof (Z.mod_pos_bound z 256 ltac:(lia)) as Hr.
  destruct (Byte.of_N _) as [b|] eqn:E.
  - apply Byte.to_of_N in E. rewrite E. lia.
  - apply Byte.of_N_None_iff in E. lia.
Qed.

#[export] Instance Z_of_byte_inj : Inj (=) (=) Z_of_byte.
Proof.
  intros a b H. by rewrite <- (byte_of_Z_of_byte a), H, byte_of_Z_of_byte.
Qed.

Lemma byte_at_range b i : (0 <= byte_at b i < 256)%Z.
Proof. unfold byte_at. case_match; [apply Z_of_byte_range | lia]. Qed.

(** *** Big-endian numbers *)

Lemma length_be_encode n z : length (be_encode n z) = n.
Proof. induction n; csimpl; auto. Qed.

Lemma be_decode_app l b : be_decode (l ++ [b]) = (be_decode l * 256 + Z_of_byte b)%Z.
Proof. unfold be_decode. by rewrite foldl_app. Qed.

Lemma be_fold_acc l acc :
  foldl (fun acc b => acc * 256 + Z_of_byte b)%Z acc l
  = (acc * 2 ^ (8 * Z.of_nat (length l)) + be_decode l)%Z.
Proof.
  unfold be_decode. revert acc. induction l as [|b l IH]; intros acc; simpl foldl.
  - simpl length. change (2 ^ (8 * Z.of_nat 0))%Z with 1%Z. lia.
  - rewrite IH, (IH (0 * 256 + _)%Z). csimpl.
    replace (8 * Z.of_nat (S (length l)))%Z with (8 + 8 * Z.of_nat (length l))%Z by lia.
    rewrite Z.pow_add_r by lia. change (2 ^ 8)%Z with 256%Z. ring.
Qed.

Lemma be_decode_cons b l :
  be_decode (b :: l) = (Z_of_byte b * 2 ^ (8 * Z.of_nat (length l)) + be_decode l)%Z.
Proof. unfold be_decode at 1. simpl foldl. rewrite be_fold_acc. lia. Qed.

Lemma be_decode_range l : (0 <= be_decode l < 2 ^ (8 * Z.of_nat (length l)))%Z.
Proof.
  induction l as [|b l IH]; [done|].
  rewrite be_decode_cons. csimpl. pose proof (Z_of_byte_range b) as Hb.
  replace (8 * Z.of_nat (S (length l)))%Z with (8 + 8 * Z.of_nat (length l))%Z by lia.
  rewrite Z.pow_add_r by lia. change (2 ^ 8)%Z with 256%Z. nia.
Qed.

Lemma be_decode_encode n z :
  be_decode (be_encode n z) = (z mod 2 ^ (8 * Z.of_nat n))%Z.
Proof.
  induction n as [|n IH]; [by rewrite Z.mod_1_r|].
  simpl be_encode. rewrite be_decode_cons, length_be_encode, IH, Z_of_byte_of_Z.
  set (k := (8 * Z.of_nat n)%Z).
  replace (8 * Z.of_nat (S n))%Z with (k + 8)%Z by lia.
  rewrite Z.shiftr_div_pow2, Z.pow_add_r by lia.
  change (2 ^ 8)%Z with 256%Z. rewrite Z.rem_mul_r by lia. ring.
Qed.

Lemma be_decode_encode_id n z :
  (0 <= z < 2 ^ (8 * Z.of_nat n))%Z -> be_decode (be_encode n z) = z.
Proof. intros. rewrite be_decode_encode. by apply Z.mod_small. Qed.

Lemma be_decode_inj l1 l2 :
  length l1 = length l2 -> be_decode l1 = be_decode l2 -> l1 = l2.
Proof.
  revert l2. induction l1 as [|b l1 IH]; intros [|c l2] Hlen; csimpl; try done.
  injection Hlen as Hlen. rewrite !be_decode_cons, Hlen. intros Heq.
  pose proof (be_decode_range l1) as H1. pose proof (be_decode_range l2) as H2.
  rewrite Hlen in H1.
  set (m := (2 ^ _)%Z) in *.
  assert (Z_of_byte b = Z_of_byte c) as Hbc by nia.
  apply (inj Z_of_byte) in Hbc as ->. f_equal. apply IH; [done|lia].
Qed.

Lemma be_encode_decode n l : length l = n -> be_encode n (be_decode l) = l.
Proof.
  intros <-. apply be_decode_inj; [apply length_be_encode|].
  apply be_decode_encode_id, be_decode_range.
Qed.

Lemma be_encode_mod n z : be_encode n (z mod 2 ^ (8 * Z.of_nat n)) = be_encode n z.
Proof.
  apply be_decode_inj; [by rewrite !length_be_encode|].
  rewrite !be_decode_encode. apply Z.mod_mod. lia.
Qed.

(** *** Slices and copies *)

Lemma length_make_bytes n : length (make_bytes n) = n.
Proof. apply length_replicate. Qed.

Lemma length_slice {A} (b : list A) i j :
  i <= j <= length b -> length (slice b i j) = j - i.
Proof. intros. unfold slice. rewrite length_take, length_drop. lia. Qed.

Lemma length_copy_at {A} (b : list A) off src :
  off <= length b -> length (copy_at b off src) = length b.
Proof.
  intros. unfold copy_at. rewrite !length_app, !length_take, length_drop. lia.
Qed.

(** Filling a buffer piece by piece: a copy that fits exactly behind what has
    been written extends the written prefix. *)
Lemma copy_at_prefix {A} (pre rest src : list A) :
  length src <= length rest ->
  copy_at (pre ++ rest) (length pre) src = (pre ++ src) ++ drop (length src) rest.
Proof.
  intros Hfit. unfold copy_at. rewrite take_app_length, length_app.
  rewrite (take_ge src) by lia.
  rewrite drop_app_ge by lia.
  replace (_ + _ - _) with (length src) by lia. by rewrite (assoc_L (++)).
Qed.

Lemma copy_at_start {A} (rest src : list A) :
  length src <= length rest ->
  copy_at rest 0 src = src ++ drop (length src) rest.
Proof. apply (copy_at_prefix []). Qed.

Lemma slice_app_mid {A} (l k m : list A) i j :
  length l = i -> i + length k = j -> slice (l ++ k ++ m) i j = k.
Proof.
  intros <- <-. unfold slice. rewrite drop_app_length.
  replace (_ + _ - _) with (length k) by lia. apply take_app_length.
Qed.
Lemma slice_app_start {A} (k m : list A) j : length k = j -> slice (k ++ m) 0 j = k.
Proof. intros. by apply (slice_app_mid []). Qed.

(** Reading a list at an index, through the suffix that starts there. *)
Lemma drop_cons_lookup {A} (l : list A) i x k :
  drop i l = x :: k -> l !! i = Some x /\ drop (i + 1) l = k /\ i < length l.
Proof.
  intros H. assert (l !! i = Some x) as Hx.
  { replace i with (i + 0) by lia. rewrite <- lookup_drop, H. done. }
  split_and!; [done| |by eapply lookup_lt_Some].
  rewrite (drop_S l x i Hx) in H. injection H as H. by rewrite Nat.add_1_r.
Qed.

Lemma drop_nil_length {A} (l : list A) i : drop i l = [] -> length l <= i.
Proof. intros H. apply (f_equal length) in H. rewrite length_drop in H. simpl in H. lia. Qed.

Lemma filter_Forall_id {A} (P : A -> Prop) `{forall x, Decision (P x)} (l : list A) :
  Forall P l -> filter P l = l.
Proof. induction 1; [done|]. rewrite filter_cons_True by done. by f_equal. Qed.

(** A sum over a list with one element replaced. *)
Lemma sum_list_with_insert {A} (f : A -> nat) l i x y :
  l !! i = Some x -> sum_list_with f (<[ i := y ]> l) + f x = sum_list_with f l + f y.
Proof.
  intros Hi. rewrite insert_take_drop by (by eapply lookup_lt_Some).
  rewrite <- (take_drop_middle _ _ _ Hi) at 3. rewrite !sum_list_with_app. simpl. lia.
Qed.

Create HintDb wire.

Arguments slice : simpl never.
Arguments copy_at : simpl never.
Arguments be_encode : simpl never.
Arguments be_decode : simpl never.
