(* ===== verification/Wire.v ===== *)
(** * Wire: the message kinds, payload codecs and viewer envelopes

    Models runner/internal/protocol/wire.go.  Every encoder and decoder of the
    file is a definition here, with the buffer it fills and the slices it reads
    written as the code writes them.  The lemmas are the round trips, the exact
    set of inputs a decoder accepts, and the error each other input gives. *)
From S2P Require Import Prelude.
From Stdlib Require Import Strings.Byte.

(** ** Message kinds and control states *)

Definition KindHello : byte := x01.
Definition KindOutput : byte := x02.
Definition KindExit : byte := x03.
Definition KindControl : byte := x04.

Definition KindInput : byte := x10.
Definition KindResize : byte := x11.
Definition KindCtrlReq : byte := x12.
Definition KindCtrlRel : byte := x13.

Definition ControlReadOnly : byte := x00.
Definition ControlGranted : byte := x01.
Definition ControlTaken : byte := x02.

Inductive wire_error := errShortPayload | errBadPayload.

#[export] Instance wire_error_eq_dec : EqDecision wire_error.
Proof. solve_decision. Defined.

Definition viewerPayloadMagic : bytes := str "OVP1".
Definition relayViewerMagic : bytes := str "OTV1".

(** ** HELLO, RESIZE and EXIT payloads *)

Definition EncodeHello (baseline cols rows : Z) : bytes :=
  let b := make_bytes 12 in
  let b := copy_at b 0 (be_encode 8 baseline) in
  let b := copy_at b 8 (be_encode 2 cols) in
  copy_at b 10 (be_encode 2 rows).

Definition DecodeHello (b : bytes) : result wire_error (Z * Z * Z) :=
  if decide (length b < 12) then Err errShortPayload
  else Ok (be_decode (slice b 0 8), be_decode (slice b 8 10), be_decode (slice b 10 12)).

Definition EncodeResize (cols rows : Z) : bytes :=
  let b := make_bytes 4 in
  let b := copy_at b 0 (be_encode 2 cols) in
  copy_at b 2 (be_encode 2 rows).

Definition DecodeResize (b : bytes) : result wire_error (Z * Z) :=
  if decide (length b < 4) then Err errShortPayload
  else Ok (be_decode (slice b 0 2), be_decode (slice b 2 4)).

Definition EncodeExit (code : Z) : bytes :=
  copy_at (make_bytes 4) 0 (be_encode 4 (u32 code)).

Definition DecodeExit (b : bytes) : result wire_error Z :=
  if decide (length b < 4) then Err errShortPayload
  else Ok (i32 (be_decode (slice b 0 4))).

(** ** The viewer envelopes

    EncodeViewerPayload / DecodeViewerPayload and EncodeRelayViewerFrame /
    DecodeRelayViewerFrame are the same code over two magics; the code is
    translated once, over the magic, and instantiated for each pair. *)
Section Envelope.
Context (magic : bytes).

Definition encode_envelope (viewerID payload : bytes) : bytes :=
  let viewerID :=
    if decide (255 < length viewerID) then slice viewerID 0 255 else viewerID in
  let b := make_bytes (length magic + 1 + length viewerID + length payload) in
  let b := copy_at b 0 magic in
  let b := copy_at b (length magic) [byte_of_Z (Z.of_nat (length viewerID))] in
  let b := copy_at b (length magic + 1) viewerID in
  copy_at b (length magic + 1 + length viewerID) payload.

Definition decode_envelope (b : bytes) : result wire_error (bytes * bytes) :=
  if decide (length b < length magic \/ slice b 0 (length magic) <> magic)
  then Err errBadPayload
  else if decide (length b < length magic + 1) then Err errShortPayload
  else
    let n := Z.to_nat (byte_at b (length magic)) in
    if decide (n = 0) then Err errBadPayload
    else
      let start := length magic + 1 in
      if decide (length b < start + n) then Err errShortPayload
      else Ok (slice b start (start + n), drop (start + n) b).

End Envelope.

Definition EncodeViewerPayload : bytes -> bytes -> bytes :=
  encode_envelope viewerPayloadMagic.
Definition DecodeViewerPayload : bytes -> result wire_error (bytes * bytes) :=
  decode_envelope viewerPayloadMagic.

Definition EncodeRelayViewerFrame : bytes -> bytes -> bytes :=
  encode_envelope relayViewerMagic.
Definition DecodeRelayViewerFrame : bytes -> result wire_error (bytes * bytes) :=
  decode_envelope relayViewerMagic.

(** The ids an envelope can carry: one length byte, and never empty. *)
Definition valid_id (v : bytes) : Prop := 1 <= length v <= 255.

#[export] Instance valid_id_dec v : Decision (valid_id v).
Proof. unfold valid_id. apply _. Defined.

(** ** Closed forms of the encoders *)

Lemma EncodeHello_app baseline cols rows :
  EncodeHello baseline cols rows = be_encode 8 baseline ++ be_encode 2 cols ++ be_encode 2 rows.
Proof. reflexivity. Qed.

Lemma EncodeResize_app cols rows :
  EncodeResize cols rows = be_encode 2 cols ++ be_encode 2 rows.
Proof. reflexivity. Qed.

Lemma EncodeExit_app code : EncodeExit code = be_encode 4 (u32 code).
Proof. reflexivity. Qed.

Section EnvelopeFacts.
Context (magic : bytes).

Lemma encode_envelope_app v p :
  encode_envelope magic v p =
    magic ++ byte_of_Z (Z.of_nat (length (take 255 v))) :: take 255 v ++ p.
Proof.
  unfold encode_envelope.
  assert ((if decide (255 < length v) then slice v 0 255 else v) = take 255 v) as ->.
  { case_decide; [done|]. by rewrite take_ge by lia. }
  set (w := take 255 v). unfold make_bytes.
  rewrite !replicate_add, <- !(assoc_L (++)).
  rewrite copy_at_start by (rewrite ?length_app, ?length_replicate; simpl; lia).
  rewrite drop_app_length' by (by rewrite length_replicate). simpl app at 1.
  rewrite copy_at_prefix by (simpl; lia). simpl length. simpl drop. rewrite drop_0.
  replace (length magic + 1) with (length (magic ++ [byte_of_Z (Z.of_nat (length w))]))
    by (rewrite length_app; done).
  rewrite copy_at_prefix by (rewrite ?length_app, ?length_replicate; simpl; lia).
  rewrite drop_app_length' by (by rewrite length_replicate).
  rewrite <- length_app.
  rewrite <- (app_nil_r (replicate (length p) _)).
  rewrite copy_at_prefix by (rewrite ?length_app, ?length_replicate; simpl; lia).
  rewrite drop_app_length' by (by rewrite length_replicate).
  by rewrite app_nil_r, <- !(assoc_L (++)).
Qed.

Lemma decode_envelope_app v p :
  valid_id v ->
  decode_envelope magic (magic ++ byte_of_Z (Z.of_nat (length v)) :: v ++ p) = Ok (v, p).
Proof.
  intros [Hlo Hhi]. unfold decode_envelope.
  rewrite !length_app. csimpl. rewrite length_app.
  rewrite decide_False; last first.
  { intros [?|Hne]; [lia|]. apply Hne. unfold slice. rewrite drop_0, Nat.sub_0_r.
    apply take_app_length. }
  rewrite decide_False by lia.
  assert (byte_at (magic ++ byte_of_Z (Z.of_nat (length v)) :: v ++ p) (length magic)
          = Z.of_nat (length v)) as ->.
  { unfold byte_at. rewrite list_lookup_middle by done.
    rewrite Z_of_byte_of_Z. apply Z.mod_small. lia. }
  rewrite Nat2Z.id, decide_False by lia. rewrite decide_False by lia.
  rewrite cons_middle, (assoc_L (++)).
  rewrite slice_app_mid by (rewrite ?length_app; simpl; lia).
  rewrite (assoc_L (++)), drop_app_length' by (rewrite !length_app; simpl; lia).
  done.
Qed.

(** The decoder accepts exactly the well-formed envelopes. *)
Lemma decode_envelope_Ok b v p :
  decode_envelope magic b = Ok (v, p) <->
  valid_id v /\ b = magic ++ byte_of_Z (Z.of_nat (length v)) :: v ++ p.
Proof.
  split; [|intros [? ->]; by apply decode_envelope_app].
  unfold decode_envelope. repeat case_decide; try done.
  intros [= <- <-].
  match goal with H : ~ (_ \/ _) |- _ => apply Decidable.not_or in H as [Hl Hm] end.
  apply dec_stable in Hm. set (n := Z.to_nat _) in *.
  assert (Hn : n <= 255).
  { subst n. pose proof (byte_at_range b (length magic)). lia. }
  assert (Hsl : length (slice b (length magic + 1) (length magic + 1 + n)) = n)
    by (rewrite length_slice; lia).
  split; [unfold valid_id; rewrite Hsl; lia|]. rewrite Hsl.
  assert (byte_of_Z (Z.of_nat n) = default x00 (b !! length magic)) as ->.
  { subst n. unfold byte_at. case_match eqn:Hb; simpl.
    - rewrite Z2Nat.id by apply Z_of_byte_range. apply byte_of_Z_of_byte.
    - by apply lookup_ge_None in Hb. }
  rewrite <- Hm at 1. unfold slice. rewrite drop_0, Nat.sub_0_r.
  rewrite <- (take_drop (length magic) b) at 1. f_equal.
  destruct (lookup_lt_is_Some_2 b (length magic)) as [x Hx]; [lia|].
  rewrite Hx; simpl. rewrite (drop_S _ x) by done. f_equal.
  replace (_ + _ - _) with n by lia.
  rewrite Nat.add_1_r, <- (drop_drop b n (S (length magic))). by rewrite take_drop.
Qed.

(** What each rejected input gets.  [errBadPayload]: the magic is missing, or
    the id is declared empty. *)
Lemma decode_envelope_bad b :
  decode_envelope magic b = Err errBadPayload <->
  take (length magic) b <> magic \/
  (length magic < length b /\ byte_at b (length magic) = 0%Z).
Proof.
  unfold decode_envelope, slice. rewrite drop_0, Nat.sub_0_r.
  pose proof (byte_at_range b (length magic)) as Hr.
  assert (length b < length magic -> take (length magic) b <> magic) as Hshort.
  { intros Hlt Heq. apply (f_equal length) in Heq. rewrite length_take in Heq. lia. }
  repeat case_decide; intuition (congruence || lia).
Qed.

End EnvelopeFacts.

(** An encoder's output, read back: the id cut to its first 255 bytes. *)
Lemma decode_encode_envelope magic v p :
  v <> [] -> decode_envelope magic (encode_envelope magic v p) = Ok (take 255 v, p).
Proof.
  intros Hv. rewrite encode_envelope_app. apply decode_envelope_app.
  unfold valid_id. rewrite length_take. destruct v; [done|]. simpl length. lia.
Qed.

Lemma decode_encode_envelope_nil magic p :
  decode_envelope magic (encode_envelope magic [] p) = Err errBadPayload.
Proof.
  apply decode_envelope_bad. right. rewrite encode_envelope_app. split.
  - rewrite length_app. simpl. lia.
  - unfold byte_at. by rewrite list_lookup_middle by done.
Qed.

(** Ids the decoder returns are never empty; the control code relies on it. *)
Lemma DecodeViewerPayload_valid b v p :
  DecodeViewerPayload b = Ok (v, p) -> valid_id v.
Proof. by intros [? _]%decode_envelope_Ok. Qed.

Lemma DecodeRelayViewerFrame_valid b v p :
  DecodeRelayViewerFrame b = Ok (v, p) -> valid_id v.
Proof. by intros [? _]%decode_envelope_Ok. Qed.

(** On the ids it accepts, decoding is exactly the inverse of encoding. *)
Lemma decode_envelope_encode magic b v p :
  decode_envelope magic b = Ok (v, p) <-> valid_id v /\ b = encode_envelope magic v p.
Proof.
  rewrite decode_envelope_Ok. split; intros [Hv ->]; (split; [done|]);
    destruct Hv; by rewrite encode_envelope_app, take_ge by lia.
Qed.

Lemma valid_id_nonempty v : valid_id v -> v <> [].
Proof. intros [? _] ->. simpl in *. lia. Qed.
#[export] Hint Resolve DecodeViewerPayload_valid DecodeRelayViewerFrame_valid
  valid_id_nonempty : wire.

Lemma DecodeResize_range b cols rows :
  DecodeResize b = Ok (cols, rows) -> (0 <= cols < 2 ^ 16 /\ 0 <= rows < 2 ^ 16)%Z.
Proof.
  unfold DecodeResize. case_decide as Hlen; [done|]. intros [= <- <-].
  pose proof (be_decode_range (slice b 0 2)) as H1.
  pose proof (be_decode_range (slice b 2 4)) as H2.
  rewrite length_slice in H1, H2 by lia. exact (conj H1 H2).
Qed.

(** A HELLO read back, whatever follows it. *)
Lemma DecodeHello_EncodeHello baseline cols rows tail :
  (0 <= baseline < 2 ^ 64)%Z -> (0 <= cols < 2 ^ 16)%Z -> (0 <= rows < 2 ^ 16)%Z ->
  DecodeHello (EncodeHello baseline cols rows ++ tail) = Ok (baseline, cols, rows).
Proof.
  intros Hb Hc Hr. rewrite EncodeHello_app, <- !(assoc_L (++)). unfold DecodeHello.
  rewrite !length_app, !length_be_encode, decide_False by lia.
  rewrite slice_app_start, slice_app_mid by (rewrite ?length_be_encode; done).
  rewrite (assoc_L (++)), slice_app_mid by (rewrite ?length_app, ?length_be_encode; done).
  by rewrite !be_decode_encode_id.
Qed.

(** ** Properties *)

(** HELLO, RESIZE and EXIT payloads survive the wire: decoding what the
    encoder built gives back every field, for every value of the fields' Go
    types, whatever bytes follow. *)
Theorem numeric_payloads_roundtrip baseline cols rows code tail :
  (0 <= baseline < 2 ^ 64)%Z -> (0 <= cols < 2 ^ 16)%Z -> (0 <= rows < 2 ^ 16)%Z ->
  (- 2 ^ 31 <= code < 2 ^ 31)%Z ->
  DecodeHello (EncodeHello baseline cols rows ++ tail) = Ok (baseline, cols, rows) /\
  DecodeResize (EncodeResize cols rows ++ tail) = Ok (cols, rows) /\
  DecodeExit (EncodeExit code ++ tail) = Ok code.
Proof.
  intros Hb Hc Hr Hcode.
  split; [by apply DecodeHello_EncodeHello|].
  rewrite EncodeResize_app, EncodeExit_app, <- !(assoc_L (++)).
  unfold DecodeResize, DecodeExit. rewrite !length_app, !length_be_encode.
  rewrite !decide_False by lia. split.
  - rewrite slice_app_start, slice_app_mid by
      (rewrite ?length_be_encode; done).
    by rewrite !be_decode_encode_id.
  - rewrite slice_app_start by (rewrite ?length_be_encode; done).
    rewrite be_decode_encode. unfold u32, i32. f_equal. Z.div_mod_to_equations; lia.
Qed.

Lemma numeric_payloads_roundtrip_witness :
  DecodeExit (EncodeExit (-1) ++ str "x") = Ok (-1)%Z.
Proof. apply (numeric_payloads_roundtrip 7 120 40 (-1) (str "x")); done. Defined.

(** Both viewer envelopes are decoded exactly: the decoder returns an id
    and a payload if and only if the frame is the magic, a length byte, an id
    of that length (1 to 255 bytes) and the payload.  No other bytes are
    accepted, and an accepted frame has one reading. *)
Theorem envelopes_decode_exactly b v p :
  (DecodeViewerPayload b = Ok (v, p) <->
     valid_id v /\ b = str "OVP1" ++ byte_of_Z (Z.of_nat (length v)) :: v ++ p) /\
  (DecodeRelayViewerFrame b = Ok (v, p) <->
     valid_id v /\ b = str "OTV1" ++ byte_of_Z (Z.of_nat (length v)) :: v ++ p).
Proof. split; apply decode_envelope_Ok. Qed.

(** Encoding then decoding an envelope gives the payload and the id, the id
    cut to its first 255 bytes; with an empty id the frame is rejected as a bad
    payload. *)
Theorem envelopes_roundtrip v p :
  DecodeViewerPayload (EncodeViewerPayload v p) =
    (if decide (v = []) then Err errBadPayload else Ok (take 255 v, p)) /\
  DecodeRelayViewerFrame (EncodeRelayViewerFrame v p) =
    (if decide (v = []) then Err errBadPayload else Ok (take 255 v, p)).
Proof.
  split; (case_decide as Hv; [subst; apply decode_encode_envelope_nil
                             | by apply decode_encode_envelope]).
Qed.
