(* ===== verification/Utf8.v ===== *)
(** * Utf8: the runes of Go's strings

    The part of Go's unicode/utf8 the program relies on: [EncodeRune] is what
    utf8.EncodeRune and strings.Builder.WriteRune append, [DecodeRune] what one
    step of a range loop over a string reads, [string_runes] the whole loop.
    Used by the ring's rune alignment (Ring), the link banner's grouping (Cli)
    and the quoting of relay control messages (Json). *)
From S2P Require Import Prelude.
From Stdlib Require Import Strings.Byte.
Local Open Scope Z_scope.

Definition RuneError : Z := 0xFFFD.

(** A Unicode scalar value: what a rune of valid text is. *)
Definition valid_rune (r : Z) : Prop :=
  0 <= r <= 0x10FFFF /\ ~ (0xD800 <= r <= 0xDFFF).

#[export] Instance valid_rune_dec r : Decision (valid_rune r).
Proof. unfold valid_rune. apply _. Defined.

Definition EncodeRune (r : Z) : bytes :=
  let r := if decide (valid_rune r) then r else RuneError in
  if decide (r <= 0x7F) then [byte_of_Z r]
  else if decide (r <= 0x7FF) then
    [byte_of_Z (0xC0 + r / 64); byte_of_Z (0x80 + r mod 64)]
  else if decide (r <= 0xFFFF) then
    [byte_of_Z (0xE0 + r / 4096); byte_of_Z (0x80 + r / 64 mod 64);
     byte_of_Z (0x80 + r mod 64)]
  else
    [byte_of_Z (0xF0 + r / 262144); byte_of_Z (0x80 + r / 4096 mod 64);
     byte_of_Z (0x80 + r / 64 mod 64); byte_of_Z (0x80 + r mod 64)].

(** The range the second byte must fall in, by first byte, with the number of
    bytes of the rune; [None] for a byte no rune starts with. *)
Definition accept_range (b0 : Z) : option (nat * Z * Z) :=
  if decide (0xC2 <= b0 <= 0xDF) then Some (2%nat, 0x80, 0xBF)
  else if decide (b0 = 0xE0) then Some (3%nat, 0xA0, 0xBF)
  else if decide (b0 = 0xED) then Some (3%nat, 0x80, 0x9F)
  else if decide (0xE1 <= b0 <= 0xEF) then Some (3%nat, 0x80, 0xBF)
  else if decide (b0 = 0xF0) then Some (4%nat, 0x90, 0xBF)
  else if decide (0xF1 <= b0 <= 0xF3) then Some (4%nat, 0x80, 0xBF)
  else if decide (b0 = 0xF4) then Some (4%nat, 0x80, 0x8F)
  else None.

Definition cont (b : byte) : Prop := 0x80 <= Z_of_byte b <= 0xBF.

#[export] Instance cont_dec b : Decision (cont b).
Proof. unfold cont. apply _. Defined.

(** One rune off the front: the rune and its width; an invalid first byte gives
    [RuneError] of width 1, the empty string [RuneError] of width 0. *)
Definition DecodeRune (p : bytes) : Z * nat :=
  match p with
  | [] => (RuneError, 0%nat)
  | c0 :: rest =>
    let b0 := Z_of_byte c0 in
    if decide (b0 < 0x80) then (b0, 1%nat)
    else
      match accept_range b0, rest with
      | Some (n, lo, hi), c1 :: rest =>
        let b1 := Z_of_byte c1 in
        if decide (lo <= b1 <= hi) then
          match n, rest with
          | 2%nat, _ => (b0 mod 32 * 64 + b1 mod 64, 2%nat)
          | 3%nat, c2 :: _ =>
            if decide (cont c2)
            then (b0 mod 16 * 4096 + b1 mod 64 * 64 + Z_of_byte c2 mod 64, 3%nat)
            else (RuneError, 1%nat)
          | 4%nat, c2 :: c3 :: _ =>
            if decide (cont c2 /\ cont c3)
            then (b0 mod 8 * 262144 + b1 mod 64 * 4096 + Z_of_byte c2 mod 64 * 64
                    + Z_of_byte c3 mod 64, 4%nat)
            else (RuneError, 1%nat)
          | _, _ => (RuneError, 1%nat)
          end
        else (RuneError, 1%nat)
      | _, _ => (RuneError, 1%nat)
      end
  end.

(** for i, r := range s: the byte offset and the rune of each step.  The fuel
    is the number of bytes, and each step consumes at least one. *)
Fixpoint range_runes (fuel : nat) (i : nat) (s : bytes) : list (nat * Z) :=
  match fuel, s with
  | S fuel, _ :: _ =>
    let '(r, w) := DecodeRune s in (i, r) :: range_runes fuel (i + w) (drop w s)
  | _, _ => []
  end.
Definition string_runes (s : bytes) : list (nat * Z) := range_runes (length s) 0 s.

(** The bytes of a text. *)
Definition encode_runes (rs : list Z) : bytes := rs ≫= EncodeRune.
Arguments encode_runes : simpl never.
Arguments EncodeRune : simpl never.

(** unicode.IsSpace *)
Definition IsSpace (r : Z) : bool :=
  bool_decide (9 <= r <= 13 \/ r = 32 \/ r = 0x85 \/ r = 0xA0 \/ r = 0x1680 \/
               0x2000 <= r <= 0x200A \/ r = 0x2028 \/ r = 0x2029 \/ r = 0x202F \/
               r = 0x205F \/ r = 0x3000)%Z.

(** bytes.TrimSpace: from the first rune that is no space to the last. *)
Definition TrimSpace (s : bytes) : bytes :=
  let rs := filter (fun ir => IsSpace ir.2 = false) (string_runes s) in
  match head rs, last rs with
  | Some (i, _), Some (j, _) => slice s i (j + (DecodeRune (drop j s)).2)
  | _, _ => []
  end.

Example string_runes_euro :
  string_runes (str "a€b") = [(0%nat, 97); (1%nat, 0x20AC); (4%nat, 98)].
Proof. reflexivity. Qed.

(** ** Lemmas *)

Lemma Z_of_byte_small z : 0 <= z < 256 -> Z_of_byte (byte_of_Z z) = z.
Proof. intros. rewrite Z_of_byte_of_Z. by apply Z.mod_small. Qed.

(** Every rune is a byte no continuation can be, then at most three
    continuation bytes. *)
Lemma EncodeRune_shape r :
  exists b cs, EncodeRune r = b :: cs /\ ~ cont b /\ Forall cont cs /\ (length cs <= 3)%nat.
Proof.
  unfold EncodeRune. set (r' := if decide _ then r else RuneError).
  assert (valid_rune r') as [Hr Hs].
  { subst r'. case_decide; [done|]. unfold valid_rune, RuneError. lia. }
  clearbody r'. unfold cont.
  repeat case_decide; (do 2 eexists; split_and!; [reflexivity| | |simpl; lia]);
    rewrite ?Forall_cons, ?Z_of_byte_small by (Z.div_mod_to_equations; lia);
    repeat split; rewrite ?Z_of_byte_small; try constructor; Z.div_mod_to_equations; lia.
Qed.

Lemma EncodeRune_cons r : exists b cs, EncodeRune r = b :: cs.
Proof. destruct (EncodeRune_shape r) as (b & cs & -> & _). eauto. Qed.

Lemma cont_tail x : cont (byte_of_Z (0x80 + x mod 64)).
Proof.
  unfold cont. rewrite Z_of_byte_small; Z.div_mod_to_equations; lia.
Qed.

Lemma tail_mod x : (0x80 + x mod 64) mod 64 = x mod 64.
Proof. Z.div_mod_to_equations; lia. Qed.

(** Evaluates [DecodeRune] on bytes given by their numbers. *)
Ltac decode_rune_step :=
  unfold accept_range;
  repeat rewrite (decide_True _ _ (cont_tail _));
  repeat rewrite (decide_True _ _ (conj (cont_tail _) (cont_tail _)));
  repeat rewrite Z_of_byte_small by (Z.div_mod_to_equations; lia);
  repeat (case_decide; try (exfalso; Z.div_mod_to_equations; lia));
  rewrite ?tail_mod.

Lemma DecodeRune_EncodeRune r tail :
  valid_rune r -> DecodeRune (EncodeRune r ++ tail) = (r, length (EncodeRune r)).
Proof.
  intros Hr. unfold EncodeRune. rewrite (decide_True _ _ Hr). destruct Hr as [Hr Hs].
  destruct (decide (r <= 0x7F)); [|destruct (decide (r <= 0x7FF));
    [|destruct (decide (r <= 0xFFFF))]]; simpl; decode_rune_step;
    f_equal; Z.div_mod_to_equations; lia.
Qed.

Lemma encode_runes_cons r rs : encode_runes (r :: rs) = EncodeRune r ++ encode_runes rs.
Proof. reflexivity. Qed.

(** Reading a text back: a range loop over the bytes of valid runes yields
    those runes. *)
Lemma string_runes_encode rs :
  Forall valid_rune rs -> (string_runes (encode_runes rs)).*2 = rs.
Proof.
  intros Hv. unfold string_runes. generalize 0%nat at 1 as i.
  assert (length (encode_runes rs) <= length (encode_runes rs))%nat as Hf by lia.
  revert Hf. generalize (length (encode_runes rs)) at 2 3 as fuel. intros fuel.
  revert fuel. induction Hv as [|r rs Hr _ IH]; intros fuel Hf i; [by destruct fuel|].
  rewrite encode_runes_cons in *. destruct (EncodeRune_cons r) as (b & cs & E).
  rewrite length_app in Hf. rewrite E in Hf. destruct fuel as [|fuel]; [simpl in Hf; lia|].
  pose proof (DecodeRune_EncodeRune r (encode_runes rs) Hr) as Hd. rewrite E in Hd |- *.
  cbn [app range_runes] in Hd |- *. rewrite Hd. csimpl. f_equal.
  change (b :: cs ++ encode_runes rs) with ((b :: cs) ++ encode_runes rs).
  rewrite drop_app_length. apply IH. simpl in Hf. lia.
Qed.

(** ** One-byte runes *)

(** A text of one-byte runes. *)
Definition ascii (t : bytes) : Prop := Forall (fun c => Z_of_byte c < 128) t.

Lemma DecodeRune_ascii c t : (Z_of_byte c < 128) -> DecodeRune (c :: t) = (Z_of_byte c, 1%nat).
Proof. intros H. unfold DecodeRune. by rewrite decide_True by lia. Qed.

Lemma EncodeRune_ascii c : (Z_of_byte c < 128) -> EncodeRune (Z_of_byte c) = [c].
Proof.
  intros H. pose proof (Z_of_byte_range c). unfold EncodeRune, valid_rune.
  rewrite (decide_True (P := (_ /\ _))) by lia. rewrite decide_True by lia.
  by rewrite byte_of_Z_of_byte.
Qed.

(** Go's coercion of bytes to valid UTF-8, invalid bytes becoming U+FFFD. *)
Definition to_valid (s : bytes) : bytes := encode_runes (string_runes s).*2.

Lemma range_runes_ascii s i fuel :
  ascii s -> (length s <= fuel)%nat -> encode_runes (range_runes fuel i s).*2 = s.
Proof.
  intros Hs. revert i fuel. induction Hs as [|c s Hc Hs IH]; intros i fuel Hf; [by destruct fuel|].
  destruct fuel as [|fuel]; [simpl in Hf; lia|]. cbn [range_runes].
  rewrite DecodeRune_ascii by done. rewrite fmap_cons, encode_runes_cons. cbn [snd].
  rewrite EncodeRune_ascii by done. change (drop 1 (c :: s)) with (drop 0 s).
  rewrite drop_0, IH by (simpl in Hf; lia). done.
Qed.

Lemma to_valid_ascii s : ascii s -> to_valid s = s.
Proof. intros. by apply range_runes_ascii. Qed.

(** Valid text is not changed. *)
Lemma to_valid_encode rs : Forall valid_rune rs -> to_valid (encode_runes rs) = encode_runes rs.
Proof. intros. unfold to_valid. by rewrite string_runes_encode. Qed.

(** A rune that decodes reads only its own bytes. *)
Lemma DecodeRune_local c s r w k :
  DecodeRune (c :: s) = (r, w) -> ~ (r = RuneError /\ w = 1%nat) ->
  DecodeRune (take w (c :: s) ++ k) = (r, w) /\ (1 <= w <= length (c :: s))%nat.
Proof.
  unfold DecodeRune. intros H Hne.
  destruct (decide (Z_of_byte c < 0x80)) as [Hc|Hc].
  { injection H as <- <-. simpl. rewrite decide_True by done. split; [done|lia]. }
  destruct (accept_range (Z_of_byte c)) as [[[n lo] hi]|] eqn:Ha;
    [|injection H as <- <-; by destruct Hne].
  destruct s as [|c1 s]; [injection H as <- <-; by destruct Hne|].
  destruct (decide (lo <= Z_of_byte c1 <= hi)) as [H1|]; [|injection H as <- <-; by destruct Hne].
  assert (n = 2 \/ n = 3 \/ n = 4)%nat as Hn.
  { revert Ha. unfold accept_range. repeat case_decide; intros [= <- _ _]; auto. }
  destruct Hn as [->|[->| ->]].
  - injection H as <- <-. simpl. rewrite decide_False, Ha, decide_True by done. split; [done|lia].
  - destruct s as [|c2 s]; [injection H as <- <-; by destruct Hne|].
    destruct (decide (cont c2)) as [H2|]; [|injection H as <- <-; by destruct Hne].
    injection H as <- <-. simpl. rewrite decide_False, Ha, !decide_True by done. split; [done|lia].
  - destruct s as [|c2 [|c3 s]]; try (injection H as <- <-; by destruct Hne).
    destruct (decide (cont c2 /\ cont c3)) as [H2|]; [|injection H as <- <-; by destruct Hne].
    injection H as <- <-. simpl. rewrite decide_False, Ha, !decide_True by done. split; [done|lia].
Qed.
