(* ===== verification/Ring.v ===== *)
(** * Ring: the resume buffer

    Models runner/internal/ptysession/ring.go.  The specification of a ring is
    a function of everything ever written to it ([suffix_of_size]); the
    refinement lemma [buf_written] says the code's buffer is that function of
    its history.  [Snapshot] is related to the runes of a text. *)
From S2P Require Import Prelude Utf8.

(** ** The code *)

Record Ring := mkRing { ring_buf : bytes; ring_max : Z }.

Definition NewRing (max : Z) : Ring :=
  let max := if decide (max < 1)%Z then 1%Z else max in
  mkRing [] max.

(** Write returns its input's length and no error; the retained tail is moved
    to the front of the same backing array, which the slice then covers. *)
Definition Ring_Write (r : Ring) (p : bytes) : Ring * nat :=
  let buf := ring_buf r ++ p in
  let over := (Z.of_nat (length buf) - ring_max r)%Z in
  let buf := if decide (over > 0)%Z then take 0 buf ++ drop (Z.to_nat over) buf else buf in
  (mkRing buf (ring_max r), length p).

(** The test of Snapshot's loop: r.buf[start]&0xC0 == 0x80. *)
Definition continuation_byte (b : byte) : bool :=
  (Z.land (Z_of_byte b) 0xC0 =? 0x80)%Z.

(** Snapshot's loop: the first index that is not a continuation byte. *)
Fixpoint snapshot_start (buf : bytes) : nat :=
  match buf with
  | b :: buf => if continuation_byte b then S (snapshot_start buf) else 0
  | [] => 0
  end.

Definition Ring_Snapshot (r : Ring) : bytes :=
  let start := snapshot_start (ring_buf r) in
  copy_at (make_bytes (length (ring_buf r) - start)) 0 (drop start (ring_buf r)).

(** ** The specification *)

(** The last [n] bytes of a stream. *)
Definition suffix_of_size {A} (n : nat) (l : list A) : list A := drop (length l - n) l.

Fixpoint write_all (r : Ring) (chunks : list bytes) : Ring :=
  match chunks with
  | [] => r
  | p :: chunks => write_all (Ring_Write r p).1 chunks
  end.

(** The index of the first rune boundary at or after byte offset [d]. *)
Fixpoint first_boundary (d : nat) (rs : list Z) : nat :=
  match d, rs with
  | S _, r :: rs => S (first_boundary (d - length (EncodeRune r)) rs)
  | _, _ => 0
  end.

(** ** Refinement: the buffer is the tail of the history *)

Lemma suffix_of_size_app {A} n (l k : list A) :
  suffix_of_size n (suffix_of_size n l ++ k) = suffix_of_size n (l ++ k).
Proof.
  unfold suffix_of_size. rewrite !length_app, length_drop.
  destruct (decide (length l <= n)) as [Hle|Hgt].
  - replace (length l - n) with 0 by lia. rewrite drop_0. f_equal. lia.
  - destruct (decide (length k <= n)).
    + rewrite !drop_app_le by (rewrite ?length_drop; lia). rewrite drop_drop.
      f_equal. f_equal. lia.
    + rewrite !drop_app_ge by (rewrite ?length_drop; lia). rewrite length_drop.
      f_equal. lia.
Qed.

Lemma suffix_of_size_idemp {A} n (l : list A) :
  suffix_of_size n (suffix_of_size n l) = suffix_of_size n l.
Proof. pose proof (suffix_of_size_app n l []) as H. by rewrite !app_nil_r in H. Qed.

Lemma length_suffix_of_size {A} n (l : list A) :
  length (suffix_of_size n l) = min n (length l).
Proof. unfold suffix_of_size. rewrite length_drop. lia. Qed.

Lemma buf_write r p :
  (0 <= ring_max r)%Z ->
  ring_buf (Ring_Write r p).1 = suffix_of_size (Z.to_nat (ring_max r)) (ring_buf r ++ p).
Proof.
  intros Hmax. unfold Ring_Write, suffix_of_size; simpl. case_decide.
  - f_equal. lia.
  - replace (_ - _)%nat with 0 by lia. done.
Qed.

Lemma max_write r p : ring_max (Ring_Write r p).1 = ring_max r.
Proof. done. Qed.

Lemma max_write_all r chunks : ring_max (write_all r chunks) = ring_max r.
Proof. revert r. induction chunks as [|p chunks IH]; intros r; [done|]. etrans; [apply IH|done]. Qed.

Lemma buf_written r chunks :
  (0 <= ring_max r)%Z ->
  ring_buf r = suffix_of_size (Z.to_nat (ring_max r)) (ring_buf r) ->
  ring_buf (write_all r chunks) =
    suffix_of_size (Z.to_nat (ring_max r)) (ring_buf r ++ mjoin chunks).
Proof.
  revert r. induction chunks as [|p chunks IH]; intros r Hmax Hr.
  - by rewrite app_nil_r.
  - cbn [write_all mjoin list_join]. rewrite IH; rewrite ?max_write, ?buf_write; try done.
    + by rewrite suffix_of_size_app, (assoc_L (++)).
    + by rewrite suffix_of_size_idemp.
Qed.

Lemma NewRing_max max : ring_max (NewRing max) = Z.max 1 max.
Proof. simpl. case_decide; lia. Qed.

Lemma buf_new max chunks :
  ring_buf (write_all (NewRing max) chunks) =
    suffix_of_size (Z.to_nat (Z.max 1 max)) (mjoin chunks).
Proof.
  rewrite buf_written by (done || rewrite NewRing_max; lia). by rewrite NewRing_max.
Qed.

Lemma Snapshot_drop r :
  Ring_Snapshot r = drop (snapshot_start (ring_buf r)) (ring_buf r).
Proof.
  unfold Ring_Snapshot, make_bytes.
  rewrite copy_at_start by (rewrite length_drop, length_replicate; lia).
  rewrite (drop_ge (replicate _ _)) by (rewrite length_drop, length_replicate; lia). apply app_nil_r.
Qed.

(** ** Rune alignment *)

Lemma continuation_byte_cont b : continuation_byte b = bool_decide (cont b).
Proof. destruct b; vm_compute; reflexivity. Qed.

Lemma snapshot_start_conts cs l :
  Forall cont cs -> snapshot_start (cs ++ l) = length cs + snapshot_start l.
Proof.
  induction 1 as [|b cs Hb _ IH]; [done|].
  csimpl. rewrite continuation_byte_cont, bool_decide_true by done. by rewrite IH.
Qed.

Lemma snapshot_start_text rs : snapshot_start (encode_runes rs) = 0.
Proof.
  destruct rs as [|r rs]; [done|]. rewrite encode_runes_cons.
  destruct (EncodeRune_shape r) as (b & cs & -> & Hb & _). csimpl.
  by rewrite continuation_byte_cont, bool_decide_false.
Qed.

(** Skipping continuation bytes from any byte offset lands on the next rune. *)
Lemma snapshot_of_tail d rs :
  drop (snapshot_start (drop d (encode_runes rs))) (drop d (encode_runes rs))
  = encode_runes (drop (first_boundary d rs) rs).
Proof.
  revert d. induction rs as [|r rs IH]; intros d.
  - change (encode_runes []) with (@nil byte). rewrite drop_nil. by destruct d.
  - destruct d as [|d].
    + rewrite drop_0, snapshot_start_text. done.
    + rewrite encode_runes_cons. cbn [first_boundary drop].
      destruct (EncodeRune_shape r) as (b & cs & E & Hb & Hcs & Hlen).
      destruct (decide (length (EncodeRune r) <= S d)) as [Hle|Hgt].
      * rewrite drop_app_ge by done. apply IH.
      * rewrite drop_app_le by lia. rewrite E in Hgt |- *. cbn [drop length] in *.
        rewrite snapshot_start_conts by by apply Forall_drop.
        rewrite snapshot_start_text, Nat.add_0_r, drop_app_length.
        replace (S d - S (length cs)) with 0 by lia. by destruct rs.
Qed.

Lemma encode_runes_app rs1 rs2 :
  encode_runes (rs1 ++ rs2) = encode_runes rs1 ++ encode_runes rs2.
Proof. apply bind_app. Qed.

(** The boundary is the first one that leaves at most the wanted bytes. *)
Lemma first_boundary_offset d rs :
  d <= length (encode_runes rs) ->
  d <= length (encode_runes (take (first_boundary d rs) rs)) /\
  forall k, k < first_boundary d rs -> length (encode_runes (take k rs)) < d.
Proof.
  revert d. induction rs as [|r rs IH]; intros [|d] Hd; csimpl in *; try (split; [simpl|]; lia).
  rewrite encode_runes_cons, length_app in Hd.
  destruct (IH (S d - length (EncodeRune r))) as [H1 H2]; [lia|].
  cbn [first_boundary take]. rewrite encode_runes_cons, length_app. split; [lia|].
  intros [|k] Hk; [simpl; lia|]. cbn [take]. rewrite encode_runes_cons, length_app.
  specialize (H2 k ltac:(lia)). lia.
Qed.

(** ** Properties *)

(** C36. A ring remembers exactly the end of its history: after any sequence of
    writes to a ring built with NewRing(max), the retained bytes are the last
    [max] bytes (at least one) of everything written, whatever the chunks. *)
Theorem ring_keeps_the_tail max chunks :
  ring_buf (write_all (NewRing max) chunks) =
    suffix_of_size (Z.to_nat (Z.max 1 max)) (mjoin chunks).
Proof. apply buf_new. Qed.

(** C37. A repaint never starts inside a rune: when the output written to the
    ring is a valid UTF-8 text, in chunks cut anywhere, Snapshot returns the
    longest run of whole runes at the end of that text that fits in the ring.
    It is a suffix of the text on a rune boundary, and one rune more would
    exceed the capacity. *)
Theorem snapshot_is_longest_rune_suffix max chunks rs :
  mjoin chunks = encode_runes rs ->
  exists k, Ring_Snapshot (write_all (NewRing max) chunks) = encode_runes (drop k rs) /\
    length (encode_runes (drop k rs)) <= Z.to_nat (Z.max 1 max) /\
    forall k', k' < k -> Z.to_nat (Z.max 1 max) < length (encode_runes (drop k' rs)).
Proof.
  intros Ht. rewrite Snapshot_drop, buf_new.
  set (n := Z.to_nat _). rewrite Ht. unfold suffix_of_size.
  set (d := length (encode_runes rs) - n). rewrite snapshot_of_tail.
  exists (first_boundary d rs).
  destruct (first_boundary_offset d rs) as [H1 H2]; [lia|].
  assert (forall k, length (encode_runes rs) =
    length (encode_runes (take k rs)) + length (encode_runes (drop k rs))) as Hsplit.
  { intros k. rewrite <- length_app, <- encode_runes_app. by rewrite take_drop. }
  split_and!; [done| |].
  - specialize (Hsplit (first_boundary d rs)). lia.
  - intros k Hk. specialize (H2 k Hk). specialize (Hsplit k). lia.
Qed.

Lemma snapshot_is_longest_rune_suffix_witness :
  Ring_Snapshot (write_all (NewRing 4) [str "ab"; str "€cd"]) = str "cd" /\
  exists k, Ring_Snapshot (write_all (NewRing 4) [str "ab"; str "€cd"])
      = encode_runes (drop k [97; 98; 0x20AC; 99; 100]%Z) /\
    length (encode_runes (drop k [97; 98; 0x20AC; 99; 100]%Z)) <= 4 /\
    forall k', k' < k -> 4 < length (encode_runes (drop k' [97; 98; 0x20AC; 99; 100]%Z)).
Proof.
  split; [vm_compute; reflexivity|].
  apply (snapshot_is_longest_rune_suffix 4). vm_compute; reflexivity.
Defined.

(** Whatever the bytes, valid text or not, a snapshot is a suffix of the
    retained bytes and drops only leading continuation bytes: it is empty or starts with a byte that is none, and
    every byte it dropped is one. *)
Theorem snapshot_skips_only_continuations r :
  exists cs, ring_buf r = cs ++ Ring_Snapshot r /\ Forall (fun b => continuation_byte b) cs /\
    match Ring_Snapshot r with b :: _ => continuation_byte b = false | [] => True end.
Proof.
  rewrite Snapshot_drop. exists (take (snapshot_start (ring_buf r)) (ring_buf r)).
  split; [by rewrite take_drop|]. induction (ring_buf r) as [|b l IH]; [done|].
  simpl. destruct (continuation_byte b) eqn:Hb; csimpl; [|by rewrite Hb].
  destruct IH as [IH1 IH2]. split; [constructor; [by rewrite Hb|]|]; done.
Qed.
