(* ===== verification/Screen.v ===== *)
(** * Screen: does the child own the terminal right now?

    Models the screen-activity part of runner/internal/runner/runner.go:
    markScreenActivity, isCursorControl and screenBusy.  [mark_loop] is the
    code's index loop over one chunk of output; [tokens] is an independent
    reading of the chunk as terminal tokens, and [mark_loop_tokens] shows the
    loop computes the effect of those tokens. *)
From S2P Require Import Prelude.
From Stdlib Require Import Strings.Byte.
From Equations Require Import Equations.
Set Equations Transparent.

(** ** The code *)

Definition CR : byte := x0d.
Definition LF : byte := x0a.
Definition ESC : byte := x1b.

(** altScreen and lastCtl (unix nanoseconds, 0 = never). *)
Record ScreenState := mkScreen { altScreen : bool; lastCtl : Z }.

Definition screen0 : ScreenState := mkScreen false 0.

(** screenBusyWindow = 1500 * time.Millisecond *)
Definition screenBusyWindow : Z := 1500 * 1000000.

Definition isCursorControl (final : byte) : bool :=
  bool_decide (final ∈ str "ABCDEFGHfdJKSTsu").

Definition is_param (b : byte) : bool :=
  bool_decide (48 <= Z_of_byte b <= 57)%Z || bool_decide (b = x3b).

Definition is_private (b : byte) : bool := bool_decide (b ∈ str "?>!").

(** p[i] for an index the loop has checked. *)
Definition at_ (p : bytes) (i : nat) : byte := default x00 (p !! i).

(** for j < len(p) && (p[j] is a digit or ';') { j++ } *)
Fixpoint skip_params (fuel : nat) (p : bytes) (j : nat) : nat :=
  match fuel with
  | O => j
  | S fuel =>
    if decide (j < length p /\ is_param (at_ p j)) then skip_params fuel p (j + 1) else j
  end.

(** The switch on the final byte of a control sequence: the new (altScreen,
    ctl). *)
Definition csi_effect (priv : bool) (params : bytes) (final : byte) (st : bool * bool)
    : bool * bool :=
  let '(alt, ctl) := st in
  if priv && (bool_decide (final = x68) || bool_decide (final = x6c)) then
    let alt :=
      if decide (params ∈ [str "1049"; str "47"; str "1047"])
      then bool_decide (final = x68) else alt in
    (alt, true)
  else if negb priv && isCursorControl final then (alt, true)
  else (alt, ctl).

(** The loop over the chunk, from index [i], with the state (altScreen, ctl). *)
Fixpoint mark_loop (fuel : nat) (p : bytes) (i : nat) (st : bool * bool) : bool * bool :=
  match fuel with
  | O => st
  | S fuel =>
    if decide (i < length p) then
      let b := at_ p i in
      if decide (b = CR) then
        let st :=
          if decide (length p <= i + 1 \/ at_ p (i + 1) <> LF) then (st.1, true) else st in
        mark_loop fuel p (i + 1) st
      else if decide (b <> ESC \/ length p <= i + 1 \/ at_ p (i + 1) <> x5b) then
        mark_loop fuel p (i + 1) st
      else
        let j := i + 2 in
        let priv := bool_decide (j < length p) && is_private (at_ p j) in
        let j := if priv then j + 1 else j in
        let start := j in
        let j := skip_params (length p) p j in
        if decide (length p <= j) then st
        else mark_loop fuel p (j + 1) (csi_effect priv (slice p start j) (at_ p j) st)
    else st
  end.

Definition markScreenActivity (now : Z) (p : bytes) (s : ScreenState) : ScreenState :=
  let '(alt, ctl) := mark_loop (length p) p 0 (altScreen s, false) in
  mkScreen alt (if ctl then now else lastCtl s).

Definition screenBusy (now : Z) (s : ScreenState) : bool :=
  if altScreen s then true
  else negb (lastCtl s =? 0)%Z && (now - lastCtl s <? screenBusyWindow)%Z.

(** ** The specification: a chunk as terminal tokens *)

Inductive token :=
| TByte (b : byte)                                    (* a byte of no interest *)
| TCR (bare : bool)                                   (* CR, bare unless LF follows *)
| TCsi (priv : option byte) (params : bytes) (final : byte)
| TCut (priv : option byte) (params : bytes).         (* a sequence the chunk cuts *)

Definition token_bytes (t : token) : bytes :=
  match t with
  | TByte b => [b]
  | TCR _ => [CR]
  | TCsi priv params final => ESC :: x5b :: option_list priv ++ params ++ [final]
  | TCut priv params => ESC :: x5b :: option_list priv ++ params
  end.

Definition token_effect (st : bool * bool) (t : token) : bool * bool :=
  match t with
  | TByte _ | TCut _ _ => st
  | TCR bare => (st.1, st.2 || bare)
  | TCsi priv params final => csi_effect (bool_decide (is_Some priv)) params final st
  end.

(** The prefix of parameter bytes, and what follows it. *)
Fixpoint span_params (l : bytes) : bytes * bytes :=
  match l with
  | b :: l =>
    if is_param b then let '(ps, rest) := span_params l in (b :: ps, rest) else ([], b :: l)
  | [] => ([], [])
  end.

Definition split_private (l : bytes) : option byte * bytes :=
  match l with
  | b :: l' => if is_private b then (Some b, l') else (None, l)
  | [] => (None, [])
  end.

Definition starts_with (b : byte) (l : bytes) : bool :=
  match l with c :: _ => bool_decide (c = b) | [] => false end.

(** The first token of a non-empty chunk [b :: l], and the rest. *)
Definition next_token (b : byte) (l : bytes) : token * bytes :=
  if decide (b = CR) then (TCR (negb (starts_with LF l)), l)
  else if decide (b = ESC /\ starts_with x5b l) then
    let '(priv, l) := split_private (tail l) in
    match span_params l with
    | (params, final :: rest) => (TCsi priv params final, rest)
    | (params, []) => (TCut priv params, [])
    end
  else (TByte b, l).

Lemma span_params_app l : (span_params l).1 ++ (span_params l).2 = l.
Proof.
  induction l as [|b l IH]; [done|]. simpl. destruct (is_param b); [|done].
  destruct (span_params l) as [ps rest]; simpl in *. by rewrite IH.
Qed.

Lemma split_private_app l : option_list (split_private l).1 ++ (split_private l).2 = l.
Proof. destruct l as [|b l]; [done|]. simpl. by destruct (is_private b). Qed.

Lemma next_token_bytes b l :
  token_bytes (next_token b l).1 ++ (next_token b l).2 = b :: l.
Proof.
  unfold next_token. case_decide as HCR; [by subst|].
  case_decide as Hesc; [|done]. destruct Hesc as [-> Hb].
  destruct l as [|c l]; [done|]. simpl in Hb. apply bool_decide_spec in Hb as ->.
  simpl tail. pose proof (split_private_app l) as Hp.
  destruct (split_private l) as [priv l']; simpl in Hp. subst l.
  pose proof (span_params_app l') as Hs.
  destruct (span_params l') as [ps [|f rest]]; simpl in Hs; subst l'; simpl.
  - by rewrite !app_nil_r.
  - by rewrite <- !(assoc_L (++)).
Qed.

Lemma next_token_shorter b l : length (next_token b l).2 <= length l.
Proof.
  pose proof (next_token_bytes b l) as H. apply (f_equal length) in H.
  rewrite length_app in H. simpl in H.
  destruct (next_token b l) as [[] ?]; simpl in *; lia.
Qed.

Equations? tokens (l : bytes) : list token by wf (length l) lt :=
  tokens [] := [];
  tokens (b :: l) := (next_token b l).1 :: tokens (next_token b l).2.
Proof. pose proof (next_token_shorter b l). lia. Qed.

Definition effect_of (p : bytes) (st : bool * bool) : bool * bool :=
  foldl token_effect st (tokens p).

Example mark_alt_enter :
  markScreenActivity 7 (x1b :: str "[?1049h") screen0 = mkScreen true 7.
Proof. reflexivity. Qed.

Example mark_colour_is_quiet :
  markScreenActivity 7 (str "hello " ++ x1b :: str "[31mred" ++ x1b :: str "[0m" ++ [LF]) screen0
  = screen0.
Proof. reflexivity. Qed.

(** ** The loop computes the tokens' effect *)

Lemma at_drop p i b l : drop i p = b :: l -> at_ p i = b.
Proof. intros (H & _)%drop_cons_lookup. unfold at_. by rewrite H. Qed.

Lemma skip_params_span fuel p j :
  length p - j <= fuel ->
  skip_params fuel p j = j + length (span_params (drop j p)).1 /\
  drop (skip_params fuel p j) p = (span_params (drop j p)).2.
Proof.
  revert j. induction fuel as [|fuel IH]; intros j Hf; cbn [skip_params].
  - rewrite drop_ge by lia. simpl. split; lia || done.
  - destruct (drop j p) as [|b l] eqn:E.
    + pose proof (drop_nil_length _ _ E) as Hl. rewrite decide_False by lia.
      simpl. split; lia || done.
    + pose proof (at_drop _ _ _ _ E) as Hb.
      destruct (drop_cons_lookup _ _ _ _ E) as (_ & El & Hlt). rewrite Hb.
      simpl. destruct (is_param b) eqn:Hp.
      * rewrite decide_True by done.
        destruct (IH (j + 1)) as [IH1 IH2]; [lia|]. rewrite El in IH1, IH2.
        destruct (span_params l) as [ps rest]; simpl in *. split; [lia|done].
      * rewrite decide_False by (intros [_ []]). simpl. split; lia || done.
Qed.

Lemma effect_of_cons p i b l st :
  drop i p = b :: l ->
  effect_of (drop i p) st =
    effect_of (next_token b l).2 (token_effect st (next_token b l).1).
Proof. intros ->. unfold effect_of. by simp tokens. Qed.

Lemma starts_with_spec p i b l c :
  drop i p = b :: l ->
  starts_with c l = bool_decide (~ (length p <= i + 1 \/ at_ p (i + 1) <> c)).
Proof.
  intros H. destruct (drop_cons_lookup _ _ _ _ H) as (_ & <- & Hlt).
  destruct (drop (i + 1) p) as [|d k] eqn:E; simpl.
  - apply drop_nil_length in E. rewrite bool_decide_false; [done|]. intros Hn. apply Hn. by left.
  - pose proof (at_drop _ _ _ _ E) as ->. destruct (drop_cons_lookup _ _ _ _ E) as (_ & _ & ?).
    apply bool_decide_ext. split; [intros -> [?|?]; [lia|done]|].
    intros Hn. apply dec_stable. naive_solver.
Qed.

Lemma split_private_index p i :
  let priv := bool_decide (i < length p) && is_private (at_ p i) in
  (split_private (drop i p)).2 = drop (if priv then i + 1 else i) p /\
  bool_decide (is_Some (split_private (drop i p)).1) = priv.
Proof.
  simpl. destruct (drop i p) as [|b l] eqn:E.
  - pose proof (drop_nil_length _ _ E). rewrite bool_decide_false by lia. simpl. by rewrite E.
  - pose proof (at_drop _ _ _ _ E) as ->. destruct (drop_cons_lookup _ _ _ _ E) as (_ & El & ?).
    rewrite bool_decide_true by done. simpl. destruct (is_private b); by rewrite ?El, ?E.
Qed.

Lemma mark_loop_tokens fuel p i st :
  length p - i <= fuel -> mark_loop fuel p i st = effect_of (drop i p) st.
Proof.
  revert i st. induction fuel as [|fuel IH]; intros i st Hf; cbn [mark_loop].
  { rewrite drop_ge by lia. unfold effect_of. by simp tokens. }
  destruct (drop i p) as [|b l] eqn:E.
  { pose proof (drop_nil_length _ _ E). rewrite decide_False by lia.
    unfold effect_of. by simp tokens. }
  destruct (drop_cons_lookup _ _ _ _ E) as (_ & El & Hlt).
  rewrite decide_True, (at_drop _ _ _ _ E) by done.
  rewrite <- E, (effect_of_cons _ _ _ _ _ E). unfold next_token.
  pose proof (starts_with_spec _ _ _ _ LF E) as Hlf.
  pose proof (starts_with_spec _ _ _ _ x5b E) as Hbr.
  destruct (decide (b = CR)) as [HCR|HCR].
  { rewrite IH, El by lia. simpl. f_equal. rewrite Hlf. destruct st as [alt ctl]. simpl.
    destruct (decide (length p <= i + 1 \/ at_ p (i + 1) <> LF)) as [H|H];
      [rewrite bool_decide_false by tauto|rewrite bool_decide_true by tauto];
      simpl; by rewrite ?orb_true_r, ?orb_false_r. }
  rewrite Hbr. destruct (decide (b = ESC)) as [->|Hesc]; last first.
  { rewrite decide_True by by left.
    rewrite (decide_False (P := b = ESC /\ _)) by by intros [? _].
    simpl. by rewrite IH, El by lia. }
  destruct (decide (_ \/ length p <= i + 1 \/ _)) as [Hb|Hb].
  { rewrite (decide_False (P := ESC = ESC /\ _)); last first.
    { intros [_ Ht%bool_decide_unpack]. by destruct Hb as [?|?%Ht]. }
    simpl. by rewrite IH, El by lia. }
  rewrite (decide_True (P := ESC = ESC /\ _)) by (split; [done|apply bool_decide_pack; tauto]).
  assert (tail l = drop (i + 2) p) as ->.
  { rewrite <- El. destruct (drop (i + 1) p) as [|c k] eqn:E'; simpl.
    - apply drop_nil_length in E'. rewrite drop_ge by lia. done.
    - apply drop_cons_lookup in E' as (_ & <- & _). f_equal. lia. }
  destruct (split_private_index p (i + 2)) as [Hp1 Hp2]. cbn zeta in Hp1, Hp2.
  set (priv := bool_decide _ && _) in *. set (j := if priv then _ else _) in *.
  destruct (split_private (drop (i + 2) p)) as [pv l']; simpl in Hp1, Hp2. subst l'.
  destruct (skip_params_span (length p) p j) as [Hj Hdrop]; [lia|].
  set (j' := skip_params _ _ _) in *.
  pose proof (span_params_app (drop j p)) as Happ.
  destruct (span_params (drop j p)) as [ps rest]; simpl in Hj, Hdrop, Happ.
  assert (i + 2 <= j) as Hij by (subst j; destruct priv; lia).
  destruct rest as [|f rest].
  { apply drop_nil_length in Hdrop. rewrite decide_True by done.
    simpl. unfold effect_of. by simp tokens. }
  pose proof (at_drop _ _ _ _ Hdrop) as Hf'.
  apply drop_cons_lookup in Hdrop as (_ & Hrest & Hlt').
  rewrite decide_False by lia. rewrite IH, Hrest by lia. simpl. rewrite Hp2, Hf'.
  repeat f_equal. unfold slice. rewrite <- Happ. rewrite Hj. replace (_ + _ - _) with (length ps) by lia.
  apply take_app_length.
Qed.

Lemma markScreenActivity_tokens now p s :
  markScreenActivity now p s =
    let '(alt, ctl) := foldl token_effect (altScreen s, false) (tokens p) in
    mkScreen alt (if ctl then now else lastCtl s).
Proof. unfold markScreenActivity. by rewrite mark_loop_tokens by lia. Qed.

Lemma tokens_bytes p : (tokens p) ≫= token_bytes = p.
Proof.
  induction p as [[|b l] IH] using (induction_ltof1 _ length); unfold ltof in IH; simp tokens.
  - done.
  - csimpl. rewrite IH; [apply next_token_bytes|]. simpl.
    pose proof (next_token_shorter b l). lia.
Qed.

(** The tokens that leave the screen state alone: text, CRLF, colours and the
    other sequences that neither move the cursor nor toggle a private mode. *)
Definition quiet_token (t : token) : bool :=
  match t with
  | TByte _ | TCut _ _ => true
  | TCR bare => negb bare
  | TCsi None _ final => negb (isCursorControl final)
  | TCsi (Some _) _ final => negb (bool_decide (final ∈ str "hl"))
  end.

(** The tokens that enter ([true]) or leave ([false]) the alternate screen. *)
Definition alt_toggle (t : token) : option bool :=
  match t with
  | TCsi (Some _) params final =>
    if decide (params ∈ [str "1049"; str "47"; str "1047"]) then
      if decide (final = x68) then Some true
      else if decide (final = x6c) then Some false else None
    else None
  | _ => None
  end.

Lemma token_effect_quiet st t :
  token_effect st t = (default st.1 (alt_toggle t), st.2 || negb (quiet_token t)).
Proof.
  destruct st as [alt ctl]. destruct t as [b|bare|[c|] params f|priv params]; simpl;
    rewrite ?orb_false_r, ?negb_involutive; try done; unfold csi_effect.
  - assert (bool_decide (f ∈ str "hl") = bool_decide (f = x68) || bool_decide (f = x6c)) as ->.
    { rewrite <- bool_decide_or. apply bool_decide_ext.
      change (str "hl") with [x68; x6c]. rewrite !elem_of_cons, elem_of_nil. tauto. }
    destruct (decide (f = x68)) as [->|]; [|destruct (decide (f = x6c)) as [->|]];
      repeat case_decide; rewrite ?bool_decide_true, ?bool_decide_false by done;
      simpl; rewrite ?orb_true_r, ?orb_false_r; done.
  - destruct (isCursorControl f); simpl; by rewrite ?orb_true_r, ?orb_false_r.
Qed.

Lemma foldl_token_effect ts st :
  foldl token_effect st ts =
    (default st.1 (last (omap alt_toggle ts)), st.2 || negb (forallb quiet_token ts)).
Proof.
  revert st. induction ts as [|t ts IH]; intros st.
  - destruct st. simpl. by rewrite orb_false_r.
  - simpl foldl. rewrite IH, token_effect_quiet. simpl fst. simpl snd. f_equal.
    + csimpl. destruct (alt_toggle t); simpl; [|done]. rewrite last_cons.
      by destruct (last _).
    + simpl. by rewrite negb_andb, <- orb_assoc.
Qed.

(** ** Properties *)

(** C38. What a chunk of output does to the screen state is decided by its
    terminal tokens: the tokens spell the chunk byte for byte; the alternate
    screen follows the last whole 47/1047/1049 toggle among them and is kept if
    there is none; and the activity time is set to now unless every token is
    quiet (text, CRLF, colours, an unfinished sequence). *)
Theorem screen_state_follows_the_tokens now p s :
  (tokens p) ≫= token_bytes = p /\
  markScreenActivity now p s =
    mkScreen (default (altScreen s) (last (omap alt_toggle (tokens p))))
      (if forallb quiet_token (tokens p) then lastCtl s else now).
Proof.
  split; [apply tokens_bytes|]. rewrite markScreenActivity_tokens, foldl_token_effect.
  simpl. by destruct (forallb _ _).
Qed.

(** Host notices are held back for the right time: outside the alternate
    screen, output that moves the cursor at time [t] makes the screen busy for
    1.5 seconds from [t] and not longer; inside it the screen is busy at any
    time; quiet output changes nothing. *)
Theorem screen_busy_window t now p s :
  t <> 0%Z ->
  (screenBusy now (markScreenActivity t p s) =
    altScreen (markScreenActivity t p s)
    || (if forallb quiet_token (tokens p)
        then negb (lastCtl s =? 0)%Z && (now - lastCtl s <? 1500000000)%Z
        else (now <? t + 1500000000)%Z)).
Proof.
  intros Ht. rewrite markScreenActivity_tokens, foldl_token_effect.
  unfold screenBusy, screenBusyWindow. simpl.
  destruct (default _ _), (forallb _ _); simpl; try done.
  assert ((t =? 0)%Z = false) as -> by lia. simpl. lia.
Qed.

Lemma screen_busy_window_witness :
  screenBusy 1500000006 (markScreenActivity 7 (str "50%" ++ [CR]) screen0) = true.
Proof.
  etrans; [apply (screen_busy_window 7); discriminate|]. vm_compute. reflexivity.
Defined.

(** A toggle the read boundary cuts is lost: however the bytes ESC[?1049h
    are split over two chunks, the state after both is not in the alternate
    screen, though the same bytes in one chunk enter it. *)
Theorem cut_toggle_is_lost k t1 t2 :
  0 < k < 8 ->
  altScreen (markScreenActivity t1 (x1b :: str "[?1049h") screen0) = true /\
  altScreen (markScreenActivity t2 (drop k (x1b :: str "[?1049h"))
    (markScreenActivity t1 (take k (x1b :: str "[?1049h")) screen0)) = false.
Proof.
  intros Hk. split; [reflexivity|].
  assert (k ∈ seq 1 7) as Hin by (apply elem_of_seq; lia).
  repeat (apply elem_of_cons in Hin as [->|Hin]; [reflexivity|]). by apply not_elem_of_nil in Hin.
Qed.

Lemma cut_toggle_is_lost_witness :
  altScreen (markScreenActivity 2 (str "1049h")
    (markScreenActivity 1 (x1b :: str "[?") screen0)) = false.
Proof. apply (cut_toggle_is_lost 3 1 2). lia. Defined.
