(* ===== verification/Encodings.v ===== *)
(** * Encodings: base32 and base64 text

    Go's encoding/base32 and encoding/base64 as the program uses them:
    base32.StdEncoding without padding (fingerprints and generated
    passphrases), base64.StdEncoding (frames inside to_viewer messages) and
    base64.RawURLEncoding (session ids, runner tokens and the link's secret).
    A byte string is one big-endian number written in digits of five or six
    bits; the decoders are the left inverses, used to state what a reader of
    the text recovers. *)
From S2P Require Import Prelude.
From Stdlib Require Import Strings.Byte.
Local Open Scope Z_scope.

(** ** Digits of a number, most significant first *)

Fixpoint digits (w : Z) (n : nat) (z : Z) : list Z :=
  match n with
  | O => []
  | S k => Z.shiftr z (w * Z.of_nat k) mod 2 ^ w :: digits w k z
  end.

Definition undigits (w : Z) (ds : list Z) : Z := foldl (fun acc d => acc * 2 ^ w + d) 0 ds.

(** The number of [w]-bit digits that carry [n] bytes, and the bits left over. *)
Definition digit_count (w : Z) (n : nat) : nat := Z.to_nat ((8 * Z.of_nat n + w - 1) / w).
Definition spare_bits (w : Z) (n : nat) : Z := w * Z.of_nat (digit_count w n) - 8 * Z.of_nat n.

Definition radix_encode (w : Z) (alphabet : bytes) (b : bytes) : bytes :=
  (fun d => default x00 (alphabet !! Z.to_nat d)) <$>
    digits w (digit_count w (length b)) (Z.shiftl (be_decode b) (spare_bits w (length b))).

Definition digit_value (alphabet : bytes) (c : byte) : option Z :=
  (fun p => Z.of_nat p.1) <$> list_find (fun x => x = c) alphabet.

Definition radix_decode (w : Z) (alphabet : bytes) (t : bytes) : option bytes :=
  ds ← mapM (digit_value alphabet) t;
  let n := Z.to_nat (w * Z.of_nat (length t) / 8) in
  Some (be_encode n (Z.shiftr (undigits w ds) (spare_bits w n))).

(** ** The alphabets and encodings *)

Definition base32_alphabet : bytes := str "ABCDEFGHIJKLMNOPQRSTUVWXYZ234567".
Definition base64_std_alphabet : bytes :=
  str "ABCDEFGHIJKLMNOPQRSTUVWXYZabcdefghijklmnopqrstuvwxyz0123456789+/".
Definition base64_url_alphabet : bytes :=
  str "ABCDEFGHIJKLMNOPQRSTUVWXYZabcdefghijklmnopqrstuvwxyz0123456789-_".

(** base32.StdEncoding.WithPadding(base32.NoPadding).EncodeToString *)
Definition base32_nopad (b : bytes) : bytes := radix_encode 5 base32_alphabet b.

(** base64.RawURLEncoding.EncodeToString *)
Definition base64_rawurl (b : bytes) : bytes := radix_encode 6 base64_url_alphabet b.

(** base64.StdEncoding.EncodeToString: padded with '=' to a multiple of four. *)
Definition base64_std (b : bytes) : bytes :=
  let t := radix_encode 6 base64_std_alphabet b in
  t ++ replicate ((4 - length t mod 4) mod 4) x3d.

Definition base64_rawurl_decode (t : bytes) : option bytes := radix_decode 6 base64_url_alphabet t.

Definition base64_std_decode (t : bytes) : option bytes :=
  radix_decode 6 base64_std_alphabet (filter (fun c => c <> x3d) t).

Example base32_ex : base32_nopad (str "hello") = str "NBSWY3DP".
Proof. reflexivity. Qed.
Example base64_std_ex : base64_std (str "hello") = str "aGVsbG8=".
Proof. reflexivity. Qed.
Example base64_url_ex : base64_rawurl [xfb; xff] = str "-_8".
Proof. reflexivity. Qed.

(** ** Lemmas *)

Lemma length_digits w n z : length (digits w n z) = n.
Proof. induction n; csimpl; auto. Qed.

Lemma undigits_app w ds d : undigits w (ds ++ [d]) = undigits w ds * 2 ^ w + d.
Proof. unfold undigits. by rewrite foldl_app. Qed.

(** Digits from the least significant end. *)
Lemma digits_snoc w n z :
  0 < w -> digits w (S n) z = digits w n (Z.shiftr z w) ++ [z mod 2 ^ w].
Proof.
  intros Hw. induction n as [|n IH].
  - simpl. by rewrite Z.mul_0_r, Z.shiftr_0_r.
  - change (digits w (S (S n)) z) with
      (Z.shiftr z (w * Z.of_nat (S n)) mod 2 ^ w :: digits w (S n) z).
    rewrite IH. simpl. f_equal. rewrite Z.shiftr_shiftr by lia. do 2 f_equal. lia.
Qed.

Lemma digits_range w n z : 0 < w -> Forall (fun d => 0 <= d < 2 ^ w) (digits w n z).
Proof.
  intros Hw. induction n as [|n IH]; constructor; [|done].
  apply Z.mod_pos_bound. lia.
Qed.

Lemma undigits_digits w n z :
  0 < w -> undigits w (digits w n z) = z mod 2 ^ (w * Z.of_nat n).
Proof.
  intros Hw. revert z. induction n as [|n IH]; intros z.
  - simpl. by rewrite Z.mul_0_r, Z.mod_1_r.
  - rewrite digits_snoc, undigits_app, IH by done.
    replace (w * Z.of_nat (S n)) with (w + w * Z.of_nat n) by lia.
    rewrite Z.pow_add_r, Z.rem_mul_r, Z.shiftr_div_pow2 by lia. ring.
Qed.

Lemma digit_count_bounds w n :
  0 < w ->
  0 <= spare_bits w n < w /\ w * Z.of_nat (digit_count w n) = 8 * Z.of_nat n + spare_bits w n.
Proof.
  intros Hw. unfold spare_bits, digit_count.
  rewrite Z2Nat.id by (apply Z.div_pos; lia).
  pose proof (Z.div_mod (8 * Z.of_nat n + w - 1) w ltac:(lia)).
  pose proof (Z.mod_pos_bound (8 * Z.of_nat n + w - 1) w ltac:(lia)). lia.
Qed.

Section Radix.
Context (w : Z) (alphabet : bytes).
Hypothesis width : 0 < w <= 8.
Hypothesis digit_value_lookup : forall d, 0 <= d < 2 ^ w ->
  digit_value alphabet (default x00 (alphabet !! Z.to_nat d)) = Some d.

Lemma length_radix_encode b : length (radix_encode w alphabet b) = digit_count w (length b).
Proof. unfold radix_encode. by rewrite length_fmap, length_digits. Qed.

Lemma radix_decode_encode b : radix_decode w alphabet (radix_encode w alphabet b) = Some b.
Proof using digit_value_lookup width.
  unfold radix_decode. rewrite length_radix_encode. unfold radix_encode.
  destruct (digit_count_bounds w (length b)) as [Hs Hc]; [lia|].
  set (ds := digits _ _ _).
  assert (mapM (digit_value alphabet)
            ((fun d => default x00 (alphabet !! Z.to_nat d)) <$> ds) = Some ds) as ->.
  { apply mapM_Some. apply Forall2_fmap_l. apply Forall_Forall2_diag.
    eapply Forall_impl; [apply digits_range; lia|]. exact digit_value_lookup. }
  simpl. subst ds. rewrite undigits_digits by lia.
  assert (Z.to_nat (w * Z.of_nat (digit_count w (length b)) / 8) = length b) as ->.
  { rewrite Hc. Z.div_mod_to_equations; lia. }
  pose proof (be_decode_range b) as Hr.
  rewrite Z.mod_small; last first.
  { rewrite Hc, Z.pow_add_r, Z.shiftl_mul_pow2 by lia. nia. }
  rewrite Z.shiftr_shiftl_l, Z.sub_diag, Z.shiftl_0_r by lia.
  by rewrite be_encode_decode.
Qed.
End Radix.

Lemma check_alphabet w alphabet :
  forallb (fun d => bool_decide (digit_value alphabet (default x00 (alphabet !! Z.to_nat d))
                                 = Some d)) (seqZ 0 (2 ^ w)) ->
  forall d, 0 <= d < 2 ^ w ->
  digit_value alphabet (default x00 (alphabet !! Z.to_nat d)) = Some d.
Proof.
  intros H%forallb_True d Hd.
  rewrite Forall_forall in H. eapply bool_decide_unpack, (H d).
  apply elem_of_seqZ. lia.
Qed.

Lemma base64_rawurl_roundtrip b : base64_rawurl_decode (base64_rawurl b) = Some b.
Proof. apply radix_decode_encode; [lia|]. apply check_alphabet. by vm_compute. Qed.

(** Text of the alphabet alone. *)
Lemma radix_encode_alphabet w alphabet b :
  0 < w -> (2 ^ w <= Z.of_nat (length alphabet)) ->
  Forall (fun c => c ∈ alphabet) (radix_encode w alphabet b).
Proof.
  intros Hw Ha. unfold radix_encode. apply Forall_fmap.
  eapply Forall_impl; [by apply digits_range|]. intros d Hd; unfold compose; cbv beta in *.
  destruct (lookup_lt_is_Some_2 alphabet (Z.to_nat d)) as [c Hc]; [lia|].
  rewrite Hc. simpl. by eapply list_elem_of_lookup_2.
Qed.

Lemma base64_std_roundtrip b : base64_std_decode (base64_std b) = Some b.
Proof.
  unfold base64_std_decode, base64_std. rewrite filter_app.
  assert (forall n, filter (fun c => c <> x3d) (replicate n x3d) = []) as ->.
  { induction n as [|n IH]; [done|]. simpl. by rewrite filter_cons_False by naive_solver. }
  rewrite app_nil_r, filter_Forall_id.
  - apply radix_decode_encode; [lia|]. apply check_alphabet. by vm_compute.
  - eapply Forall_impl; [apply radix_encode_alphabet; vm_compute; (done || discriminate)|].
    intros c Hc ->. revert Hc. apply (bool_decide_unpack (x3d ∉ base64_std_alphabet)). by vm_compute.
Qed.

#[export] Instance base64_std_inj : Inj (=) (=) base64_std.
Proof.
  intros a b H. apply (f_equal base64_std_decode) in H.
  rewrite !base64_std_roundtrip in H. congruence.
Qed.

#[export] Instance base64_rawurl_inj : Inj (=) (=) base64_rawurl.
Proof.
  intros a b H. apply (f_equal base64_rawurl_decode) in H.
  rewrite !base64_rawurl_roundtrip in H. congruence.
Qed.

Lemma base32_nopad_roundtrip b : radix_decode 5 base32_alphabet (base32_nopad b) = Some b.
Proof. apply radix_decode_encode; [lia|]. apply check_alphabet. by vm_compute. Qed.

#[export] Instance base32_nopad_inj : Inj (=) (=) base32_nopad.
Proof.
  intros a b H. apply (f_equal (radix_decode 5 base32_alphabet)) in H.
  rewrite !base32_nopad_roundtrip in H. congruence.
Qed.
