(* ===== verification/Crypto.v ===== *)
(** * Crypto: key derivation and sealed frames

    Models runner/internal/protocol/crypto.go over the interface
    [Primitives] of the standard library's crypto packages the file calls
    (crypto/hkdf, crypto/pbkdf2, and AES-GCM through crypto/aes and
    crypto/cipher).  [PrimitivesLaws] is what the code relies on; StdCrypto
    implements the interface bit for bit and proves the laws. *)
From S2P Require Import Prelude Encodings.
From Stdlib Require Import Strings.Byte.

(** ** The interface of Go's crypto packages *)

Class Primitives := {
  (** hkdf.Key(sha256.New, secret, salt, info, keyLength) *)
  hkdf_key : bytes -> bytes -> bytes -> Z -> option bytes;
  (** pbkdf2.Key(sha256.New, password, salt, iter, keyLength) *)
  pbkdf2_key : bytes -> bytes -> Z -> Z -> option bytes;
  (** The AES-GCM AEAD of a key: Seal(nil, nonce, plaintext, aad), the
      ciphertext with the tag behind it, and Open(nil, nonce, ciphertext, aad). *)
  aead_seal : bytes -> bytes -> bytes -> bytes -> bytes;
  aead_open : bytes -> bytes -> bytes -> bytes -> option bytes
}.

Class PrimitivesLaws (P : Primitives) : Prop := {
  hkdf_key_length secret salt info n k :
    hkdf_key secret salt info n = Some k -> Z.of_nat (length k) = n;
  hkdf_key_total secret salt info n :
    (0 < n <= 32)%Z -> is_Some (hkdf_key secret salt info n);
  pbkdf2_key_total password salt iter n :
    (0 < n <= 32)%Z -> (0 < iter)%Z -> is_Some (pbkdf2_key password salt iter n);
  aead_open_seal key nonce pt aad :
    length nonce = 12 -> aead_open key nonce (aead_seal key nonce pt aad) aad = Some pt;
  aead_seal_open key nonce c pt aad :
    length nonce = 12 -> aead_open key nonce c aad = Some pt -> c = aead_seal key nonce pt aad;
  aead_seal_length key nonce pt aad :
    length nonce = 12 -> length (aead_seal key nonce pt aad) = length pt + 16
}.

(** ** The code *)

Definition SecretLen : nat := 32.
Definition KeyLen : Z := 32.
Definition nonceLen : nat := 12.
Definition seqLen : nat := 8.
Definition tagLen : nat := 16.
Definition pbkdf2Iter : Z := 600000.

Definition infoR2V : bytes := str "relay/v1 runner->viewer".
Definition infoV2R : bytes := str "relay/v1 viewer->runner".
Definition infoFP : bytes := str "relay/v1 fingerprint".

Inductive crypto_error :=
| ErrFrameShort
| ErrOpen
| ErrSecretLen (got : nat)
| ErrPrimitive.             (* an error of a crypto package, passed on *)

#[export] Instance crypto_error_eq_dec : EqDecision crypto_error.
Proof. solve_decision. Defined.

Record Keys := mkKeys { R2V : bytes; V2R : bytes; Fingerprint : bytes }.

Definition checked {A} (o : option A) : result crypto_error A :=
  match o with Some a => Ok a | None => Err ErrPrimitive end.

Section Code.
Context `{P : Primitives}.

Definition DeriveKeys (secret id passphrase : bytes) : result crypto_error Keys :=
  if decide (length secret <> SecretLen) then Err (ErrSecretLen (length secret))
  else
    ikm ← (if decide (passphrase <> []) then
             pw ← checked (pbkdf2_key passphrase id pbkdf2Iter KeyLen);
             mret (secret ++ pw)
           else mret secret);
    let salt := id in
    r2v ← checked (hkdf_key ikm salt infoR2V KeyLen);
    v2r ← checked (hkdf_key ikm salt infoV2R KeyLen);
    fp ← checked (hkdf_key ikm salt infoFP 10);
    mret (mkKeys r2v v2r (base32_nopad fp)).

(** The cipher of one direction: the AEAD of a key, and the session id as
    additional data. *)
Record Cipher := mkCipher { cipher_key : bytes; cipher_aad : bytes }.

(** aes.NewCipher refuses a key that is not 16, 24 or 32 bytes; cipher.NewGCM
    accepts every AES block. *)
Definition NewCipher (key aad : bytes) : result crypto_error Cipher :=
  if decide (length key ∈ [16; 24; 32]) then Ok (mkCipher key aad) else Err ErrPrimitive.

Definition sealWithNonce (c : Cipher) (nonce : bytes) (seq : Z) (kind : byte) (payload : bytes)
    : bytes :=
  let pt := make_bytes (seqLen + 1 + length payload) in
  let pt := copy_at pt 0 (be_encode seqLen seq) in
  let pt := <[ seqLen := kind ]> pt in
  let pt := copy_at pt (seqLen + 1) payload in
  let frame := copy_at (make_bytes nonceLen) 0 nonce in
  frame ++ aead_seal (cipher_key c) nonce pt (cipher_aad c).

(** Seal reads its nonce from crypto/rand: [rnd] is what rand.Read filled the
    twelve bytes with, [None] its error. *)
Definition Seal (c : Cipher) (rnd : option bytes) (seq : Z) (kind : byte) (payload : bytes)
    : result crypto_error bytes :=
  nonce ← checked rnd;
  mret (sealWithNonce c nonce seq kind payload).

Definition Open (c : Cipher) (frame : bytes) : result crypto_error (Z * byte * bytes) :=
  if decide (length frame < nonceLen + seqLen + 1 + tagLen) then Err ErrFrameShort
  else
    let nonce := take nonceLen frame in
    match aead_open (cipher_key c) nonce (drop nonceLen frame) (cipher_aad c) with
    | None => Err ErrOpen
    | Some pt =>
      if decide (length pt < seqLen + 1) then Err ErrFrameShort
      else Ok (be_decode (take seqLen pt), default x00 (pt !! seqLen), drop (seqLen + 1) pt)
    end.

End Code.

(** The plaintext of a frame. *)
Definition frame_plaintext (seq : Z) (kind : byte) (payload : bytes) : bytes :=
  be_encode 8 seq ++ kind :: payload.

(** ** Lemmas *)

Section Facts.
Context `{L : PrimitivesLaws}.

Lemma sealWithNonce_eq c nonce seq kind payload :
  length nonce = 12 ->
  sealWithNonce c nonce seq kind payload =
    nonce ++ aead_seal (cipher_key c) nonce (frame_plaintext seq kind payload) (cipher_aad c).
Proof.
  intros Hn. unfold sealWithNonce, frame_plaintext. f_equal.
  { rewrite copy_at_start by (rewrite length_make_bytes; unfold nonceLen; lia).
    unfold make_bytes, nonceLen. rewrite drop_ge by (rewrite length_replicate; lia).
    apply app_nil_r. }
  f_equal. unfold make_bytes, seqLen. rewrite replicate_add, replicate_add.
  rewrite <- (assoc_L (++)). rewrite copy_at_start by (simpl; lia).
  rewrite drop_app_length' by (by rewrite length_be_encode, length_replicate).
  rewrite insert_app_r_alt by (rewrite length_be_encode; lia).
  rewrite length_be_encode. simpl insert.
  rewrite cons_middle, (assoc_L (++)).
  replace (8 + 1) with (length (be_encode 8 seq ++ [kind])) by
    (rewrite length_app, length_be_encode; done).
  rewrite copy_at_prefix by (rewrite length_replicate; lia).
  rewrite drop_ge by (rewrite length_replicate; lia).
  by rewrite app_nil_r, <- (assoc_L (++)).
Qed.

Lemma length_sealWithNonce c nonce seq kind payload :
  length nonce = 12 -> length (sealWithNonce c nonce seq kind payload) = 37 + length payload.
Proof.
  intros Hn. rewrite sealWithNonce_eq, length_app, aead_seal_length by done.
  unfold frame_plaintext. rewrite length_app, length_be_encode. simpl. lia.
Qed.

Lemma Open_sealWithNonce c nonce seq kind payload :
  length nonce = 12 -> (0 <= seq < 2 ^ 64)%Z ->
  Open c (sealWithNonce c nonce seq kind payload) = Ok (seq, kind, payload).
Proof.
  intros Hn Hseq. unfold Open.
  rewrite decide_False by (rewrite length_sealWithNonce by done;
    unfold nonceLen, seqLen, tagLen; lia).
  rewrite sealWithNonce_eq by done. unfold nonceLen. rewrite <- Hn.
  rewrite take_app_length, drop_app_length, aead_open_seal by done.
  unfold frame_plaintext, seqLen.
  rewrite decide_False by (rewrite length_app, length_be_encode; simpl; lia).
  rewrite take_app_length' by (by rewrite length_be_encode).
  rewrite list_lookup_middle by (by rewrite length_be_encode).
  rewrite cons_middle, (assoc_L (++)).
  rewrite drop_app_length' by (by rewrite length_app, length_be_encode).
  by rewrite be_decode_encode_id.
Qed.

(** A frame that opens is the sealed form of what it opens to. *)
Lemma Open_Ok c frame seq kind payload :
  Open c frame = Ok (seq, kind, payload) ->
  (0 <= seq < 2 ^ 64)%Z /\ length (take 12 frame) = 12 /\
  frame = sealWithNonce c (take 12 frame) seq kind payload.
Proof.
  unfold Open, nonceLen, seqLen, tagLen. case_decide as Hl; [done|].
  assert (length (take 12 frame) = 12) as Hn by (rewrite length_take; lia).
  destruct (aead_open _ _ _ _) as [pt|] eqn:Ho; [|done].
  case_decide as Hp; [done|]. intros [= <- <- <-].
  pose proof (be_decode_range (take 8 pt)) as Hr.
  rewrite length_take, Nat.min_l in Hr by lia. split; [exact Hr|]. split; [done|].
  rewrite sealWithNonce_eq by done. apply aead_seal_open in Ho; [|done].
  rewrite <- (take_drop 12 frame) at 1. f_equal. rewrite Ho. f_equal.
  unfold frame_plaintext.
  rewrite be_encode_decode by (rewrite length_take; lia).
  destruct (lookup_lt_is_Some_2 pt 8) as [k Hk]; [lia|]. rewrite Hk. simpl default.
  rewrite <- (take_drop 8 pt) at 1. f_equal. by apply drop_S.
Qed.

Lemma Open_error c frame e :
  Open c frame = Err e -> e = if decide (length frame < 37) then ErrFrameShort else ErrOpen.
Proof.
  unfold Open, nonceLen, seqLen, tagLen. case_decide as Hl.
  { intros [= <-]. by rewrite decide_True by lia. }
  rewrite (decide_False (P := length frame < 37)) by lia.
  destruct (aead_open _ _ _ _) as [pt|] eqn:Ho; [|by intros [= <-]].
  case_decide as Hp; [|done]. exfalso.
  apply aead_seal_open in Ho; [|rewrite length_take; lia].
  apply (f_equal length) in Ho.
  rewrite aead_seal_length, length_drop in Ho by (rewrite length_take; lia). lia.
Qed.

Lemma DeriveKeys_Ok secret id passphrase :
  length secret = 32 -> exists ks, DeriveKeys secret id passphrase = Ok ks /\
    length (R2V ks) = 32 /\ length (V2R ks) = 32 /\ length (Fingerprint ks) = 16.
Proof.
  intros Hs. unfold DeriveKeys, SecretLen, KeyLen.
  rewrite decide_False by lia.
  set (m := if decide _ then _ else _).
  assert (exists ikm, m = Ok ikm) as [ikm ->].
  { subst m. case_decide; [|by eexists].
    destruct (pbkdf2_key_total passphrase id pbkdf2Iter 32) as [pw ->]; [done..|].
    by eexists. }
  simpl.
  destruct (hkdf_key_total ikm id infoR2V 32) as [k1 H1]; [done|].
  destruct (hkdf_key_total ikm id infoV2R 32) as [k2 H2]; [done|].
  destruct (hkdf_key_total ikm id infoFP 10) as [k3 H3]; [done|].
  rewrite H1; simpl. rewrite H2; simpl. rewrite H3; simpl. eexists; split; [done|].
  apply hkdf_key_length in H1, H2, H3. simpl. split_and!; try lia.
  unfold base32_nopad. rewrite length_radix_encode.
  replace (length k3) with 10 by lia. reflexivity.
Qed.
End Facts.
