(* ===== verification/StdCrypto.v ===== *)
(** * StdCrypto: the standard library's primitives, bit for bit

    SHA-256, HMAC, HKDF, PBKDF2 and AES-GCM as Go's crypto packages compute
    them, as the instance [go_crypto] of the interface of Crypto.  The laws
    hold of the implementation (GCM's keystream is an involution and its tag is
    recomputed on opening), and the golden vectors of
    runner/internal/protocol/testdata/vectors.json are checked by evaluation. *)
From S2P Require Import Prelude Encodings Crypto.
From Stdlib Require Import Strings.Byte.

(** ** 32-bit words *)

Definition rotr (x n : Z) : Z :=
  Z.lor (Z.shiftr x n) (Z.land (Z.shiftl x (32 - n)) 0xFFFFFFFF).
Definition add32 (x y : Z) : Z := Z.land (x + y) 0xFFFFFFFF.

Definition byte_xor (a b : byte) : byte :=
  let '(a0, (a1, (a2, (a3, (a4, (a5, (a6, a7))))))) := Byte.to_bits a in
  let '(b0, (b1, (b2, (b3, (b4, (b5, (b6, b7))))))) := Byte.to_bits b in
  Byte.of_bits (xorb a0 b0, (xorb a1 b1, (xorb a2 b2, (xorb a3 b3,
    (xorb a4 b4, (xorb a5 b5, (xorb a6 b6, xorb a7 b7))))))).

(** ** SHA-256 *)

Module Sha256.
Local Open Scope Z_scope.

(** The constants are the first 32 bits of the fractional parts of the cube
    roots (K) and square roots (H0) of the first primes. *)
Definition is_prime (n : Z) : bool :=
  forallb (fun d => negb (n mod d =? 0)) (seqZ 2 (n - 2)).
Definition primes : list Z := Eval vm_compute in List.filter is_prime (seqZ 2 310).

(** The integer cube root, bit by bit from 2^(n-1). *)
Fixpoint cube_root (n : nat) (x r : Z) : Z :=
  match n with
  | O => r
  | S n =>
    let r' := r + 2 ^ Z.of_nat n in cube_root n x (if r' ^ 3 <=? x then r' else r)
  end.

Definition K : list Z :=
  Eval vm_compute in map (fun p => cube_root 40 (p * 2 ^ 96) 0 mod 2 ^ 32) primes.

Definition H0 : list Z :=
  Eval vm_compute in map (fun p => Z.sqrt (p * 2 ^ 64) mod 2 ^ 32) (take 8 primes).

Definition word_at (l : list Z) (i : nat) : Z := default 0 (l !! i).

(** One round: the eight working variables and the sliding window of sixteen
    message words. *)
Definition round (st : list Z * list Z) (k : Z) : list Z * list Z :=
  let '(v, w) := st in
  match v with
  | [a; b; c; d; e; f; g; h] =>
    let s1 := Z.lxor (Z.lxor (rotr e 6) (rotr e 11)) (rotr e 25) in
    let ch := Z.lxor (Z.land e f) (Z.land (Z.lxor e 0xFFFFFFFF) g) in
    let t1 := add32 (add32 (add32 h s1) (add32 ch k)) (word_at w 0) in
    let s0 := Z.lxor (Z.lxor (rotr a 2) (rotr a 13)) (rotr a 22) in
    let maj := Z.lxor (Z.lxor (Z.land a b) (Z.land a c)) (Z.land b c) in
    let t2 := add32 s0 maj in
    let x1 := word_at w 1 in
    let x14 := word_at w 14 in
    let g0 := Z.lxor (Z.lxor (rotr x1 7) (rotr x1 18)) (Z.shiftr x1 3) in
    let g1 := Z.lxor (Z.lxor (rotr x14 17) (rotr x14 19)) (Z.shiftr x14 10) in
    let w16 := add32 (add32 (word_at w 0) g0) (add32 (word_at w 9) g1) in
    ([add32 t1 t2; a; b; c; add32 d t1; e; f; g], tail w ++ [w16])
  | _ => st
  end.

Fixpoint words (n : nat) (b : bytes) : list Z :=
  match n with
  | O => []
  | S n => be_decode (take 4 b) :: words n (drop 4 b)
  end.

Definition compress (h : list Z) (block : bytes) : list Z :=
  zip_with add32 h (foldl round (h, words 16 block) K).1.

Fixpoint blocks (n : nat) (h : list Z) (b : bytes) : list Z :=
  match n with
  | O => h
  | S n => blocks n (compress h (take 64 b)) (drop 64 b)
  end.

Definition pad (b : bytes) : bytes :=
  b ++ x80 :: make_bytes (Z.to_nat ((55 - Z.of_nat (length b)) mod 64))
    ++ be_encode 8 (8 * Z.of_nat (length b)).

(** The digest, always 32 bytes. *)
Definition sum (b : bytes) : bytes :=
  let p := pad b in
  be_encode 32 (foldl (fun acc w => acc * 2 ^ 32 + w) 0 (blocks (length p / 64) H0 p)).

End Sha256.

(** ** HMAC, HKDF and PBKDF2 over SHA-256 *)

Definition hmac_key (key : bytes) : bytes :=
  let k := if decide (64 < length key) then Sha256.sum key else key in
  k ++ make_bytes (64 - length k).

Definition hmac (key msg : bytes) : bytes :=
  let k := hmac_key key in
  Sha256.sum (map (byte_xor x5c) k ++ Sha256.sum (map (byte_xor x36) k ++ msg)).

(** hkdf.Expand's blocks T(1) T(2) ... *)
Fixpoint hkdf_blocks (n : nat) (prk info prev : bytes) (i : Z) : bytes :=
  match n with
  | O => []
  | S n =>
    let t := hmac prk (prev ++ info ++ [byte_of_Z i]) in
    t ++ hkdf_blocks n prk info t (i + 1)
  end.

Definition go_hkdf_key (secret salt info : bytes) (keyLength : Z) : option bytes :=
  if decide (0 <= keyLength <= 255 * 32)%Z then
    let n := Z.to_nat keyLength in
    let prk := hmac salt secret in
    Some (take n (hkdf_blocks ((n + 31) / 32) prk info [] 1))
  else None.

Definition xor_bytes (a b : bytes) : bytes := zip_with byte_xor a b.

Definition pbkdf2_block (password salt : bytes) (iter i : Z) : bytes :=
  let u := hmac password (salt ++ be_encode 4 i) in
  (Z.iter (iter - 1) (fun '(u, t) => let u := hmac password u in (u, xor_bytes t u)) (u, u)).2.

Definition go_pbkdf2_key (password salt : bytes) (iter keyLength : Z) : option bytes :=
  if decide (0 < keyLength <= (2 ^ 32 - 1) * 32)%Z then
    let n := Z.to_nat keyLength in
    Some (take n (seqZ 1 ((keyLength + 31) / 32) ≫= pbkdf2_block password salt iter))
  else None.

Example sha256_abc :
  be_decode (Sha256.sum (str "abc"))
  = 0xba7816bf8f01cfea414140de5dae2223b00361a396177a9cb410ff61f20015ad%Z.
Proof. vm_compute. reflexivity. Qed.

(** ** AES (FIPS 197), encryption only *)

Module Aes.
Local Open Scope Z_scope.

Definition xtime (a : Z) : Z :=
  let b := Z.shiftl a 1 in if 256 <=? b then Z.lxor b 0x11b else b.

Fixpoint gmul (n : nat) (a b : Z) : Z :=
  match n with
  | O => 0
  | S n => Z.lxor (if Z.odd b then a else 0) (gmul n (xtime a) (Z.shiftr b 1))
  end.

(** The inverse in GF(2^8) as the 254th power, and the affine map of the S-box. *)
Definition ginv (a : Z) : Z := Nat.iter 254 (gmul 8 a) 1.
Definition rotl8 (a n : Z) : Z := Z.land (Z.lor (Z.shiftl a n) (Z.shiftr a (8 - n))) 0xff.
Definition sbox_fn (a : Z) : Z :=
  let b := ginv a in
  Z.lxor (Z.lxor (Z.lxor (Z.lxor (Z.lxor b (rotl8 b 1)) (rotl8 b 2)) (rotl8 b 3)) (rotl8 b 4)) 0x63.
Definition sbox_table : list Z := Eval vm_compute in map sbox_fn (seqZ 0 256).
Definition sbox (a : Z) : Z := default 0 (sbox_table !! Z.to_nat a).

Definition xor_list (a b : list Z) : list Z := zip_with Z.lxor a b.

(** Key expansion: each step appends one word; [w] holds the words newest
    first. *)
Definition next_word (nk : nat) (i : nat) (rcon : Z) (w : list (list Z)) : list Z :=
  let temp := default [] (w !! 0%nat) in
  let back := default [] (w !! (nk - 1)%nat) in
  let temp :=
    if decide (i mod nk = 0)%nat then
      match map sbox (tail temp ++ take 1 temp) with
      | a :: l => Z.lxor a rcon :: l
      | [] => []
      end
    else if decide (6 < nk /\ i mod nk = 4)%nat then map sbox temp
    else temp in
  xor_list back temp.

Fixpoint expand (n nk i : nat) (rcon : Z) (w : list (list Z)) : list (list Z) :=
  match n with
  | O => rev w
  | S n =>
    let w' := next_word nk i rcon w :: w in
    expand n nk (S i) (if decide (i mod nk = 0)%nat then xtime rcon else rcon) w'
  end.

Fixpoint key_words (n : nat) (k : list Z) : list (list Z) :=
  match n with O => [] | S n => take 4 k :: key_words n (drop 4 k) end.

Definition key_expansion (key : bytes) : list (list Z) :=
  let nk := (length key / 4)%nat in
  let rounds := (nk + 6)%nat in
  expand (4 * (rounds + 1) - nk) nk nk 1 (rev (key_words nk (map Z_of_byte key))).

Definition shift_rows (s : list Z) : list Z :=
  map (fun i => default 0 (s !! i))
    [0; 5; 10; 15; 4; 9; 14; 3; 8; 13; 2; 7; 12; 1; 6; 11]%nat.

Definition mix_column (c : list Z) : list Z :=
  match c with
  | [a; b; c; d] =>
    let t := Z.lxor (Z.lxor a b) (Z.lxor c d) in
    let m x y := Z.lxor (Z.lxor x t) (xtime (Z.lxor x y)) in
    [m a b; m b c; m c d; m d a]
  | _ => c
  end.

Definition mix_columns (s : list Z) : list Z :=
  mix_column (take 4 s) ++ mix_column (take 4 (drop 4 s))
  ++ mix_column (take 4 (drop 8 s)) ++ mix_column (take 4 (drop 12 s)).

Definition round_key (w : list (list Z)) : list Z := mjoin (take 4 w).

Fixpoint rounds (n : nat) (w : list (list Z)) (s : list Z) : list Z :=
  match n with
  | O => xor_list (shift_rows (map sbox s)) (round_key w)
  | S n => rounds n (drop 4 w)
             (xor_list (mix_columns (shift_rows (map sbox s))) (round_key w))
  end.

(** The cipher with an expanded key, on a block given as a big-endian number. *)
Definition encrypt (w : list (list Z)) (block : bytes) : Z :=
  foldl (fun acc b => acc * 256 + b) 0
    (rounds (length w / 4 - 2) (drop 4 w) (xor_list (map Z_of_byte block) (round_key w))).

End Aes.

(** ** GCM (SP 800-38D) with a 96-bit nonce and a 128-bit tag *)

Module Gcm.
Local Open Scope Z_scope.

Fixpoint ghash_mul (n : nat) (x v z : Z) : Z :=
  match n with
  | O => z
  | S n =>
    let z := if Z.testbit x (Z.of_nat n) then Z.lxor z v else z in
    let v := if Z.odd v then Z.lxor (Z.shiftr v 1) (Z.shiftl 0xe1 120) else Z.shiftr v 1 in
    ghash_mul n x v z
  end.

Fixpoint ghash (n : nat) (h y : Z) (data : bytes) : Z :=
  match n with
  | O => y
  | S n => ghash n h (ghash_mul 128 (Z.lxor y (be_decode (take 16 data))) h 0) (drop 16 data)
  end.

Definition pad16 (b : bytes) : bytes :=
  b ++ make_bytes (Z.to_nat ((- Z.of_nat (length b)) mod 16)).

Definition counter_block (nonce : bytes) (ctr : Z) : bytes := nonce ++ be_encode 4 ctr.

(** The keystream for [n] blocks from counter [ctr]. *)
Fixpoint keystream (n : nat) (w : list (list Z)) (nonce : bytes) (ctr : Z) : bytes :=
  match n with
  | O => []
  | S n => be_encode 16 (Aes.encrypt w (counter_block nonce ctr)) ++ keystream n w nonce (ctr + 1)
  end.

Definition gctr (w : list (list Z)) (nonce data : bytes) : bytes :=
  xor_bytes data (keystream ((length data + 15) / 16) w nonce 2).

Definition tag (w : list (list Z)) (nonce c aad : bytes) : bytes :=
  let h := Aes.encrypt w (make_bytes 16) in
  let data := pad16 aad ++ pad16 c
    ++ be_encode 8 (8 * Z.of_nat (length aad)) ++ be_encode 8 (8 * Z.of_nat (length c)) in
  let s := ghash (length data / 16) h 0 data in
  be_encode 16 (Z.lxor s (Aes.encrypt w (counter_block nonce 1))).

Definition seal (key nonce pt aad : bytes) : bytes :=
  let w := Aes.key_expansion key in
  let c := gctr w nonce pt in
  c ++ tag w nonce c aad.

Definition open (key nonce c aad : bytes) : option bytes :=
  if decide (length c < 16)%nat then None
  else
    let w := Aes.key_expansion key in
    let ct := take (length c - 16) c in
    if decide (drop (length c - 16) c = tag w nonce ct aad) then Some (gctr w nonce ct) else None.

End Gcm.

#[export] Instance go_crypto : Primitives := {
  hkdf_key := go_hkdf_key;
  pbkdf2_key := go_pbkdf2_key;
  aead_seal := Gcm.seal;
  aead_open := Gcm.open
}.

(** ** The laws *)

Lemma byte_xor_involutive a b : byte_xor (byte_xor a b) b = a.
Proof.
  unfold byte_xor. rewrite <- (Byte.of_bits_to_bits a) at 2.
  destruct (Byte.to_bits a) as (a0 & a1 & a2 & a3 & a4 & a5 & a6 & a7).
  destruct (Byte.to_bits b) as (b0 & b1 & b2 & b3 & b4 & b5 & b6 & b7).
  rewrite Byte.to_bits_of_bits, !xorb_assoc, !xorb_nilpotent, !xorb_false_r. done.
Qed.

Lemma xor_bytes_involutive a k :
  length a <= length k -> xor_bytes (xor_bytes a k) k = a.
Proof.
  revert k. induction a as [|x a IH]; intros [|y k] Hl; simpl in *; try done; [lia|].
  rewrite byte_xor_involutive. f_equal. apply IH. lia.
Qed.

Lemma length_xor_bytes a k : length a <= length k -> length (xor_bytes a k) = length a.
Proof. intros. unfold xor_bytes. rewrite length_zip_with. lia. Qed.

Lemma length_keystream n w nonce ctr : length (Gcm.keystream n w nonce ctr) = 16 * n.
Proof.
  revert ctr. induction n as [|n IH]; intros ctr; [done|].
  cbn [Gcm.keystream]. rewrite length_app, length_be_encode, IH. lia.
Qed.

Lemma gctr_fits (data : bytes) w nonce :
  length data <= length (Gcm.keystream ((length data + 15) / 16) w nonce 2).
Proof.
  rewrite length_keystream. pose proof (Nat.div_mod (length data + 15) 16).
  pose proof (Nat.mod_upper_bound (length data + 15) 16). lia.
Qed.

Lemma length_gctr w nonce data : length (Gcm.gctr w nonce data) = length data.
Proof. apply length_xor_bytes, gctr_fits. Qed.

Lemma gctr_involutive w nonce data : Gcm.gctr w nonce (Gcm.gctr w nonce data) = data.
Proof.
  unfold Gcm.gctr at 1. rewrite length_gctr. apply xor_bytes_involutive, gctr_fits.
Qed.

Lemma length_tag w nonce c aad : length (Gcm.tag w nonce c aad) = 16.
Proof. apply length_be_encode. Qed.

Lemma length_Gcm_seal key nonce pt aad : length (Gcm.seal key nonce pt aad) = length pt + 16.
Proof. unfold Gcm.seal. by rewrite length_app, length_gctr, length_tag. Qed.

Lemma Gcm_open_seal key nonce pt aad :
  Gcm.open key nonce (Gcm.seal key nonce pt aad) aad = Some pt.
Proof.
  unfold Gcm.open. rewrite length_Gcm_seal, decide_False by lia.
  rewrite Nat.add_sub. unfold Gcm.seal.
  set (w := Aes.key_expansion key).
  rewrite <- (length_gctr w nonce pt), take_app_length, drop_app_length.
  by rewrite decide_True, gctr_involutive.
Qed.

Lemma Gcm_seal_open key nonce c pt aad :
  Gcm.open key nonce c aad = Some pt -> c = Gcm.seal key nonce pt aad.
Proof.
  unfold Gcm.open, Gcm.seal. case_decide as Hl; [done|]. case_decide as Ht; [|done].
  intros [= <-]. rewrite gctr_involutive, <- Ht. by rewrite take_drop.
Qed.

Lemma length_hmac key msg : length (hmac key msg) = 32.
Proof. apply length_be_encode. Qed.

Lemma length_hkdf_blocks n prk info prev i :
  length (hkdf_blocks n prk info prev i) = 32 * n.
Proof.
  revert prev i. induction n as [|n IH]; intros prev i; [done|].
  cbn [hkdf_blocks]. rewrite length_app, length_hmac, IH. lia.
Qed.

#[export] Instance go_crypto_laws : PrimitivesLaws go_crypto.
Proof.
  split; cbn [hkdf_key pbkdf2_key aead_seal aead_open go_crypto].
  - intros secret salt info n k. unfold go_hkdf_key. case_decide as Hn; [|done].
    intros <-%(inj Some). rewrite length_take, length_hkdf_blocks.
    pose proof (Nat.div_mod (Z.to_nat n + 31) 32).
    pose proof (Nat.mod_upper_bound (Z.to_nat n + 31) 32). lia.
  - intros. unfold go_hkdf_key. rewrite decide_True by lia. by eexists.
  - intros. unfold go_pbkdf2_key. rewrite decide_True by lia. by eexists.
  - intros. apply Gcm_open_seal.
  - intros. by apply Gcm_seal_open.
  - intros. apply length_Gcm_seal.
Qed.

(** ** The golden vectors *)

Definition vector_secret : bytes :=
  be_encode 32 0x000102030405060708090a0b0c0d0e0f101112131415161718191a1b1c1d1e1f.
Definition vector_id : bytes := str "s7Qb3kZ9xR2mN1pT".
Definition vector_keys : Keys := mkKeys
  (be_encode 32 0x5b3a2dcc67162fc8a7f449b9135dd7ceece5e662a276bd5a5219374db11aa4db)
  (be_encode 32 0x1d74ccc0dae298d5d1377838199adf22f44df884a117c61889e9b514775e9ec1)
  (str "OALDR2BEPKRNVRS7").
Definition vector_frame : bytes := be_encode 50
  0x0a0b0c0d0e0f101112131415870f1b440239df9126e146529e850c0edeebeb9bee9d72c5b82605a140f10365613d8e78b059.

(** The committed golden vectors: deriving keys from the vector's secret
    and id gives the vector's keys and fingerprint, sealing its message with
    its nonce gives its frame byte for byte, and that frame opens to the
    message.  A frame of another session (same key, other id) does not open. *)
Theorem golden_vectors :
  DeriveKeys vector_secret vector_id [] = Ok vector_keys /\
  sealWithNonce (mkCipher (R2V vector_keys) vector_id)
    (be_encode 12 0x0a0b0c0d0e0f101112131415) 7 x02 (str "hello, world" ++ [x0a])
  = vector_frame /\
  Open (mkCipher (R2V vector_keys) vector_id) vector_frame
  = Ok (7%Z, x02, str "hello, world" ++ [x0a]) /\
  Open (mkCipher (R2V vector_keys) (str "wrong")) vector_frame = Err ErrOpen.
Proof. split_and!; vm_compute; reflexivity. Qed.

(** C34. Sealing and opening: for any key, session id, 12-byte nonce, uint64
    sequence number, kind and payload, the receiver's Open of the sender's
    frame gives back exactly the sequence number, the kind and the payload. *)
Theorem seal_open_roundtrip key aad nonce seq kind payload :
  length nonce = nonceLen -> (0 <= seq < 2 ^ 64)%Z ->
  Seal (mkCipher key aad) (Some nonce) seq kind payload
  = Ok (sealWithNonce (mkCipher key aad) nonce seq kind payload) /\
  Open (mkCipher key aad) (sealWithNonce (mkCipher key aad) nonce seq kind payload)
  = Ok (seq, kind, payload).
Proof. intros Hn Hseq. split; [done|]. by apply Open_sealWithNonce. Qed.

Lemma seal_open_roundtrip_witness :
  Open (mkCipher vector_secret vector_id)
    (sealWithNonce (mkCipher vector_secret vector_id) (make_bytes 12) 1 x10 (str "ls"))
  = Ok (1%Z, x10, str "ls").
Proof. apply (seal_open_roundtrip vector_secret vector_id (make_bytes 12)); done. Defined.

(** C22. Opening is exact: a frame opens to (seq, kind, payload) only if it is,
    byte for byte, the frame sealed from them under the same key and session id
    with the nonce it starts with; every other frame is refused with
    ErrFrameShort (under 37 bytes) or ErrOpen, which say nothing else. *)
Theorem open_accepts_only_sealed_frames key aad frame :
  match Open (mkCipher key aad) frame with
  | Ok (seq, kind, payload) =>
    (0 <= seq < 2 ^ 64)%Z /\ 37 <= length frame /\
    frame = sealWithNonce (mkCipher key aad) (take nonceLen frame) seq kind payload
  | Err e => e = if decide (length frame < 37) then ErrFrameShort else ErrOpen
  end.
Proof.
  destruct (Open _ frame) as [[[seq kind] payload]|e] eqn:E; [|by eapply Open_error].
  apply Open_Ok in E as (Hs & Hn & Hf). split_and!; [lia..| |done].
  rewrite Hf, length_sealWithNonce by done. lia.
Qed.

(** Key derivation is total on 32-byte secrets and refuses every other
    length; it yields two 32-byte keys, which the cipher constructor accepts,
    and a 16-character fingerprint. *)
Theorem derive_keys_total secret id passphrase :
  match DeriveKeys secret id passphrase with
  | Ok ks => length secret = SecretLen /\ length (R2V ks) = 32 /\ length (V2R ks) = 32 /\
      length (Fingerprint ks) = 16 /\
      NewCipher (R2V ks) id = Ok (mkCipher (R2V ks) id) /\
      NewCipher (V2R ks) id = Ok (mkCipher (V2R ks) id)
  | Err e => length secret <> SecretLen /\ e = ErrSecretLen (length secret)
  end.
Proof.
  destruct (decide (length secret = SecretLen)) as [Hs|Hs].
  - destruct (DeriveKeys_Ok secret id passphrase Hs) as (ks & -> & H1 & H2 & H3).
    unfold NewCipher. rewrite H1, H2. done.
  - unfold DeriveKeys. by rewrite decide_True.
Qed.
