(* ===== verification/Json.v ===== *)
(** * Json: the control messages' text

    Go's encoding/json as the runner uses it.  [json_quote] is how json.Marshal
    writes a string; [parse_json] is the decoder's grammar; [unmarshal_relay_msg]
    is json.Unmarshal into the struct of handleControl in
    runner/internal/runner/runner.go (fields t, viewers, viewer_id). *)
From S2P Require Import Prelude Utf8.
From Stdlib Require Import Strings.Byte.
Local Open Scope Z_scope.

(** ** Writing *)

(** A byte written as itself: printable ASCII, except the quote, the backslash
    and the three characters json.Marshal escapes for HTML. *)
Definition html_safe (b : byte) : bool :=
  bool_decide (0x20 <= Z_of_byte b < 0x80)
  && negb (bool_decide (b ∈ str "\<>&" \/ b = x22)).

Definition hex_digit (d : Z) : byte := default x30 (str "0123456789abcdef" !! Z.to_nat d).

Definition escape_byte (b : byte) : bytes :=
  if decide (b = x5c \/ b = x22) then [x5c; b]
  else if decide (b = x08) then str "\b"
  else if decide (b = x0c) then str "\f"
  else if decide (b = x0a) then str "\n"
  else if decide (b = x0d) then str "\r"
  else if decide (b = x09) then str "\t"
  else str "\u00" ++ [hex_digit (Z_of_byte b / 16); hex_digit (Z_of_byte b mod 16)].

(** One step of the quoting loop: the text of the first character of a
    non-empty string, and its width.  Invalid UTF-8 becomes \ufffd. *)
Definition quote_step (s : bytes) : bytes * nat :=
  match s with
  | [] => ([], 0%nat)
  | b :: _ =>
    if decide (Z_of_byte b < 0x80) then
      (if html_safe b then [b] else escape_byte b, 1%nat)
    else
      let '(r, w) := DecodeRune s in
      if decide (r = RuneError /\ w = 1%nat) then (str "\ufffd", 1%nat)
      else if decide (r = 0x2028 \/ r = 0x2029) then
        (str "\u202" ++ [hex_digit (r mod 16)], w)
      else (take w s, w)
  end.

Fixpoint quote_loop (fuel : nat) (s : bytes) : bytes :=
  match fuel, s with
  | S fuel, _ :: _ => let '(t, w) := quote_step s in t ++ quote_loop fuel (drop w s)
  | _, _ => []
  end.

Definition json_quote (s : bytes) : bytes := [x22] ++ quote_loop (length s) s ++ [x22].

(** json.Marshal of a map, its keys already sorted, from the texts of its
    values; and of a map from strings to strings. *)
Fixpoint json_members (l : list (bytes * bytes)) : bytes :=
  match l with
  | [] => []
  | [(k, v)] => json_quote k ++ str ":" ++ v
  | (k, v) :: l => json_quote k ++ str ":" ++ v ++ str "," ++ json_members l
  end.

Definition json_map (l : list (bytes * bytes)) : bytes := str "{" ++ json_members l ++ str "}".

Definition json_object (l : list (bytes * bytes)) : bytes :=
  json_map ((fun '(k, v) => (k, json_quote v)) <$> l).

(** The decimal text of an integer (strconv.Itoa, %d). *)
Fixpoint decimal_digits (fuel : nat) (n : Z) : bytes :=
  match fuel with
  | O => []
  | S fuel =>
    let d := byte_of_Z (48 + n mod 10) in
    if decide (n < 10) then [d] else decimal_digits fuel (n / 10) ++ [d]
  end.

Definition itoa (i : Z) : bytes :=
  let ds := decimal_digits (S (Z.to_nat (Z.log2 (Z.abs i)))) (Z.abs i) in
  if decide (i < 0) then x2d :: ds else ds.

(** ** Reading *)

#[warnings="-register-all"]
Inductive json :=
| JNull
| JBool (b : bool)
| JNumber (text : bytes)
| JString (s : bytes)
| JArray (l : list json)
| JObject (l : list (bytes * json)).

Definition is_space (b : byte) : bool := bool_decide (b ∈ [x20; x09; x0d; x0a]).
Definition is_digit (b : byte) : bool := bool_decide (48 <= Z_of_byte b <= 57).

Fixpoint skip_space (s : bytes) : bytes :=
  match s with
  | b :: s' => if is_space b then skip_space s' else s
  | [] => []
  end.

Fixpoint span (f : byte -> bool) (s : bytes) : bytes * bytes :=
  match s with
  | b :: s' => if f b then let '(l, r) := span f s' in (b :: l, r) else ([], s)
  | [] => ([], [])
  end.

Definition hex_value (b : byte) : option Z :=
  let z := Z_of_byte b in
  if decide (48 <= z <= 57) then Some (z - 48)
  else if decide (97 <= z <= 102) then Some (z - 87)
  else if decide (65 <= z <= 70) then Some (z - 55)
  else None.

(** The four hex digits of a \u escape, and what follows. *)
Definition hex4 (s : bytes) : option (Z * bytes) :=
  match s with
  | a :: b :: c :: d :: s =>
    a ← hex_value a; b ← hex_value b; c ← hex_value c; d ← hex_value d;
    Some (((a * 16 + b) * 16 + c) * 16 + d, s)
  | _ => None
  end.

(** The text of a \u escape already read as [r], with [s] behind it: a
    surrogate pair is one rune, a lone surrogate is U+FFFD. *)
Definition unicode_escape (r : Z) (s : bytes) : bytes * bytes :=
  if decide (0xD800 <= r < 0xDC00) then
    match s with
    | x5c :: x75 :: s' =>
      match hex4 s' with
      | Some (r2, s'') =>
        if decide (0xDC00 <= r2 < 0xE000)
        then (EncodeRune (0x10000 + (r - 0xD800) * 1024 + (r2 - 0xDC00)), s'')
        else (EncodeRune RuneError, s)
      | None => (EncodeRune RuneError, s)
      end
    | _ => (EncodeRune RuneError, s)
    end
  else (EncodeRune r, s).

Definition simple_escape (c : byte) : option byte :=
  match c with
  | x22 => Some x22 | x5c => Some x5c | x2f => Some x2f
  | x62 => Some x08 | x66 => Some x0c | x6e => Some x0a | x72 => Some x0d | x74 => Some x09
  | _ => None
  end.

(** A string's characters, the opening quote already read. *)
Fixpoint parse_chars (fuel : nat) (s : bytes) : option (bytes * bytes) :=
  match fuel with
  | O => None
  | S fuel =>
    match s with
    | [] => None
    | x22 :: s => Some ([], s)
    | x5c :: x75 :: s =>
      '(r, s) ← hex4 s;
      let '(t, s) := unicode_escape r s in
      '(u, s) ← parse_chars fuel s; Some (t ++ u, s)
    | x5c :: c :: s =>
      c ← simple_escape c;
      '(u, s) ← parse_chars fuel s; Some (c :: u, s)
    | b :: s' =>
      if decide (Z_of_byte b < 0x20) then None
      else if decide (Z_of_byte b < 0x80) then
        '(u, s) ← parse_chars fuel s'; Some (b :: u, s)
      else
        let '(r, w) := DecodeRune s in
        '(u, s) ← parse_chars fuel (drop w s); Some (EncodeRune r ++ u, s)
    end
  end.

Definition parse_string (s : bytes) : option (bytes * bytes) := parse_chars (length s) s.

(** A number's text: sign, integer part, fraction, exponent. *)
Definition parse_number (s : bytes) : option (bytes * bytes) :=
  let '(sign, s) := match s with x2d :: s => ([x2d], s) | _ => ([], s) end in
  '(int, s) ← match s with
              | x30 :: s => Some ([x30], s)
              | _ => match span is_digit s with ([], _) => None | p => Some p end
              end;
  '(frac, s) ← match s with
               | x2e :: s => match span is_digit s with
                             | ([], _) => None | (d, s) => Some (x2e :: d, s) end
               | _ => Some ([], s)
               end;
  '(exp, s) ← match s with
              | e :: s' =>
                if decide (e = x65 \/ e = x45) then
                  let '(sg, s') := match s' with
                    | c :: s'' => if decide (c = x2b \/ c = x2d) then ([c], s'') else ([], s')
                    | [] => ([], s') end in
                  match span is_digit s' with
                  | ([], _) => None | (d, s) => Some (e :: sg ++ d, s) end
                else Some ([], s)
              | [] => Some ([], s)
              end;
  Some (sign ++ int ++ frac ++ exp, s).

Definition literal (name : bytes) (v : json) (s : bytes) : option (json * bytes) :=
  if decide (take (length name) s = name) then Some (v, drop (length name) s) else None.

(** The scanner refuses deeper nesting. *)
Definition maxNestingDepth : Z := 10000.

(** [depth] counts the objects and arrays around the value. *)
Fixpoint parse_value (fuel : nat) (depth : Z) (s : bytes) : option (json * bytes) :=
  match fuel with
  | O => None
  | S fuel =>
    match skip_space s with
    | x7b :: s =>
      if decide (maxNestingDepth < depth + 1) then None
      else match skip_space s with
      | x7d :: s => Some (JObject [], s)
      | s => '(l, s) ← parse_members fuel (depth + 1) s; Some (JObject l, s)
      end
    | x5b :: s =>
      if decide (maxNestingDepth < depth + 1) then None
      else match skip_space s with
      | x5d :: s => Some (JArray [], s)
      | s => '(l, s) ← parse_elements fuel (depth + 1) s; Some (JArray l, s)
      end
    | x22 :: s => '(t, s) ← parse_string s; Some (JString t, s)
    | (x74 :: _) as s => literal (str "true") (JBool true) s
    | (x66 :: _) as s => literal (str "false") (JBool false) s
    | (x6e :: _) as s => literal (str "null") JNull s
    | s => '(t, s) ← parse_number s; Some (JNumber t, s)
    end
  end
with parse_members (fuel : nat) (depth : Z) (s : bytes) : option (list (bytes * json) * bytes) :=
  match fuel with
  | O => None
  | S fuel =>
    match skip_space s with
    | x22 :: s =>
      '(k, s) ← parse_string s;
      match skip_space s with
      | x3a :: s =>
        '(v, s) ← parse_value fuel depth s;
        match skip_space s with
        | x2c :: s => '(l, s) ← parse_members fuel depth s; Some ((k, v) :: l, s)
        | x7d :: s => Some ([(k, v)], s)
        | _ => None
        end
      | _ => None
      end
    | _ => None
    end
  end
with parse_elements (fuel : nat) (depth : Z) (s : bytes) : option (list json * bytes) :=
  match fuel with
  | O => None
  | S fuel =>
    '(v, s) ← parse_value fuel depth s;
    match skip_space s with
    | x2c :: s => '(l, s) ← parse_elements fuel depth s; Some (v :: l, s)
    | x5d :: s => Some ([v], s)
    | _ => None
    end
  end.

(** A whole document: one value, then only white space. *)
Definition parse_json (data : bytes) : option json :=
  '(v, s) ← parse_value (S (length data)) 0 data;
  match skip_space s with [] => Some v | _ => None end.

(** ** Unmarshalling the relay's control messages *)

Record relay_msg := mkRelayMsg { msg_t : bytes; msg_viewers : Z; msg_viewer_id : bytes }.

#[export] Instance relay_msg_eq_dec : EqDecision relay_msg.
Proof. solve_decision. Defined.

(** Member names match a field exactly or up to case folding; the runes that
    fold to an ASCII letter are its two cases, and U+017F and U+212A. *)
Definition fold_rune (r : Z) : Z :=
  if decide (97 <= r <= 122) then r - 32
  else if decide (r = 0x17F) then 83
  else if decide (r = 0x212A) then 75
  else r.

Definition folds_to (k field : bytes) : bool :=
  bool_decide (fold_rune <$> (string_runes k).*2 = fold_rune <$> (string_runes field).*2).

(** strconv.ParseInt of a JSON number's text, into an int of 64 bits. *)
Definition parse_int64 (t : bytes) : option Z :=
  let '(neg, ds) := match t with x2d :: ds => (true, ds) | _ => (false, t) end in
  if decide (ds <> [] /\ forallb is_digit ds) then
    let n := foldl (fun acc d => acc * 10 + (Z_of_byte d - 48)) 0 ds in
    let z := if neg : bool then - n else n in
    if decide (- 2 ^ 63 <= z < 2 ^ 63) then Some z else None
  else None.

(** The digits of a number are read back. *)
Lemma byte_of_digit n : 0 <= n < 10 -> Z_of_byte (byte_of_Z (48 + n)) = 48 + n.
Proof. intros. rewrite Z_of_byte_of_Z. apply Z.mod_small. lia. Qed.

Definition number_of (ds : bytes) : Z := foldl (fun acc d => acc * 10 + (Z_of_byte d - 48)) 0 ds.

Lemma decimal_digits_read fuel n :
  0 <= n -> n < 2 ^ Z.of_nat fuel ->
  number_of (decimal_digits fuel n) = n /\ forallb is_digit (decimal_digits fuel n) = true /\
  (fuel <> 0%nat -> decimal_digits fuel n <> []).
Proof.
  revert n. induction fuel as [|fuel IH]; intros n H0 Hlt.
  { change (2 ^ Z.of_nat 0) with 1 in Hlt. split_and!; [simpl; unfold number_of; simpl; lia|done|done]. }
  assert (forall m, 0 <= m < 10 -> is_digit (byte_of_Z (48 + m)) = true) as Hd
    by (intros m Hm; unfold is_digit; rewrite byte_of_digit by done; apply bool_decide_true; lia).
  pose proof (Z.mod_pos_bound n 10 ltac:(done)) as Hm. simpl. case_decide as Hn.
  - unfold number_of. simpl. rewrite byte_of_digit, Hd by done. rewrite Z.mod_small by lia.
    split_and!; [lia|done|done].
  - destruct (IH (n / 10)) as (H1 & H2 & _); [apply Z.div_pos; lia| |].
    { rewrite Nat2Z.inj_succ, Z.pow_succ_r in Hlt by lia.
      apply Z.div_lt_upper_bound; lia. }
    unfold number_of in *. rewrite foldl_app, forallb_app, H1, H2. simpl.
    rewrite byte_of_digit, Hd by done. split_and!; [|done|by destruct (decimal_digits _ _)].
    pose proof (Z.div_mod n 10 ltac:(done)). lia.
Qed.

Lemma parse_int64_itoa z : - 2 ^ 63 <= z < 2 ^ 63 -> parse_int64 (itoa z) = Some z.
Proof.
  intros Hz. unfold itoa. set (fuel := S _).
  assert (Z.abs z < 2 ^ Z.of_nat fuel) as Hf.
  { unfold fuel. rewrite Nat2Z.inj_succ, Z2Nat.id by apply Z.log2_nonneg.
    destruct (decide (z = 0)) as [->|]; [done|]. apply Z.log2_spec. lia. }
  destruct (decimal_digits_read fuel (Z.abs z) ltac:(lia) Hf) as (Hn & Hd & Hne).
  specialize (Hne ltac:(done)). unfold number_of in Hn.
  set (ds := decimal_digits fuel (Z.abs z)) in *. unfold parse_int64. case_decide as Hneg.
  - rewrite decide_True by (split; [done|by rewrite Hd]). rewrite Hn.
    rewrite decide_True by lia. f_equal. lia.
  - destruct ds as [|d ds'] eqn:E; [done|].
    assert (d <> x2d) as Hdash.
    { by intros ->. }
    rewrite <- E in *.
    replace (match d with x2d => (true, ds') | _ => (false, ds) end) with (false, ds)
      by (by destruct d).
    rewrite decide_True by (split; [done|by rewrite Hd]). rewrite Hn.
    rewrite decide_True by lia. f_equal. lia.
Qed.

(** One member into the struct: [None] is a type error, which makes the whole
    Unmarshal fail; null leaves the field alone; unknown members are skipped. *)
Definition set_member (m : relay_msg) (kv : bytes * json) : option relay_msg :=
  let '(k, v) := kv in
  if folds_to k (str "t") then
    match v with
    | JString s => Some (mkRelayMsg s (msg_viewers m) (msg_viewer_id m))
    | JNull => Some m
    | _ => None
    end
  else if folds_to k (str "viewers") then
    match v with
    | JNumber t => z ← parse_int64 t; Some (mkRelayMsg (msg_t m) z (msg_viewer_id m))
    | JNull => Some m
    | _ => None
    end
  else if folds_to k (str "viewer_id") then
    match v with
    | JString s => Some (mkRelayMsg (msg_t m) (msg_viewers m) s)
    | JNull => Some m
    | _ => None
    end
  else Some m.

Definition unmarshal_relay_msg (data : bytes) : option relay_msg :=
  v ← parse_json data;
  match v with
  | JObject l => foldl (fun m kv => m ≫= fun m => set_member m kv) (Some (mkRelayMsg [] 0 [])) l
  | JNull => Some (mkRelayMsg [] 0 [])
  | _ => None
  end.

(** A JSON text given with single quotes for readability. *)
Definition json_text (s : string) : bytes :=
  (fun b => if decide (b = x27) then x22 else b) <$> str s.

Example unmarshal_peer_join :
  unmarshal_relay_msg (json_text "{'t':'peer_join','viewer_id':'v\u0041', 'viewers':2}")
  = Some (mkRelayMsg (str "peer_join") 2 (str "vA")).
Proof. vm_compute. reflexivity. Qed.

Example unmarshal_case_folds :
  unmarshal_relay_msg (json_text " {'T':'hello','VIEWERS':1,'locked':true,'x':[1,{'y':null}]} ")
  = Some (mkRelayMsg (str "hello") 1 []).
Proof. vm_compute. reflexivity. Qed.

Example unmarshal_type_error :
  unmarshal_relay_msg (json_text "{'t':'hello','viewers':1.5}") = None.
Proof. vm_compute. reflexivity. Qed.

Example unmarshal_trailing : unmarshal_relay_msg (json_text "{'t':'hello'} x") = None.
Proof. vm_compute. reflexivity. Qed.

Example quote_ex :
  json_quote (str "a<" ++ [x0a; x01; xff]) = json_text "'a\u003c\n\u0001\ufffd'".
Proof. vm_compute. reflexivity. Qed.
