(* ===== verification/JsonText.v ===== *)
(** * JsonText: what a reader of the program's JSON recovers

    The round trip between the writer and the reader of Json, for every byte
    string: a quoted string reads back as the string with its invalid bytes
    replaced, a map as its members in order.  The messages of
    runner/internal/runner/runner.go (to_viewer) and
    runner/internal/relayclient/client.go (the create request) are instances. *)
From S2P Require Import Prelude Utf8 Encodings Json.
From Stdlib Require Import Strings.Byte.
Local Open Scope Z_scope.

(** ** Strings *)

(** One character below 128, as itself or escaped. *)
Lemma parse_ascii_step f b k :
  Z_of_byte b < 0x80 ->
  parse_chars (S f) ((if html_safe b then [b] else escape_byte b) ++ k)
  = '(u, s) ← parse_chars f k; Some (b :: u, s).
Proof. intros H. destruct b; try reflexivity; by vm_compute in H. Qed.

(** A byte that starts a longer rune is read by the rune decoder. *)
Lemma parse_rune_step f b k :
  ~ (Z_of_byte b < 0x80) ->
  parse_chars (S f) (b :: k)
  = let '(r, w) := DecodeRune (b :: k) in
    '(u, s) ← parse_chars f (drop w (b :: k)); Some (EncodeRune r ++ u, s).
Proof. intros H. destruct b; try reflexivity; by exfalso; apply H. Qed.

Lemma parse_escape_step f a b c d r k :
  hex4 [a; b; c; d] = Some (r, []) -> ~ (0xD800 <= r < 0xDC00) ->
  parse_chars (S f) ([x5c; x75; a; b; c; d] ++ k)
  = '(u, s) ← parse_chars f k; Some (EncodeRune r ++ u, s).
Proof.
  simpl. destruct (hex_value a) as [va|]; [|done]. destruct (hex_value b) as [vb|]; [|done].
  destruct (hex_value c) as [vc|]; [|done]. destruct (hex_value d) as [vd|]; [|done].
  simpl. intros [= <-] Hr. unfold unicode_escape. by rewrite decide_False.
Qed.

(** One step of the writer is one step of the reader. *)
Lemma parse_quote_step f b s k :
  parse_chars (S f) ((quote_step (b :: s)).1 ++ k)
  = ('(u, rest) ← parse_chars f k; Some (EncodeRune (DecodeRune (b :: s)).1 ++ u, rest)) /\
  (quote_step (b :: s)).2 = (DecodeRune (b :: s)).2.
Proof.
  unfold quote_step. destruct (decide (Z_of_byte b < 0x80)) as [Hb|Hb].
  { rewrite DecodeRune_ascii by done. cbn [fst snd]. rewrite parse_ascii_step by done.
    by rewrite EncodeRune_ascii. }
  destruct (DecodeRune (b :: s)) as [r w] eqn:Hd.
  destruct (decide (r = RuneError /\ w = 1%nat)) as [[-> ->]|Hne].
  { split; [|done]. cbn [fst snd]. apply (parse_escape_step f x66 x66 x66 x64); [reflexivity|unfold RuneError; lia]. }
  destruct (decide (r = 0x2028 \/ r = 0x2029)) as [[-> | ->]|_]; cbn [fst snd].
  - split; [|done]. apply (parse_escape_step f x32 x30 x32 x38); [reflexivity|unfold RuneError; lia].
  - split; [|done]. apply (parse_escape_step f x32 x30 x32 x39); [reflexivity|unfold RuneError; lia].
  - split; [|done]. destruct (DecodeRune_local b s r w k Hd Hne) as [Hl Hw].
    destruct w as [|w]; [lia|]. cbn [take app] in Hl |- *.
    rewrite parse_rune_step by done. rewrite Hl. cbn [drop]. do 2 f_equal.
    change (take w s ++ k) with (take w s ++ k). rewrite drop_app_length'; [done|].
    rewrite length_take. simpl in Hw. lia.
Qed.

(** Each step of the writer shortens its input. *)
Lemma quote_step_width b s : (1 <= (quote_step (b :: s)).2)%nat.
Proof.
  unfold quote_step. destruct (decide (Z_of_byte b < 0x80)); [simpl; lia|].
  destruct (DecodeRune (b :: s)) as [r w] eqn:Hd.
  destruct (decide (r = RuneError /\ w = 1%nat)) as [|Hne]; [simpl; lia|].
  destruct (DecodeRune_local b s r w [] Hd Hne). case_decide; simpl; lia.
Qed.

Lemma quote_step_text b s : (1 <= length (quote_step (b :: s)).1)%nat.
Proof.
  unfold quote_step. destruct (decide (Z_of_byte b < 0x80)).
  { unfold escape_byte. repeat case_match; simpl; lia. }
  destruct (DecodeRune (b :: s)) as [r w] eqn:Hd.
  destruct (decide (r = RuneError /\ w = 1%nat)) as [|Hne]; [simpl; lia|].
  destruct (DecodeRune_local b s r w [] Hd Hne).
  case_decide; [simpl; lia|]. cbn [fst]. rewrite length_take. lia.
Qed.

(** A quoted string, read: the reader's fuel need only cover the text. *)
Lemma parse_quoted fq s i fp tail :
  (length s <= fq)%nat -> (length (quote_loop fq s) < fp)%nat ->
  parse_chars fp (quote_loop fq s ++ x22 :: tail)
  = Some (encode_runes (range_runes fq i s).*2, tail).
Proof.
  revert s i fp. induction fq as [|fq IH]; intros s i fp Hq Hp.
  { destruct s; [|simpl in Hq; lia]. by destruct fp as [|fp]; [simpl in Hp; lia|]. }
  destruct s as [|b s]; [by destruct fp as [|fp]; [simpl in Hp; lia|]|].
  cbn [quote_loop range_runes] in Hp |- *.
  destruct fp as [|fp]; [lia|].
  destruct (parse_quote_step fp b s
    (quote_loop fq (drop (quote_step (b :: s)).2 (b :: s)) ++ x22 :: tail)) as [Hstep Hw].
  pose proof (quote_step_width b s) as H1. pose proof (quote_step_text b s) as H2.
  destruct (quote_step (b :: s)) as [t w]. destruct (DecodeRune (b :: s)) as [r w'].
  cbn [fst snd] in *. subst w'. rewrite <- (assoc_L (++)), Hstep.
  rewrite length_app in Hp. rewrite (IH _ (i + w)%nat); [done| |lia].
  rewrite length_drop. simpl in Hq |- *. lia.
Qed.

(** ** Values *)

(** What may follow a member's value. *)
Definition ends_member (rest : bytes) : Prop := head rest = Some x2c \/ head rest = Some x7d.

(** [t] is a text of [v]. *)
Definition reads_as (t : bytes) (v : json) : Prop :=
  forall fuel depth rest, ends_member rest -> parse_value (S fuel) depth (t ++ rest) = Some (v, rest).

Lemma parse_string_quoted s tail :
  parse_string (quote_loop (length s) s ++ x22 :: tail) = Some (to_valid s, tail).
Proof.
  unfold parse_string. apply (parse_quoted _ _ 0%nat); [done|]. rewrite length_app. simpl. lia.
Qed.

Lemma json_quote_reads s : reads_as (json_quote s) (JString (to_valid s)).
Proof.
  intros fuel depth rest _. unfold json_quote.
  change (([x22] ++ quote_loop (length s) s ++ [x22]) ++ rest)
    with (x22 :: ((quote_loop (length s) s ++ [x22]) ++ rest)).
  rewrite <- (assoc_L (++)). cbn [app].
  change (parse_value (S fuel) depth (x22 :: (quote_loop (length s) s ++ x22 :: rest)))
    with ('(t, s) ← parse_string (quote_loop (length s) s ++ x22 :: rest); Some (JString t, s)).
  by rewrite parse_string_quoted.
Qed.

Lemma true_reads : reads_as (str "true") (JBool true).
Proof. intros fuel depth rest _. reflexivity. Qed.

(** ** Numbers *)

Lemma span_digits ds c rest :
  forallb is_digit ds = true -> is_digit c = false ->
  span is_digit (ds ++ c :: rest) = (ds, c :: rest).
Proof.
  intros Hd Hc. induction ds as [|d ds IH]; simpl in *; [by rewrite Hc|].
  apply andb_true_iff in Hd as [-> Hd]. by rewrite IH.
Qed.

(** The digits of a positive number do not start with a zero. *)
Lemma decimal_digits_head fuel n :
  0 < n -> n < 2 ^ Z.of_nat fuel -> exists d ds, decimal_digits fuel n = d :: ds /\ d <> x30.
Proof.
  revert n. induction fuel as [|fuel IH]; intros n H0 Hlt; [change (2 ^ Z.of_nat 0) with 1 in Hlt; lia|].
  simpl. case_decide as Hn.
  - do 2 eexists. split; [done|]. intros E. apply (f_equal Z_of_byte) in E.
    rewrite Z.mod_small, byte_of_digit in E by lia. change (Z_of_byte x30) with 48 in E. lia.
  - destruct (IH (n / 10)) as (d & ds & -> & Hd).
    + apply Z.div_str_pos. lia.
    + rewrite Nat2Z.inj_succ, Z.pow_succ_r in Hlt by lia. apply Z.div_lt_upper_bound; lia.
    + by exists d, (ds ++ [byte_of_Z (48 + n mod 10)]).
Qed.

(** The integer part, the sign already read. *)
Definition integer_text (ds : bytes) : Prop :=
  forallb is_digit ds = true /\ (ds = [x30] \/ exists d ds', ds = d :: ds' /\ d <> x30).

Lemma itoa_text z : exists ds, integer_text ds /\ itoa z = if decide (z < 0) then x2d :: ds else ds.
Proof.
  unfold itoa. set (fuel := S _). exists (decimal_digits fuel (Z.abs z)). split; [|done].
  assert (Z.abs z < 2 ^ Z.of_nat fuel) as Hf.
  { unfold fuel. rewrite Nat2Z.inj_succ, Z2Nat.id by apply Z.log2_nonneg.
    destruct (decide (z = 0)) as [->|]; [done|]. apply Z.log2_spec. lia. }
  destruct (decimal_digits_read fuel (Z.abs z) ltac:(lia) Hf) as (_ & Hd & _). split; [done|].
  destruct (decide (z = 0)) as [->|Hz]; [by left|right].
  apply decimal_digits_head; lia.
Qed.

Lemma parse_number_digits ds c rest :
  integer_text ds -> c = x2c \/ c = x7d ->
  parse_number (ds ++ c :: rest) = Some (ds, c :: rest) /\
  parse_number (x2d :: ds ++ c :: rest) = Some (x2d :: ds, c :: rest).
Proof.
  intros [Hd [->|(d & ds' & -> & Hne)]] Hc.
  { by destruct Hc as [-> | ->]. }
  assert (span is_digit ((d :: ds') ++ c :: rest) = (d :: ds', c :: rest)) as Hsp
    by (apply span_digits; [done|by destruct Hc as [-> | ->]]).
  assert (is_digit d = true) as Hdd by (simpl in Hd; by apply andb_true_iff in Hd as [? _]).
  change ((d :: ds') ++ c :: rest) with (d :: (ds' ++ c :: rest)) in *.
  assert (forall k, d = k -> is_digit k = true /\ k <> x30) as Hk by (by intros k <-).
  destruct d; try (by destruct (Hk _ eq_refl)); unfold parse_number; rewrite Hsp; cbn [mbind option_bind];
    destruct Hc as [-> | ->]; cbn; rewrite decide_False by (by intros [?|?]);
    cbn; by rewrite app_nil_r.
Qed.

Lemma itoa_reads z : reads_as (itoa z) (JNumber (itoa z)).
Proof.
  intros fuel depth rest Hr. destruct (itoa_text z) as (ds & Hds & ->).
  assert (exists c k, rest = c :: k /\ (c = x2c \/ c = x7d)) as (c & k & -> & Hc).
  { destruct rest as [|c k]; destruct Hr as [[= ->]|[= ->]]; eauto. }
  destruct (parse_number_digits ds c k Hds Hc) as [H1 H2].
  case_decide.
  - change (parse_value (S fuel) depth ((x2d :: ds) ++ c :: k))
      with ('(t, s) ← parse_number (x2d :: ds ++ c :: k); Some (JNumber t, s)).
    by rewrite H2.
  - assert (parse_value (S fuel) depth (ds ++ c :: k)
      = ('(t, s) ← parse_number (ds ++ c :: k); Some (JNumber t, s))) as ->; [|by rewrite H1].
    destruct Hds as [Hd [->|(d & ds' & -> & _)]]; [done|].
    assert (is_digit d = true) as Hdd by (simpl in Hd; by apply andb_true_iff in Hd as [? _]).
    clear -Hdd. destruct d; try done; reflexivity.
Qed.

(** ** Maps *)

(** The members of a map whose keys and values have texts. *)
Lemma parse_members_reads l fuel depth rest :
  Forall (fun m => reads_as m.1.2 m.2) l -> l <> [] -> (length l < fuel)%nat ->
  parse_members fuel depth (json_members (fst <$> l) ++ x7d :: rest)
  = Some ((fun m => (to_valid m.1.1, m.2)) <$> l, rest).
Proof.
  intros Hl. revert fuel. induction Hl as [|[[k t] v] l Hv Hl IH]; intros fuel Hne Hf; [done|].
  destruct fuel as [|[|fuel]]; [simpl in Hf; lia..|]. cbn [fst snd] in Hv.
  assert (forall after, parse_members (S (S fuel)) depth (json_quote k ++ str ":" ++ t ++ after)
    = '(v, s) ← parse_value (S fuel) depth (t ++ after);
      match skip_space s with
      | x2c :: s => '(l, s) ← parse_members (S fuel) depth s; Some ((to_valid k, v) :: l, s)
      | x7d :: s => Some ([(to_valid k, v)], s)
      | _ => None
      end) as Hstep.
  { intros after. unfold json_quote.
    change (([x22] ++ quote_loop (length k) k ++ [x22]) ++ str ":" ++ t ++ after)
      with (x22 :: ((quote_loop (length k) k ++ [x22]) ++ x3a :: t ++ after)).
    rewrite <- (assoc_L (++)). cbn [app].
    change (parse_members (S (S fuel)) depth (x22 :: (quote_loop (length k) k ++ x22 :: x3a :: t ++ after)))
      with ('(k, s) ← parse_string (quote_loop (length k) k ++ x22 :: x3a :: t ++ after);
            match skip_space s with
            | x3a :: s =>
              '(v, s) ← parse_value (S fuel) depth s;
              match skip_space s with
              | x2c :: s => '(l, s) ← parse_members (S fuel) depth s; Some ((k, v) :: l, s)
              | x7d :: s => Some ([(k, v)], s)
              | _ => None
              end
            | _ => None
            end).
    by rewrite parse_string_quoted. }
  destruct l as [|m l].
  - cbn [fmap list_fmap json_members fst]. rewrite <- !(assoc_L (++)), Hstep, Hv by (by right). done.
  - change (json_members (fst <$> ((k, t, v) :: m :: l)))
      with (json_quote k ++ str ":" ++ t ++ str "," ++ json_members (fst <$> (m :: l))).
    rewrite <- !(assoc_L (++)), Hstep, Hv by (by left).
    change (str "," ++ json_members (fst <$> (m :: l)) ++ x7d :: rest)
      with (x2c :: (json_members (fst <$> (m :: l)) ++ x7d :: rest)).
    transitivity ('(l, s) ← parse_members (S fuel) depth (json_members (fst <$> (m :: l)) ++ x7d :: rest);
                  Some ((to_valid k, v) :: l, s)); [reflexivity|].
    rewrite IH; [done|done|]. simpl in Hf |- *. lia.
Qed.

Lemma members_length l : (length l <= length (json_members l))%nat.
Proof.
  induction l as [|[k v] l IH]; [done|]. destruct l as [|m l].
  - simpl. lia.
  - change (json_members ((k, v) :: m :: l))
      with (json_quote k ++ str ":" ++ v ++ str "," ++ json_members (m :: l)).
    rewrite !length_app. simpl length in *. lia.
Qed.

(** A map's text reads back as its members. *)
Lemma parse_json_map l :
  Forall (fun m => reads_as m.1.2 m.2) l -> l <> [] ->
  parse_json (json_map (fst <$> l)) = Some (JObject ((fun m => (to_valid m.1.1, m.2)) <$> l)).
Proof.
  intros Hl Hne. unfold parse_json, json_map.
  set (n := length (str "{" ++ json_members (fst <$> l) ++ str "}")).
  assert (length l < n)%nat as Hn.
  { subst n. rewrite !length_app. simpl. pose proof (members_length (fst <$> l)) as H.
    rewrite length_fmap in H. lia. }
  assert (parse_value (S n) 0 (str "{" ++ json_members (fst <$> l) ++ str "}")
    = '(l, s) ← parse_members n 1 (json_members (fst <$> l) ++ x7d :: []); Some (JObject l, s)) as ->.
  { destruct l as [|[[k t] v] l]; [done|]. by destruct l. }
  by rewrite parse_members_reads.
Qed.
