(* ===== verification/Session.v ===== *)
(** * Session: the command in its pseudo-terminal

    Models runner/internal/ptysession/session.go.  The kernel side (the pty
    device, the child) is behind [pty_call], the calls the code makes on it;
    the fields the code keeps are [Session]. *)
From S2P Require Import Prelude.

(** What the code asks of the operating system. *)
Inductive pty_call :=
| PtyWrite (p : bytes)                 (* s.ptmx.Write *)
| PtySetsize (cols rows : Z)           (* pty.Setsize: TIOCSWINSZ, SIGWINCH *)
| PtySigterm                           (* cmd.Process.Signal(SIGTERM) *)
| PtyClose.                            (* s.ptmx.Close *)

#[export] Instance pty_call_eq_dec : EqDecision pty_call.
Proof. solve_decision. Defined.

(** cmd.ProcessState is nil until Wait has returned, then holds the exit code. *)
Record Session := mkSession { sess_cols : Z; sess_rows : Z; sess_state : option Z }.

Inductive start_error := errEmptyCommand | errStart.

(** Start: [started] is whether pty.Start succeeded on argv. *)
Definition Start (argv : list bytes) (started : bool) : result start_error Session :=
  match argv with
  | [] => Err errEmptyCommand
  | _ => if started then Ok (mkSession 0 0 None) else Err errStart
  end.

Definition Session_Write (s : Session) (p : bytes) : list pty_call := [PtyWrite p].

Definition SetSize (s : Session) (cols rows : Z) : Session * list pty_call :=
  if decide (cols = 0 \/ rows = 0)%Z then (s, [])
  else (mkSession cols rows (sess_state s), [PtySetsize cols rows]).

Definition Size (s : Session) : Z * Z := (sess_cols s, sess_rows s).

(** Wait returns when the child has ended, leaving its exit code behind. *)
Definition Wait (s : Session) (code : Z) : Session :=
  mkSession (sess_cols s) (sess_rows s) (Some code).

Definition ExitCode (s : Session) : Z := default (-1)%Z (sess_state s).

Definition Session_Close (s : Session) : list pty_call := [PtyClose].

(** A session always has a process: Start assigns it. *)
Definition Terminate (s : Session) : list pty_call := PtySigterm :: Session_Close s.

(** A size is unknown (never set) or has two positive dimensions. *)
Definition size_known (s : Session) : Prop :=
  sess_cols s = 0%Z /\ sess_rows s = 0%Z \/ sess_cols s <> 0%Z /\ sess_rows s <> 0%Z.

Lemma SetSize_known s cols rows : size_known s -> size_known (SetSize s cols rows).1.
Proof. unfold SetSize, size_known. intros. case_decide; simpl; [done|lia]. Qed.

Lemma SetSize_state s cols rows : sess_state (SetSize s cols rows).1 = sess_state s.
Proof. unfold SetSize. by case_decide. Qed.
