(* ===== verification/Control.v ===== *)
(** * Control: who may type, and which frames are replays

    Models the state of runner/internal/runner/runner.go behind stateMu (the
    replay floors, the route map, the control owner and its route, the
    once-grant latch) and each critical section on it.  The handlers that call
    these sections are in Handlers.  An owner of [""] means nobody. *)
From S2P Require Import Prelude Wire.
From Stdlib Require Import Strings.Byte.

(** ** The state *)

Inductive ControlMode := ControlAuto | ControlViewOnly | ControlOnce.

#[export] Instance ControlMode_eq_dec : EqDecision ControlMode.
Proof. solve_decision. Defined.

Record ViewerState := mkViewerState {
  inSeqByViewer : gmap bytes Z;
  selfByRoute : gmap bytes bytes;
  controlOwner : bytes;
  ownerRoute : bytes;
  onceUsed : bool
}.

Definition viewers0 : ViewerState := mkViewerState ∅ ∅ [] [] false.

(** A Go map read: the zero value when the key is absent. *)
Definition floor (st : ViewerState) (viewerID : bytes) : Z :=
  default 0%Z (inSeqByViewer st !! viewerID).

Definition set_owner (owner route : bytes) (st : ViewerState) : ViewerState :=
  mkViewerState (inSeqByViewer st) (selfByRoute st) owner route (onceUsed st).

(** ** The critical sections *)

Definition acceptSeq (viewerID : bytes) (seq : Z) (st : ViewerState) : bool * ViewerState :=
  if decide (seq <= floor st viewerID)%Z then (false, st)
  else (true, mkViewerState (<[ viewerID := seq ]> (inSeqByViewer st)) (selfByRoute st)
                (controlOwner st) (ownerRoute st) (onceUsed st)).

Definition bindRoute (routeID viewerID : bytes) (st : ViewerState) : ViewerState :=
  mkViewerState (inSeqByViewer st) (<[ routeID := viewerID ]> (selfByRoute st))
    (controlOwner st) (ownerRoute st) (onceUsed st).

(** uint64 arithmetic: the sum wraps. *)
Definition baseline (viewerID : bytes) (st : ViewerState) : Z := u64 (floor st viewerID + 1).

Definition viewerHasControl (viewerID : bytes) (st : ViewerState) : bool :=
  bool_decide (controlOwner st = viewerID).

Definition controlState (viewerID : bytes) (st : ViewerState) : byte :=
  if decide (controlOwner st = []) then ControlReadOnly
  else if decide (controlOwner st = viewerID) then ControlGranted
  else ControlTaken.

Definition clearControlOwner (st : ViewerState) : ViewerState :=
  mkViewerState (inSeqByViewer st) ∅ [] [] (onceUsed st).

Definition forgetViewer (routeID : bytes) (st : ViewerState) : ViewerState :=
  let st :=
    match selfByRoute st !! routeID with
    | Some self =>
      let st := mkViewerState (inSeqByViewer st) (delete routeID (selfByRoute st))
                  (controlOwner st) (ownerRoute st) (onceUsed st) in
      if decide (controlOwner st = self) then set_owner [] [] st else st
    | None => st
    end in
  if decide (ownerRoute st = routeID) then set_owner [] [] st else st.

(** handleControlRequest's section: the state byte for the reply, and whether
    control was newly taken. *)
Definition request_section (control : ControlMode) (viewerID routeID : bytes) (st : ViewerState)
    : byte * bool * ViewerState :=
  if decide (controlOwner st = viewerID) then (ControlGranted, false, st)
  else if decide (controlOwner st <> []) then (ControlTaken, false, st)
  else if decide (control = ControlViewOnly \/ (control = ControlOnce /\ onceUsed st))
  then (ControlReadOnly, false, st)
  else
    let used := if decide (control = ControlOnce) then true else onceUsed st in
    (ControlGranted, true,
      mkViewerState (inSeqByViewer st) (selfByRoute st) viewerID routeID used).

(** handleControlRelease's section: whether the viewer did own control. *)
Definition release_section (viewerID : bytes) (st : ViewerState) : bool * ViewerState :=
  if decide (controlOwner st = viewerID) then (true, set_owner [] [] st) else (false, st).

(** Revoke's section: the owner and route it read. *)
Definition revoke_section (st : ViewerState) : bytes * bytes * ViewerState :=
  (controlOwner st, ownerRoute st,
    if decide (controlOwner st <> []) then set_owner [] [] st else st).

(** ** Well-formedness

    An owner always comes with the route that reaches it, floors are uint64
    values, bound ids are non-empty, and the policy bounds the grants: none
    under view-only, and under once an owner means the grant is spent. *)
Record wf_viewers (control : ControlMode) (st : ViewerState) : Prop := {
  wf_owner_route : controlOwner st = [] <-> ownerRoute st = [];
  wf_floors : forall v, (0 <= floor st v < 2 ^ 64)%Z;
  wf_bound_ids : forall r v, selfByRoute st !! r = Some v -> r <> [] /\ v <> [];
  wf_view_only : control = ControlViewOnly -> controlOwner st = [];
  wf_once : control = ControlOnce -> controlOwner st <> [] -> onceUsed st = true
}.

(** No floor moves down: the order of states that replay protection keeps. *)
Definition floors_le (st st' : ViewerState) : Prop := forall v, (floor st v <= floor st' v)%Z.

#[export] Instance floors_le_preorder : PreOrder floors_le.
Proof. split; [by intros ? ?|]. intros x y z H1 H2 v. specialize (H1 v); specialize (H2 v). lia. Qed.

(** ** Each section keeps the state well formed and lowers no floor *)

Create HintDb control.

Lemma wf_viewers0 control : wf_viewers control viewers0.
Proof. split; unfold floor; simpl; try done; intros *; by rewrite lookup_empty. Qed.

Lemma floor_accept v w seq st :
  floor (mkViewerState (<[ w := seq ]> (inSeqByViewer st)) (selfByRoute st)
           (controlOwner st) (ownerRoute st) (onceUsed st)) v
  = if decide (w = v) then seq else floor st v.
Proof. unfold floor; simpl. rewrite lookup_insert. by case_decide. Qed.

Lemma acceptSeq_wf control v seq st :
  (0 <= seq < 2 ^ 64)%Z -> wf_viewers control st -> wf_viewers control (acceptSeq v seq st).2.
Proof.
  intros Hs Hwf. unfold acceptSeq. case_decide as Hle; [done|]. simpl.
  destruct Hwf as [H1 H2 H3 H4 H5]; split; simpl; try done.
  intros w. rewrite floor_accept. case_decide; [lia|apply H2].
Qed.

Lemma acceptSeq_floors v seq st : floors_le st (acceptSeq v seq st).2.
Proof.
  unfold acceptSeq. case_decide as Hle; [done|]. intros w; simpl.
  rewrite floor_accept. case_decide; [subst|]; lia.
Qed.

Lemma bindRoute_wf control r v st :
  r <> [] -> v <> [] -> wf_viewers control st -> wf_viewers control (bindRoute r v st).
Proof.
  intros Hr Hv [H1 H2 H3 H4 H5]; split; simpl; try done.
  intros r' v'. rewrite lookup_insert. case_decide; [subst; by intros [= <-]|apply H3].
Qed.

Lemma set_owner_nil_wf control st : wf_viewers control st -> wf_viewers control (set_owner [] [] st).
Proof. intros [H1 H2 H3 H4 H5]; split; simpl; done. Qed.

Lemma clearControlOwner_wf control st :
  wf_viewers control st -> wf_viewers control (clearControlOwner st).
Proof. intros [H1 H2 H3 H4 H5]; split; simpl; try done. Qed.

Lemma delete_route_wf control r st :
  wf_viewers control st ->
  wf_viewers control (mkViewerState (inSeqByViewer st) (delete r (selfByRoute st))
    (controlOwner st) (ownerRoute st) (onceUsed st)).
Proof.
  intros [H1 H2 H3 H4 H5]; split; simpl; try done.
  intros r' v' [_ ?]%lookup_delete_Some. by apply H3.
Qed.
#[export] Hint Resolve set_owner_nil_wf delete_route_wf clearControlOwner_wf bindRoute_wf
  acceptSeq_wf acceptSeq_floors wf_viewers0 : control.

Lemma forgetViewer_wf control r st :
  wf_viewers control st -> wf_viewers control (forgetViewer r st).
Proof. intros. unfold forgetViewer. repeat case_match; eauto with control. Qed.

Lemma request_section_wf control v r st :
  v <> [] -> r <> [] -> wf_viewers control st ->
  wf_viewers control (request_section control v r st).2.
Proof.
  intros Hv Hr Hwf. unfold request_section.
  case_decide; [done|]. case_decide; [done|].
  destruct (decide (control = ControlViewOnly \/ control = ControlOnce /\ onceUsed st)) as [?|Hg];
    [done|].
  destruct Hwf as [H1 H2 H3 H4 H5]; split; simpl; try done; [tauto|].
  intros -> _. by rewrite decide_True.
Qed.

Lemma release_section_wf control v st :
  wf_viewers control st -> wf_viewers control (release_section v st).2.
Proof. intros. unfold release_section. case_decide; eauto with control. Qed.

Lemma revoke_section_wf control st :
  wf_viewers control st -> wf_viewers control (revoke_section st).2.
Proof. intros. unfold revoke_section. simpl. case_decide; eauto with control. Qed.
#[export] Hint Resolve forgetViewer_wf request_section_wf release_section_wf revoke_section_wf
  : control.

(** Only [acceptSeq] touches the floors. *)
Lemma forgetViewer_floor r st v : floor (forgetViewer r st) v = floor st v.
Proof. unfold forgetViewer. repeat case_match; done. Qed.

Lemma request_section_floor control v r st w :
  floor (request_section control v r st).2 w = floor st w.
Proof. unfold request_section. repeat case_decide; done. Qed.

Lemma release_section_floor v st w : floor (release_section v st).2 w = floor st w.
Proof. unfold release_section. by case_decide. Qed.

Lemma revoke_section_floor st w : floor (revoke_section st).2 w = floor st w.
Proof. unfold revoke_section. simpl. by case_decide. Qed.

(** The once latch is never released. *)
Lemma forgetViewer_once r st : onceUsed (forgetViewer r st) = onceUsed st.
Proof. unfold forgetViewer. repeat case_match; done. Qed.

Lemma release_section_once v st : onceUsed (release_section v st).2 = onceUsed st.
Proof. unfold release_section. by case_decide. Qed.

Lemma revoke_section_once st : onceUsed (revoke_section st).2 = onceUsed st.
Proof. unfold revoke_section. simpl. by case_decide. Qed.

(** What [acceptSeq] decides. *)
Lemma acceptSeq_true v seq st st' :
  acceptSeq v seq st = (true, st') -> (floor st v < seq)%Z /\ floor st' v = seq.
Proof.
  unfold acceptSeq. case_decide as Hle; [done|]. intros [= <-].
  rewrite floor_accept, decide_True by done. lia.
Qed.

Lemma acceptSeq_owner v seq st :
  controlOwner (acceptSeq v seq st).2 = controlOwner st /\
  ownerRoute (acceptSeq v seq st).2 = ownerRoute st /\
  onceUsed (acceptSeq v seq st).2 = onceUsed st.
Proof. unfold acceptSeq. by case_decide. Qed.

(** ** Properties *)

(** A control request is answered by the policy, case by case: the owner is
    told granted; anyone else while there is an owner is told taken; with no
    owner a view-only host, or a once host whose grant is spent, answers
    read-only; otherwise the requester becomes the owner, reached by the route
    it asked from, and under once the grant is spent.  Only this last case
    changes the state. *)
Theorem control_request_cases control v r st :
  let '(state, granted, st') := request_section control v r st in
  (controlOwner st = v /\ state = ControlGranted /\ granted = false /\ st' = st) \/
  (controlOwner st <> v /\ controlOwner st <> [] /\ state = ControlTaken /\ granted = false
     /\ st' = st) \/
  (controlOwner st <> v /\ controlOwner st = [] /\
     (control = ControlViewOnly \/ control = ControlOnce /\ onceUsed st = true) /\
     state = ControlReadOnly /\ granted = false /\ st' = st) \/
  (controlOwner st <> v /\ controlOwner st = [] /\ control <> ControlViewOnly /\
     (control = ControlOnce -> onceUsed st = false) /\
     state = ControlGranted /\ granted = true /\
     controlOwner st' = v /\ ownerRoute st' = r /\
     onceUsed st' = (onceUsed st || bool_decide (control = ControlOnce)) /\
     inSeqByViewer st' = inSeqByViewer st /\ selfByRoute st' = selfByRoute st).
Proof.
  unfold request_section. case_decide as H1; [by left|]. case_decide as H2; [by right; left|].
  destruct (decide (control = ControlViewOnly \/ control = ControlOnce /\ onceUsed st)) as [H3|H3].
  - right; right; left. rewrite Is_true_true in H3. tauto.
  - do 3 right. rewrite Is_true_true in H3. split_and!; try done.
    + naive_solver.
    + intros ->. apply not_true_is_false. naive_solver.
    + simpl. case_decide; [rewrite bool_decide_true|rewrite bool_decide_false];
        rewrite ?orb_true_r, ?orb_false_r; done.
Qed.
