(* ===== verification/Orch.v ===== *)
(** * Orch: the orchestrator's state and the monad its methods run in

    Models the data of runner/internal/runner/runner.go: ControlMode's host
    configuration, Orchestrator, outMsg, connState, and New.  A method is a
    computation in [M]: it reads and updates an [Orchestrator] and emits the
    effects the code has on the world (the pty, the local terminal, the host's
    notifier, the relay socket).  A whole method is one step here, and an
    iteration of the sender's loop; what the goroutines can do in the middle of
    one is modelled in Atoms and Threads.

    What the code leaves to its environment is the class [Env]: the bytes
    crypto/rand hands out and the case a select picks when several are ready. *)
From S2P Require Import Prelude Wire Crypto Ring Screen Session Control.
From Stdlib Require Import Strings.Byte.

(** ** The environment *)

Class Env := {
  (** The n-th rand.Read of a nonce: its twelve bytes, or its error. *)
  rand_read : nat -> option bytes;
  (** The n-th select with two ready cases: whether the first is taken. *)
  coin : nat -> bool
}.

Class EnvLaws (E : Env) : Prop := {
  rand_read_length n b : rand_read n = Some b -> length b = nonceLen
}.

(** ** The data *)

Definition ringBytes : Z := 256 * 1024.
Definition sendQueue : nat := 256.

Record Config := mkConfig {
  Config_Keys : Keys;
  Config_SessionID : bytes;
  Config_Token : bytes;
  Config_TTL : Z;
  Config_MultiViewer : bool;
  Config_ExpiresAt : Z;
  Config_Control : ControlMode;
  Config_LocalIn : bool;      (* whether the reader is given *)
  Config_LocalOut : bool;     (* whether the writer is given *)
  Config_Notify : bool;       (* whether the notifier is given *)
  Config_Fingerprint : bytes
}.

Record outMsg := mkOutMsg {
  om_kind : byte;
  om_payload : bytes;
  om_target : bytes;
  om_text : bool
}.

(** {"t":"bye","reason":"ended"} *)
Definition byeEnded : bytes :=
  str "{" ++ [x22] ++ str "t" ++ [x22] ++ str ":" ++ [x22] ++ str "bye" ++ [x22] ++ str ","
  ++ [x22] ++ str "reason" ++ [x22] ++ str ":" ++ [x22] ++ str "ended" ++ [x22] ++ str "}".

(** One WebSocket connection: the two channels (oldest first), whether done is
    closed, the drop mark, and whether the sender goroutine is still running. *)
Record connState := mkConn {
  c_send : list outMsg;
  c_join : list bytes;
  c_done : bool;
  c_dropped : bool;
  c_running : bool
}.

Definition newConn : connState := mkConn [] [] false false true.

(** [sess], [ring], ... are the fields of the code's struct; [clock] is what
    time.Now() returns (unix nanoseconds), [rands] and [coins] count the draws
    made on the environment. *)
Record Orchestrator := mkOrch {
  cfg : Config;
  r2v : Cipher;
  v2r : Cipher;
  sess : Session;
  ring : Ring;
  screen : ScreenState;
  outSeq : Z;
  vs : ViewerState;
  viewers : Z;
  exitCode : Z;
  conn : option connState;
  terminated : bool;
  clock : Z;
  rands : nat;
  coins : nat
}.

Definition set_sess (x : Session) (o : Orchestrator) : Orchestrator :=
  mkOrch (cfg o) (r2v o) (v2r o) x (ring o) (screen o) (outSeq o) (vs o) (viewers o) (exitCode o) (conn o) (terminated o) (clock o) (rands o) (coins o).
Definition set_ring (x : Ring) (o : Orchestrator) : Orchestrator :=
  mkOrch (cfg o) (r2v o) (v2r o) (sess o) x (screen o) (outSeq o) (vs o) (viewers o) (exitCode o) (conn o) (terminated o) (clock o) (rands o) (coins o).
Definition set_screen (x : ScreenState) (o : Orchestrator) : Orchestrator :=
  mkOrch (cfg o) (r2v o) (v2r o) (sess o) (ring o) x (outSeq o) (vs o) (viewers o) (exitCode o) (conn o) (terminated o) (clock o) (rands o) (coins o).
Definition set_outSeq (x : Z) (o : Orchestrator) : Orchestrator :=
  mkOrch (cfg o) (r2v o) (v2r o) (sess o) (ring o) (screen o) x (vs o) (viewers o) (exitCode o) (conn o) (terminated o) (clock o) (rands o) (coins o).
Definition set_vs (x : ViewerState) (o : Orchestrator) : Orchestrator :=
  mkOrch (cfg o) (r2v o) (v2r o) (sess o) (ring o) (screen o) (outSeq o) x (viewers o) (exitCode o) (conn o) (terminated o) (clock o) (rands o) (coins o).
Definition set_viewers (x : Z) (o : Orchestrator) : Orchestrator :=
  mkOrch (cfg o) (r2v o) (v2r o) (sess o) (ring o) (screen o) (outSeq o) (vs o) x (exitCode o) (conn o) (terminated o) (clock o) (rands o) (coins o).
Definition set_exitCode (x : Z) (o : Orchestrator) : Orchestrator :=
  mkOrch (cfg o) (r2v o) (v2r o) (sess o) (ring o) (screen o) (outSeq o) (vs o) (viewers o) x (conn o) (terminated o) (clock o) (rands o) (coins o).
Definition set_conn (x : option connState) (o : Orchestrator) : Orchestrator :=
  mkOrch (cfg o) (r2v o) (v2r o) (sess o) (ring o) (screen o) (outSeq o) (vs o) (viewers o) (exitCode o) x (terminated o) (clock o) (rands o) (coins o).
Definition set_terminated (x : bool) (o : Orchestrator) : Orchestrator :=
  mkOrch (cfg o) (r2v o) (v2r o) (sess o) (ring o) (screen o) (outSeq o) (vs o) (viewers o) (exitCode o) (conn o) x (clock o) (rands o) (coins o).
Definition set_clock (x : Z) (o : Orchestrator) : Orchestrator :=
  mkOrch (cfg o) (r2v o) (v2r o) (sess o) (ring o) (screen o) (outSeq o) (vs o) (viewers o) (exitCode o) (conn o) (terminated o) x (rands o) (coins o).
Definition set_rands (x : nat) (o : Orchestrator) : Orchestrator :=
  mkOrch (cfg o) (r2v o) (v2r o) (sess o) (ring o) (screen o) (outSeq o) (vs o) (viewers o) (exitCode o) (conn o) (terminated o) (clock o) x (coins o).
Definition set_coins (x : nat) (o : Orchestrator) : Orchestrator :=
  mkOrch (cfg o) (r2v o) (v2r o) (sess o) (ring o) (screen o) (outSeq o) (vs o) (viewers o) (exitCode o) (conn o) (terminated o) (clock o) (rands o) x.

(** New derives the two ciphers; either can fail.  [s] is the started session. *)
Definition New (cfg : Config) (s : Session) : result crypto_error Orchestrator :=
  r2v ← NewCipher (R2V (Config_Keys cfg)) (Config_SessionID cfg);
  v2r ← NewCipher (V2R (Config_Keys cfg)) (Config_SessionID cfg);
  mret (mkOrch cfg r2v v2r s (NewRing ringBytes) screen0 0 viewers0 0 (-1) None false 0 0 0).

(** ** Effects and the monad *)

Inductive effect :=
| EPty (c : pty_call)
| ELocal (p : bytes)                          (* localOut.Write *)
| ENotify (msg : bytes) (busy : bool)         (* notify *)
| EWrite (text : bool) (p : bytes) (ok : bool) (* c.ws.Write and whether it succeeded *).

#[export] Instance effect_eq_dec : EqDecision effect.
Proof. solve_decision. Defined.

Definition M (A : Type) : Type := Orchestrator -> A * Orchestrator * list effect.

#[export] Instance M_ret : MRet M := fun _ a o => (a, o, []).
#[export] Instance M_bind : MBind M := fun _ _ f m o =>
  let '(a, o, es) := m o in
  let '(b, o, es') := f a o in (b, o, es ++ es').

Definition gets {A} (f : Orchestrator -> A) : M A := fun o => (f o, o, []).
Definition modify (f : Orchestrator -> Orchestrator) : M unit := fun o => (tt, f o, []).
Definition tell (es : list effect) : M unit := fun o => (tt, o, es).
Definition skip : M unit := mret tt.

(** A critical section on the viewer state: run it, keep its new state. *)
Definition with_viewers {A} (f : ViewerState -> A * ViewerState) : M A := fun o =>
  let '(a, st) := f (vs o) in (a, set_vs st o, []).

Definition modify_viewers (f : ViewerState -> ViewerState) : M unit :=
  modify (fun o => set_vs (f (vs o)) o).

Definition modify_conn (f : connState -> connState) : M unit :=
  modify (fun o => match conn o with Some c => set_conn (Some (f c)) o | None => o end).

(** ** Reasoning: what holds of a computation's result, state and effects *)

Definition wp {A} (m : M A) (Q : A -> Orchestrator -> list effect -> Prop) (o : Orchestrator)
    : Prop :=
  let '(a, o', es) := m o in Q a o' es.

Lemma wp_ret {A} (a : A) Q o : Q a o [] -> wp (mret a) Q o.
Proof. done. Qed.

Lemma wp_bind {A B} (m : M A) (f : A -> M B) Q o :
  wp m (fun a o' es => wp (f a) (fun b o'' es' => Q b o'' (es ++ es')) o') o ->
  wp (m ≫= f) Q o.
Proof.
  unfold wp, mbind, M_bind. destruct (m o) as [[a o'] es].
  by destruct (f a o') as [[b o''] es'].
Qed.

Lemma wp_gets {A} (f : Orchestrator -> A) Q o : Q (f o) o [] -> wp (gets f) Q o.
Proof. done. Qed.

Lemma wp_modify f Q o : Q tt (f o) [] -> wp (modify f) Q o.
Proof. done. Qed.

Lemma wp_tell es Q o : Q tt o es -> wp (tell es) Q o.
Proof. done. Qed.

Lemma wp_skip Q o : Q tt o [] -> wp skip Q o.
Proof. done. Qed.

Lemma wp_with_viewers {A} (f : ViewerState -> A * ViewerState) Q o :
  Q (f (vs o)).1 (set_vs (f (vs o)).2 o) [] -> wp (with_viewers f) Q o.
Proof. unfold wp, with_viewers. by destruct (f (vs o)). Qed.

Lemma wp_mono {A} (m : M A) (Q Q' : A -> Orchestrator -> list effect -> Prop) o :
  wp m Q o -> (forall a o' es, Q a o' es -> Q' a o' es) -> wp m Q' o.
Proof. unfold wp. destruct (m o) as [[a o'] es]. auto. Qed.

Lemma wp_and {A} (m : M A) (Q Q' : A -> Orchestrator -> list effect -> Prop) o :
  wp m Q o -> wp m Q' o -> wp m (fun a o' es => Q a o' es /\ Q' a o' es) o.
Proof. unfold wp. destruct (m o) as [[a o'] es]. auto. Qed.

Lemma wp_eq {A} (m : M A) Q o a o' es : wp m Q o -> m o = (a, o', es) -> Q a o' es.
Proof. unfold wp. intros H E. by rewrite E in H. Qed.

(** A sequence of two computations, from the outcomes of each. *)
Lemma bind_eval {A B} (m : M A) (f : A -> M B) o a o' es b o'' es' es'' :
  m o = (a, o', es) -> f a o' = (b, o'', es') -> es ++ es' = es'' ->
  (m ≫= f) o = (b, o'', es'').
Proof. intros Hm Hf <-. unfold mbind, M_bind. by rewrite Hm, Hf. Qed.

(** Steps through the binds and primitives of a computation. *)
Ltac wp_step :=
  lazymatch goal with
  | |- wp (mbind _ _) _ _ => apply wp_bind
  | |- wp (mret _) _ _ => apply wp_ret
  | |- wp (gets _) _ _ => apply wp_gets
  | |- wp (modify _) _ _ => apply wp_modify
  | |- wp (modify_viewers _) _ _ => apply wp_modify
  | |- wp (modify_conn _) _ _ => apply wp_modify
  | |- wp (tell _) _ _ => apply wp_tell
  | |- wp skip _ _ => apply wp_skip
  | |- wp (with_viewers _) _ _ => apply wp_with_viewers
  | |- wp (match ?x with _ => _ end) _ _ => let E := fresh "E" in destruct x eqn:E
  end.
Ltac wp_steps := repeat (wp_step; cbv beta).

(** A relation that a whole group of methods respects: reflexive, transitive,
    and blind to the fields those methods may change. *)
Definition preserves {A} (R : Orchestrator -> Orchestrator -> Prop) (m : M A) : Prop :=
  forall o, wp m (fun _ o' _ => R o o') o.

(** The effects a computation can have. *)
Definition emits_only {A} (P : effect -> Prop) (m : M A) : Prop :=
  forall o, wp m (fun _ _ es => Forall P es) o.

Lemma preserves_bind {A B} R `{!PreOrder R} (m : M A) (f : A -> M B) :
  preserves R m -> (forall a, preserves R (f a)) -> preserves R (m ≫= f).
Proof.
  intros Hm Hf o. apply wp_bind. eapply wp_mono; [apply Hm|]. intros a o' es H.
  eapply wp_mono; [apply Hf|]. intros b o'' es' H'. cbv beta in *. by transitivity o'.
Qed.

Lemma emits_only_bind {A B} P (m : M A) (f : A -> M B) :
  emits_only P m -> (forall a, emits_only P (f a)) -> emits_only P (m ≫= f).
Proof.
  intros Hm Hf o. apply wp_bind. eapply wp_mono; [apply Hm|]. intros a o' es H.
  eapply wp_mono; [apply Hf|]. intros b o'' es' H'. simpl. by apply Forall_app.
Qed.
