(* ===== verification/Sender.v ===== *)
(** * Sender: queueing, repainting and writing frames

    Models the outgoing half of runner/internal/runner/runner.go: enqueue,
    emit, emitToViewer, emitText, note, signal, repaintFrames, sendRepaint,
    writeMsg, writeTargetFrame, writeText and the sender goroutine.  One
    iteration of the sender's select loop is [sender_iter]; the outcome of each
    socket write is an input ([oks]), and so is the ready case the select took. *)
From S2P Require Import Prelude Wire Encodings Crypto Ring Screen Session Control.
From S2P Require Import Json Orch.
From Stdlib Require Import Strings.Byte.

(** ** Queueing: never blocks *)

Definition push_send (m : outMsg) (c : connState) : connState :=
  mkConn (c_send c ++ [m]) (c_join c) (c_done c) (c_dropped c) (c_running c).
Definition set_send (q : list outMsg) (c : connState) : connState :=
  mkConn q (c_join c) (c_done c) (c_dropped c) (c_running c).
Definition set_join (j : list bytes) (c : connState) : connState :=
  mkConn (c_send c) j (c_done c) (c_dropped c) (c_running c).
Definition set_dropped (b : bool) (c : connState) : connState :=
  mkConn (c_send c) (c_join c) (c_done c) b (c_running c).

(** c.fail(): closes done, once. *)
Definition fail (c : connState) : connState :=
  mkConn (c_send c) (c_join c) true (c_dropped c) (c_running c).

(** The sender goroutine returns. *)
Definition stop_sender (c : connState) : connState :=
  mkConn (c_send c) (c_join c) (c_done c) (c_dropped c) false.

(** signal: a non-blocking send on the join channel. *)
Definition signal (viewerID : bytes) (c : connState) : connState :=
  if decide (length (c_join c) < sendQueue) then set_join (c_join c ++ [viewerID]) c else c.

Section Code.
Context `{P : Primitives} `{E : Env}.

Definition draw_coin : M bool :=
  fun o => (coin (coins o), set_coins (S (coins o)) o, []).
Definition draw_rand : M (option bytes) :=
  fun o => (rand_read (rands o), set_rands (S (rands o)) o, []).

(** select { case c.send <- m: case <-c.done: default: c.dropped.Store(true) } *)
Definition enqueue (m : outMsg) : M unit :=
  c ← gets conn;
  match c with
  | None => skip
  | Some c =>
    match bool_decide (length (c_send c) < sendQueue), c_done c with
    | true, false => modify_conn (push_send m)
    | true, true => b ← draw_coin; if b : bool then modify_conn (push_send m) else skip
    | false, true => skip
    | false, false => modify_conn (set_dropped true)
    end
  end.

Definition emit (kind : byte) (payload : bytes) : M unit :=
  enqueue (mkOutMsg kind payload [] false).

Definition emitToViewer (viewerID : bytes) (kind : byte) (payload : bytes) : M unit :=
  enqueue (mkOutMsg kind payload viewerID false).

Definition emitText (payload : bytes) : M unit := enqueue (mkOutMsg x00 payload [] true).

Definition note (s : bytes) : M unit :=
  wired ← gets (fun o => Config_Notify (cfg o));
  if wired : bool then
    busy ← gets (fun o => screenBusy (clock o) (screen o));
    tell [ENotify s busy]
  else skip.

(** ** Repainting *)

(** The terminal reset before a replay: ESC c. *)
Definition RIS : bytes := [x1b; x63].

Definition repaintFrames (viewerID : bytes) (o : Orchestrator) : list outMsg :=
  let '(cols, rows) := Size (sess o) in
  let frames := [
    mkOutMsg KindHello (EncodeHello (baseline viewerID (vs o)) cols rows) viewerID false;
    mkOutMsg KindOutput (RIS ++ Ring_Snapshot (ring o)) viewerID false] in
  if decide (viewerID <> []) then
    frames ++ [mkOutMsg KindControl [controlState viewerID (vs o)] viewerID false]
  else frames.

(** ** Writing.  [ok] is the outcome of the socket write; the result is whether
    the method returned nil. *)

Definition writeText (ok : bool) (payload : bytes) : M bool :=
  tell [EWrite true payload ok] ;; mret ok.

(** json.Marshal of the map, its keys in sorted order. *)
Definition to_viewer_text (viewerID frame : bytes) : bytes :=
  json_object [(str "frame", base64_std frame); (str "t", str "to_viewer");
               (str "viewer_id", viewerID)].

Definition writeTargetFrame (ok : bool) (viewerID frame : bytes) : M bool :=
  writeText ok (to_viewer_text viewerID frame).

Definition writeMsg (ok : bool) (target : bytes) (kind : byte) (payload : bytes) : M bool :=
  modify (fun o => set_outSeq (u64 (outSeq o + 1)) o) ;;
  seq ← gets outSeq;
  c ← gets r2v;
  rnd ← draw_rand;
  match Seal c rnd seq kind payload with
  | Err _ => mret false
  | Ok frame =>
    if decide (target <> []) then writeTargetFrame ok target frame
    else tell [EWrite false frame ok] ;; mret ok
  end.

(** The outcome of the next write, and those after it; a list that runs out
    stands for writes that succeed. *)
Definition next_ok (oks : list bool) : bool * list bool :=
  match oks with ok :: oks => (ok, oks) | [] => (true, []) end.

(** Writes the messages in order, stopping at the first error; returns whether
    all went out and the outcomes not used. *)
Fixpoint write_frames (oks : list bool) (ms : list outMsg) : M (bool * list bool) :=
  match ms with
  | [] => mret (true, oks)
  | m :: ms =>
    let '(ok, oks) := next_ok oks in
    done ← writeMsg ok (om_target m) (om_kind m) (om_payload m);
    if done : bool then write_frames oks ms else mret (false, oks)
  end.

Definition sendRepaint (oks : list bool) (viewerID : bytes) : M (bool * list bool) :=
  ms ← gets (repaintFrames viewerID);
  write_frames oks ms.

(** ** The sender goroutine *)

Inductive sender_case := CaseCtxDone | CaseDone | CaseJoin | CaseSend.

(** c.fail(); return *)
Definition fail_and_return : M unit := modify_conn (fun c => stop_sender (fail c)).

(** The body of case m := <-c.send, with [m] received. *)
Definition send_case (oks : list bool) (m : outMsg) : M unit :=
  if om_text m then
    done ← writeText (next_ok oks).1 (om_payload m);
    if done : bool then skip else fail_and_return
  else
    dropped ← gets (fun o => from_option c_dropped false (conn o));
    modify_conn (set_dropped false) ;;
    r ← (if dropped : bool then sendRepaint oks [] else mret (true, oks));
    if r.1 : bool then
      done ← writeMsg (next_ok r.2).1 (om_target m) (om_kind m) (om_payload m);
      if done : bool then skip else fail_and_return
    else fail_and_return.

(** One iteration, taking the case the select picked; a case that is not ready
    cannot be picked, and nothing happens. *)
Definition sender_iter (pick : sender_case) (oks : list bool) : M unit :=
  c ← gets conn;
  match c with
  | None => skip
  | Some c =>
    if c_running c then
      match pick with
      | CaseCtxDone => modify_conn stop_sender
      | CaseDone => if c_done c then modify_conn stop_sender else skip
      | CaseJoin =>
        match c_join c with
        | [] => skip
        | viewerID :: j =>
          modify_conn (set_join j) ;;
          r ← sendRepaint oks viewerID;
          if r.1 : bool then skip else fail_and_return
        end
      | CaseSend =>
        match c_send c with
        | [] => skip
        | m :: q => modify_conn (set_send q) ;; send_case oks m
        end
      end
    else skip
  end.

End Code.
