(* ===== verification/Handlers.v ===== *)
(** * Handlers: the orchestrator's methods

    Models the incoming half of runner/internal/runner/runner.go and its pumps:
    handleControl, handleBinary, handleControlRequest, handleControlRelease,
    Revoke, Resize, pumpOutput, pumpInput, keepalive, signalExit, shutdown, the
    exit watcher of Run, and the start and teardown of serveConn.  A loop's body
    is one definition; the loop itself is a sequence of events given to [run].
    This is the reading of the code without interruptions: Atoms has the same
    methods in the steps that other goroutines can come between. *)
From S2P Require Import Prelude Wire Crypto Ring Screen Session Control Json Orch.
From S2P Require Import Sender.
From Stdlib Require Import Strings.Byte.

(** ** Calls on the session *)

Definition sess_write (p : bytes) : M unit :=
  cs ← gets (fun o => Session_Write (sess o) p); tell (EPty <$> cs).

Definition sess_set_size (cols rows : Z) : M unit :=
  r ← gets (fun o => SetSize (sess o) cols rows);
  modify (set_sess r.1) ;; tell (EPty <$> r.2).

Section Code.
Context `{P : Primitives} `{E : Env}.

(** ** Control requests and releases *)

Definition handleControlRequest (viewerID routeID : bytes) : M unit :=
  control ← gets (fun o => Config_Control (cfg o));
  r ← with_viewers (request_section control viewerID routeID);
  emitToViewer routeID KindControl [r.1] ;;
  if r.2 : bool then note (str "onlytty: viewer took control") else skip.

Definition handleControlRelease (viewerID routeID : bytes) : M unit :=
  released ← with_viewers (release_section viewerID);
  if released : bool then
    emitToViewer routeID KindControl [ControlReadOnly] ;;
    note (str "onlytty: viewer released control")
  else skip.

(** Revoke: the host takes control back. *)
Definition Revoke : M unit :=
  r ← with_viewers revoke_section;
  if decide (r.1 = []) then skip
  else
    emitToViewer r.2 KindControl [ControlReadOnly] ;;
    note (str "onlytty: host revoked control").

(** ** Frames from the relay *)

(** The switch on the kind of an accepted viewer frame; other kinds are
    ignored. *)
Definition dispatch (viewerID routeID : bytes) (kind : byte) (payload : bytes) : M unit :=
  if decide (kind = KindInput) then
    owns ← gets (fun o => viewerHasControl viewerID (vs o));
    if owns : bool then sess_write payload else skip
  else if decide (kind = KindResize) then
    owns ← gets (fun o => viewerHasControl viewerID (vs o));
    if owns : bool then
      match DecodeResize payload with
      | Ok (cols, rows) => sess_set_size cols rows
      | Err _ => skip
      end
    else skip
  else if decide (kind = KindCtrlReq) then handleControlRequest viewerID routeID
  else if decide (kind = KindCtrlRel) then handleControlRelease viewerID routeID
  else skip.

Definition handleBinary (frame : bytes) : M unit :=
  match DecodeRelayViewerFrame frame with
  | Err _ => skip
  | Ok (routeID, sealed) =>
    c ← gets v2r;
    match Open c sealed with
    | Err _ => skip
    | Ok (seq, kind, payload) =>
      match DecodeViewerPayload payload with
      | Err _ => skip
      | Ok (viewerID, payload) =>
        ok ← with_viewers (acceptSeq viewerID seq);
        if ok : bool then
          modify_viewers (bindRoute routeID viewerID) ;;
          dispatch viewerID routeID kind payload
        else skip
      end
    end
  end.

(** The switch of handleControl, on a message json.Unmarshal produced. *)
Definition handle_relay_msg (m : relay_msg) : M unit :=
  if decide (msg_t m = str "hello") then
    modify (set_viewers (i32 (msg_viewers m))) ;;
    if decide (msg_viewers m > 0)%Z then modify_conn (signal []) else skip
  else if decide (msg_t m = str "peer_join") then
    let n := if decide (msg_viewers m <= 0)%Z then 1%Z else msg_viewers m in
    modify (set_viewers (i32 n)) ;;
    fp ← gets (fun o => Config_Fingerprint (cfg o));
    note (str "onlytty: viewer connected · fingerprint " ++ fp) ;;
    modify_conn (signal (msg_viewer_id m))
  else if decide (msg_t m = str "peer_left") then
    let n := if decide (msg_viewers m < 0)%Z then 0%Z else msg_viewers m in
    modify (set_viewers (i32 n)) ;;
    modify_viewers (forgetViewer (msg_viewer_id m)) ;;
    note (str "onlytty: viewer disconnected")
  else if decide (msg_t m = str "busy") then
    note (str "onlytty: a viewer is already connected (single-viewer lock)")
  else if decide (msg_t m = str "going_away") then
    note (str "onlytty: relay node is redeploying — will reconnect")
  else if decide (msg_t m = str "bye") then
    note (str "onlytty: session closed by the relay")
  else skip.

Definition handleControl (data : bytes) : M unit :=
  match unmarshal_relay_msg data with
  | None => skip
  | Some m => handle_relay_msg m
  end.

(** ** The pumps *)

(** One read of pumpOutput that returned n > 0 bytes. *)
Definition pumpOutput_chunk (chunk : bytes) : M unit :=
  modify (fun o => set_screen (markScreenActivity (clock o) chunk (screen o)) o) ;;
  local ← gets (fun o => Config_LocalOut (cfg o));
  (if local : bool then tell [ELocal chunk] else skip) ;;
  modify (fun o => set_ring (Ring_Write (ring o) chunk).1 o) ;;
  n ← gets viewers;
  if decide (n > 0)%Z then emit KindOutput chunk else skip.

(** One read of pumpInput that returned n > 0 bytes. *)
Definition pumpInput_chunk (p : bytes) : M unit :=
  local ← gets (fun o => Config_LocalIn (cfg o));
  if local : bool then sess_write p else skip.

(** One tick of keepalive. *)
Definition keepalive_tick : M unit :=
  s ← gets (fun o => Size (sess o));
  emit KindHello (EncodeHello 1 s.1 s.2).

Definition Resize (cols rows : Z) : M unit :=
  sess_set_size cols rows ;;
  n ← gets viewers;
  if decide (n > 0)%Z then
    s ← gets (fun o => Size (sess o));
    emit KindHello (EncodeHello 1 s.1 s.2)
  else skip.

(** ** Exit and shutdown *)

Definition signalExit : M unit :=
  code ← gets (fun o => ExitCode (sess o));
  emit KindExit (EncodeExit (i32 code)) ;;
  emitText byeEnded.

Definition shutdown : M unit :=
  t ← gets terminated;
  if t : bool then skip
  else
    cs ← gets (fun o => Terminate (sess o));
    modify (set_terminated true) ;; tell (EPty <$> cs).

(** The exit watcher of Run, up to its sleep: Wait returns, once, with the
    child's [code]; the rest (cancel, shutdown) is a later [shutdown]. *)
Definition exit_watcher (code : Z) : M unit :=
  waiting ← gets (fun o => bool_decide (sess_state (sess o) = None));
  if waiting : bool then
    modify (fun o => set_sess (Wait (sess o) code) o) ;;
    modify (fun o => set_exitCode (i32 (ExitCode (sess o))) o) ;;
    signalExit
  else skip.

(** ** A connection's life *)

(** serveConn from its start to the reader: a fresh connState is installed. *)
Definition serveConn_start : M unit :=
  c ← gets conn;
  match c with None => modify (set_conn (Some newConn)) | Some _ => skip end.

(** serveConn from the reader's return to its end, the sender having returned:
    the connection is dropped, and with it the viewer count, control and the
    route map. *)
Definition serveConn_end : M unit :=
  c ← gets conn;
  match c with
  | None => skip
  | Some _ =>
    modify_conn fail ;;
    modify (set_conn None) ;;
    modify (set_viewers 0%Z) ;;
    modify_viewers clearControlOwner
  end.

(** One message of reader's loop. *)
Definition reader_msg (text : bool) (data : bytes) : M unit :=
  c ← gets conn;
  match c with
  | None => skip
  | Some _ => if text then handleControl data else handleBinary data
  end.

(** ** Events *)

Inductive event :=
| EvClock (now : Z)                                (* time passes *)
| EvMessage (text : bool) (data : bytes)           (* a frame from the relay *)
| EvConnect                                        (* the runner socket is up *)
| EvDisconnect                                     (* the reader failed *)
| EvSender (pick : sender_case) (oks : list bool)  (* the sender iterates *)
| EvOutput (chunk : bytes)                         (* the command wrote *)
| EvInput (p : bytes)                              (* the host typed *)
| EvResize (cols rows : Z)                         (* the host terminal resized *)
| EvKeepalive
| EvRevoke                                         (* SIGUSR1 *)
| EvExit (code : Z)                                (* the command ended *)
| EvShutdown.                                      (* child exit or cancellation *)

Definition step (e : event) : M unit :=
  match e with
  | EvClock now => modify (set_clock now)
  | EvMessage text data => reader_msg text data
  | EvConnect => serveConn_start
  | EvDisconnect => serveConn_end
  | EvSender pick oks => sender_iter pick oks
  | EvOutput chunk => pumpOutput_chunk chunk
  | EvInput p => pumpInput_chunk p
  | EvResize cols rows => Resize cols rows
  | EvKeepalive => keepalive_tick
  | EvRevoke => Revoke
  | EvExit code => exit_watcher code
  | EvShutdown => shutdown
  end.

Fixpoint run (es : list event) : M unit :=
  match es with
  | [] => skip
  | e :: es => step e ;; run es
  end.

End Code.

(** The state and the effects a computation leaves. *)
Definition state_of {A} (m : M A) (o : Orchestrator) : Orchestrator := (m o).1.2.
Definition effects_of {A} (m : M A) (o : Orchestrator) : list effect := (m o).2.

(** What the events' payloads are in Go: uint16 terminal sizes. *)
Definition event_ok (e : event) : Prop :=
  match e with
  | EvResize cols rows => (0 <= cols < 2 ^ 16)%Z /\ (0 <= rows < 2 ^ 16)%Z
  | _ => True
  end.
