(* ===== verification/Traces.v ===== *)
(** * Traces: projections of effects, and what each method leaves alone

    The frame lemmas the theorems about the orchestrator share: queueing and
    the sender leave the host side of the state alone, notices and queueing
    have no effect on the pty, and a run is the fold of its steps. *)
From S2P Require Import Prelude Wire Encodings Crypto Ring Screen Session Control.
From S2P Require Import Json Orch Sender Handlers.

(** ** Projections *)

Definition pty_of (e : effect) : option pty_call :=
  match e with EPty c => Some c | _ => None end.
Definition pty_calls (es : list effect) : list pty_call := omap pty_of es.

Definition local_of (e : effect) : option bytes :=
  match e with ELocal p => Some p | _ => None end.
Definition local_writes (es : list effect) : list bytes := omap local_of es.

Definition is_note (e : effect) : Prop := match e with ENotify _ _ => True | _ => False end.
Definition is_write (e : effect) : Prop := match e with EWrite _ _ _ => True | _ => False end.

(** Everything but the connection, the numbering of outgoing frames and the
    environment's draws. *)
Definition host_side (o : Orchestrator) :=
  (cfg o, r2v o, v2r o, sess o, ring o, screen o, vs o, viewers o, exitCode o, terminated o,
   clock o).
Definition same_host (o o' : Orchestrator) : Prop := host_side o = host_side o'.

#[export] Instance same_host_equivalence : Equivalence same_host.
Proof.
  split; [by intros ?|by intros ? ?|]. unfold same_host. intros x y z H1 H2. congruence.
Qed.

Create HintDb traces.
Create Rewrite HintDb traces_rw.

Lemma pty_calls_app es es' : pty_calls (es ++ es') = pty_calls es ++ pty_calls es'.
Proof. apply omap_app. Qed.

Lemma local_writes_app es es' : local_writes (es ++ es') = local_writes es ++ local_writes es'.
Proof. apply omap_app. Qed.

Lemma pty_calls_fmap cs : pty_calls (EPty <$> cs) = cs.
Proof. induction cs as [|c cs IH]; csimpl; [done|]. by f_equal. Qed.

Lemma local_writes_fmap cs : local_writes (EPty <$> cs) = [].
Proof. by induction cs. Qed.

Lemma pty_calls_notes es : Forall is_note es -> pty_calls es = [].
Proof. induction 1 as [|[] es He Hes IH]; simpl in *; done. Qed.

Lemma local_writes_notes es : Forall is_note es -> local_writes es = [].
Proof. induction 1 as [|[] es He Hes IH]; simpl in *; done. Qed.

Lemma pty_calls_writes es : Forall is_write es -> pty_calls es = [].
Proof. induction 1 as [|[] es He Hes IH]; simpl in *; done. Qed.

Lemma local_writes_writes es : Forall is_write es -> local_writes es = [].
Proof. induction 1 as [|[] es He Hes IH]; simpl in *; done. Qed.
#[export] Hint Rewrite pty_calls_app local_writes_app pty_calls_fmap local_writes_fmap : traces_rw.

(** ** Bookkeeping on runs *)

Lemma state_of_wp {A} (m : M A) Q o :
  wp m Q o -> Q (m o).1.1 (state_of m o) (effects_of m o).
Proof. unfold wp, state_of, effects_of. by destruct (m o) as [[a o'] es]. Qed.

Lemma state_of_bind {A B} (m : M A) (f : A -> M B) o :
  state_of (m ≫= f) o = state_of (f (m o).1.1) (state_of m o).
Proof.
  unfold state_of, mbind, M_bind. destruct (m o) as [[a o'] es]. simpl.
  by destruct (f a o') as [[b o''] es'].
Qed.

Lemma effects_of_bind {A B} (m : M A) (f : A -> M B) o :
  effects_of (m ≫= f) o = effects_of m o ++ effects_of (f (m o).1.1) (state_of m o).
Proof.
  unfold effects_of, state_of, mbind, M_bind. destruct (m o) as [[a o'] es]. simpl.
  by destruct (f a o') as [[b o''] es'].
Qed.

Section Code.
Context `{P : Primitives} `{E : Env}.

Lemma run_cons_state e es o : state_of (run (e :: es)) o = state_of (run es) (state_of (step e) o).
Proof. apply state_of_bind. Qed.

Lemma run_cons_effects e es o :
  effects_of (run (e :: es)) o
  = effects_of (step e) o ++ effects_of (run es) (state_of (step e) o).
Proof. apply effects_of_bind. Qed.

Lemma run_app_state es es' o :
  state_of (run (es ++ es')) o = state_of (run es') (state_of (run es) o).
Proof.
  revert o. induction es as [|e es IH]; intros o; [done|].
  rewrite <- app_comm_cons. by rewrite !run_cons_state, IH.
Qed.

Lemma run_app_effects es es' o :
  effects_of (run (es ++ es')) o
  = effects_of (run es) o ++ effects_of (run es') (state_of (run es) o).
Proof.
  revert o. induction es as [|e es IH]; intros o; [done|].
  rewrite <- app_comm_cons. by rewrite !run_cons_effects, IH, run_cons_state, (assoc_L (++)).
Qed.

(** A property of the state kept by every step is kept by every run. *)
Lemma run_invariant (I : Orchestrator -> Prop) es o :
  (forall e o, e ∈ es -> I o -> I (state_of (step e) o)) -> I o -> I (state_of (run es) o).
Proof.
  revert o. induction es as [|e es IH]; intros o Hstep Ho; [done|].
  rewrite run_cons_state. apply IH; [|apply Hstep; [by left|done]].
  intros e' o' He'. apply Hstep. by right.
Qed.

(** A preorder every step respects relates the ends of every run. *)
Lemma run_preorder (R : Orchestrator -> Orchestrator -> Prop) `{!PreOrder R} es o :
  (forall e o, R o (state_of (step e) o)) -> R o (state_of (run es) o).
Proof.
  intros Hstep. revert o. induction es as [|e es IH]; intros o; [done|].
  rewrite run_cons_state. by etrans; [apply Hstep|apply IH].
Qed.

(** ** Frames of the shared methods *)

Lemma modify_conn_frame f o : same_host o (state_of (modify_conn f) o).
Proof. unfold modify_conn, state_of, modify. simpl. by case_match. Qed.

(** Queueing: the host side is kept, nothing is written, no frame numbered. *)
Definition quiet (o o' : Orchestrator) (es : list effect) : Prop :=
  same_host o o' /\ es = [].

Lemma modify_conn_quiet f o : wp (modify_conn f) (fun _ o' es => quiet o o' es) o.
Proof. apply wp_modify. split; [|done]. by case_match. Qed.

Lemma enqueue_quiet m o : wp (enqueue m) (fun _ o' es => quiet o o' es) o.
Proof.
  unfold enqueue. wp_step. apply wp_gets. destruct (conn o) as [c|]; [|done].
  repeat case_match; try done; try apply modify_conn_quiet.
  wp_step. unfold draw_coin at 1, wp at 1. case_match; [|done].
  by eapply wp_mono; [apply modify_conn_quiet|].
Qed.

Lemma note_quiet s o : wp (note s) (fun _ o' es => o' = o /\ Forall is_note es) o.
Proof. unfold note. wp_steps; [split; [done|by constructor]|done]. Qed.

(** The sender writes to the socket only. *)
Definition writes_only (o o' : Orchestrator) (es : list effect) : Prop :=
  same_host o o' /\ Forall is_write es.

Lemma writes_only_refl o : writes_only o o [].
Proof. by split. Qed.

Lemma writes_only_trans o1 o2 o3 es es' :
  writes_only o1 o2 es -> writes_only o2 o3 es' -> writes_only o1 o3 (es ++ es').
Proof. intros [H1 H2] [H3 H4]. split; [by etrans|by apply Forall_app]. Qed.

Definition sends {A} (m : M A) : Prop := forall o, wp m (fun _ o' es => writes_only o o' es) o.

Lemma sends_ret {A} (a : A) : sends (mret a).
Proof. intros o. apply writes_only_refl. Qed.

Lemma sends_bind {A B} (m : M A) (f : A -> M B) :
  sends m -> (forall a, sends (f a)) -> sends (m ≫= f).
Proof.
  intros Hm Hf o. apply wp_bind. eapply wp_mono; [apply Hm|]. intros a o' es H.
  eapply wp_mono; [apply Hf|]. intros b o'' es' H'. cbv beta in *. by eapply writes_only_trans.
Qed.

Lemma sends_gets {A} (f : Orchestrator -> A) : sends (gets f).
Proof. intros o. apply writes_only_refl. Qed.

Lemma sends_modify f : (forall o, same_host o (f o)) -> sends (modify f).
Proof. intros Hf o. split; [apply Hf|done]. Qed.

Lemma sends_modify_conn f : sends (modify_conn f).
Proof. apply sends_modify. intros o. by case_match. Qed.

Lemma sends_write text p ok : sends (tell [EWrite text p ok]).
Proof. intros o. split; [done|by constructor]. Qed.

Lemma sends_draw_rand : sends draw_rand.
Proof. intros o. by split. Qed.
#[local] Hint Resolve sends_ret sends_bind sends_gets sends_modify_conn sends_write
  sends_draw_rand : traces.

Lemma writeMsg_sends ok target kind payload : sends (writeMsg ok target kind payload).
Proof.
  unfold writeMsg, writeTargetFrame, writeText. apply sends_bind; [by apply sends_modify|].
  intros _. do 3 (apply sends_bind; [by auto with traces|intros ?]).
  repeat case_match; auto with traces.
Qed.

Lemma write_frames_sends oks ms : sends (write_frames oks ms).
Proof.
  revert oks. induction ms as [|m ms IH]; intros oks; simpl; [auto with traces|].
  destruct (next_ok oks) as [ok oks']. apply sends_bind; [apply writeMsg_sends|].
  intros []; auto with traces.
Qed.

Lemma sendRepaint_sends oks v : sends (sendRepaint oks v).
Proof. apply sends_bind; [auto with traces|intros ?; apply write_frames_sends]. Qed.
#[local] Hint Resolve writeMsg_sends sendRepaint_sends : traces.

Lemma send_case_sends oks m : sends (send_case oks m).
Proof.
  unfold send_case, writeText, fail_and_return. case_match.
  - apply sends_bind; [auto with traces|]. intros []; auto with traces; apply sends_ret.
  - do 2 (apply sends_bind; [auto with traces|intros ?]).
    apply sends_bind; [case_match; auto with traces|]. intros [b oks']. simpl.
    destruct b; [|auto with traces]. apply sends_bind; [auto with traces|].
    intros []; auto with traces; apply sends_ret.
Qed.

Lemma sender_iter_sends pick oks : sends (sender_iter pick oks).
Proof.
  unfold sender_iter, fail_and_return, skip. apply sends_bind; [auto with traces|].
  intros [c|]; [|apply sends_ret]. destruct (c_running c); [|apply sends_ret].
  destruct pick; repeat case_match; auto with traces; try apply sends_ret.
  - apply sends_bind; [auto with traces|]. intros _. apply sends_bind; [auto with traces|].
    intros [[] ?]; simpl; [apply sends_ret|auto with traces].
  - apply sends_bind; [auto with traces|]. intros _. apply send_case_sends.
Qed.

End Code.
