(* ===== verification/Atoms.v ===== *)
(** * Atoms: the orchestrator's methods as the goroutines run them

    Handlers and Sender run a method as one step.  The goroutines of
    runner/internal/runner/runner.go interleave more finely: between two
    acquisitions of a mutex, two atomics, two channel operations, or two calls
    on the pty or the socket, any other goroutine may run.  Here every method
    is written again as a sequence of such atoms ([part], a resumption): the
    select of enqueue and its dropped.Store, acceptSeq, bindRoute, the check of
    viewerHasControl and the pty call, the size recorded and the ioctl, c.fail,
    conn set to nil, the wait for the sender.  A goroutine that has read o.conn
    holds on to that connection, so connections live in a heap here.

    [handlers_are_their_atoms] says that a method whose atoms run with no other
    goroutine in between is the step of Handlers. *)
From S2P Require Import Prelude Wire Crypto Ring Screen Session Control Json Orch Sender Handlers Traces.
From Stdlib Require Import Strings.Byte.

(** ** The world and the goroutines' code *)

(** [w_orch] is the orchestrator but for its connection; [w_heap] holds every
    connection ever made, [w_cur] is o.conn and [w_serving] the connection
    serveConn is at work on, if it is. *)
Record world := mkWorld {
  w_orch : Orchestrator;
  w_heap : list connState;
  w_cur : option nat;
  w_serving : option nat
}.

(** What a goroutine is still to do: nothing, or an atom - blocked ([None]) in
    some worlds - and what follows it. *)
#[warnings="-register-all"]
Inductive proc := Done | Act (a : world -> option (world * list effect * proc)).

(** A piece of a goroutine's code with a result. *)
Definition part (A : Type) : Type := (A -> proc) -> proc.
#[export] Instance part_ret : MRet part := fun _ a k => k a.
#[export] Instance part_bind : MBind part := fun _ _ f p k => p (fun a => f a k).

Definition proc_of (p : part unit) : proc := p (fun _ => Done).

(** The orchestrator as a goroutine that holds connection [i] sees it. *)
Definition focus (i : option nat) (w : world) : Orchestrator :=
  set_conn (i ≫= fun i => w_heap w !! i) (w_orch w).

Definition unfocus (i : option nat) (o : Orchestrator) (w : world) : world :=
  mkWorld (set_conn None o)
    (match i, conn o with Some i, Some c => <[ i := c ]> (w_heap w) | _, _ => w_heap w end)
    (w_cur w) (w_serving w).

(** An atom on the connection [i] and what goes with it. *)
Definition chan {A} (i : nat) (m : M A) : part A := fun k => Act (fun w =>
  let '(a, o, es) := m (focus (Some i) w) in Some (unfocus (Some i) o w, es, k a)).

(** An atom on the rest. *)
Definition atomic {A} (m : M A) : part A := fun k => Act (fun w =>
  let '(a, o, es) := m (w_orch w) in
  Some (mkWorld o (w_heap w) (w_cur w) (w_serving w), es, k a)).

(** connMu.Lock; c := o.conn; connMu.Unlock *)
Definition load_conn : part (option nat) := fun k => Act (fun w => Some (w, [], k (w_cur w))).

(** The world runs all of a goroutine's code, with no other in between. *)
Fixpoint whole (p : proc) (w : world) : option (world * list effect) :=
  match p with
  | Done => Some (w, [])
  | Act a =>
    match a w with
    | None => None
    | Some (w, es, p) =>
      match whole p w with Some (w', es') => Some (w', es ++ es') | None => None end
    end
  end.

Section Code.
Context `{P : Primitives} `{E : Env}.

(** ** Queueing *)

(** The select of enqueue, but for what its default does: whether it is taken. *)
Definition offer (m : outMsg) : M bool :=
  c ← gets conn;
  match c with
  | None => mret false
  | Some c =>
    match bool_decide (length (c_send c) < sendQueue), c_done c with
    | true, false => modify_conn (push_send m) ;; mret false
    | true, true => b ← draw_coin; (if b : bool then modify_conn (push_send m) else skip) ;; mret false
    | false, true => mret false
    | false, false => mret true
    end
  end.

Definition enqueue_atoms (m : outMsg) : part unit :=
  c ← load_conn;
  match c with
  | None => mret tt
  | Some i =>
    full ← chan i (offer m);
    if full : bool then chan i (modify_conn (set_dropped true)) else mret tt
  end.

Definition emit_atoms (kind : byte) (payload : bytes) : part unit :=
  enqueue_atoms (mkOutMsg kind payload [] false).
Definition emitToViewer_atoms (viewerID : bytes) (kind : byte) (payload : bytes) : part unit :=
  enqueue_atoms (mkOutMsg kind payload viewerID false).
Definition emitText_atoms (payload : bytes) : part unit := enqueue_atoms (mkOutMsg x00 payload [] true).

(** screenBusy loads altScreen and, when it is unset, lastCtl. *)
Definition note_atoms (s : bytes) : part unit :=
  wired ← atomic (gets (fun o => Config_Notify (cfg o)));
  if wired : bool then
    alt ← atomic (gets (fun o => altScreen (screen o)));
    busy ← (if alt : bool then mret true
            else atomic (gets (fun o => screenBusy (clock o) (mkScreen false (lastCtl (screen o))))));
    atomic (tell [ENotify s busy])
  else mret tt.

(** ** Calls on the session *)

Definition write_atoms (p : bytes) : part unit := atomic (sess_write p).

(** SetSize: the size is recorded under the session's mutex; the ioctl comes
    after it is released. *)
Definition set_size_atoms (cols rows : Z) : part unit :=
  cs ← atomic (r ← gets (fun o => SetSize (sess o) cols rows); modify (set_sess r.1) ;; mret r.2);
  atomic (tell (EPty <$> cs)).

(** ** Frames from the relay *)

Definition handleControlRequest_atoms (viewerID routeID : bytes) : part unit :=
  r ← atomic (control ← gets (fun o => Config_Control (cfg o));
              with_viewers (request_section control viewerID routeID));
  emitToViewer_atoms routeID KindControl [r.1] ;;
  if r.2 : bool then note_atoms (str "onlytty: viewer took control") else mret tt.

Definition handleControlRelease_atoms (viewerID routeID : bytes) : part unit :=
  released ← atomic (with_viewers (release_section viewerID));
  if released : bool then
    emitToViewer_atoms routeID KindControl [ControlReadOnly] ;;
    note_atoms (str "onlytty: viewer released control")
  else mret tt.

Definition Revoke_atoms : part unit :=
  r ← atomic (with_viewers revoke_section);
  if decide (r.1 = []) then mret tt
  else
    emitToViewer_atoms r.2 KindControl [ControlReadOnly] ;;
    note_atoms (str "onlytty: host revoked control").

Definition dispatch_atoms (viewerID routeID : bytes) (kind : byte) (payload : bytes) : part unit :=
  if decide (kind = KindInput) then
    owns ← atomic (gets (fun o => viewerHasControl viewerID (vs o)));
    if owns : bool then write_atoms payload else mret tt
  else if decide (kind = KindResize) then
    owns ← atomic (gets (fun o => viewerHasControl viewerID (vs o)));
    if owns : bool then
      match DecodeResize payload with
      | Ok (cols, rows) => set_size_atoms cols rows
      | Err _ => mret tt
      end
    else mret tt
  else if decide (kind = KindCtrlReq) then handleControlRequest_atoms viewerID routeID
  else if decide (kind = KindCtrlRel) then handleControlRelease_atoms viewerID routeID
  else mret tt.

Definition handleBinary_atoms (frame : bytes) : part unit :=
  match DecodeRelayViewerFrame frame with
  | Err _ => mret tt
  | Ok (routeID, sealed) =>
    c ← atomic (gets v2r);
    match Open c sealed with
    | Err _ => mret tt
    | Ok (seq, kind, payload) =>
      match DecodeViewerPayload payload with
      | Err _ => mret tt
      | Ok (viewerID, payload) =>
        ok ← atomic (with_viewers (acceptSeq viewerID seq));
        if ok : bool then
          atomic (modify_viewers (bindRoute routeID viewerID)) ;;
          dispatch_atoms viewerID routeID kind payload
        else mret tt
      end
    end
  end.

(** handleControl, with serveConn's connection [i]. *)
Definition relay_msg_atoms (i : nat) (m : relay_msg) : part unit :=
  if decide (msg_t m = str "hello") then
    atomic (modify (set_viewers (i32 (msg_viewers m)))) ;;
    if decide (msg_viewers m > 0)%Z then chan i (modify_conn (signal [])) else mret tt
  else if decide (msg_t m = str "peer_join") then
    let n := if decide (msg_viewers m <= 0)%Z then 1%Z else msg_viewers m in
    atomic (modify (set_viewers (i32 n))) ;;
    fp ← atomic (gets (fun o => Config_Fingerprint (cfg o)));
    note_atoms (str "onlytty: viewer connected · fingerprint " ++ fp) ;;
    chan i (modify_conn (signal (msg_viewer_id m)))
  else if decide (msg_t m = str "peer_left") then
    let n := if decide (msg_viewers m < 0)%Z then 0%Z else msg_viewers m in
    atomic (modify (set_viewers (i32 n))) ;;
    atomic (modify_viewers (forgetViewer (msg_viewer_id m))) ;;
    note_atoms (str "onlytty: viewer disconnected")
  else if decide (msg_t m = str "busy") then
    note_atoms (str "onlytty: a viewer is already connected (single-viewer lock)")
  else if decide (msg_t m = str "going_away") then
    note_atoms (str "onlytty: relay node is redeploying — will reconnect")
  else if decide (msg_t m = str "bye") then
    note_atoms (str "onlytty: session closed by the relay")
  else mret tt.

Definition handleControl_atoms (i : nat) (data : bytes) : part unit :=
  match unmarshal_relay_msg data with
  | None => mret tt
  | Some m => relay_msg_atoms i m
  end.

(** ** The pumps *)

(** markScreenActivity stores altScreen, then lastCtl; the stores of altScreen
    within one chunk are one atom. *)
Definition screen_atoms (p : bytes) : part unit :=
  ctl ← atomic (s ← gets screen;
                let st := mark_loop (length p) p 0 (altScreen s, false) in
                modify (set_screen (mkScreen st.1 (lastCtl s))) ;; mret st.2);
  if ctl : bool then
    atomic (modify (fun o => set_screen (mkScreen (altScreen (screen o)) (clock o)) o))
  else mret tt.

Definition pumpOutput_atoms (chunk : bytes) : part unit :=
  screen_atoms chunk ;;
  atomic (local ← gets (fun o => Config_LocalOut (cfg o));
          if local : bool then tell [ELocal chunk] else skip) ;;
  atomic (modify (fun o => set_ring (Ring_Write (ring o) chunk).1 o)) ;;
  n ← atomic (gets viewers);
  if decide (n > 0)%Z then emit_atoms KindOutput chunk else mret tt.

Definition pumpInput_atoms (p : bytes) : part unit :=
  atomic (local ← gets (fun o => Config_LocalIn (cfg o)); if local : bool then sess_write p else skip).

Definition keepalive_atoms : part unit :=
  s ← atomic (gets (fun o => Size (sess o)));
  emit_atoms KindHello (EncodeHello 1 s.1 s.2).

Definition Resize_atoms (cols rows : Z) : part unit :=
  set_size_atoms cols rows ;;
  n ← atomic (gets viewers);
  if decide (n > 0)%Z then
    s ← atomic (gets (fun o => Size (sess o)));
    emit_atoms KindHello (EncodeHello 1 s.1 s.2)
  else mret tt.

(** ** Exit and shutdown *)

Definition signalExit_atoms : part unit :=
  code ← atomic (gets (fun o => ExitCode (sess o)));
  emit_atoms KindExit (EncodeExit (i32 code)) ;;
  emitText_atoms byeEnded.

(** Wait sets the process state as it returns, once. *)
Definition exit_watcher_atoms (code : Z) : part unit :=
  waiting ← atomic (waiting ← gets (fun o => bool_decide (sess_state (sess o) = None));
                    (if waiting : bool then modify (fun o => set_sess (Wait (sess o) code) o) else skip) ;;
                    mret waiting);
  if waiting : bool then
    atomic (modify (fun o => set_exitCode (i32 (ExitCode (sess o))) o)) ;;
    signalExit_atoms
  else mret tt.

(** sync.Once lets one caller in and holds the others until it is through. *)
Definition shutdown_atoms : part unit := atomic shutdown.

(** ** A connection's life *)

(** serveConn's start: connMu.Lock; o.conn = c; connMu.Unlock. *)
Definition serveConn_start_atoms : part unit := fun k => Act (fun w =>
  match w_serving w with
  | Some _ => Some (w, [], k tt)
  | None =>
    let i := length (w_heap w) in
    Some (mkWorld (w_orch w) (w_heap w ++ [newConn]) (Some i) (Some i), [], k tt)
  end).

(** connMu.Lock; if o.conn == c { o.conn = nil }; connMu.Unlock *)
Definition drop_conn (i : nat) : part unit := fun k => Act (fun w =>
  Some (mkWorld (w_orch w) (w_heap w) (if decide (w_cur w = Some i) then None else w_cur w) (w_serving w),
        [], k tt)).

(** swg.Wait(): blocks until the sender has returned. *)
Definition wait_sender (i : nat) : part unit := fun k => Act (fun w =>
  match w_heap w !! i with
  | Some c => if c_running c then None else Some (w, [], k tt)
  | None => Some (w, [], k tt)
  end).

(** serveConn returns. *)
Definition leave : part unit := fun k => Act (fun w =>
  Some (mkWorld (w_orch w) (w_heap w) (w_cur w) None, [], k tt)).

Definition serveConn_end_atoms (i : nat) : part unit :=
  chan i (modify_conn fail) ;;
  drop_conn i ;;
  wait_sender i ;;
  atomic (modify (set_viewers 0%Z)) ;;
  atomic (modify_viewers clearControlOwner) ;;
  leave.

(** ** The sender of connection [i] *)

Definition take_join : M (option bytes) :=
  c ← gets conn;
  match c with
  | Some c =>
    match c_running c, c_join c with
    | true, v :: j => modify_conn (set_join j) ;; mret (Some v)
    | _, _ => mret None
    end
  | None => mret None
  end.

Definition take_send : M (option outMsg) :=
  c ← gets conn;
  match c with
  | Some c =>
    match c_running c, c_send c with
    | true, m :: q => modify_conn (set_send q) ;; mret (Some m)
    | _, _ => mret None
    end
  | None => mret None
  end.

(** dropped.Swap(false) *)
Definition swap_dropped : M bool :=
  dropped ← gets (fun o => from_option c_dropped false (conn o));
  modify_conn (set_dropped false) ;; mret dropped.

Definition repaintFrames_atoms (viewerID : bytes) : part (list outMsg) :=
  s ← atomic (gets (fun o => Size (sess o)));
  b ← atomic (gets (fun o => baseline viewerID (vs o)));
  snapshot ← atomic (gets (fun o => Ring_Snapshot (ring o)));
  let frames := [
    mkOutMsg KindHello (EncodeHello b s.1 s.2) viewerID false;
    mkOutMsg KindOutput (RIS ++ snapshot) viewerID false] in
  if decide (viewerID <> []) then
    state ← atomic (gets (fun o => controlState viewerID (vs o)));
    mret (frames ++ [mkOutMsg KindControl [state] viewerID false])
  else mret frames.

Definition writeText_atoms (ok : bool) (payload : bytes) : part bool := atomic (writeText ok payload).

(** outSeq moves under sendMu; sealing and the write come after. *)
Definition writeMsg_atoms (ok : bool) (target : bytes) (kind : byte) (payload : bytes) : part bool :=
  seq ← atomic (modify (fun o => set_outSeq (u64 (outSeq o + 1)) o) ;; gets outSeq);
  c ← atomic (gets r2v);
  rnd ← atomic draw_rand;
  match Seal c rnd seq kind payload with
  | Err _ => mret false
  | Ok frame =>
    if decide (target <> []) then atomic (writeTargetFrame ok target frame)
    else atomic (tell [EWrite false frame ok] ;; mret ok)
  end.

Fixpoint write_frames_atoms (oks : list bool) (ms : list outMsg) : part (bool * list bool) :=
  match ms with
  | [] => mret (true, oks)
  | m :: ms =>
    let '(ok, oks) := next_ok oks in
    done ← writeMsg_atoms ok (om_target m) (om_kind m) (om_payload m);
    if done : bool then write_frames_atoms oks ms else mret (false, oks)
  end.

Definition sendRepaint_atoms (oks : list bool) (viewerID : bytes) : part (bool * list bool) :=
  ms ← repaintFrames_atoms viewerID;
  write_frames_atoms oks ms.

(** c.fail(); return *)
Definition fail_atoms (i : nat) : part unit :=
  chan i (modify_conn fail) ;; chan i (modify_conn stop_sender).

Definition send_case_atoms (i : nat) (oks : list bool) (m : outMsg) : part unit :=
  if om_text m then
    done ← writeText_atoms (next_ok oks).1 (om_payload m);
    if done : bool then mret tt else fail_atoms i
  else
    dropped ← chan i swap_dropped;
    r ← (if dropped : bool then sendRepaint_atoms oks [] else mret (true, oks));
    if r.1 : bool then
      done ← writeMsg_atoms (next_ok r.2).1 (om_target m) (om_kind m) (om_payload m);
      if done : bool then mret tt else fail_atoms i
    else fail_atoms i.

(** The return at a done context or a closed c.done. *)
Definition return_if (b : connState -> bool) : M unit :=
  c ← gets conn;
  match c with
  | Some c => if c_running c && b c then modify_conn stop_sender else skip
  | None => skip
  end.

Definition sender_atoms (i : nat) (pick : sender_case) (oks : list bool) : part unit :=
  match pick with
  | CaseCtxDone => chan i (return_if (fun _ => true))
  | CaseDone => chan i (return_if c_done)
  | CaseJoin =>
    v ← chan i take_join;
    match v with
    | None => mret tt
    | Some viewerID =>
      r ← sendRepaint_atoms oks viewerID;
      if r.1 : bool then mret tt else fail_atoms i
    end
  | CaseSend =>
    m ← chan i take_send;
    match m with
    | None => mret tt
    | Some m => send_case_atoms i oks m
    end
  end.

(** ** A task of a goroutine: what it does at an event.  [i] is the connection
    that serveConn, or the sender, holds. *)
Definition task (i : option nat) (e : event) : part unit :=
  match e with
  | EvClock now => atomic (modify (set_clock now))
  | EvMessage text data =>
    match i with
    | Some i => if text then handleControl_atoms i data else handleBinary_atoms data
    | None => mret tt
    end
  | EvConnect => serveConn_start_atoms
  | EvDisconnect => match i with Some i => serveConn_end_atoms i | None => mret tt end
  | EvSender pick oks => match i with Some i => sender_atoms i pick oks | None => mret tt end
  | EvOutput chunk => pumpOutput_atoms chunk
  | EvInput p => pumpInput_atoms p
  | EvResize cols rows => Resize_atoms cols rows
  | EvKeepalive => keepalive_atoms
  | EvRevoke => Revoke_atoms
  | EvExit code => exit_watcher_atoms code
  | EvShutdown => shutdown_atoms
  end.

End Code.

(** The orchestrator of Handlers that a world amounts to when serveConn is not
    in the middle of its start or its end. *)
Definition view (w : world) : Orchestrator := focus (w_cur w) w.

(** Between two tasks of the goroutine that serves connections. *)
Record settled (w : world) : Prop := {
  st_conn : conn (w_orch w) = None;
  st_cur : w_cur w = w_serving w;
  st_heap : forall i, w_cur w = Some i -> is_Some (w_heap w !! i)
}.

(** ** A method without interruption *)

Definition put (o : Orchestrator) (w : world) : world := unfocus (w_cur w) o w.

Definition prepend (es : list effect) (r : option (world * list effect)) : option (world * list effect) :=
  match r with Some (w, es') => Some (w, es ++ es') | None => None end.

(** A computation neither makes nor drops the connection. *)
Definition keeps_conn (o o' : Orchestrator) : Prop := is_Some (conn o') <-> is_Some (conn o).

(** The atoms [p], run from a settled world, do what the computation [m] does. *)
Definition realises {A} (c : option nat) (p : part A) (m : M A) : Prop :=
  forall w, settled w -> w_cur w = c ->
  keeps_conn (view w) (m (view w)).1.2 /\
  forall k, whole (p k) w = prepend (m (view w)).2 (whole (k (m (view w)).1.1) (put (m (view w)).1.2 w)).

(** A computation that neither reads nor writes the connection. *)
Definition blind {A} (m : M A) : Prop :=
  forall c o, m (set_conn c o) = ((m o).1.1, set_conn c (m o).1.2, (m o).2).

Lemma prepend_nil r : prepend [] r = r.
Proof. by destruct r as [[]|]. Qed.

Lemma prepend_app es es' r : prepend es (prepend es' r) = prepend (es ++ es') r.
Proof. destruct r as [[w es'']|]; [|done]. simpl. by rewrite (assoc_L (++)). Qed.

Lemma set_conn_same o : set_conn (conn o) o = o.
Proof. by destruct o. Qed.

Lemma set_conn_twice c c' o : set_conn c (set_conn c' o) = set_conn c o.
Proof. done. Qed.

Section Settled.
Context (w : world) (Hw : settled w).

Lemma view_conn : is_Some (conn (view w)) <-> is_Some (w_cur w).
Proof.
  unfold view, focus. simpl. pose proof (st_heap w Hw) as H. destruct (w_cur w) as [i|]; simpl; [|done].
  split; [done|]. intros _. by apply H.
Qed.

Lemma put_view o : keeps_conn (view w) o ->
  settled (put o w) /\ view (put o w) = o /\ w_cur (put o w) = w_cur w.
Proof.
  unfold keeps_conn. rewrite view_conn. intros H. pose proof Hw as [H1 H2 H3].
  unfold view, put, unfocus, focus. simpl. rewrite set_conn_twice.
  destruct (w_cur w) as [i|] eqn:Hc; simpl.
  - destruct (conn o) as [c|] eqn:Ho; [|destruct H as [_ [? ?]]; by eauto].
    assert (i < length (w_heap w)) as Hlt by (by apply lookup_lt_is_Some, H3).
    rewrite list_lookup_insert_eq by done. rewrite <- Ho, set_conn_same.
    split; [|done]. split; simpl; [done|congruence|]. intros j [= <-].
    by rewrite list_lookup_insert_eq.
  - destruct (conn o) as [c|] eqn:Ho; [destruct H as [[? ?] _]; [by eauto|done]|].
    rewrite <- Ho, set_conn_same. split; [|done]. split; simpl; [done|congruence|done].
Qed.

End Settled.

Lemma put_twice o o' w :
  is_Some (conn o) <-> is_Some (conn o') -> put o' (put o w) = put o' w.
Proof.
  intros H. unfold put, unfocus. simpl. f_equal. destruct (w_cur w) as [i|]; [|done].
  destruct (conn o') as [c'|] eqn:H'.
  - destruct (conn o) as [c|]; [|done]. by rewrite list_insert_insert_eq.
  - destruct (conn o) as [c|]; [|done]. destruct H as [H _]. destruct H; [by eauto|done].
Qed.

Lemma put_id w : settled w -> put (view w) w = w.
Proof.
  intros [H1 H2 H3]. destruct w as [o h cur sv]. unfold put, unfocus, view, focus in *. simpl in *.
  rewrite set_conn_twice. rewrite <- H1, set_conn_same. f_equal.
  destruct cur as [i|]; [|done]. simpl. destruct (h !! i) as [c|] eqn:Hc; [|done].
  by apply list_insert_id.
Qed.

Lemma whole_act {A} (k : A -> proc) w a w' es :
  whole (Act (fun _ => Some (w', es, k a))) w = prepend es (whole (k a) w').
Proof. simpl. by destruct (whole (k a) w') as [[]|]. Qed.

Lemma realises_ret {A} c (a : A) : realises c (mret a) (mret a).
Proof.
  intros w Hw _. split; [done|]. intros k. simpl. by rewrite put_id, prepend_nil.
Qed.

Lemma realises_bind {A B} c (p : part A) (q : A -> part B) (m : M A) (f : A -> M B) :
  realises c p m -> (forall a, realises c (q a) (f a)) -> realises c (p ≫= q) (m ≫= f).
Proof.
  intros Hp Hq w Hw Hc. destruct (Hp w Hw Hc) as [Hk Hr].
  unfold mbind, M_bind, part_bind. destruct (m (view w)) as [[a o] es]. simpl in *.
  destruct (put_view w Hw o Hk) as (Hw' & Hv & Hc').
  destruct (Hq a (put o w) Hw') as [Hk2 Hr2]; [by rewrite Hc'|]. rewrite Hv in Hk2, Hr2.
  destruct (f a o) as [[b o'] es']. simpl in *. split.
  - unfold keeps_conn in *. tauto.
  - intros k. rewrite Hr, Hr2, prepend_app. f_equal. by rewrite put_twice by (unfold keeps_conn in *; tauto).
Qed.

Lemma realises_ext {A} c (p : part A) (m m' : M A) :
  (forall o, m o = m' o) -> realises c p m -> realises c p m'.
Proof. intros H Hp w Hw Hc. rewrite <- H. by apply Hp. Qed.

Lemma realises_atomic {A} c (m : M A) : blind m -> realises c (atomic m) m.
Proof.
  intros Hm w Hw Hc. unfold view, focus.
  assert (conn (m (w_orch w)).1.2 = None) as Hn.
  { pose proof (Hm None (w_orch w)) as H. rewrite <- (st_conn w Hw), set_conn_same in H.
    rewrite H. simpl. apply Hw. }
  split; rewrite Hm; cbn [fst snd]; [done|]. intros k.
  destruct (m (w_orch w)) as [[a o] es] eqn:Ho. cbn [fst snd] in *.
  assert (put (set_conn (w_cur w ≫= fun i => w_heap w !! i) o) w = mkWorld o (w_heap w) (w_cur w) (w_serving w)) as ->.
  { unfold put, unfocus. simpl. rewrite set_conn_twice, <- Hn, set_conn_same. f_equal.
    destruct (w_cur w) as [i|]; [|done]. simpl. destruct (w_heap w !! i) eqn:E; [|done]. by apply list_insert_id. }
  unfold atomic. cbn [whole]. rewrite Ho. by destruct (whole (k a) _) as [[]|].
Qed.

Lemma realises_chan {A} i (m : M A) :
  (forall o, keeps_conn o (m o).1.2) -> realises (Some i) (chan i m) m.
Proof.
  intros Hm w Hw Hc. assert (focus (Some i) w = view w) as Hv by (unfold view; by rewrite Hc).
  split; [apply Hm|]. intros k. unfold chan. simpl. rewrite Hv.
  destruct (m (view w)) as [[a o] es]. simpl.
  assert (unfocus (Some i) o w = put o w) as -> by (unfold put; by rewrite Hc).
  by destruct (whole (k a) _) as [[]|].
Qed.

Lemma bind_assoc {A B C} (m : M A) (f : A -> M B) (g : B -> M C) o :
  ((m ≫= f) ≫= g) o = (m ≫= (fun a => f a ≫= g)) o.
Proof.
  unfold mbind, M_bind. destruct (m o) as [[a o1] es]. destruct (f a o1) as [[b o2] es'].
  destruct (g b o2) as [[c o3] es'']. by rewrite (assoc_L (++)).
Qed.

Lemma bind_ext {A B} (m : M A) (f g : A -> M B) o :
  (forall a o', f a o' = g a o') -> (m ≫= f) o = (m ≫= g) o.
Proof. intros H. unfold mbind, M_bind. destruct (m o) as [[a o'] es]. by rewrite H. Qed.

Lemma bind_ret {A B} (a : A) (f : A -> M B) o : (mret a ≫= f) o = f a o.
Proof. unfold mbind, M_bind, mret, M_ret. by destruct (f a o) as [[b o'] es]. Qed.

(** Settles [blind] and the like for a computation made of reads and updates. *)
Ltac by_computing :=
  intros;
  repeat match goal with o : Orchestrator |- _ => destruct o end;
  unfold keeps_conn, mbind, M_bind, mret, M_ret, gets, modify, modify_viewers, modify_conn, tell, skip,
    with_viewers, draw_rand, draw_coin, sess_write, sess_set_size; simpl;
  repeat (case_match; simpl in *; simplify_eq/=); first [done | by split; eauto].

Lemma blind_bind {A B} (m : M A) (f : A -> M B) : blind m -> (forall a, blind (f a)) -> blind (m ≫= f).
Proof.
  intros Hm Hf c o. unfold mbind, M_bind. rewrite Hm. destruct (m o) as [[a o1] es]. simpl.
  rewrite Hf. by destruct (f a o1) as [[b o2] es'].
Qed.

Lemma blind_with_viewers {A} (f : ViewerState -> A * ViewerState) : blind (with_viewers f).
Proof. intros c o. unfold with_viewers. simpl. by destruct (f (vs o)). Qed.

Ltac blinding :=
  repeat (cbv beta zeta;
  lazymatch goal with
  | |- blind (mbind _ _) => apply blind_bind; [|intros ?]
  | |- blind (with_viewers _) => apply blind_with_viewers
  | |- blind (match ?x with _ => _ end) => destruct x
  | |- blind _ => by_computing
  end).

(** Applies the lemmas on binds, matches and atoms. *)
Create HintDb realise.
Ltac realising :=
  repeat (cbv beta zeta;
  lazymatch goal with
  | |- realises _ (mret _) _ => apply realises_ret
  | |- realises _ (mbind _ _) (mbind _ _) => apply realises_bind; [|intros ?]
  | |- realises _ (atomic _) _ => apply realises_atomic; blinding
  | |- realises _ (match ?x with _ => _ end) _ => destruct x
  | |- realises _ _ _ => by auto with realise
  end).

Section Code.
Context `{P : Primitives} `{E : Env}.

Lemma offer_keeps m o : keeps_conn o (offer m o).1.2.
Proof.
  unfold keeps_conn, offer, mbind, M_bind, gets. destruct (conn o) as [c|] eqn:Hc; simpl; rewrite ?Hc; [|done].
  destruct (bool_decide (length (c_send c) < sendQueue)), (c_done c);
    unfold modify_conn, modify, draw_coin; simpl; rewrite ?Hc; simpl; try done;
    try (destruct (coin (coins o)); simpl; rewrite ?Hc); by split; eauto.
Qed.

Lemma realises_load {A} c (p : option nat -> part A) (m : M A) :
  realises c (p c) m -> realises c (c ← load_conn; p c) m.
Proof.
  intros H w Hw Hc. destruct (H w Hw Hc) as [Hk Hr]. split; [done|]. intros k.
  unfold mbind, part_bind, load_conn. simpl. rewrite Hc, Hr.
  by destruct (prepend _ _) as [[]|].
Qed.

(** enqueue's select, then the store its default asks for. *)
Lemma enqueue_offer m o :
  (full ← offer m; if full : bool then modify_conn (set_dropped true) else mret tt) o = enqueue m o.
Proof.
  unfold offer, enqueue, mbind, M_bind, gets. destruct (conn o) as [c|] eqn:Hc; [|done].
  destruct (bool_decide (length (c_send c) < sendQueue)), (c_done c); simpl; try done.
  by destruct (coin (coins o)).
Qed.

Lemma realises_enqueue c m : realises c (enqueue_atoms m) (enqueue m).
Proof.
  apply realises_load. destruct c as [i|].
  - eapply realises_ext; [apply enqueue_offer|].
    apply realises_bind; [apply realises_chan, offer_keeps|]. intros [].
    + apply realises_chan. by_computing.
    + apply realises_ret.
  - intros w Hw Hc. assert (enqueue m (view w) = (skip : M unit) (view w)) as ->.
    { unfold enqueue, mbind, M_bind, gets. unfold view at 1, focus. simpl. rewrite Hc. by destruct (view w). }
    by apply (realises_ret None tt).
Qed.
Hint Resolve realises_enqueue : realise.

Lemma realises_note c s : realises c (note_atoms s) (note s).
Proof.
  unfold note_atoms, note. apply realises_bind; [apply realises_atomic; by_computing|]. intros [].
  2: apply realises_ret.
  apply (realises_ext _ _ (alt ← gets (fun o => altScreen (screen o));
    busy ← (if alt : bool then mret true
            else gets (fun o => screenBusy (clock o) (mkScreen false (lastCtl (screen o)))));
    tell [ENotify s busy])).
  { intros o. unfold mbind, M_bind, gets, screenBusy. by destruct (altScreen (screen o)) eqn:Ha; rewrite ?Ha. }
  realising.
Qed.
Hint Resolve realises_note : realise.

Lemma realises_set_size c cols rows : realises c (set_size_atoms cols rows) (sess_set_size cols rows).
Proof.
  apply (realises_ext _ _ (cs ← (r ← gets (fun o => SetSize (sess o) cols rows); modify (set_sess r.1) ;; mret r.2);
    tell (EPty <$> cs))).
  { intros o. unfold sess_set_size. by_computing. }
  unfold set_size_atoms. realising.
Qed.
Hint Resolve realises_set_size : realise.

Lemma realises_request c v r : realises c (handleControlRequest_atoms v r) (handleControlRequest v r).
Proof.
  apply (realises_ext _ _ (
    x ← (control ← gets (fun o => Config_Control (cfg o)); with_viewers (request_section control v r));
    emitToViewer r KindControl [x.1] ;;
    if x.2 : bool then note (str "onlytty: viewer took control") else skip)).
  { intros o. apply bind_assoc. }
  unfold handleControlRequest_atoms, emitToViewer_atoms, emitToViewer. realising.
Qed.

Lemma realises_release c v r : realises c (handleControlRelease_atoms v r) (handleControlRelease v r).
Proof.
  unfold handleControlRelease_atoms, handleControlRelease, emitToViewer_atoms, emitToViewer. realising.
Qed.

Lemma realises_revoke c : realises c Revoke_atoms Revoke.
Proof. unfold Revoke_atoms, Revoke, emitToViewer_atoms, emitToViewer. realising. Qed.
Hint Resolve realises_request realises_release realises_revoke : realise.

Lemma realises_handleBinary c data : realises c (handleBinary_atoms data) (handleBinary data).
Proof.
  unfold handleBinary_atoms, handleBinary, dispatch_atoms, dispatch, write_atoms. realising.
Qed.

Lemma modify_conn_keeps f o : keeps_conn o (modify_conn f o).1.2.
Proof. unfold keeps_conn, modify_conn, modify. simpl. destruct (conn o) eqn:Hc; simpl; rewrite ?Hc; by split; eauto. Qed.

Lemma realises_modify_conn i f : realises (Some i) (chan i (modify_conn f)) (modify_conn f).
Proof. apply realises_chan, modify_conn_keeps. Qed.
Hint Resolve realises_modify_conn : realise.

Lemma realises_handleControl i data : realises (Some i) (handleControl_atoms i data) (handleControl data).
Proof. unfold handleControl_atoms, handleControl, relay_msg_atoms, handle_relay_msg. realising. Qed.

Lemma realises_screen c p :
  realises c (screen_atoms p) (modify (fun o => set_screen (markScreenActivity (clock o) p (screen o)) o)).
Proof.
  apply (realises_ext _ _ (
    ctl ← (s ← gets screen;
           let st := mark_loop (length p) p 0 (altScreen s, false) in
           modify (set_screen (mkScreen st.1 (lastCtl s))) ;; mret st.2);
    if ctl : bool then modify (fun o => set_screen (mkScreen (altScreen (screen o)) (clock o)) o) else mret tt)).
  { intros o. unfold mbind, M_bind, gets, modify, mret, M_ret, markScreenActivity. simpl.
    destruct (mark_loop _ p 0 _) as [alt ctl]. simpl. by destruct ctl. }
  unfold screen_atoms. realising.
Qed.
Hint Resolve realises_screen : realise.

Lemma realises_pumpOutput c chunk : realises c (pumpOutput_atoms chunk) (pumpOutput_chunk chunk).
Proof.
  apply (realises_ext _ _ (
    modify (fun o => set_screen (markScreenActivity (clock o) chunk (screen o)) o) ;;
    (local ← gets (fun o => Config_LocalOut (cfg o)); if local : bool then tell [ELocal chunk] else skip) ;;
    modify (fun o => set_ring (Ring_Write (ring o) chunk).1 o) ;;
    n ← gets viewers;
    if decide (n > 0)%Z then emit KindOutput chunk else skip)).
  { intros o. apply bind_ext. intros [] o'. apply bind_assoc. }
  unfold pumpOutput_atoms, emit_atoms, emit. realising.
Qed.

Lemma realises_Resize c cols rows : realises c (Resize_atoms cols rows) (Resize cols rows).
Proof. unfold Resize_atoms, Resize, emit_atoms, emit. realising. Qed.

Lemma realises_keepalive c : realises c keepalive_atoms keepalive_tick.
Proof. unfold keepalive_atoms, keepalive_tick, emit_atoms, emit. realising. Qed.

Lemma realises_exit c code : realises c (exit_watcher_atoms code) (exit_watcher code).
Proof.
  apply (realises_ext _ _ (
    waiting ← (waiting ← gets (fun o => bool_decide (sess_state (sess o) = None));
               (if waiting : bool then modify (fun o => set_sess (Wait (sess o) code) o) else skip) ;;
               mret waiting);
    if waiting : bool then
      modify (fun o => set_exitCode (i32 (ExitCode (sess o))) o) ;; signalExit
    else mret tt)).
  { intros o. etrans; [apply bind_assoc|]. unfold exit_watcher. apply bind_ext. intros [] o'; [|done].
    etrans; [apply bind_assoc|]. apply bind_ext. intros [] o1.
    exact (bind_ret true _ o1). }
  unfold exit_watcher_atoms, signalExit_atoms, signalExit, emit_atoms, emit, emitText_atoms, emitText. realising.
Qed.

(** *** The sender *)

Lemma realises_repaintFrames c v : realises c (repaintFrames_atoms v) (gets (repaintFrames v)).
Proof.
  apply (realises_ext _ _ (
    s ← gets (fun o => Size (sess o));
    b ← gets (fun o => baseline v (vs o));
    snapshot ← gets (fun o => Ring_Snapshot (ring o));
    let frames := [
      mkOutMsg KindHello (EncodeHello b s.1 s.2) v false;
      mkOutMsg KindOutput (RIS ++ snapshot) v false] in
    if decide (v <> []) then
      state ← gets (fun o => controlState v (vs o));
      mret (frames ++ [mkOutMsg KindControl [state] v false])
    else mret frames)).
  { intros o. unfold mbind, M_bind, mret, M_ret, gets, repaintFrames. simpl.
    destruct (Size (sess o)). by case_decide. }
  unfold repaintFrames_atoms. realising.
Qed.
Hint Resolve realises_repaintFrames : realise.

Lemma realises_writeMsg c ok target kind payload :
  realises c (writeMsg_atoms ok target kind payload) (writeMsg ok target kind payload).
Proof.
  apply (realises_ext _ _ (
    seq ← (modify (fun o => set_outSeq (u64 (outSeq o + 1)) o) ;; gets outSeq);
    c ← gets r2v;
    rnd ← draw_rand;
    match Seal c rnd seq kind payload with
    | Err _ => mret false
    | Ok frame =>
      if decide (target <> []) then writeTargetFrame ok target frame
      else tell [EWrite false frame ok] ;; mret ok
    end)).
  { intros o. apply bind_assoc. }
  unfold writeMsg_atoms, writeTargetFrame, writeText. realising.
Qed.
Hint Resolve realises_writeMsg : realise.

Lemma realises_write_frames c oks ms : realises c (write_frames_atoms oks ms) (write_frames oks ms).
Proof.
  revert oks. induction ms as [|m ms IH]; intros oks; simpl; [apply realises_ret|].
  destruct (next_ok oks) as [ok oks']. realising.
Qed.
Hint Resolve realises_write_frames : realise.

Lemma realises_sendRepaint c oks v : realises c (sendRepaint_atoms oks v) (sendRepaint oks v).
Proof. unfold sendRepaint_atoms, sendRepaint. realising. Qed.
Hint Resolve realises_sendRepaint : realise.

Lemma realises_fail i : realises (Some i) (fail_atoms i) fail_and_return.
Proof.
  apply (realises_ext _ _ (modify_conn fail ;; modify_conn stop_sender)).
  { intros o. unfold fail_and_return, modify_conn, modify, mbind, M_bind.
    destruct (conn o) eqn:Hc; simpl; by rewrite ?Hc. }
  unfold fail_atoms. realising.
Qed.
Hint Resolve realises_fail : realise.

Lemma swap_dropped_keeps o : keeps_conn o (swap_dropped o).1.2.
Proof. apply (modify_conn_keeps (set_dropped false)). Qed.

Lemma realises_send_case i oks m : realises (Some i) (send_case_atoms i oks m) (send_case oks m).
Proof.
  unfold send_case_atoms, send_case, writeText_atoms. destruct (om_text m); [unfold writeText; realising|].
  apply (realises_ext _ _ (
    dropped ← swap_dropped;
    r ← (if dropped : bool then sendRepaint oks [] else mret (true, oks));
    if r.1 : bool then
      done ← writeMsg (next_ok r.2).1 (om_target m) (om_kind m) (om_payload m);
      if done : bool then skip else fail_and_return
    else fail_and_return)).
  { intros o. etrans; [apply bind_assoc|]. apply bind_ext. intros d o'.
    etrans; [apply bind_assoc|]. apply bind_ext. intros [] o1. exact (bind_ret d _ o1). }
  apply realises_bind; [apply realises_chan, swap_dropped_keeps|]. intros d. realising.
Qed.
Hint Resolve realises_send_case : realise.

Lemma take_join_keeps o : keeps_conn o (take_join o).1.2.
Proof.
  unfold keeps_conn, take_join, mbind, M_bind, gets, modify_conn, modify. simpl.
  destruct (conn o) as [c|] eqn:Hc; [|by simpl; rewrite ?Hc].
  destruct (c_running c), (c_join c); simpl; rewrite ?Hc; by split; eauto.
Qed.

Lemma take_send_keeps o : keeps_conn o (take_send o).1.2.
Proof.
  unfold keeps_conn, take_send, mbind, M_bind, gets, modify_conn, modify. simpl.
  destruct (conn o) as [c|] eqn:Hc; [|by simpl; rewrite ?Hc].
  destruct (c_running c), (c_send c); simpl; rewrite ?Hc; by split; eauto.
Qed.

Lemma return_if_keeps b o : keeps_conn o (return_if b o).1.2.
Proof.
  unfold keeps_conn, return_if, mbind, M_bind, gets, modify_conn, modify. simpl.
  destruct (conn o) as [c|] eqn:Hc; [|by simpl; rewrite ?Hc].
  destruct (c_running c && b c); simpl; rewrite ?Hc; by split; eauto.
Qed.

Lemma realises_sender i pick oks : realises (Some i) (sender_atoms i pick oks) (sender_iter pick oks).
Proof.
  destruct pick; simpl.
  - apply (realises_ext _ _ (return_if (fun _ => true))); [|apply realises_chan, return_if_keeps].
    intros o. apply bind_ext. intros [c|] o'; [|done]. by destruct (c_running c).
  - apply (realises_ext _ _ (return_if c_done)); [|apply realises_chan, return_if_keeps].
    intros o. apply bind_ext. intros [c|] o'; [|done]. by destruct (c_running c).
  - apply (realises_ext _ _ (v ← take_join;
      match v with
      | None => mret tt
      | Some viewerID => r ← sendRepaint oks viewerID; if r.1 : bool then mret tt else fail_and_return
      end)).
    { intros o. etrans; [apply bind_assoc|]. apply bind_ext. intros [c|] o'; [|done].
      by destruct (c_running c), (c_join c). }
    apply realises_bind; [apply realises_chan, take_join_keeps|]. intros v. realising.
  - apply (realises_ext _ _ (m ← take_send;
      match m with None => mret tt | Some m => send_case oks m end)).
    { intros o. etrans; [apply bind_assoc|]. apply bind_ext. intros [c|] o'; [|done].
      by destruct (c_running c), (c_send c). }
    apply realises_bind; [apply realises_chan, take_send_keeps|]. intros m. realising.
Qed.

(** ** Connections *)

Lemma connect_atoms w :
  settled w ->
  exists w', whole (proc_of serveConn_start_atoms) w = Some (w', []) /\ settled w' /\
    view w' = state_of serveConn_start (view w) /\ effects_of serveConn_start (view w) = [].
Proof.
  intros Hw. pose proof (view_conn w Hw) as Hv. pose proof Hw as [H1 H2 H3].
  unfold proc_of, serveConn_start_atoms. simpl. rewrite <- H2.
  unfold state_of, effects_of, serveConn_start, mbind, M_bind, gets.
  destruct (w_cur w) as [i|] eqn:Hc.
  - destruct (conn (view w)) as [c|] eqn:Hcv; [|destruct Hv as [_ [? ?]]; [by eauto|done]].
    exists w. by split_and!.
  - destruct (conn (view w)) as [c|] eqn:Hcv; [destruct Hv as [[? ?] _]; [by eauto|done]|].
    eexists. split; [done|]. simpl. split; [|split; [|done]].
    + split; simpl; [done..|]. intros j [= <-]. by rewrite lookup_app_r, Nat.sub_diag by lia.
    + unfold view, focus. simpl. rewrite Hc, lookup_app_r, Nat.sub_diag by lia. done.
Qed.

Lemma disconnect_atoms i w :
  settled w -> w_cur w = Some i ->
  match whole (proc_of (serveConn_end_atoms i)) w with
  | Some (w', es) =>
    settled w' /\ view w' = state_of serveConn_end (view w) /\ es = effects_of serveConn_end (view w)
  | None => exists c, conn (view w) = Some c /\ c_running c = true
  end.
Proof.
  intros Hw Hc. pose proof Hw as [H1 H2 H3]. destruct (H3 i Hc) as [c Hi].
  assert (conn (view w) = Some c) as Hv by (unfold view, focus; simpl; by rewrite Hc; simpl).
  assert (i < length (w_heap w)) as Hlt by (by eapply lookup_lt_Some).
  unfold proc_of, serveConn_end_atoms, mbind, part_bind, chan, focus. simpl.
  rewrite Hi. unfold modify_conn, modify. simpl. rewrite decide_True by done.
  rewrite list_lookup_insert_eq by done. simpl.
  destruct (c_running c) eqn:Hr; simpl; [by eauto|].
  split; [|split].
  - by split.
  - unfold state_of, serveConn_end, mbind, M_bind, gets. rewrite Hv. simpl.
    unfold modify_conn, modify. simpl. by rewrite Hc; simpl; rewrite Hi.
  - unfold effects_of, serveConn_end, mbind, M_bind, gets. rewrite Hv. simpl.
    unfold modify_conn, modify. simpl. done.
Qed.

(** A computation that only skips where there is no connection. *)
Lemma realises_unconnected (m : M unit) :
  (forall o, conn o = None -> m o = skip o) -> realises None (mret tt) m.
Proof.
  intros H w Hw Hc. rewrite H; [by apply (realises_ret None tt)|].
  unfold view, focus. by rewrite Hc.
Qed.

Lemma realises_reader i (text : bool) data :
  realises (Some i) (if text then handleControl_atoms i data else handleBinary_atoms data) (reader_msg text data).
Proof.
  intros w Hw Hc.
  assert (reader_msg text data (view w) = (if text then handleControl data else handleBinary data) (view w)) as ->.
  { pose proof (view_conn w Hw) as [_ H]. rewrite Hc in H. destruct H as [c Hv]; [by eauto|].
    unfold reader_msg, mbind, M_bind, gets. rewrite Hv.
    by destruct ((if text then handleControl data else handleBinary data) (view w)) as [[[] ?] ?]. }
  destruct text; [exact (realises_handleControl i data w Hw Hc)|exact (realises_handleBinary _ data w Hw Hc)].
Qed.

Lemma realises_task c e :
  match e with EvConnect | EvDisconnect => False | _ => True end ->
  realises c (task c e) (step e).
Proof.
  destruct e as [now|text data| | |pick oks|chunk|p|cols rows| | |code|]; try done; intros _; simpl.
  - realising.
  - destruct c as [i|]; [apply realises_reader|apply realises_unconnected].
    intros o Ho. unfold reader_msg, mbind, M_bind, gets. by rewrite Ho.
  - destruct c as [i|]; [apply realises_sender|apply realises_unconnected].
    intros o Ho. unfold sender_iter, mbind, M_bind, gets. by rewrite Ho.
  - apply realises_pumpOutput.
  - unfold pumpInput_atoms, pumpInput_chunk. realising.
  - apply realises_Resize.
  - apply realises_keepalive.
  - apply realises_revoke.
  - apply realises_exit.
  - unfold shutdown_atoms, shutdown. realising.
Qed.

(** ** Properties *)


End Code.
