(* ===== verification/Threads.v ===== *)
(** * Threads: the goroutines of a session, atom by atom

    The goroutines of runner/internal/runner/runner.go (and the signal watchers
    of cmd/onlytty/main.go) as a system of threads over one [world]: each runs
    the atoms of one task of Atoms after the other, and between any two atoms
    of one any other may run.  The second half is a small rely-guarantee logic:
    a thread's code is proved once, against what the others may do to the
    world, and the system's theorems follow. *)
From S2P Require Import Prelude Wire Crypto Ring Screen Session Control Json Orch Sender Handlers Traces Atoms.
From stdpp Require Import functions.
From Stdlib Require Import Strings.Byte.

(** ** The system *)

(** connectLoop with serveConn and the reader; the sender of a connection;
    pumpOutput; pumpInput; keepalive; the watchers of SIGUSR1 and SIGWINCH; the
    exit watcher; the cancellation watcher. *)
Inductive thread :=
| TServe | TSend (i : nat) | TPump | TInput | TKeepalive | TRevoke | TResize | TExit | TCancel.

#[export] Instance thread_eq_dec : EqDecision thread.
Proof. solve_decision. Defined.

(** The connection a thread's task works on. *)
Definition held (t : thread) (w : world) : option nat :=
  match t with TSend i => Some i | _ => w_serving w end.

(** The tasks a thread can take up: the loops of the goroutines. *)
Definition takes_up (t : thread) (e : event) (w : world) : Prop :=
  match t, e with
  | TServe, EvConnect => w_serving w = None
  | TServe, (EvMessage _ _ | EvDisconnect) => is_Some (w_serving w)
  | TSend i, EvSender _ _ => option_map c_running (w_heap w !! i) = Some true
  | TPump, EvOutput _ | TInput, EvInput _ | TKeepalive, EvKeepalive | TRevoke, EvRevoke
  | TResize, EvResize _ _ | TExit, (EvExit _ | EvShutdown) | TCancel, EvShutdown => True
  | _, _ => False
  end.

(** What happened: a thread took up a task, or ran an atom with some effects;
    or time passed. *)
Inductive action := Begin (t : thread) (e : event) | Atom (t : thread) (es : list effect) | Clock (now : Z).

(** An action with the world it happened in. *)
Definition history : Type := list (action * world).

Record system := mkSystem {
  y_world : world;
  y_code : thread -> proc;
  y_past : history                 (* a ghost: everything that happened *)
}.

Section Code.
Context `{P : Primitives} `{E : Env}.

Definition clocked (now : Z) (w : world) : world :=
  mkWorld (set_clock now (w_orch w)) (w_heap w) (w_cur w) (w_serving w).

Inductive ystep : system -> system -> Prop :=
| YBegin t e w code past :
    code t = Done -> takes_up t e w ->
    ystep (mkSystem w code past)
      (mkSystem w (<[ t := proc_of (task (held t w) e) ]> code) (past ++ [(Begin t e, w)]))
| YAtom t a w' es p w code past :
    code t = Act a -> a w = Some (w', es, p) ->
    ystep (mkSystem w code past) (mkSystem w' (<[ t := p ]> code) (past ++ [(Atom t es, w)]))
| YClock now w code past :
    ystep (mkSystem w code past) (mkSystem (clocked now w) code (past ++ [(Clock now, w)])).

Inductive reaches (y0 : system) : system -> Prop :=
| reaches_refl : reaches y0 y0
| reaches_step y y' : reaches y0 y -> ystep y y' -> reaches y0 y'.

(** Run with no connection yet, the goroutines at the head of their loops. *)
Definition launched (o : Orchestrator) : system := mkSystem (mkWorld o [] None None) (fun _ => Done) [].

(** A schedule to evaluate: a thread takes up a task, runs its next [n] atoms,
    or time passes. *)
Inductive move := Take (t : thread) (e : event) | Go (t : thread) (n : nat) | Tick (now : Z).

Definition can_take (t : thread) (e : event) (w : world) : bool :=
  match t, e with
  | TServe, EvConnect => bool_decide (w_serving w = None)
  | TServe, (EvMessage _ _ | EvDisconnect) => bool_decide (is_Some (w_serving w))
  | TSend i, EvSender _ _ => bool_decide (option_map c_running (w_heap w !! i) = Some true)
  | TPump, EvOutput _ | TInput, EvInput _ | TKeepalive, EvKeepalive | TRevoke, EvRevoke
  | TResize, EvResize _ _ | TExit, (EvExit _ | EvShutdown) | TCancel, EvShutdown => true
  | _, _ => false
  end.

Definition take_up (t : thread) (e : event) (y : system) : option system :=
  let 'mkSystem w code past := y in
  match code t with
  | Done =>
    if can_take t e w then
      Some (mkSystem w (<[ t := proc_of (task (held t w) e) ]> code) (past ++ [(Begin t e, w)]))
    else None
  | Act _ => None
  end.

Definition go (t : thread) (y : system) : option system :=
  let 'mkSystem w code past := y in
  match code t with
  | Done => None
  | Act a =>
    match a w with
    | Some (w', es, p) => Some (mkSystem w' (<[ t := p ]> code) (past ++ [(Atom t es, w)]))
    | None => None
    end
  end.

Fixpoint goes (t : thread) (n : nat) (y : system) : option system :=
  match n with 0 => Some y | S n => go t y ≫= goes t n end.

Definition make (m : move) (y : system) : option system :=
  match m with
  | Take t e => take_up t e y
  | Go t n => goes t n y
  | Tick now => Some (mkSystem (clocked now (y_world y)) (y_code y) (y_past y ++ [(Clock now, y_world y)]))
  end.

Fixpoint schedule (ms : list move) (y : system) : option system :=
  match ms with [] => Some y | m :: ms => make m y ≫= schedule ms end.

Lemma can_take_spec t e w : can_take t e w = true -> takes_up t e w.
Proof. destruct t, e; simpl; try done; by intros H%bool_decide_eq_true. Qed.

Lemma go_step t y y' : go t y = Some y' -> ystep y y'.
Proof.
  destruct y as [w code past]. simpl. destruct (code t) as [|a] eqn:Hc; [done|].
  destruct (a w) as [[[w' es] p]|] eqn:Ha; [|done]. intros [= <-]. by eapply YAtom.
Qed.

Lemma reaches_trans y1 y2 y3 : reaches y1 y2 -> reaches y2 y3 -> reaches y1 y3.
Proof. intros H. induction 1; [done|]. by eapply reaches_step. Qed.

Lemma goes_reaches t n y y' : goes t n y = Some y' -> reaches y y'.
Proof.
  revert y. induction n as [|n IH]; intros y; simpl; [intros [= <-]; constructor|].
  intros (y1 & H1 & H2)%bind_Some. eapply reaches_trans; [|by apply IH].
  eapply reaches_step; [constructor|]. by eapply go_step.
Qed.

Lemma make_reaches m y y' : make m y = Some y' -> reaches y y'.
Proof.
  destruct m as [t e|t n|now]; simpl.
  - destruct y as [w code past]. simpl. destruct (code t) eqn:Hc; [|done].
    destruct (can_take t e w) eqn:Ht; [|done]. intros [= <-].
    eapply reaches_step; [constructor|]. apply YBegin; [done|by apply can_take_spec].
  - apply goes_reaches.
  - intros [= <-]. destruct y as [w code past]. eapply reaches_step; [constructor|]. apply YClock.
Qed.

Lemma schedule_reaches ms y y' : schedule ms y = Some y' -> reaches y y'.
Proof.
  revert y. induction ms as [|m ms IH]; intros y; simpl; [intros [= <-]; constructor|].
  intros (y1 & H1 & H2)%bind_Some. eapply reaches_trans; [by eapply make_reaches|by apply IH].
Qed.

End Code.

(** ** Rely and guarantee *)

Definition actor (a : action) : option thread :=
  match a with Begin t _ | Atom t _ => Some t | Clock _ => None end.

(** What a thread knows of the past and the world. *)
Definition knowledge : Type := history -> world -> Prop.

Section Logic.
Context (I : world -> Prop).
Context (rely : thread -> world -> world -> Prop) (guar : thread -> world -> world -> Prop).
Context (allowed : thread -> history -> effect -> Prop).

(** No other thread, and no passing of time, takes the knowledge away. *)
Definition stable (t : thread) (K : knowledge) : Prop :=
  forall past w a w', K past w -> rely t w w' -> actor a <> Some t -> K (past ++ [(a, w)]) w'.

(** Code that keeps the invariant, gives its guarantee and has only allowed
    effects, from [K] on and as long as the others keep to [rely]. *)
#[warnings="-register-all"]
Inductive safe (t : thread) : knowledge -> proc -> Prop :=
| safe_done K : safe t K Done
| safe_act (K : knowledge) a :
    (forall past w w' es p, I w -> K past w -> a w = Some (w', es, p) ->
      I w' /\ guar t w w' /\ Forall (allowed t past) es /\
      exists K', stable t K' /\ K' (past ++ [(Atom t es, w)]) w' /\ safe t K' p) ->
    safe t K (Act a).

Lemma safe_weaken t (K K' : knowledge) p :
  (forall past w, K' past w -> K past w) -> safe t K p -> safe t K' p.
Proof.
  intros H Hs. revert K' H. destruct Hs as [|K a Ha]; intros K' H; constructor.
  intros past w w' es q Hi Hk. by apply Ha, H.
Qed.

(** A piece of code that leads from [K] to what [Q] says of its result. *)
Definition leads {A} (t : thread) (K : knowledge) (p : part A) (Q : A -> knowledge) : Prop :=
  forall k, (forall a, safe t (Q a) (k a)) -> safe t K (p k).

Lemma leads_proc t K p Q : leads t K p Q -> safe t K (proc_of p).
Proof. intros H. apply H. intros. constructor. Qed.

Lemma leads_ret {A} t (a : A) (Q : A -> knowledge) : leads t (Q a) (mret a) Q.
Proof. intros k Hk. apply Hk. Qed.

Lemma leads_bind {A B} t K (p : part A) (f : A -> part B) Q Q' :
  leads t K p Q -> (forall a, leads t (Q a) (f a) Q') -> leads t K (p ≫= f) Q'.
Proof. intros Hp Hf k Hk. apply Hp. intros a. by apply Hf. Qed.

Lemma leads_weaken {A} t (K K' : knowledge) (p : part A) (Q Q' : A -> knowledge) :
  (forall past w, K' past w -> K past w) -> (forall a past w, Q a past w -> Q' a past w) ->
  leads t K p Q -> leads t K' p Q'.
Proof.
  intros HK HQ Hp k Hk. eapply safe_weaken; [exact HK|]. apply Hp. intros a.
  eapply safe_weaken; [apply HQ|apply Hk].
Qed.

(** An atom, from its effect on the world. *)
Lemma leads_atom {A} t (K : knowledge) (f : world -> option (world * list effect * A)) (Q : A -> knowledge) :
  (forall a, stable t (Q a)) ->
  (forall past w w' es a, I w -> K past w -> f w = Some (w', es, a) ->
    I w' /\ guar t w w' /\ Forall (allowed t past) es /\ Q a (past ++ [(Atom t es, w)]) w') ->
  leads t K (fun k => Act (fun w => match f w with Some (w, es, a) => Some (w, es, k a) | None => None end)) Q.
Proof.
  intros Hs Hf k Hk. constructor. intros past w w' es p Hi HK Ha.
  destruct (f w) as [[[w1 es1] a]|] eqn:Hfw; [|done]. simplify_eq.
  destruct (Hf _ _ _ _ _ Hi HK Hfw) as (H1 & H2 & H3 & H4). split_and!; [done..|]. by exists (Q a).
Qed.

(** ** The system is safe when its threads are *)

Context `{P : Primitives} `{E : Env}.
Context (rely_guar : forall t t' w w', I w -> guar t w w' -> t <> t' -> rely t' w w').
Context (rely_refl : forall t w, rely t w w).
Context (clock_ok : forall now w, I w -> I (clocked now w) /\ forall t, rely t w (clocked now w)).

(** Every thread knows something that holds, and that its code is safe from. *)
Definition sound (y : system) : Prop :=
  I (y_world y) /\
  (forall t, exists K, stable t K /\ K (y_past y) (y_world y) /\ safe t K (y_code y t)) /\
  (forall past1 t es w past2, y_past y = past1 ++ (Atom t es, w) :: past2 -> Forall (allowed t past1) es).

Context (tasks_safe : forall t e past w, I w -> takes_up t e w ->
  exists K, stable t K /\ K (past ++ [(Begin t e, w)]) w /\ safe t K (proc_of (task (held t w) e))).

Lemma history_snoc (past : history) x past1 y past2 :
  past ++ [x] = past1 ++ y :: past2 ->
  (exists past2', past = past1 ++ y :: past2') \/ (past = past1 /\ x = y).
Proof.
  destruct past2 as [|z q _] using rev_ind; intros H.
  - apply app_inj_tail in H as [-> ->]. by right.
  - rewrite app_comm_cons, (assoc_L (++)) in H. apply app_inj_tail in H as [-> ->]. left. by exists q.
Qed.

Lemma ystep_sound y y' : sound y -> ystep y y' -> sound y'.
Proof.
  intros (Hi & Ht & Hp) Hstep. destruct Hstep as [t e w code past Hc Hb|t a w' es p w code past Hc Ha|now w code past];
    simpl in *.
  - split; [done|]. split.
    + intros t'. simpl. destruct (decide (t = t')) as [<-|Hne].
      * rewrite fn_lookup_insert. by apply tasks_safe.
      * rewrite fn_lookup_insert_ne by done. destruct (Ht t') as (K & H1 & H2 & H3).
        exists K. split; [done|]. split; [|done]. apply H1; [done|apply rely_refl|]. simpl. congruence.
    + intros past1 t' es w' past2 H. apply history_snoc in H as [[past2' ->]|[_ H]]; [by eapply Hp|done].
  - destruct (Ht t) as (K & H1 & H2 & H3). rewrite Hc in H3. inversion H3 as [|? ? Hs]; subst.
    destruct (Hs _ _ _ _ _ Hi H2 Ha) as (Hi' & Hg & He & K' & H1' & H2' & H3').
    split; [done|]. split.
    + intros t'. simpl. destruct (decide (t = t')) as [<-|Hne].
      * rewrite fn_lookup_insert. by exists K'.
      * rewrite fn_lookup_insert_ne by done. destruct (Ht t') as (K1 & J1 & J2 & J3).
        exists K1. split; [done|]. split; [|done]. apply J1; [done|by eapply rely_guar|]. simpl. congruence.
    + intros past1 t' es' w1 past2 H. apply history_snoc in H as [[past2' ->]|[-> H]]; [by eapply Hp|].
      by simplify_eq.
  - destruct (clock_ok now w Hi) as [Hi' Hr]. split; [done|]. split.
    + intros t'. simpl. destruct (Ht t') as (K & H1 & H2 & H3). exists K. split; [done|]. split; [|done].
      by apply H1.
    + intros past1 t' es w' past2 H. apply history_snoc in H as [[past2' ->]|[_ H]]; [by eapply Hp|done].
Qed.

Lemma reaches_sound y0 y : sound y0 -> reaches y0 y -> sound y.
Proof. intros H0. induction 1; [done|]. by eapply ystep_sound. Qed.

(** What every guarantee implies, if it is a preorder, relates each world of
    the past to the later ones. *)
Lemma reaches_ordered (R : world -> world -> Prop) `{!PreOrder R} y0 y :
  (forall t w w', guar t w w' -> R w w') -> (forall now w, R w (clocked now w)) ->
  sound y0 -> y_past y0 = [] -> reaches y0 y ->
  forall i a w, y_past y !! i = Some (a, w) ->
    R w (y_world y) /\ forall j a' w', i <= j -> y_past y !! j = Some (a', w') -> R w w'.
Proof.
  intros HR Hclock H0 Hp0 Hr. induction Hr as [|y y' Hr IH Hstep]; [by rewrite Hp0|].
  assert (R (y_world y) (y_world y') /\ exists a, y_past y' = y_past y ++ [(a, y_world y)]) as [Hw (a0 & Hp)].
  { destruct Hstep as [t e w code past Hc Hb|t f w' es p w code past Hc Ha|now w code past]; simpl.
    - split; [done|by eexists].
    - split; [|by eexists]. destruct (reaches_sound _ _ H0 Hr) as (Hi & Ht & _). simpl in *.
      destruct (Ht t) as (K & _ & H2 & H3). rewrite Hc in H3. inversion H3 as [|? ? Hs]; subst.
      destruct (Hs _ _ _ _ _ Hi H2 Ha) as (_ & Hg & _). by eapply HR.
    - split; [apply Hclock|by eexists]. }
  rewrite Hp. intros i a w [Hi|[Hge Hi]]%lookup_app_Some.
  - destruct (IH i a w Hi) as [H1 H2]. split; [by etrans|]. intros j a' w' Hle [Hj|[_ Hj]]%lookup_app_Some; [by eauto|].
    apply list_lookup_singleton_Some in Hj as [_ [= <- <-]]. done.
  - apply list_lookup_singleton_Some in Hi as [Hz [= <- <-]]. split; [done|].
    intros j a' w' Hle [Hj%lookup_lt_Some|[_ Hj]]%lookup_app_Some; [lia|].
    by apply list_lookup_singleton_Some in Hj as [_ [= <- <-]].
Qed.

Lemma launched_sound o : I (mkWorld o [] None None) -> sound (launched o).
Proof.
  intros Hi. split; [done|]. split.
  - intros t. exists (fun _ _ => True). split; [done|]. split; [done|]. constructor.
  - intros past1 t es w past2 H. by destruct past1.
Qed.

End Logic.
