(* ===== verification/Access.v ===== *)
(** * Access: the specification of who may type

    What the runner promises its host about viewers, without ciphers, queues,
    connections or routing labels: a machine whose state is the owner, the
    replay floors and whether the one-time grant is spent, and whose events are
    the authenticated requests of viewers.  Refine proves that the orchestrator
    implements it; the theorems here are about every sequence of events. *)
From S2P Require Import Prelude Session Control.

(** ** The machine *)

Record Access := mkAccess {
  a_owner : option bytes;
  a_floors : gmap bytes Z;
  a_spent : bool
}.

Definition access0 : Access := mkAccess None ∅ false.

(** What a viewer's frame asks for. *)
Inductive request :=
| RInput (p : bytes)
| RResize (cols rows : Z)
| RTake
| RGiveUp
| RNothing.

Inductive access_event :=
| AFrame (v : bytes) (seq : Z) (r : request)   (* a frame sealed by viewer [v] *)
| AOwnerLost                                   (* the owner left or was revoked *)
| AIdle.

Definition a_floor (s : Access) (v : bytes) : Z := default 0%Z (a_floors s !! v).

Definition may_take (mode : ControlMode) (s : Access) : bool :=
  match mode with
  | ControlAuto => true
  | ControlViewOnly => false
  | ControlOnce => negb (a_spent s)
  end.

Definition set_a_owner (owner : option bytes) (s : Access) : Access :=
  mkAccess owner (a_floors s) (a_spent s).

(** The effect of a fresh request: only the owner's input and resizes reach the
    pty, and only a free session can be taken. *)
Definition serve (mode : ControlMode) (v : bytes) (r : request) (s : Access)
    : Access * list pty_call :=
  match r with
  | RInput p => (s, if decide (a_owner s = Some v) then [PtyWrite p] else [])
  | RResize cols rows =>
    (s, if decide (a_owner s = Some v /\ cols <> 0%Z /\ rows <> 0%Z)
        then [PtySetsize cols rows] else [])
  | RTake =>
    match a_owner s with
    | Some _ => (s, [])
    | None =>
      if may_take mode s
      then (mkAccess (Some v) (a_floors s) (a_spent s || bool_decide (mode = ControlOnce)), [])
      else (s, [])
    end
  | RGiveUp => (if decide (a_owner s = Some v) then set_a_owner None s else s, [])
  | RNothing => (s, [])
  end.

Definition access_step (mode : ControlMode) (e : access_event) (s : Access)
    : Access * list pty_call :=
  match e with
  | AFrame v seq r =>
    if decide (seq <= a_floor s v)%Z then (s, [])
    else serve mode v r (mkAccess (a_owner s) (<[ v := seq ]> (a_floors s)) (a_spent s))
  | AOwnerLost => (set_a_owner None s, [])
  | AIdle => (s, [])
  end.

(** A trace: the calls of each event, and the state after it. *)
Fixpoint access_run (mode : ControlMode) (es : list access_event) (s : Access)
    : Access * list (list pty_call) :=
  match es with
  | [] => (s, [])
  | e :: es =>
    let '(s, cs) := access_step mode e s in
    let '(s, css) := access_run mode es s in (s, cs :: css)
  end.

(** How often a viewer gained control along a trace. *)
Fixpoint access_grants (mode : ControlMode) (es : list access_event) (s : Access) : nat :=
  match es with
  | [] => 0
  | e :: es =>
    let s' := (access_step mode e s).1 in
    (if decide (a_owner s = None /\ a_owner s' <> None) then 1 else 0)
      + access_grants mode es s'
  end.

(** ** Laws of one event *)

Lemma access_run_cons mode e es s :
  access_run mode (e :: es) s
  = let s' := (access_step mode e s).1 in
    ((access_run mode es s').1, (access_step mode e s).2 :: (access_run mode es s').2).
Proof. simpl. destruct (access_step mode e s) as [s' cs]. simpl. by destruct (access_run _ _ _). Qed.

Lemma a_floor_insert v seq w owner fl spent :
  a_floor (mkAccess owner (<[ v := seq ]> fl) spent) w
  = if decide (v = w) then seq else default 0%Z (fl !! w).
Proof. unfold a_floor. simpl. rewrite lookup_insert. by case_decide. Qed.

Lemma serve_floor mode v r s w : a_floor (serve mode v r s).1 w = a_floor s w.
Proof.
  destruct r; simpl; repeat case_match; try done.
Qed.

(** The floors play no part in serving a fresh request. *)
Lemma serve_calls_floors mode v r owner fl fl' spent :
  (serve mode v r (mkAccess owner fl spent)).2 = (serve mode v r (mkAccess owner fl' spent)).2.
Proof. destruct r; simpl; [done|done| |done|done]. destruct owner; [done|]. by destruct mode, spent. Qed.

Lemma access_step_floor mode e s w : (a_floor s w <= a_floor (access_step mode e s).1 w)%Z.
Proof.
  destruct e as [v seq r| |]; simpl; [|done|done].
  destruct (decide (seq <= a_floor s v)%Z) as [H|H]; [done|].
  rewrite serve_floor, a_floor_insert. case_decide; [subst|]; unfold a_floor in *; lia.
Qed.

(** A frame leaves the floor of its sender at its number or above. *)
Lemma access_step_pins mode v seq r s :
  (seq <= a_floor (access_step mode (AFrame v seq r) s).1 v)%Z.
Proof.
  simpl. destruct (decide (seq <= a_floor s v)%Z) as [H|H]; [done|].
  by rewrite serve_floor, a_floor_insert, decide_True.
Qed.

Lemma access_run_floor mode es s w : (a_floor s w <= a_floor (access_run mode es s).1 w)%Z.
Proof.
  revert s. induction es as [|e es IH]; intros s; [done|]. rewrite access_run_cons. simpl.
  etrans; [apply (access_step_floor mode e)|apply IH].
Qed.

Lemma access_stale mode v seq r s :
  (seq <= a_floor s v)%Z -> access_step mode (AFrame v seq r) s = (s, []).
Proof. intros. simpl. by rewrite decide_True. Qed.

(** Calls come from the owner, who was the owner already. *)
Lemma access_calls_owner mode e s :
  (access_step mode e s).2 <> [] ->
  exists v seq r, e = AFrame v seq r /\ a_owner s = Some v /\ (a_floor s v < seq)%Z /\
    ((exists p, r = RInput p /\ (access_step mode e s).2 = [PtyWrite p]) \/
     (exists c w, r = RResize c w /\ (access_step mode e s).2 = [PtySetsize c w])).
Proof.
  destruct e as [v seq r| |]; simpl; [|done|done].
  destruct (decide (seq <= a_floor s v)%Z) as [H|H]; [done|]. intros Hc.
  exists v, seq, r. destruct r as [p|c w| | |]; simpl in *; try (repeat case_match; done).
  - destruct (decide _); [|done]. repeat split; [done|lia|]. left. by exists p.
  - destruct (decide _) as [[? ?]|]; [|done]. repeat split; [done|lia|]. right. by exists c, w.
Qed.

Lemma access_no_owner_no_calls mode e s : a_owner s = None -> (access_step mode e s).2 = [].
Proof.
  intros Hs. destruct (decide ((access_step mode e s).2 = [])) as [|Hc]; [done|].
  apply access_calls_owner in Hc as (v & seq & r & _ & Ho & _). congruence.
Qed.

(** How the owner can change: not at all, to nobody, or from nobody to the
    sender of a fresh take request that the policy allows. *)
Lemma access_owner_change mode e s :
  let s' := (access_step mode e s).1 in
  (a_owner s' = a_owner s /\ a_spent s' = a_spent s) \/
  (a_owner s' = None /\ a_spent s' = a_spent s) \/
  (exists v seq, e = AFrame v seq RTake /\ (a_floor s v < seq)%Z /\ a_owner s = None /\
     may_take mode s = true /\ a_owner s' = Some v /\
     a_spent s' = (a_spent s || bool_decide (mode = ControlOnce))).
Proof.
  destruct e as [v seq r| |]; simpl; [|tauto|tauto].
  destruct (decide (seq <= a_floor s v)%Z) as [H|H]; [by left|].
  destruct r as [p|c w| | |]; simpl; try (by left).
  - destruct (a_owner s) eqn:Ho; [by left|]. case_match eqn:Hm; [|by left].
    do 2 right. exists v, seq. rewrite <- Hm. repeat split; [lia|done..].
  - case_decide; tauto.
Qed.

(** ** Laws of traces *)

(** The policy's bound on grants, by the grants that are left. *)
Definition grants_left (mode : ControlMode) (s : Access) : option nat :=
  match mode with
  | ControlAuto => None
  | ControlViewOnly => Some 0
  | ControlOnce => Some (if a_spent s then 0 else 1)
  end.

Lemma access_grants_bounded mode es s n :
  grants_left mode s = Some n -> access_grants mode es s <= n.
Proof.
  revert s n. induction es as [|e es IH]; intros s n Hn; simpl; [lia|].
  set (s' := (access_step mode e s).1).
  destruct (access_owner_change mode e s) as
    [[Ho Hs]|[[Ho Hs]|(v & seq & _ & _ & Ho & Hm & Ho' & Hs)]]; fold s' in Ho, Hs.
  - rewrite decide_False by (rewrite Ho; tauto). apply (IH s'). by destruct mode; simpl in *; rewrite ?Hs.
  - rewrite decide_False by tauto. apply (IH s'). by destruct mode; simpl in *; rewrite ?Hs.
  - fold s' in Ho'. rewrite decide_True by (split; [done|by rewrite Ho']).
    destruct mode; simplify_eq/=. destruct (a_spent s) eqn:Hsp; [done|]. simplify_eq/=.
    specialize (IH s' 0). rewrite Hs in IH. specialize (IH eq_refl). lia.
Qed.

(** With nobody in control, nothing reaches the pty until somebody is granted
    control. *)
Lemma access_quiet_without_grants mode es s :
  a_owner s = None -> access_grants mode es s = 0 ->
  Forall (fun cs => cs = []) (access_run mode es s).2 /\ a_owner (access_run mode es s).1 = None.
Proof.
  revert s. induction es as [|e es IH]; intros s Ho Hg; [done|].
  rewrite access_run_cons. simpl in *. case_decide as Hd; [lia|].
  assert (a_owner (access_step mode e s).1 = None) as Ho'.
  { destruct (a_owner (access_step mode e s).1) eqn:E; [|done]. by destruct Hd. }
  destruct (IH _ Ho' Hg) as [H1 H2]. split; [|done].
  constructor; [by apply access_no_owner_no_calls|done].
Qed.
