(* ===== verification/Refine.v ===== *)
(** * Refine: the orchestrator implements the access specification

    Each step of the orchestrator, whatever the event, changes the owner, the
    floors and the spent grant as one event of Access does, and calls the pty
    exactly as that event and the host's own terminal ask.  Authority, replay
    protection, the control policy and revocation then follow from Access for
    every sequence of events. *)
From S2P Require Import Prelude Wire Encodings Crypto Ring Screen Session Control.
From S2P Require Import Json Orch Sender Handlers Traces Access.
From Stdlib Require Import Strings.Byte.

(** ** What a frame from the relay says *)

Record viewer_frame := mkFrame {
  vf_route : bytes;
  vf_viewer : bytes;
  vf_seq : Z;
  vf_kind : byte;
  vf_payload : bytes
}.

Definition request_of (kind : byte) (payload : bytes) : request :=
  if decide (kind = KindInput) then RInput payload
  else if decide (kind = KindResize) then
    match DecodeResize payload with Ok (cols, rows) => RResize cols rows | Err _ => RNothing end
  else if decide (kind = KindCtrlReq) then RTake
  else if decide (kind = KindCtrlRel) then RGiveUp
  else RNothing.

Definition owner_option (b : bytes) : option bytes := if decide (b = []) then None else Some b.

Definition access_of_viewers (st : ViewerState) : Access :=
  mkAccess (owner_option (controlOwner st)) (inSeqByViewer st) (onceUsed st).

(** The access state of an orchestrator. *)
Definition access_of (o : Orchestrator) : Access := access_of_viewers (vs o).

Definition mode_of (o : Orchestrator) : ControlMode := Config_Control (cfg o).

(** The calls the host's own terminal makes on the pty. *)
Definition host_calls (o : Orchestrator) (e : event) : list pty_call :=
  match e with
  | EvInput p => if Config_LocalIn (cfg o) then [PtyWrite p] else []
  | EvResize cols rows => (SetSize (sess o) cols rows).2
  | EvShutdown => if terminated o then [] else Terminate (sess o)
  | _ => []
  end.

(** The viewer state and the session after a request, and after the fresh frame
    that carries it. *)
Definition request_viewers (mode : ControlMode) (v route : bytes) (r : request) (st : ViewerState)
    : ViewerState :=
  match r with
  | RTake => (request_section mode v route st).2
  | RGiveUp => (release_section v st).2
  | _ => st
  end.

Definition request_session (v : bytes) (r : request) (st : ViewerState) (s : Session)
    : Session * list pty_call :=
  match r with
  | RInput p => (s, if viewerHasControl v st then [PtyWrite p] else [])
  | RResize cols rows => if viewerHasControl v st then SetSize s cols rows else (s, [])
  | _ => (s, [])
  end.

Definition frame_request (f : viewer_frame) : request := request_of (vf_kind f) (vf_payload f).

Definition frame_viewers (mode : ControlMode) (f : viewer_frame) (st : ViewerState)
    : ViewerState :=
  request_viewers mode (vf_viewer f) (vf_route f) (frame_request f)
    (bindRoute (vf_route f) (vf_viewer f) (acceptSeq (vf_viewer f) (vf_seq f) st).2).

Section Code.
Context `{P : Primitives} `{E : Env}.

(** The frame inside the relay's envelope, when it is one and authenticates. *)
Definition read_frame (c : Cipher) (data : bytes) : option viewer_frame :=
  match DecodeRelayViewerFrame data with
  | Err _ => None
  | Ok (route, sealed) =>
    match Open c sealed with
    | Err _ => None
    | Ok (seq, kind, inner) =>
      match DecodeViewerPayload inner with
      | Err _ => None
      | Ok (viewer, payload) => Some (mkFrame route viewer seq kind payload)
      end
    end
  end.

(** The access event an event of the orchestrator amounts to in state [o]. *)
Definition access_event_of (o : Orchestrator) (e : event) : access_event :=
  match e, conn o with
  | EvMessage false data, Some _ =>
    match read_frame (v2r o) data with
    | Some f => AFrame (vf_viewer f) (vf_seq f) (frame_request f)
    | None => AIdle
    end
  | EvMessage true data, Some _ =>
    match unmarshal_relay_msg data with
    | Some m =>
      if decide (msg_t m = str "peer_left" /\
                 controlOwner (forgetViewer (msg_viewer_id m) (vs o)) = [])
      then AOwnerLost else AIdle
    | None => AIdle
    end
  | EvDisconnect, Some _ => AOwnerLost
  | EvRevoke, _ => AOwnerLost
  | _, _ => AIdle
  end.

(** ** The handlers on the host side *)

(** What a handler leaves: the host side with a new viewer state, and notices. *)
Definition leaves (st : ViewerState) (o o' : Orchestrator) (es : list effect) : Prop :=
  same_host (set_vs st o) o' /\ Forall is_note es.

Lemma leaves_quiet st o o1 o2 es :
  same_host (set_vs st o) o1 -> quiet o1 o2 es -> leaves st o o2 es.
Proof. intros H [H' ->]. split; [by etrans|constructor]. Qed.

Lemma emit_note_leaves target kind payload s (b : bool) st o o1 :
  same_host (set_vs st o) o1 ->
  wp (emitToViewer target kind payload ;; if b then note s else skip)
    (fun _ o2 es => leaves st o o2 es) o1.
Proof.
  intros H. apply wp_bind. eapply wp_mono; [apply enqueue_quiet|].
  intros [] o2 es [H2 ->]. destruct b.
  - eapply wp_mono; [apply note_quiet|]. intros [] o3 es3 [-> Hn].
    split; [by etrans|done].
  - apply wp_skip. split; [by etrans|constructor].
Qed.

Lemma handleControlRequest_leaves v r o :
  wp (handleControlRequest v r)
    (fun _ o' es => leaves (request_section (mode_of o) v r (vs o)).2 o o' es) o.
Proof.
  unfold handleControlRequest. wp_step. apply wp_gets. wp_step. apply wp_with_viewers.
  by apply emit_note_leaves.
Qed.

Lemma handleControlRelease_leaves v r o :
  wp (handleControlRelease v r)
    (fun _ o' es => leaves (release_section v (vs o)).2 o o' es) o.
Proof.
  unfold handleControlRelease. wp_step. apply wp_with_viewers. case_match; [|by split].
  by apply (emit_note_leaves _ _ _ _ true).
Qed.

Lemma Revoke_leaves o : wp Revoke (fun _ o' es => leaves (revoke_section (vs o)).2 o o' es) o.
Proof.
  unfold Revoke. wp_step. apply wp_with_viewers. case_decide; [by split|].
  by apply (emit_note_leaves _ _ _ _ true).
Qed.

Lemma viewerHasControl_accept v r w seq st :
  viewerHasControl v (bindRoute r w (acceptSeq w seq st).2) = viewerHasControl v st.
Proof.
  unfold viewerHasControl. simpl. by rewrite (proj1 (acceptSeq_owner w seq st) : controlOwner _ = _).
Qed.

(** What serving a request leaves: the new viewer state and session, the calls
    on the pty, and notices. *)
Definition served (st : ViewerState) (s : Session * list pty_call)
    (o o' : Orchestrator) (es : list effect) : Prop :=
  same_host (set_sess s.1 (set_vs st o)) o' /\ pty_calls es = s.2 /\
  Forall (fun e => is_note e \/ pty_of e <> None) es.

Lemma leaves_served st o o' es : leaves st o o' es -> served st (sess o, []) o o' es.
Proof.
  intros [H1 H2]. split_and!; [done|by apply pty_calls_notes|].
  eapply Forall_impl; [done|]. by left.
Qed.

Lemma served_calls st s cs o :
  served st (s, cs) o (set_sess s (set_vs st o)) (EPty <$> cs).
Proof.
  split_and!; [done|apply pty_calls_fmap|]. apply Forall_fmap, Forall_true. intros c. by right.
Qed.

Lemma dispatch_served v route kind payload o :
  let r := request_of kind payload in
  wp (dispatch v route kind payload)
    (fun _ o' es => served (request_viewers (mode_of o) v route r (vs o))
                      (request_session v r (vs o) (sess o)) o o' es) o.
Proof.
  cbv zeta. unfold dispatch, request_of.
  destruct (decide (kind = KindInput)) as [_|_].
  { wp_step. apply wp_gets. simpl. destruct (viewerHasControl v (vs o)); [|by apply (served_calls _ _ [])].
    unfold sess_write. wp_steps. apply served_calls. }
  destruct (decide (kind = KindResize)) as [_|_].
  { wp_step. apply wp_gets. destruct (DecodeResize payload) as [[cols rows]|err]; simpl;
      destruct (viewerHasControl v (vs o)); try by apply (served_calls _ _ []).
    unfold sess_set_size. wp_steps. destruct (SetSize _ _ _) as [s cs]. simpl.
    apply served_calls. }
  destruct (decide (kind = KindCtrlReq)) as [_|_].
  { eapply wp_mono; [apply handleControlRequest_leaves|]. intros [] o' es. apply leaves_served. }
  destruct (decide (kind = KindCtrlRel)) as [_|_].
  { eapply wp_mono; [apply handleControlRelease_leaves|]. intros [] o' es. apply leaves_served. }
  by apply (served_calls _ _ []).
Qed.

(** A frame of a viewer, in full: an unreadable frame and a replay change
    nothing; a fresh frame is served. *)
Definition binary_outcome (data : bytes) (o o' : Orchestrator) (es : list effect) : Prop :=
  match read_frame (v2r o) data with
  | None => o' = o /\ es = []
  | Some f =>
    if decide (vf_seq f <= floor (vs o) (vf_viewer f))%Z then o' = o /\ es = []
    else served (frame_viewers (mode_of o) f (vs o))
           (request_session (vf_viewer f) (frame_request f) (vs o) (sess o)) o o' es
  end.

Lemma handleBinary_spec data o :
  wp (handleBinary data) (fun _ o' es => binary_outcome data o o' es) o.
Proof.
  unfold handleBinary, binary_outcome, read_frame.
  destruct (DecodeRelayViewerFrame data) as [[route sealed]|]; [|done].
  wp_step. apply wp_gets. destruct (Open (v2r o) sealed) as [[[seq kind] inner]|]; [|done].
  destruct (DecodeViewerPayload inner) as [[viewer payload]|]; [|done]. simpl.
  wp_step. apply wp_with_viewers. unfold acceptSeq at 1 2.
  destruct (decide (seq <= floor (vs o) viewer)%Z) as [Hle|Hgt]; simpl.
  { apply wp_skip. split; [|done]. by destruct o. }
  wp_step. apply wp_modify. eapply wp_mono; [apply dispatch_served|].
  intros [] o' es (H1 & H2 & H3). split_and!; simpl; [|rewrite H2|done].
  - etrans; [|apply H1]. unfold frame_viewers, frame_request, acceptSeq. simpl.
    rewrite decide_False by lia. done.
  - done.
Qed.

(** ** The host side after each event *)

(** After a relay control message. *)
Definition relay_viewers (m : relay_msg) (n : Z) : Z :=
  if decide (msg_t m = str "hello") then i32 (msg_viewers m)
  else if decide (msg_t m = str "peer_join") then
    i32 (if decide (msg_viewers m <= 0)%Z then 1 else msg_viewers m)%Z
  else if decide (msg_t m = str "peer_left") then
    i32 (if decide (msg_viewers m < 0)%Z then 0 else msg_viewers m)%Z
  else n.

Definition relay_after (m : relay_msg) (o : Orchestrator) : Orchestrator :=
  set_viewers (relay_viewers m (viewers o))
    (set_vs (if decide (msg_t m = str "peer_left") then forgetViewer (msg_viewer_id m) (vs o)
             else vs o) o).

Definition frame_after (f : viewer_frame) (o : Orchestrator) : Orchestrator :=
  if decide (vf_seq f <= floor (vs o) (vf_viewer f))%Z then o
  else set_sess (request_session (vf_viewer f) (frame_request f) (vs o) (sess o)).1
         (set_vs (frame_viewers (mode_of o) f (vs o)) o).

Definition host_after (e : event) (o : Orchestrator) : Orchestrator :=
  match e with
  | EvClock now => set_clock now o
  | EvMessage text data =>
    match conn o with
    | None => o
    | Some _ =>
      if text then
        match unmarshal_relay_msg data with Some m => relay_after m o | None => o end
      else
        match read_frame (v2r o) data with Some f => frame_after f o | None => o end
    end
  | EvDisconnect =>
    match conn o with
    | None => o
    | Some _ => set_viewers 0%Z (set_vs (clearControlOwner (vs o)) o)
    end
  | EvOutput chunk =>
    set_ring (Ring_Write (ring o) chunk).1
      (set_screen (markScreenActivity (clock o) chunk (screen o)) o)
  | EvResize cols rows => set_sess (SetSize (sess o) cols rows).1 o
  | EvRevoke => set_vs (revoke_section (vs o)).2 o
  | EvExit code =>
    if decide (sess_state (sess o) = None)
    then set_exitCode (i32 code) (set_sess (Wait (sess o) code) o) else o
  | EvShutdown => set_terminated true o
  | EvConnect | EvSender _ _ | EvInput _ | EvKeepalive => o
  end.

Lemma set_same o : set_vs (vs o) o = o /\ set_viewers (viewers o) o = o /\ set_sess (sess o) o = o.
Proof. by destruct o. Qed.

(** A computation whose effects are notices, ending on a given host side. *)
Definition noting (o1 : Orchestrator) (o' : Orchestrator) (es : list effect) : Prop :=
  same_host o1 o' /\ Forall is_note es.

Lemma note_noting s o1 o : same_host o1 o -> wp (note s) (fun _ o' es => noting o1 o' es) o.
Proof. intros H. eapply wp_mono; [apply note_quiet|]. intros [] o' es [-> Hn]. done. Qed.

Lemma note_then_noting s f o1 o :
  same_host o1 o -> wp (note s ;; modify_conn f) (fun _ o' es => noting o1 o' es) o.
Proof.
  intros H. apply wp_bind. eapply wp_mono; [apply note_quiet|]. intros [] o' es [-> Hn].
  eapply wp_mono; [apply modify_conn_quiet|]. intros [] o2 es2 [H2 ->].
  rewrite app_nil_r. split; [by etrans|done].
Qed.

Lemma handle_relay_msg_noting m o :
  wp (handle_relay_msg m) (fun _ o' es => noting (relay_after m o) o' es) o.
Proof.
  unfold handle_relay_msg, relay_after, relay_viewers.
  destruct (decide (msg_t m = str "hello")) as [Ht|_].
  { rewrite (decide_False (P := msg_t m = str "peer_left")) by by rewrite Ht.
    wp_step. apply wp_modify. case_match; [|by split].
    eapply wp_mono; [apply modify_conn_quiet|]. intros [] o' es [Hs ->]. by split. }
  destruct (decide (msg_t m = str "peer_join")) as [Ht|_].
  { rewrite (decide_False (P := msg_t m = str "peer_left")) by by rewrite Ht.
    wp_step. apply wp_modify. wp_step. apply wp_gets. by apply note_then_noting. }
  destruct (decide (msg_t m = str "peer_left")) as [Ht|_].
  { wp_step. apply wp_modify. wp_step. apply wp_modify. by apply note_noting. }
  rewrite (proj1 (set_same o)), (proj1 (proj2 (set_same o))).
  repeat case_match; try by apply note_noting. by split.
Qed.

(** The pty calls and local output of an event, as the host side before it says. *)
Definition step_calls (e : event) (o : Orchestrator) : list pty_call :=
  match e with
  | EvMessage false data =>
    match conn o, read_frame (v2r o) data with
    | Some _, Some f =>
      if decide (vf_seq f <= floor (vs o) (vf_viewer f))%Z then []
      else (request_session (vf_viewer f) (frame_request f) (vs o) (sess o)).2
    | _, _ => []
    end
  | e => host_calls o e
  end.

Definition step_local (e : event) (o : Orchestrator) : list bytes :=
  match e with EvOutput chunk => if Config_LocalOut (cfg o) then [chunk] else [] | _ => [] end.

(** What a step does to the host side, to the pty and to the local terminal. *)
Definition step_outcome (e : event) (o o' : Orchestrator) (es : list effect) : Prop :=
  same_host (host_after e o) o' /\ pty_calls es = step_calls e o /\
  local_writes es = step_local e o.

Lemma local_writes_none es :
  Forall (fun e => is_note e \/ pty_of e <> None) es -> local_writes es = [].
Proof. induction 1 as [|[] es [He|He] Hes IH]; simpl in *; done. Qed.

Lemma noting_outcome o1 o' es :
  noting o1 o' es -> same_host o1 o' /\ pty_calls es = [] /\ local_writes es = [].
Proof.
  intros [H Hn]. split_and!; [done|by apply pty_calls_notes|by apply local_writes_notes].
Qed.

Lemma reader_msg_outcome text data o :
  wp (reader_msg text data) (fun _ o' es => step_outcome (EvMessage text data) o o' es) o.
Proof.
  unfold reader_msg, step_outcome. wp_step. apply wp_gets. simpl.
  destruct (conn o) as [c|]; [|by destruct text]. destruct text.
  - unfold handleControl. destruct (unmarshal_relay_msg data) as [m|]; [|done].
    eapply wp_mono; [apply handle_relay_msg_noting|]. intros [] o' es. apply noting_outcome.
  - eapply wp_mono; [apply handleBinary_spec|]. intros [] o' es. unfold binary_outcome, frame_after.
    destruct (read_frame (v2r o) data) as [f|]; [|by intros [-> ->]].
    case_decide; [by intros [-> ->]|]. intros (H1 & H2 & H3).
    split_and!; [done|done|by apply local_writes_none].
Qed.

Lemma quiet_outcome o1 o o' es :
  same_host o1 o -> quiet o o' es -> same_host o1 o' /\ pty_calls es = [] /\ local_writes es = [].
Proof. intros H [H' ->]. split_and!; [by etrans|done..]. Qed.

Lemma pumpOutput_outcome chunk o :
  wp (pumpOutput_chunk chunk) (fun _ o' es => step_outcome (EvOutput chunk) o o' es) o.
Proof.
  unfold pumpOutput_chunk, step_outcome. wp_step. apply wp_modify. wp_step. apply wp_gets.
  simpl. apply wp_bind.
  assert (forall l, (pty_calls l = [] /\ local_writes l = step_local (EvOutput chunk) o) ->
    wp (modify (fun o => set_ring (Ring_Write (ring o) chunk).1 o) ;;
        n ← gets viewers; if decide (n > 0)%Z then emit KindOutput chunk else skip)
      (fun _ o' es => same_host (host_after (EvOutput chunk) o) o' /\
         pty_calls (l ++ es) = [] /\ local_writes (l ++ es) = step_local (EvOutput chunk) o)
      (set_screen (markScreenActivity (clock o) chunk (screen o)) o)) as Hrest.
  { intros l Hl. wp_step. apply wp_modify. wp_step. apply wp_gets. case_match.
    - eapply wp_mono; [apply enqueue_quiet|]. intros [] o' es [Hs ->]. simpl.
      by rewrite app_nil_r.
    - apply wp_skip. simpl. by rewrite app_nil_r. }
  destruct (Config_LocalOut (cfg o)) eqn:Hl; simpl in Hrest; rewrite Hl in Hrest; simpl.
  - apply wp_tell, (Hrest [ELocal chunk]). done.
  - apply wp_skip, (Hrest []). done.
Qed.

Lemma Resize_outcome cols rows o :
  wp (Resize cols rows) (fun _ o' es => step_outcome (EvResize cols rows) o o' es) o.
Proof.
  unfold Resize, sess_set_size, step_outcome. simpl. wp_step. wp_steps; simpl.
  - eapply wp_mono; [apply enqueue_quiet|]. intros [] o' es [H ->]. simpl.
    rewrite !app_nil_r. autorewrite with traces_rw. done.
  - rewrite !app_nil_r. autorewrite with traces_rw. done.
Qed.

Lemma exit_watcher_outcome code o :
  wp (exit_watcher code) (fun _ o' es => step_outcome (EvExit code) o o' es) o.
Proof.
  unfold exit_watcher, signalExit, step_outcome. simpl. wp_step. apply wp_gets.
  case_bool_decide as Hw; [rewrite decide_True by done|by rewrite decide_False by done].
  wp_step. apply wp_modify. wp_step. apply wp_modify. wp_step. apply wp_gets.
  wp_step. eapply wp_mono; [apply enqueue_quiet|]. intros [] o1 es1 [H1 ->].
  eapply wp_mono; [apply enqueue_quiet|]. intros [] o2 es2 [H2 ->]. simpl.
  split; [|done]. etrans; [|exact H2]. etrans; [|exact H1]. done.
Qed.

Lemma step_spec e o : wp (step e) (fun _ o' es => step_outcome e o o' es) o.
Proof.
  destruct e as [now|text data| | |pick oks|chunk|p|cols rows| | |code|]; simpl step.
  - done.
  - apply reader_msg_outcome.
  - unfold serveConn_start. wp_step. apply wp_gets. by destruct (conn o).
  - unfold serveConn_end, step_outcome. wp_step. apply wp_gets. simpl.
    destruct (conn o) eqn:Hc; [|done]. wp_steps. by rewrite Hc.
  - eapply wp_mono; [apply sender_iter_sends|]. intros [] o' es [H Hw].
    split_and!; [done|by apply pty_calls_writes|by apply local_writes_writes].
  - apply pumpOutput_outcome.
  - unfold pumpInput_chunk, sess_write, step_outcome. simpl. wp_steps; done.
  - apply Resize_outcome.
  - unfold keepalive_tick. wp_step. apply wp_gets. eapply wp_mono; [apply enqueue_quiet|].
    intros [] o' es. by apply quiet_outcome.
  - eapply wp_mono; [apply Revoke_leaves|]. intros [] o' es. apply noting_outcome.
  - apply exit_watcher_outcome.
  - unfold shutdown, step_outcome. simpl. wp_step. apply wp_gets.
    destruct (terminated o) eqn:Ht; [split; [|done]; destruct o; simpl in Ht; by subst|]. by wp_steps.
Qed.

End Code.
