(* ===== verification/Scenario.v ===== *)
(** * Scenario: a concrete session

    The golden keys, an environment, a started session, and the frames a
    viewer holding the keys sends: the inputs the witnesses evaluate on. *)
From S2P Require Import Prelude Wire Encodings Crypto StdCrypto Ring Screen Session.
From S2P Require Import Control Json Orch Sender Handlers Traces Access Refine.
From Stdlib Require Import Strings.Byte.

(** The bytes on the wire of a viewer's frame: sealed under the direction's
    cipher, wrapped by the relay. *)
Definition frame_bytes `{P : Primitives} (c : Cipher) (nonce : bytes) (f : viewer_frame) : bytes :=
  EncodeRelayViewerFrame (vf_route f)
    (sealWithNonce c nonce (vf_seq f) (vf_kind f)
       (EncodeViewerPayload (vf_viewer f) (vf_payload f))).

Definition frame_ok (f : viewer_frame) : Prop :=
  valid_id (vf_route f) /\ valid_id (vf_viewer f) /\ (0 <= vf_seq f < 2 ^ 64)%Z.

#[export] Instance demo_env : Env := {|
  rand_read n := Some (make_bytes 12);
  coin n := true
|}.

#[export] Instance demo_env_laws : EnvLaws demo_env.
Proof. split. by intros n b [= <-]. Defined.

Definition demo_cfg (mode : ControlMode) : Config :=
  mkConfig vector_keys vector_id (str "token") 0 true 0 mode true true true
    (Fingerprint vector_keys).

Definition demo_session : Session := mkSession 80 24 None.

(** The orchestrator New builds on it. *)
Definition demo (mode : ControlMode) : Orchestrator :=
  mkOrch (demo_cfg mode) (mkCipher (R2V vector_keys) vector_id)
    (mkCipher (V2R vector_keys) vector_id) demo_session (NewRing ringBytes) screen0 0 viewers0 0
    (-1) None false 0 0 0.

Lemma New_demo mode : New (demo_cfg mode) demo_session = Ok (demo mode).
Proof. reflexivity. Qed.

(** A frame of viewer [v], through the relay's label [route]. *)
Definition demo_vf (route v : bytes) (seq : Z) (kind : byte) (payload : bytes) : viewer_frame :=
  mkFrame route v seq kind payload.

Definition demo_frame (route v : bytes) (seq : Z) (kind : byte) (payload : bytes) : bytes :=
  frame_bytes (mkCipher (V2R vector_keys) vector_id) (make_bytes 12)
    (demo_vf route v seq kind payload).

Definition demo_msg (route v : bytes) (seq : Z) (kind : byte) (payload : bytes) : event :=
  EvMessage false (demo_frame route v seq kind payload).

(** A phone takes control and types. *)
Definition demo_take : list event :=
  [EvConnect; demo_msg (str "r1") (str "phone") 1 KindCtrlReq []].
Definition demo_types : list event :=
  demo_take ++ [demo_msg (str "r1") (str "phone") 2 KindInput (str "ls")].

Example demo_session_runs :
  pty_calls (effects_of (run demo_types) (demo ControlAuto)) = [PtyWrite (str "ls")].
Proof. vm_compute. reflexivity. Qed.

(** The state once the phone is in control. *)
Definition demo_owned (mode : ControlMode) : Orchestrator := state_of (run demo_take) (demo mode).
