(* ===== verification/Authority.v ===== *)
(** * Authority: who reaches the pty, over every sequence of events

    The refinement theorem (the orchestrator implements Access) and its
    consequences for a host whose relay is hostile: the relay chooses every
    message, every routing label, every reconnect and their order, and viewers
    choose everything they seal. *)
From S2P Require Import Prelude Wire Encodings Crypto StdCrypto Ring Screen Session.
From S2P Require Import Control Json Orch Sender Handlers Traces Access Refine.
From S2P Require Import Scenario.
From Stdlib Require Import Strings.Byte.

(** The access events and the host's calls of a run. *)
Fixpoint access_trace `{P : Primitives} `{E : Env} (es : list event) (o : Orchestrator)
    : list access_event :=
  match es with
  | [] => []
  | e :: es => access_event_of o e :: access_trace es (state_of (step e) o)
  end.

Fixpoint host_trace `{P : Primitives} `{E : Env} (es : list event) (o : Orchestrator)
    : list (list pty_call) :=
  match es with
  | [] => []
  | e :: es => host_calls o e :: host_trace es (state_of (step e) o)
  end.

(** The calls of a run that viewers caused: those of the messages received. *)
Definition is_message (e : event) : bool :=
  match e with EvMessage _ _ => true | _ => false end.

Fixpoint viewer_calls `{P : Primitives} `{E : Env} (es : list event) (o : Orchestrator)
    : list pty_call :=
  match es with
  | [] => []
  | e :: es =>
    (if is_message e then pty_calls (effects_of (step e) o) else [])
      ++ viewer_calls es (state_of (step e) o)
  end.

(** How often a viewer gained control in a run. *)
Fixpoint grants `{P : Primitives} `{E : Env} (es : list event) (o : Orchestrator) : nat :=
  match es with
  | [] => 0
  | e :: es =>
    let o' := state_of (step e) o in
    (if decide (controlOwner (vs o) = [] /\ controlOwner (vs o') <> []) then 1 else 0)
      + grants es o'
  end.

(** ** Host fields *)

Section HostFields.
Context (o o' : Orchestrator) (H : same_host o o').
Lemma host_cfg : cfg o = cfg o'. Proof. by injection H. Qed.
Lemma host_r2v : r2v o = r2v o'. Proof. by injection H. Qed.
Lemma host_v2r : v2r o = v2r o'. Proof. by injection H. Qed.
Lemma host_sess : sess o = sess o'. Proof. by injection H. Qed.
Lemma host_ring : ring o = ring o'. Proof. by injection H. Qed.
Lemma host_vs : vs o = vs o'. Proof. by injection H. Qed.
Lemma host_viewers : viewers o = viewers o'. Proof. by injection H. Qed.
Lemma host_exitCode : exitCode o = exitCode o'. Proof. by injection H. Qed.
Lemma host_terminated : terminated o = terminated o'. Proof. by injection H. Qed.
End HostFields.

Lemma owner_option_eq a v : v <> [] -> owner_option a = Some v <-> a = v.
Proof. unfold owner_option. case_decide; naive_solver. Qed.

Lemma owner_option_None a : owner_option a = None <-> a = [].
Proof. unfold owner_option. case_decide; naive_solver. Qed.

Section Facts.
Context `{P : Primitives} `{E : Env}.

(** ** Steps, by what they do to the host side *)

Lemma step_state e o : same_host (host_after e o) (state_of (step e) o).
Proof. exact (proj1 (state_of_wp _ _ _ (step_spec e o))). Qed.

Lemma step_pty e o : pty_calls (effects_of (step e) o) = step_calls e o.
Proof. exact (proj1 (proj2 (state_of_wp _ _ _ (step_spec e o)))). Qed.

Lemma step_locals e o : local_writes (effects_of (step e) o) = step_local e o.
Proof. exact (proj2 (proj2 (state_of_wp _ _ _ (step_spec e o)))). Qed.

Lemma step_vs e o : vs (state_of (step e) o) = vs (host_after e o).
Proof. symmetry. apply host_vs, step_state. Qed.

(** The configuration and the ciphers never change. *)
Definition same_config (o o' : Orchestrator) : Prop :=
  cfg o' = cfg o /\ r2v o' = r2v o /\ v2r o' = v2r o.

#[export] Instance same_config_preorder : PreOrder same_config.
Proof.
  split; [by intros ?|]. intros x y z (H1 & H2 & H3) (H4 & H5 & H6).
  split_and!; congruence.
Qed.

Lemma host_after_config e o : same_config o (host_after e o).
Proof. destruct e; simpl; try done; unfold relay_after, frame_after; repeat case_match; done. Qed.

Lemma step_config e o : same_config o (state_of (step e) o).
Proof.
  pose proof (step_state e o) as H. destruct (host_after_config e o) as (H1 & H2 & H3).
  unfold same_config. rewrite <- (host_cfg _ _ H), <- (host_r2v _ _ H), <- (host_v2r _ _ H). done.
Qed.

Lemma run_config es o : same_config o (state_of (run es) o).
Proof. apply run_preorder; [apply _|apply step_config]. Qed.

(** ** Requests *)

Lemma request_viewers_access mode v route r st :
  v <> [] ->
  access_of_viewers (request_viewers mode v route r st) = (serve mode v r (access_of_viewers st)).1.
Proof.
  intros Hv. destruct r; try done; simpl.
  - unfold request_section. destruct (decide (controlOwner st = v)) as [->|Hne].
    { by rewrite (proj2 (owner_option_eq v v Hv)). }
    destruct (decide (controlOwner st <> [])) as [Ho|Ho].
    { destruct (owner_option (controlOwner st)) eqn:E1; [done|]. by apply owner_option_None in E1. }
    apply dec_stable in Ho. rewrite (proj2 (owner_option_None _) Ho).
    assert (may_take mode (access_of_viewers st) = true <->
            ~ (mode = ControlViewOnly \/ mode = ControlOnce /\ onceUsed st)) as Hm.
    { destruct mode; simpl; destruct (onceUsed st); simpl; intuition congruence. }
    destruct (decide (mode = ControlViewOnly \/ mode = ControlOnce /\ onceUsed st)) as [Hg|Hg].
    { destruct (may_take mode (access_of_viewers st)); [tauto|done]. }
    rewrite (proj2 Hm Hg). unfold access_of_viewers. simpl.
    rewrite (proj2 (owner_option_eq v v Hv) eq_refl). f_equal.
    case_decide; [rewrite bool_decide_true|rewrite bool_decide_false];
      by rewrite ?orb_true_r, ?orb_false_r.
  - unfold release_section. unfold access_of_viewers at 2. simpl.
    destruct (decide (controlOwner st = v)) as [Ho|Ho]; simpl.
    + by rewrite decide_True by by apply owner_option_eq.
    + by rewrite decide_False by by rewrite owner_option_eq.
Qed.

Lemma request_viewers_floor mode v route r st w :
  floor (request_viewers mode v route r st) w = floor st w.
Proof. destruct r; [done..| | |done]; [apply request_section_floor|apply release_section_floor]. Qed.

Lemma request_viewers_routes mode v route r st :
  selfByRoute (request_viewers mode v route r st) = selfByRoute st.
Proof.
  destruct r; try done; simpl; unfold request_section, release_section; by repeat case_decide.
Qed.

Lemma request_session_calls mode v r st s :
  v <> [] -> (request_session v r st s).2 = (serve mode v r (access_of_viewers st)).2.
Proof.
  intros Hv. assert (viewerHasControl v st = bool_decide (owner_option (controlOwner st) = Some v)) as Hc.
  { unfold viewerHasControl. apply bool_decide_ext. by rewrite owner_option_eq. }
  destruct r; simpl; try done.
  - rewrite Hc. by case_bool_decide; case_decide.
  - rewrite Hc. unfold SetSize. case_bool_decide as Ho; simpl.
    + destruct (decide (cols = 0 \/ rows = 0)%Z); simpl;
        [rewrite decide_False by tauto|rewrite decide_True by tauto]; done.
    + by rewrite decide_False by tauto.
  - by repeat case_match.
Qed.

Lemma forgetViewer_access r st :
  access_of_viewers (forgetViewer r st)
  = if decide (controlOwner (forgetViewer r st) = []) then set_a_owner None (access_of_viewers st)
    else access_of_viewers st.
Proof.
  unfold forgetViewer, set_a_owner, access_of_viewers. repeat case_decide; repeat case_match; simpl in *;
    repeat case_decide; simpl in *; try done; f_equal; by apply owner_option_None.
Qed.

(** ** Reading frames *)

Lemma read_frame_ids c data f :
  read_frame c data = Some f -> valid_id (vf_route f) /\ valid_id (vf_viewer f).
Proof.
  unfold read_frame. destruct (DecodeRelayViewerFrame data) as [[route sealed]|] eqn:E1; [|done].
  destruct (Open c sealed) as [[[seq kind] inner]|]; [|done].
  destruct (DecodeViewerPayload inner) as [[v p]|] eqn:E2; [|done].
  intros <-%(inj Some). eauto with wire.
Qed.

Lemma read_frame_exactly `{!PrimitivesLaws P} c data f :
  read_frame c data = Some f <->
  frame_ok f /\ exists nonce, length nonce = nonceLen /\ data = frame_bytes c nonce f.
Proof.
  unfold read_frame. split.
  - destruct (DecodeRelayViewerFrame data) as [[route sealed]|] eqn:E1; [|done].
    destruct (Open c sealed) as [[[seq kind] inner]|] eqn:E2; [|done].
    destruct (DecodeViewerPayload inner) as [[v p]|] eqn:E3; [|done].
    intros <-%(inj Some). apply Open_Ok in E2 as (Hs & Hn & Hf).
    apply decode_envelope_encode in E1 as [Hr ->], E3 as [Hv ->].
    split; [done|]. exists (take 12 sealed). split; [done|].
    unfold frame_bytes. simpl. by rewrite Hf at 1.
  - intros ((Hr & Hv & Hs) & nonce & Hn & ->). unfold frame_bytes, DecodeRelayViewerFrame.
    rewrite (proj2 (decode_envelope_encode relayViewerMagic _ (vf_route f) _))
      by (split; [done|reflexivity]).
    rewrite Open_sealWithNonce by done. unfold DecodeViewerPayload.
    rewrite (proj2 (decode_envelope_encode viewerPayloadMagic _ (vf_viewer f) _))
      by (split; [done|reflexivity]).
    by destruct f.
Qed.

(** ** The refinement, one event at a time *)

Lemma frame_viewers_access mode f st :
  vf_viewer f <> [] -> (floor st (vf_viewer f) < vf_seq f)%Z ->
  access_of_viewers (frame_viewers mode f st)
  = (access_step mode (AFrame (vf_viewer f) (vf_seq f) (frame_request f)) (access_of_viewers st)).1.
Proof.
  intros Hv Hs. unfold frame_viewers. rewrite request_viewers_access by done. simpl.
  unfold acceptSeq, a_floor, floor in *. simpl. by rewrite !decide_False by lia.
Qed.

Lemma step_refines_access e o :
  let s' := access_step (mode_of o) (access_event_of o e) (access_of o) in
  access_of (state_of (step e) o) = s'.1 /\
  pty_calls (effects_of (step e) o) = s'.2 ++ host_calls o e.
Proof.
  cbv zeta. rewrite step_pty. unfold access_of at 1. rewrite step_vs.
  destruct e as [now|text data| | |pick oks|chunk|p|cols rows| | |code|]; simpl;
    try done; try (by destruct (conn o)).
  - destruct text; simpl; destruct (conn o) as [c|]; try done.
    + destruct (unmarshal_relay_msg data) as [m|]; [|done]. simpl.
      destruct (decide (msg_t m = str "peer_left")) as [Ht|Ht].
      * fold (access_of_viewers (vs o)). rewrite forgetViewer_access. unfold access_of.
        case_decide; [rewrite decide_True by done|rewrite decide_False by tauto]; done.
      * by rewrite decide_False by tauto.
    + destruct (read_frame (v2r o) data) as [f|] eqn:Hf; [|done].
      apply read_frame_ids in Hf as [_ Hv%valid_id_nonempty].
      unfold frame_after. destruct (decide (vf_seq f <= floor (vs o) (vf_viewer f))%Z) as [Hle|Hgt].
      * by rewrite access_stale.
      * simpl vs. rewrite frame_viewers_access by (done || lia). split; [done|].
        rewrite app_nil_r, (request_session_calls (mode_of o)) by done.
        simpl. rewrite decide_False by done. apply serve_calls_floors.
  - split; [|done]. unfold revoke_section. simpl. unfold access_of, access_of_viewers, set_a_owner.
    destruct (decide (controlOwner (vs o) <> [])) as [Ho|Ho]; simpl.
    + by rewrite (proj2 (owner_option_None [])).
    + apply dec_stable in Ho. by rewrite Ho.
  - split; [|done]. by case_decide.
Qed.

(** ** Runs *)

Lemma mode_step e o : mode_of (state_of (step e) o) = mode_of o.
Proof. unfold mode_of. by rewrite (proj1 (step_config e o)). Qed.

Lemma run_access es o :
  access_of (state_of (run es) o)
  = (access_run (mode_of o) (access_trace es o) (access_of o)).1.
Proof.
  revert o. induction es as [|e es IH]; intros o; [done|].
  rewrite run_cons_state. simpl access_trace. rewrite access_run_cons. simpl.
  by rewrite IH, mode_step, (proj1 (step_refines_access e o)).
Qed.

Lemma run_calls es o :
  pty_calls (effects_of (run es) o)
  = concat (zip_with (++) (access_run (mode_of o) (access_trace es o) (access_of o)).2
              (host_trace es o)).
Proof.
  revert o. induction es as [|e es IH]; intros o; [done|].
  rewrite run_cons_effects, pty_calls_app. simpl access_trace. rewrite access_run_cons.
  simpl. by rewrite IH, mode_step, !(proj1 (step_refines_access e o)),
    (proj2 (step_refines_access e o)).
Qed.

Lemma message_calls e o :
  (access_step (mode_of o) (access_event_of o e) (access_of o)).2
  = if is_message e then pty_calls (effects_of (step e) o) else [].
Proof.
  rewrite (proj2 (step_refines_access e o)).
  destruct e; simpl; rewrite ?app_nil_r; try done; by destruct (conn o).
Qed.

Lemma viewer_calls_access es o :
  viewer_calls es o = concat (access_run (mode_of o) (access_trace es o) (access_of o)).2.
Proof.
  revert o. induction es as [|e es IH]; intros o; [done|].
  simpl access_trace. rewrite access_run_cons. simpl.
  by rewrite IH, mode_step, !(proj1 (step_refines_access e o)), message_calls.
Qed.

Lemma grants_access es o :
  grants es o = access_grants (mode_of o) (access_trace es o) (access_of o).
Proof.
  revert o. induction es as [|e es IH]; intros o; [done|]. simpl.
  rewrite IH, mode_step, !(proj1 (step_refines_access e o)). f_equal.
  assert (forall o, a_owner (access_of o) = None <-> controlOwner (vs o) = []) as Ha
    by (intros; apply owner_option_None).
  rewrite <- (proj1 (step_refines_access e o)).
  apply decide_ext. by rewrite owner_option_None, Ha.
Qed.

Lemma run_floor es o v : (floor (vs o) v <= floor (vs (state_of (run es) o)) v)%Z.
Proof.
  pose proof (access_run_floor (mode_of o) (access_trace es o) (access_of o) v) as H.
  by rewrite <- run_access in H.
Qed.

(** A frame whose number is not above its sender's floor does nothing at all. *)
Lemma stale_frame_inert data f o :
  read_frame (v2r o) data = Some f -> (vf_seq f <= floor (vs o) (vf_viewer f))%Z ->
  step (EvMessage false data) o = (tt, o, []).
Proof.
  intros Hf Hle. pose proof (handleBinary_spec data o) as H. unfold wp in H.
  simpl. unfold reader_msg, mbind, M_bind, gets. destruct (conn o); [|done].
  destruct (handleBinary data o) as [[[] o'] es]. unfold binary_outcome in H.
  rewrite Hf, decide_True in H by done. by destruct H as [-> ->].
Qed.

Lemma received_frame_floor data f o :
  read_frame (v2r o) data = Some f -> conn o <> None ->
  (vf_seq f <= floor (vs (state_of (step (EvMessage false data)) o)) (vf_viewer f))%Z.
Proof.
  intros Hf Hc.
  pose proof (access_step_pins (mode_of o) (vf_viewer f) (vf_seq f) (frame_request f) (access_of o))
    as H.
  assert (access_event_of o (EvMessage false data)
          = AFrame (vf_viewer f) (vf_seq f) (frame_request f)) as He.
  { simpl. destruct (conn o); [|done]. by rewrite Hf. }
  rewrite <- He, <- (proj1 (step_refines_access _ _)) in H. exact H.
Qed.

Lemma New_access c s o :
  New c s = Ok o -> access_of o = access0 /\ mode_of o = Config_Control c.
Proof.
  unfold New. destruct (NewCipher (R2V (Config_Keys c)) _); [|done].
  simpl. destruct (NewCipher (V2R (Config_Keys c)) _); [|done]. simpl. by intros <-%(inj Ok).
Qed.

Lemma concat_nil_Forall {A} (l : list (list A)) : Forall (fun x => x = []) l -> concat l = [].
Proof. induction 1 as [|x l -> _ IH]; [done|]. exact IH. Qed.

(** A fresh frame's calls and the size it leaves. *)
Lemma frame_calls f o :
  let owns := bool_decide (controlOwner (vs o) = vf_viewer f) in
  ((request_session (vf_viewer f) (frame_request f) (vs o) (sess o)).2,
   Size (request_session (vf_viewer f) (frame_request f) (vs o) (sess o)).1) =
  (if decide (vf_kind f = KindInput) then (if owns then [PtyWrite (vf_payload f)] else [], Size (sess o))
   else if decide (vf_kind f = KindResize) then
     match DecodeResize (vf_payload f) with
     | Ok (cols, rows) =>
       if decide (owns = true /\ cols <> 0 /\ rows <> 0)%Z
       then ([PtySetsize cols rows], (cols, rows)) else ([], Size (sess o))
     | Err _ => ([], Size (sess o))
     end
   else ([], Size (sess o))).
Proof.
  intros owns. unfold request_session, frame_request, request_of, viewerHasControl. fold owns.
  destruct (decide (vf_kind f = KindInput)) as [_|_]; [done|].
  destruct (decide (vf_kind f = KindResize)) as [_|_]; [|by repeat case_decide].
  destruct (DecodeResize (vf_payload f)) as [[cols rows]|]; [|done].
  unfold SetSize. destruct owns; repeat case_decide; simpl; intuition congruence.
Qed.

(** What a fresh frame does to the owner and its route. *)
Lemma frame_owner f o :
  ~ (vf_seq f <= floor (vs o) (vf_viewer f))%Z -> frame_ok f ->
  (controlOwner (frame_viewers (mode_of o) f (vs o)), ownerRoute (frame_viewers (mode_of o) f (vs o))) =
  (if decide (vf_kind f = KindCtrlReq /\ bool_decide (controlOwner (vs o) = []) = true /\
              may_take (mode_of o) (access_of o) = true) then (vf_viewer f, vf_route f)
   else if decide (vf_kind f = KindCtrlRel /\ bool_decide (controlOwner (vs o) = vf_viewer f) = true) then ([], [])
   else (controlOwner (vs o), ownerRoute (vs o))).
Proof.
  intros Hs (_ & Hv%valid_id_nonempty & _).
  unfold frame_viewers, acceptSeq. rewrite decide_False by done. unfold frame_request, request_of.
  destruct (decide (vf_kind f = KindInput)) as [Hk|_]; [by rewrite Hk|].
  destruct (decide (vf_kind f = KindResize)) as [Hk|_].
  { rewrite Hk. by destruct (DecodeResize _) as [[]|]. }
  destruct (decide (vf_kind f = KindCtrlReq)) as [Hk|Hk].
  - rewrite Hk. simpl. unfold request_section, access_of, access_of_viewers.
    repeat case_bool_decide; destruct (mode_of o), (onceUsed (vs o)); simpl; repeat case_decide; simpl;
      first [done | intuition congruence].
  - destruct (decide (vf_kind f = KindCtrlRel)) as [Hk'|Hk']; simpl; unfold release_section;
      repeat case_decide; simpl; naive_solver.
Qed.

Lemma enqueue_room m o c :
  conn o = Some c -> length (c_send c) < sendQueue -> c_done c = false ->
  enqueue m o = (tt, set_conn (Some (push_send m c)) o, []).
Proof.
  intros Hc Hl Hd. unfold enqueue, mbind, M_bind, gets. rewrite Hc, bool_decide_true, Hd by done.
  unfold modify_conn, modify. by rewrite Hc.
Qed.

Lemma note_conn s o : wp (note s) (fun _ o' _ => conn o' = conn o) o.
Proof. eapply wp_mono; [apply note_quiet|]. by intros _ o' es [-> _]. Qed.

(** What it queues. *)
Lemma frame_queue f o data c :
  read_frame (v2r o) data = Some f -> ~ (vf_seq f <= floor (vs o) (vf_viewer f))%Z ->
  conn o = Some c -> length (c_send c) < sendQueue -> c_done c = false ->
  wp (step (EvMessage false data)) (fun _ o' _ => exists c', conn o' = Some c' /\ c_send c' = c_send c ++
    if decide (vf_kind f = KindCtrlReq) then
      let state := if bool_decide (controlOwner (vs o) = vf_viewer f) then ControlGranted
                   else if negb (bool_decide (controlOwner (vs o) = [])) then ControlTaken
                   else if may_take (mode_of o) (access_of o) then ControlGranted else ControlReadOnly in
      [mkOutMsg KindControl [state] (vf_route f) false]
    else if decide (vf_kind f = KindCtrlRel /\ bool_decide (controlOwner (vs o) = vf_viewer f) = true)
    then [mkOutMsg KindControl [ControlReadOnly] (vf_route f) false]
    else []) o.
Proof.
  intros Hf Hs Hc Hl Hd. simpl. unfold reader_msg. wp_step. apply wp_gets. rewrite Hc.
  unfold read_frame in Hf. unfold handleBinary.
  destruct (DecodeRelayViewerFrame data) as [[route box]|]; [|done].
  wp_step. apply wp_gets. destruct (Open (v2r o) box) as [[[seq kind] inner]|]; [|done].
  destruct (DecodeViewerPayload inner) as [[v p]|]; [|done]. apply (inj Some) in Hf as <-. simpl in *.
  wp_step. apply wp_with_viewers. unfold acceptSeq. rewrite !decide_False by done. simpl.
  wp_step. apply wp_modify. unfold dispatch.
  assert (forall m b s o', conn o' = Some c -> wp (enqueue m ;; if b : bool then note s else skip)
    (fun _ o'' _ => exists c', conn o'' = Some c' /\ c_send c' = c_send c ++ [m]) o') as Hqueue.
  { intros m b s o' Hc'. apply wp_bind. unfold wp at 1. rewrite (enqueue_room m o' c) by done. destruct b.
    - eapply wp_mono; [apply note_conn|]. intros [] o'' es ->. by eexists.
    - apply wp_skip. by eexists. }
  assert (forall o', conn o' = Some c -> exists c', conn o' = Some c' /\ c_send c' = c_send c ++ []) as Hsame
    by (intros o' ?; exists c; by rewrite app_nil_r).
  destruct (decide (kind = KindInput)) as [->|_].
  { simpl. wp_step. apply wp_gets. case_match; [unfold sess_write; wp_steps|apply wp_skip]; by apply Hsame. }
  destruct (decide (kind = KindResize)) as [->|_].
  { simpl. wp_step. apply wp_gets. unfold sess_set_size.
    repeat case_match; wp_steps; by apply Hsame. }
  destruct (decide (kind = KindCtrlReq)) as [->|Hk].
  - unfold handleControlRequest. wp_step. apply wp_gets. wp_step. apply wp_with_viewers.
    eapply wp_mono; [by apply Hqueue|]. intros [] o' es (c' & H1 & H2). exists c'. split; [done|].
    rewrite H2. do 4 f_equal. unfold request_section, access_of, access_of_viewers, mode_of. simpl.
    destruct (Config_Control (cfg o)), (onceUsed (vs o)); simpl; repeat case_decide; repeat case_bool_decide;
      simpl in *; first [done | intuition congruence].
  - destruct (decide (kind = KindCtrlRel)) as [->|Hk'].
    + unfold handleControlRelease. wp_step. apply wp_with_viewers. unfold release_section. simpl.
      destruct (decide (controlOwner (vs o) = v)) as [Ho|Ho]; simpl.
      * rewrite decide_True by (by rewrite bool_decide_true).
        eapply wp_mono; [by apply (Hqueue _ true)|]. done.
      * rewrite decide_False by (by rewrite bool_decide_false; [intros [_ ?]|]).
        apply wp_skip. by apply Hsame.
    + rewrite decide_False by tauto. apply wp_skip. by apply Hsame.
Qed.

End Facts.

(** ** Properties *)

(** C1. The orchestrator implements the access specification: over any events
    whatever (frames and control messages of the relay's choosing, reconnects,
    drops, the host's own keys and resizes, in any order), the owner, the
    replay floors and the spent grant are those of the specification run on the
    trace's authenticated requests, and the pty sees, step by step, exactly the
    calls the specification allows and those of the host's terminal. *)
Theorem orchestrator_refines_access `{E : Env} es o :
  access_of (state_of (run es) o)
  = (access_run (mode_of o) (access_trace es o) (access_of o)).1 /\
  pty_calls (effects_of (run es) o)
  = concat (zip_with (++) (access_run (mode_of o) (access_trace es o) (access_of o)).2
              (host_trace es o)).
Proof. split; [apply run_access|apply run_calls]. Qed.

(** C3. Nothing the relay sends reaches the pty without authority.  When a
    received message causes pty calls, it was a binary frame on a live
    connection that some holder of the viewer key sealed for this session, its
    number was above its sender's floor, its sender was the owner, and the call
    is the one it asked for: writing exactly its payload, or one resize to the
    two non-zero 16-bit sizes in it. *)
Theorem viewer_calls_are_authorised `{E : Env} text data o :
  let cs := pty_calls (effects_of (step (EvMessage text data)) o) in
  cs = [] \/
  text = false /\ conn o <> None /\ exists nonce f,
    length nonce = nonceLen /\ frame_ok f /\ data = frame_bytes (v2r o) nonce f /\
    (floor (vs o) (vf_viewer f) < vf_seq f)%Z /\ controlOwner (vs o) = vf_viewer f /\
    ((vf_kind f = KindInput /\ cs = [PtyWrite (vf_payload f)]) \/
     (vf_kind f = KindResize /\ exists cols rows,
        DecodeResize (vf_payload f) = Ok (cols, rows) /\
        (0 < cols < 2 ^ 16)%Z /\ (0 < rows < 2 ^ 16)%Z /\ cs = [PtySetsize cols rows])).
Proof.
  cbv zeta. rewrite step_pty. destruct text; [by left|]. simpl.
  destruct (conn o) as [c|] eqn:Hc; [|by left].
  destruct (read_frame (v2r o) data) as [f|] eqn:Hf; [|by left].
  case_decide as Hs; [by left|].
  destruct (decide ((request_session (vf_viewer f) (frame_request f) (vs o) (sess o)).2 = []))
    as [|Hne]; [by left|right]. split_and!; [done..|].
  apply read_frame_exactly in Hf as (Hok & nonce & Hn & Hd).
  exists nonce, f. split_and!; [done..|lia| |].
  - unfold request_session, viewerHasControl in Hne.
    destruct (decide (controlOwner (vs o) = vf_viewer f)) as [|Hw]; [done|].
    rewrite bool_decide_false in Hne by done. by destruct (frame_request f).
  - unfold frame_request, request_of, request_session in *.
    destruct (decide (vf_kind f = KindInput)) as [Hk|_].
    { left. split; [done|]. by destruct (viewerHasControl _ _). }
    destruct (decide (vf_kind f = KindResize)) as [Hk|_].
    { right. split; [done|].
      destruct (DecodeResize (vf_payload f)) as [[cols rows]|] eqn:Hr; [|done].
      exists cols, rows. apply DecodeResize_range in Hr.
      destruct (viewerHasControl _ _); [|done]. unfold SetSize in *.
      case_decide; [done|]. split_and!; (done || lia). }
    repeat case_decide; done.
Qed.

(** C14. And what has authority is served.  A well-formed frame sealed under the
    session's viewer key, arriving on a live connection: if its number is not
    above its sender's floor the step changes nothing and does nothing; if it
    is, the number becomes that floor and no other floor moves, the route is
    bound to the sender, and
    - the pty gets the owner's input unchanged, the owner's resize when both
      sizes are non-zero, and nothing otherwise; the resize is recorded;
    - a control request makes the sender the owner, reached by the route it
      came over, when nobody is in control and the policy allows it; a release
      by the owner leaves nobody in control; no other frame changes the owner
      or its route;
    - on a connection with room in its queue the reply to a request (granted to
      the owner and to the new owner, taken when another is in control,
      read-only when the policy refuses) or to the owner's release (read-only)
      is queued for that route, and nothing else is queued. *)
Theorem authentic_frames_are_served `{E : Env} nonce f o :
  conn o <> None -> length nonce = nonceLen -> frame_ok f ->
  let e := EvMessage false (frame_bytes (v2r o) nonce f) in
  let o' := state_of (step e) o in
  let owns := bool_decide (controlOwner (vs o) = vf_viewer f) in
  let free := bool_decide (controlOwner (vs o) = []) in
  let may := may_take (mode_of o) (access_of o) in
  ((vf_seq f <= floor (vs o) (vf_viewer f))%Z -> step e o = (tt, o, [])) /\
  ((floor (vs o) (vf_viewer f) < vf_seq f)%Z ->
    floor (vs o') (vf_viewer f) = vf_seq f /\
    (forall w, w <> vf_viewer f -> floor (vs o') w = floor (vs o) w) /\
    selfByRoute (vs o') !! vf_route f = Some (vf_viewer f) /\
    (pty_calls (effects_of (step e) o), Size (sess o')) =
      (if decide (vf_kind f = KindInput) then (if owns then [PtyWrite (vf_payload f)] else [], Size (sess o))
       else if decide (vf_kind f = KindResize) then
         match DecodeResize (vf_payload f) with
         | Ok (cols, rows) =>
           if decide (owns = true /\ cols <> 0 /\ rows <> 0)%Z
           then ([PtySetsize cols rows], (cols, rows)) else ([], Size (sess o))
         | Err _ => ([], Size (sess o))
         end
       else ([], Size (sess o))) /\
    (controlOwner (vs o'), ownerRoute (vs o')) =
      (if decide (vf_kind f = KindCtrlReq /\ free = true /\ may = true) then (vf_viewer f, vf_route f)
       else if decide (vf_kind f = KindCtrlRel /\ owns = true) then ([], [])
       else (controlOwner (vs o), ownerRoute (vs o))) /\
    (forall c, conn o = Some c -> length (c_send c) < sendQueue -> c_done c = false ->
      exists c', conn o' = Some c' /\ c_send c' = c_send c ++
        if decide (vf_kind f = KindCtrlReq) then
          let state := if owns then ControlGranted else if negb free then ControlTaken
                       else if may then ControlGranted else ControlReadOnly in
          [mkOutMsg KindControl [state] (vf_route f) false]
        else if decide (vf_kind f = KindCtrlRel /\ owns = true)
        then [mkOutMsg KindControl [ControlReadOnly] (vf_route f) false]
        else [])).
Proof.
  intros Hc Hn Hok e o' owns free may.
  assert (read_frame (v2r o) (frame_bytes (v2r o) nonce f) = Some f) as Hf
    by (apply read_frame_exactly; eauto).
  split; [by eapply stale_frame_inert|]. intros Hs%Z.lt_nge.
  assert (pty_calls (effects_of (step e) o) = step_calls e o) as ->
    by apply step_pty.
  assert (sess o' = sess (host_after e o)) as -> by (symmetry; apply host_sess, step_state).
  assert (vs o' = frame_viewers (mode_of o) f (vs o)) as ->.
  { etrans; [apply step_vs|]. simpl. destruct (conn o); [|done].
    rewrite Hf. unfold frame_after. by rewrite decide_False. }
  split_and!.
  - unfold frame_viewers. rewrite request_viewers_floor. unfold acceptSeq. rewrite decide_False by done. simpl.
    unfold bindRoute, floor. simpl. by rewrite lookup_insert_eq.
  - intros w Hw. unfold frame_viewers. rewrite request_viewers_floor. unfold acceptSeq.
    rewrite decide_False by done. simpl. unfold bindRoute, floor. simpl.
    by rewrite lookup_insert_ne.
  - unfold frame_viewers. rewrite request_viewers_routes. unfold acceptSeq. rewrite decide_False by done. simpl.
    by rewrite lookup_insert_eq.
  - simpl. destruct (conn o); [|done]. rewrite Hf. unfold frame_after. rewrite !decide_False by done. simpl.
    apply frame_calls.
  - by apply frame_owner.
  - intros c Hco Hl Hd. eapply (state_of_wp _ (fun _ o' _ => exists c', conn o' = Some c' /\ c_send c' = _)).
    by apply frame_queue.
Qed.

Lemma authentic_frames_are_served_witness :
  floor (vs (state_of (step (EvMessage false (frame_bytes (v2r (demo_owned ControlAuto))
    (make_bytes 12) (demo_vf (str "r2") (str "phone") 2 KindInput (str "ls")))))
    (demo_owned ControlAuto))) (str "phone") = 2%Z.
Proof.
  refine (proj1 (proj2 (authentic_frames_are_served (make_bytes 12)
    (demo_vf (str "r2") (str "phone") 2 KindInput (str "ls")) (demo_owned ControlAuto) _ _ _) _)).
  - by vm_compute.
  - done.
  - split_and!; [unfold valid_id; simpl; lia..| |]; done.
  - by vm_compute.
Defined.

(** C5. Replays are inert for the life of the process.  Once a frame has been
    received on a live connection, then after any further events at all, a
    frame of the same viewer with the same or a lower number (the same bytes
    again, or resealed, under any routing label) leaves the whole state as it
    is and has no effect. *)
Theorem replays_are_inert `{E : Env} o data f es data' f' :
  conn o <> None ->
  read_frame (v2r o) data = Some f ->
  read_frame (v2r o) data' = Some f' ->
  vf_viewer f' = vf_viewer f -> (vf_seq f' <= vf_seq f)%Z ->
  let o' := state_of (run (EvMessage false data :: es)) o in
  step (EvMessage false data') o' = (tt, o', []).
Proof.
  intros Hc Hf Hf' Hv Hs o'.
  apply (stale_frame_inert _ f').
  - unfold o'. by rewrite (proj2 (proj2 (run_config _ o))).
  - rewrite Hv. unfold o'. rewrite run_cons_state.
    pose proof (received_frame_floor data f o Hf Hc).
    pose proof (run_floor es (state_of (step (EvMessage false data)) o) (vf_viewer f)). lia.
Qed.

Lemma replays_are_inert_witness :
  let data := demo_frame (str "r1") (str "phone") 2 KindInput (str "ls") in
  let o' := state_of (run [EvMessage false data; EvDisconnect; EvConnect]) (demo_owned ControlAuto) in
  step (EvMessage false data) o' = (tt, o', []).
Proof.
  refine (replays_are_inert (E := demo_env) (demo_owned ControlAuto) _
    (demo_vf (str "r1") (str "phone") 2 KindInput (str "ls")) [EvDisconnect; EvConnect] _
    (demo_vf (str "r1") (str "phone") 2 KindInput (str "ls")) _ _ _ _ _);
    by vm_compute.
Defined.

(** C8. The control policy bounds the grants of a whole run, whoever asks, how
    often, and whatever the relay does: with view-only nobody is ever granted
    control and no viewer ever reaches the pty; with once there is at most one
    grant, even across releases, revocations and reconnects. *)
Theorem grants_follow_the_policy `{E : Env} c s o es :
  New c s = Ok o ->
  match Config_Control c with
  | ControlAuto => True
  | ControlViewOnly => grants es o = 0 /\ viewer_calls es o = []
  | ControlOnce => grants es o <= 1
  end.
Proof.
  intros Hnew. apply New_access in Hnew as [Ha Hm].
  pose proof (access_grants_bounded (mode_of o) (access_trace es o) (access_of o)) as Hg.
  rewrite <- grants_access, Ha, Hm in Hg. destruct (Config_Control c); [done|..]; simpl in Hg.
  - specialize (Hg 0 eq_refl). assert (grants es o = 0) as H0 by lia. split; [done|].
    rewrite viewer_calls_access. apply concat_nil_Forall.
    apply access_quiet_without_grants; [by rewrite Ha|by rewrite <- grants_access].
  - by apply Hg.
Qed.

Lemma grants_follow_the_policy_witness :
  grants (demo_take ++ [EvRevoke; demo_msg (str "r1") (str "phone") 2 KindCtrlReq []])
    (demo ControlOnce) <= 1.
Proof. exact (grants_follow_the_policy _ _ _ _ (New_demo ControlOnce)). Defined.

(** C21. The relay's routing labels carry no authority: two relay envelopes
    around the same sealed frame, whatever their labels, make the same pty
    calls, give the same owner, floors and spent grant, and leave the session
    the same. *)
Theorem routing_labels_carry_no_authority `{E : Env} r1 r2 sealed o :
  valid_id r1 -> valid_id r2 ->
  let e1 := EvMessage false (EncodeRelayViewerFrame r1 sealed) in
  let e2 := EvMessage false (EncodeRelayViewerFrame r2 sealed) in
  pty_calls (effects_of (step e1) o) = pty_calls (effects_of (step e2) o) /\
  access_of (state_of (step e1) o) = access_of (state_of (step e2) o) /\
  sess (state_of (step e1) o) = sess (state_of (step e2) o).
Proof.
  intros H1 H2 e1 e2.
  assert (forall r, valid_id r -> DecodeRelayViewerFrame (EncodeRelayViewerFrame r sealed) = Ok (r, sealed))
    as Hdec by (intros; by apply decode_envelope_encode).
  assert (access_event_of o e1 = access_event_of o e2) as Hev.
  { simpl. unfold read_frame. rewrite !Hdec by done. destruct (conn o); [|done].
    destruct (Open _ sealed) as [[[seq kind] inner]|]; [|done].
    by destruct (DecodeViewerPayload inner) as [[v p]|]. }
  rewrite !(proj2 (step_refines_access _ o)), !(proj1 (step_refines_access _ o)), Hev.
  split_and!; [done..|]. rewrite <- !(host_sess _ _ (step_state _ o)). simpl.
  destruct (conn o); [|done]. unfold read_frame. rewrite !Hdec by done.
  destruct (Open _ sealed) as [[[seq kind] inner]|]; [|done].
  destruct (DecodeViewerPayload inner) as [[v p]|]; [|done].
  unfold frame_after. simpl. by case_decide.
Qed.

Lemma routing_labels_carry_no_authority_witness :
  pty_calls (effects_of (step (EvMessage false (EncodeRelayViewerFrame (str "a") (str "x"))))
    (demo_owned ControlAuto))
  = pty_calls (effects_of (step (EvMessage false (EncodeRelayViewerFrame (str "b") (str "x"))))
    (demo_owned ControlAuto)).
Proof.
  apply (routing_labels_carry_no_authority (str "a") (str "b") (str "x"));
    unfold valid_id; simpl; lia.
Defined.

(** C24. The host's terminal is never held up: whatever viewers and the relay
    do in between, the local terminal receives every chunk the command writes,
    unchanged and in order, and everything typed locally is written to the
    pty at once, whoever is in control. *)
Theorem local_terminal_sees_everything `{E : Env} es o :
  local_writes (effects_of (run es) o)
  = (if Config_LocalOut (cfg o)
     then omap (fun e => match e with EvOutput chunk => Some chunk | _ => None end) es else []) /\
  (Config_LocalIn (cfg o) = true ->
   forall p, pty_calls (effects_of (step (EvInput p)) (state_of (run es) o)) = [PtyWrite p]).
Proof.
  split.
  - revert o. induction es as [|e es IH]; intros o; [by case_match|].
    rewrite run_cons_effects, local_writes_app, step_locals, IH, (proj1 (step_config e o)).
    destruct e; simpl; try done; by case_match.
  - intros Hl p. rewrite step_pty. simpl. by rewrite (proj1 (run_config es o)), Hl.
Qed.
