(* ===== verification/Invariant.v ===== *)
(** * Invariant: the states between handlers

    The orchestrator's invariant and its preservation by every event, at the
    grain of Handlers: the viewer state obeys the policy, the queues stay within
    their capacity, only the farewell text is ever queued, nobody controls
    without a connection, and the exit code is the child's.  Some of it is owed
    to a handler being one step - a pending drop mark has a sealed message
    behind it, a failed connection's sender has stopped, the owner is gone as
    soon as the connection is -; what holds between any two atoms of the
    goroutines is Goroutines' [reachable_worlds_are_well_formed]. *)
From S2P Require Import Prelude Wire Encodings Crypto StdCrypto Ring Screen Session.
From S2P Require Import Control Json Orch Sender Handlers Traces Access Refine.
From S2P Require Import Scenario Authority.
From Stdlib Require Import Strings.Byte.

(** ** The invariant *)

Definition bye_message : outMsg := mkOutMsg x00 byeEnded [] true.
Definition sealed (m : outMsg) : Prop := om_text m = false.
Definition texts (q : list outMsg) : nat := length (filter (fun m => om_text m = true) q).

(** A connection is well formed, given whether the child has exited. *)
Record conn_ok (exited : bool) (c : connState) : Prop := {
  co_send : length (c_send c) <= sendQueue;
  co_join : length (c_join c) <= sendQueue;
  co_bye : Forall (fun m => om_text m = true -> m = bye_message) (c_send c);
  co_texts : texts (c_send c) <= if exited then 1 else 0;
  co_dropped : c_dropped c = true -> Exists sealed (c_send c);
  co_done : c_done c = true -> c_running c = false
}.

Definition exited (o : Orchestrator) : bool := bool_decide (sess_state (sess o) <> None).

Definition conn_inv (o : Orchestrator) : Prop :=
  match conn o with Some c => conn_ok (exited o) c | None => True end.

(** The host side's part of the invariant. *)
Record host_inv (o : Orchestrator) : Prop := {
  inv_viewers : wf_viewers (mode_of o) (vs o);
  inv_count : (- 2 ^ 31 <= viewers o < 2 ^ 31)%Z;
  inv_size : size_known (sess o);
  inv_exit : exitCode o = default (-1)%Z (i32 <$> sess_state (sess o))
}.

(** Nobody is counted, bound to a route or in control without a connection. *)
Definition idle_inv (o : Orchestrator) : Prop :=
  conn o = None -> viewers o = 0%Z /\ controlOwner (vs o) = [] /\ selfByRoute (vs o) = ∅.

Record Inv (o : Orchestrator) : Prop := {
  inv_host : host_inv o;
  inv_conn : conn_inv o;
  inv_idle : idle_inv o;
  inv_seq : (0 <= outSeq o < 2 ^ 64)%Z
}.

(** ** Connections *)

Lemma newConn_ok ex : conn_ok ex newConn.
Proof. split; simpl; try done; unfold sendQueue; destruct ex; unfold texts; simpl; lia. Qed.

Lemma texts_app q q' : texts (q ++ q') = texts q + texts q'.
Proof. unfold texts. by rewrite filter_app, length_app. Qed.

(** A queue with fewer texts than messages holds a sealed message. *)
Lemma texts_lt_sealed q : texts q < length q -> Exists sealed q.
Proof.
  induction q as [|m q IH]; simpl; [lia|]. unfold texts. rewrite filter_cons.
  destruct (om_text m) eqn:Hm; simpl.
  - intros H. right. apply IH. unfold texts. lia.
  - intros _. by left.
Qed.

Lemma push_send_ok (ex ex' : bool) m c :
  conn_ok ex c -> length (c_send c) < sendQueue ->
  (om_text m = true -> m = bye_message) ->
  texts (c_send c ++ [m]) <= (if ex' then 1 else 0) ->
  conn_ok ex' (push_send m c).
Proof.
  intros [H1 H2 H3 H4 H5 H6] Hlen Hm Ht. split; simpl; try done.
  - rewrite length_app. simpl. lia.
  - apply Forall_app. by split; [|constructor].
  - intros Hd. apply Exists_app. left. auto.
Qed.

Lemma set_dropped_ok ex c : conn_ok ex c -> length (c_send c) = sendQueue ->
  conn_ok ex (set_dropped true c).
Proof.
  intros [H1 H2 H3 H4 H5 H6] Hlen. split; simpl; try done.
  intros _. apply texts_lt_sealed. rewrite Hlen. unfold sendQueue. destruct ex; lia.
Qed.

Lemma signal_ok ex v c : conn_ok ex c -> conn_ok ex (signal v c).
Proof.
  intros [H1 H2 H3 H4 H5 H6]. unfold signal. case_decide; [|by split].
  split; simpl; try done. rewrite length_app. simpl. lia.
Qed.

Lemma stop_sender_ok ex c : conn_ok ex c -> conn_ok ex (stop_sender c).
Proof. intros [H1 H2 H3 H4 H5 H6]. by split. Qed.

Lemma fail_and_return_ok ex c : conn_ok ex c -> conn_ok ex (stop_sender (fail c)).
Proof. intros [H1 H2 H3 H4 H5 H6]. by split. Qed.

Lemma pop_join_ok ex v j c : conn_ok ex c -> c_join c = v :: j -> conn_ok ex (set_join j c).
Proof.
  intros [H1 H2 H3 H4 H5 H6] Hj. split; simpl; try done. rewrite Hj in H2. simpl in H2. lia.
Qed.

Lemma pop_send_ok (ex : bool) m q c :
  conn_ok ex c -> c_send c = m :: q ->
  conn_ok ex (set_send q (if om_text m then c else set_dropped false c)).
Proof.
  intros [H1 H2 H3 H4 H5 H6] Hq. rewrite Hq in *. simpl in H1.
  apply Forall_cons in H3 as [_ H3].
  assert (texts q <= (if ex then 1 else 0)) as H4'.
  { unfold texts in *. rewrite filter_cons in H4. by case_decide; simpl in H4; [lia|]. }
  destruct (om_text m) eqn:Hm; split; simpl; try done; try lia.
  intros Hd. specialize (H5 Hd). apply Exists_cons in H5 as [Hs|]; [|done].
  unfold sealed in Hs. congruence.
Qed.

(** ** Computations that keep the connection well formed *)

(** The connection, if any, is still there and still well formed, whatever the
    child's state. *)
Definition conn_evolves (o o' : Orchestrator) : Prop :=
  match conn o, conn o' with
  | None, None => True
  | Some c, Some c' => forall ex, conn_ok ex c -> conn_ok ex c'
  | _, _ => False
  end.

#[export] Instance conn_evolves_preorder : PreOrder conn_evolves.
Proof.
  unfold conn_evolves. split; [intros x; by destruct (conn x)|].
  intros x y z. destruct (conn x), (conn y), (conn z); naive_solver.
Qed.

Lemma conn_evolves_same o o' : conn o' = conn o -> conn_evolves o o'.
Proof. unfold conn_evolves. intros ->. by destruct (conn o). Qed.

Section Code.
Context `{P : Primitives} `{E : Env}.

Lemma keep_gets R `{!PreOrder R} {A} (f : Orchestrator -> A) : preserves R (gets f).
Proof. intros o. by apply wp_gets. Qed.

Lemma keep_ret R `{!PreOrder R} {A} (a : A) : preserves R (mret a).
Proof. intros o. by apply wp_ret. Qed.

Lemma keep_tell R `{!PreOrder R} es : preserves R (tell es).
Proof. intros o. by apply wp_tell. Qed.

Lemma keep_modify (R : Orchestrator -> Orchestrator -> Prop) f :
  (forall o, R o (f o)) -> preserves R (modify f).
Proof. intros H o. by apply wp_modify. Qed.

Lemma keep_with_viewers (R : Orchestrator -> Orchestrator -> Prop) {A} (f : ViewerState -> A * ViewerState) :
  (forall o st, R o (set_vs st o)) -> preserves R (with_viewers f).
Proof. intros H o. by apply wp_with_viewers. Qed.

Lemma keep_modify_conn f :
  (forall ex c, conn_ok ex c -> conn_ok ex (f c)) -> preserves conn_evolves (modify_conn f).
Proof.
  intros H o. apply wp_modify. unfold conn_evolves. destruct (conn o) eqn:Hc; simpl; [|by rewrite Hc].
  auto.
Qed.

(** Splits a computation into its primitives. *)
Ltac keep_step :=
  lazymatch goal with
  | |- preserves _ (mbind _ _) => apply preserves_bind; [apply _| |intros ?]
  | |- preserves _ (gets _) => apply keep_gets; apply _
  | |- preserves _ (mret _) => apply keep_ret; apply _
  | |- preserves _ skip => apply keep_ret; apply _
  | |- preserves _ (tell _) => apply keep_tell; apply _
  | |- preserves _ (match ?x with _ => _ end) => let E := fresh "E" in destruct x eqn:E
  end.
Ltac keep_steps := repeat keep_step.

(** The writing methods leave the connection as it is. *)
Definition same_conn (o o' : Orchestrator) : Prop := conn o' = conn o.

#[export] Instance same_conn_preorder : PreOrder same_conn.
Proof. unfold same_conn. split; [by intros ?|]. intros x y z; congruence. Qed.

Lemma writeMsg_conn ok target kind payload : preserves same_conn (writeMsg ok target kind payload).
Proof.
  unfold writeMsg, writeTargetFrame, writeText. keep_steps; try by apply keep_modify.
Qed.

Lemma write_frames_conn oks ms : preserves same_conn (write_frames oks ms).
Proof.
  revert oks. induction ms as [|m ms IH]; intros oks; simpl; [keep_steps|].
  destruct (next_ok oks). keep_steps; [apply writeMsg_conn|apply IH].
Qed.

Lemma sendRepaint_conn oks v : preserves same_conn (sendRepaint oks v).
Proof. unfold sendRepaint. keep_steps. apply write_frames_conn. Qed.

Lemma same_conn_evolves {A} (m : M A) : preserves same_conn m -> preserves conn_evolves m.
Proof. intros H o. eapply wp_mono; [apply H|]. intros a o' es. apply conn_evolves_same. Qed.

Lemma note_evolves s : preserves conn_evolves (note s).
Proof.
  intros o. eapply wp_mono; [apply note_quiet|]. intros [] o' es [-> _]. reflexivity.
Qed.

Lemma draw_coin_evolves : preserves conn_evolves draw_coin.
Proof. intros o. by apply conn_evolves_same. Qed.

Lemma fail_and_return_evolves : preserves conn_evolves fail_and_return.
Proof. apply keep_modify_conn, fail_and_return_ok. Qed.

(** Queueing a sealed message. *)
Lemma enqueue_evolves m : sealed m -> preserves conn_evolves (enqueue m).
Proof.
  intros Hm o. unfold enqueue. wp_step. apply wp_gets.
  destruct (conn o) as [c|] eqn:Hc; [|by apply wp_skip, conn_evolves_same].
  assert (forall o', conn o' = Some c -> length (c_send c) < sendQueue ->
    wp (modify_conn (push_send m)) (fun _ o2 _ => conn_evolves o o2) o') as Hpush.
  { intros o' Hc' Hlen. apply wp_modify. unfold conn_evolves. rewrite Hc, Hc'. simpl.
    intros ex Hok. eapply push_send_ok; [done|done|unfold sealed in Hm; congruence|].
    rewrite texts_app. unfold texts at 2. unfold sealed in Hm. rewrite filter_cons_False by congruence.
    simpl. rewrite Nat.add_0_r. apply (co_texts _ _ Hok). }
  case_bool_decide as Hlen; destruct (c_done c) eqn:Hd;
    try by apply wp_skip, conn_evolves_same.
  - wp_step. unfold draw_coin, wp at 1. destruct (coin (coins o)); [by apply Hpush|].
    by apply wp_skip, conn_evolves_same.
  - by apply Hpush.
  - apply wp_modify. unfold conn_evolves. rewrite Hc. simpl.
    intros ex Hok. apply set_dropped_ok; [done|].
    pose proof (co_send _ _ Hok). lia.
Qed.

Lemma modify_viewers_evolves f : preserves conn_evolves (modify_viewers f).
Proof. apply keep_modify. intros o. by apply conn_evolves_same. Qed.

Lemma signal_evolves v : preserves conn_evolves (modify_conn (signal v)).
Proof. apply keep_modify_conn. intros ex c. apply signal_ok. Qed.

Ltac evolve :=
  keep_steps;
  try first
    [ apply note_evolves | by apply enqueue_evolves | apply modify_viewers_evolves
    | apply signal_evolves | apply fail_and_return_evolves
    | by (apply keep_modify; intros ?; apply conn_evolves_same)
    | by (apply keep_with_viewers; intros ? ?; apply conn_evolves_same) ].

Lemma dispatch_evolves v route kind payload : preserves conn_evolves (dispatch v route kind payload).
Proof.
  unfold dispatch, sess_write, sess_set_size, handleControlRequest, handleControlRelease,
    emitToViewer. evolve.
Qed.

Lemma reader_msg_evolves text data : preserves conn_evolves (reader_msg text data).
Proof.
  unfold reader_msg, handleControl, handle_relay_msg, handleBinary. evolve;
    apply dispatch_evolves.
Qed.

(** The sender pops a message, then writes. *)
Lemma write_then {A} (m : M A) (f : A -> M unit) c' o o1 :
  preserves same_conn m -> (forall a, preserves conn_evolves (f a)) ->
  conn o1 = Some c' -> conn_evolves o (set_conn (Some c') o) ->
  wp (m ≫= f) (fun _ o' _ => conn_evolves o o') o1.
Proof.
  intros Hm Hf H1 Ho. apply wp_bind. eapply wp_mono; [apply Hm|]. intros a o2 es H2.
  eapply wp_mono; [apply Hf|]. intros b o3 es3 H3. cbv beta in *.
  etrans; [exact Ho|]. etrans; [|exact H3]. apply conn_evolves_same. simpl.
  unfold same_conn in H2. congruence.
Qed.

Lemma done_or_fail (b : bool) : preserves conn_evolves (if b then skip else fail_and_return).
Proof. destruct b; evolve. Qed.

Lemma pop_send_evolves m q c o :
  conn o = Some c -> c_send c = m :: q ->
  conn_evolves o
    (set_conn (Some (set_send q (if om_text m then c else set_dropped false c))) o).
Proof. intros Hc Hq. unfold conn_evolves. rewrite Hc. simpl. intros ex Hok. by eapply pop_send_ok. Qed.

Lemma sender_iter_evolves pick oks : preserves conn_evolves (sender_iter pick oks).
Proof.
  intros o. unfold sender_iter. wp_step. apply wp_gets.
  destruct (conn o) as [c|] eqn:Hc; [|by apply wp_skip, conn_evolves_same].
  destruct (c_running c); [|by apply wp_skip, conn_evolves_same].
  assert (forall o, wp (modify_conn stop_sender) (fun _ o' _ => conn_evolves o o') o) as Hstop
    by (apply keep_modify_conn; intros ex c'; apply stop_sender_ok).
  destruct pick.
  - apply Hstop.
  - destruct (c_done c); [apply Hstop|by apply wp_skip, conn_evolves_same].
  - destruct (c_join c) as [|v j] eqn:Hj; [by apply wp_skip, conn_evolves_same|].
    wp_step. apply wp_modify. rewrite Hc.
    apply (write_then _ _ (set_join j c)); [apply sendRepaint_conn|intros []; apply done_or_fail|done|].
    unfold conn_evolves. rewrite Hc. simpl. intros ex Hok. by eapply pop_join_ok.
  - destruct (c_send c) as [|m q] eqn:Hq; [by apply wp_skip, conn_evolves_same|].
    wp_step. apply wp_modify. rewrite Hc. unfold send_case.
    pose proof (pop_send_evolves m q c o Hc Hq) as Hpop. destruct (om_text m).
    + apply (write_then _ _ (set_send q c)); [unfold writeText; keep_steps|apply done_or_fail|done..].
    + wp_step. apply wp_gets. wp_step. apply wp_modify. simpl.
      apply (write_then _ _ (set_dropped false (set_send q c))); [|intros [b oks']|done..].
      * case_match; [apply sendRepaint_conn|keep_steps].
      * simpl. destruct b; [|apply fail_and_return_evolves].
        apply preserves_bind; [apply _|apply same_conn_evolves, writeMsg_conn|apply done_or_fail].
Qed.

(** Apart from a connection's start and end, and the child's exit, every event
    keeps the connection. *)
Lemma step_evolves e :
  match e with EvConnect | EvDisconnect | EvExit _ => True | _ => preserves conn_evolves (step e) end.
Proof.
  destruct e; simpl; try done.
  - apply keep_modify. intros o. by apply conn_evolves_same.
  - apply reader_msg_evolves.
  - apply sender_iter_evolves.
  - unfold pumpOutput_chunk, emit. evolve.
  - unfold pumpInput_chunk, sess_write. evolve.
  - unfold Resize, sess_set_size, emit. evolve.
  - unfold keepalive_tick, emit. evolve.
  - unfold Revoke, emitToViewer. evolve.
  - unfold shutdown. evolve.
Qed.

Lemma exit_watcher_evolves_none code o :
  wp (exit_watcher code) (fun _ o' _ => conn o <> None -> conn o' <> None) o.
Proof.
  assert (forall m o, wp (enqueue m) (fun _ o' _ => conn o <> None -> conn o' <> None) o) as Hq.
  { intros m o1. unfold enqueue. wp_step. apply wp_gets.
    destruct (conn o1) as [c|] eqn:Hc; [|by apply wp_skip].
    repeat case_match; try (apply wp_skip; congruence); try (apply wp_modify; by rewrite Hc).
    wp_step. unfold draw_coin, wp at 1.
    case_match; [apply wp_modify; simpl; by rewrite Hc|apply wp_skip; simpl; congruence]. }
  unfold exit_watcher, signalExit. wp_step. apply wp_gets. case_bool_decide; [|by apply wp_skip].
  wp_step. apply wp_modify. wp_step. apply wp_modify. wp_step. apply wp_gets. wp_step.
  eapply wp_mono; [apply Hq|]. intros [] o1 es1 H1. eapply wp_mono; [apply Hq|].
  intros [] o2 es2 H2 Ho. by apply H2, H1.
Qed.

Lemma event_cases e :
  (exists code, e = EvExit code) \/ e = EvConnect \/ e = EvDisconnect \/
  ((forall code, e <> EvExit code) /\ e <> EvConnect /\ e <> EvDisconnect).
Proof. destruct e; eauto 6; by do 3 right. Qed.

Lemma step_evolves_wp e o :
  (forall code, e <> EvExit code) -> e <> EvConnect -> e <> EvDisconnect ->
  conn_evolves o (state_of (step e) o).
Proof.
  intros H1 H2 H3. pose proof (step_evolves e) as H.
  destruct e; try done; try (by destruct (H1 code)); exact (state_of_wp _ _ _ (H o)).
Qed.

(** Queueing the farewell: the one text a queue ever holds. *)
Lemma emitText_bye o :
  (forall c, conn o = Some c -> conn_ok true c /\ texts (c_send c) = 0) ->
  wp (emitText byeEnded) (fun _ o' _ => same_host o o' /\
     forall c, conn o' = Some c -> conn_ok true c) o.
Proof.
  intros Hinv. apply wp_and; [eapply wp_mono; [apply enqueue_quiet|by intros [] ? ? [? _]]|].
  unfold emitText, enqueue. wp_step. apply wp_gets.
  destruct (conn o) as [c|] eqn:Hc; [|apply wp_skip; congruence].
  destruct (Hinv c eq_refl) as [Hok Ht].
  assert (length (c_send c) < sendQueue -> forall o', conn o' = Some c ->
    wp (modify_conn (push_send bye_message)) (fun _ o2 _ => forall c, conn o2 = Some c -> conn_ok true c) o')
    as Hpush.
  { intros Hlen o' Hc'. apply wp_modify. rewrite Hc'. simpl. intros c1 [= <-].
    eapply push_send_ok; [done|done|done|]. by rewrite texts_app, Ht. }
  case_bool_decide as Hlen; destruct (c_done c); try (apply wp_skip; congruence).
  - wp_step. unfold draw_coin, wp at 1. destruct (coin (coins o)); [by apply Hpush|].
    apply wp_skip. simpl. congruence.
  - by apply Hpush.
  - apply wp_modify. rewrite Hc. simpl. intros c1 [= <-]. apply set_dropped_ok; [done|].
    pose proof (co_send _ _ Hok). lia.
Qed.

Lemma conn_ok_texts c : conn_ok false c -> conn_ok true c /\ texts (c_send c) = 0.
Proof.
  intros [H1 H2 H3 H4 H5 H6]. split; [split; try done; lia|]. simpl in H4. lia.
Qed.

(** Queueing a sealed message adds no text. *)
Lemma emit_no_text m o :
  sealed m -> (forall c, conn o = Some c -> conn_ok true c /\ texts (c_send c) = 0) ->
  wp (enqueue m) (fun _ o' _ => same_host o o' /\
     forall c, conn o' = Some c -> conn_ok true c /\ texts (c_send c) = 0) o.
Proof.
  intros Hm Hinv. apply wp_and; [eapply wp_mono; [apply enqueue_quiet|by intros [] ? ? [? _]]|].
  eapply wp_mono; [by apply enqueue_evolves|]. intros [] o' es Hev c' Hc'.
  unfold conn_evolves in Hev. rewrite Hc' in Hev. destruct (conn o) as [c|] eqn:Hc; [|done].
  apply conn_ok_texts, Hev. destruct (Hinv c eq_refl) as [[H1 H2 H3 H4 H5 H6] Ht].
  split; try done. rewrite Ht. lia.
Qed.

Lemma exit_watcher_conn code o :
  conn_inv o -> wp (exit_watcher code) (fun _ o' _ => conn_inv o') o.
Proof.
  intros Hinv. unfold exit_watcher, signalExit. wp_step. apply wp_gets.
  case_bool_decide as Hw; [|by apply wp_skip].
  wp_step. apply wp_modify. wp_step. apply wp_modify. wp_step. apply wp_gets. wp_step.
  eapply wp_mono; [apply emit_no_text; [done|]|].
  { simpl. intros c Hc. unfold conn_inv, exited in Hinv. rewrite Hc, Hw in Hinv.
    by apply conn_ok_texts. }
  intros [] o1 es1 [H1 Hc1]. eapply wp_mono; [by apply emitText_bye|].
  intros [] o2 es2 [H2 Hc2]. unfold conn_inv, exited.
  rewrite <- (host_sess _ _ H2), <- (host_sess _ _ H1). simpl.
  destruct (conn o2) as [c|]; [|done]. by apply Hc2.
Qed.

(** ** The host side *)

Lemma i32_range z : (- 2 ^ 31 <= i32 z < 2 ^ 31)%Z.
Proof. unfold i32. pose proof (Z.mod_pos_bound (z + 2 ^ 31) (2 ^ 32) ltac:(lia)). lia. Qed.

Lemma request_session_state v r st s : sess_state (request_session v r st s).1 = sess_state s.
Proof. destruct r; simpl; try done. case_match; [apply SetSize_state|done]. Qed.

Lemma request_session_known v r st s :
  size_known s -> size_known (request_session v r st s).1.
Proof. intros H. destruct r; simpl; try done. case_match; [by apply SetSize_known|done]. Qed.

Lemma frame_viewers_wf mode f st :
  frame_ok f -> wf_viewers mode st -> wf_viewers mode (frame_viewers mode f st).
Proof.
  intros (Hr%valid_id_nonempty & Hv%valid_id_nonempty & Hs) Hwf. unfold frame_viewers.
  assert (wf_viewers mode (bindRoute (vf_route f) (vf_viewer f)
    (acceptSeq (vf_viewer f) (vf_seq f) st).2)) as H by eauto with control.
  destruct (frame_request f); simpl; eauto with control.
Qed.

Lemma relay_viewers_range m n :
  (- 2 ^ 31 <= n < 2 ^ 31)%Z -> (- 2 ^ 31 <= relay_viewers m n < 2 ^ 31)%Z.
Proof. intros. unfold relay_viewers. repeat case_match; try apply i32_range; done. Qed.

Lemma host_after_inv `{!PrimitivesLaws P} e o : host_inv o -> host_inv (host_after e o).
Proof.
  intros [H1 H2 H3 H4]. destruct e as [now|text data| | |pick oks|chunk|p|cols rows| | |code|];
    simpl; try (by split).
  - destruct (conn o); [|by split]. destruct text.
    + destruct (unmarshal_relay_msg data) as [m|]; [|by split].
      split; simpl; [|by apply relay_viewers_range|done..].
      case_decide; [|done]. by apply forgetViewer_wf.
    + destruct (read_frame (v2r o) data) as [f|] eqn:Hf; [|by split].
      unfold frame_after. case_decide; [by split|].
      apply read_frame_exactly in Hf as [Hok _]. split; simpl.
      * by apply frame_viewers_wf.
      * done.
      * by apply request_session_known.
      * by rewrite request_session_state.
  - destruct (conn o); [|by split]. split; simpl; eauto with control. done.
  - split; simpl; [done..|by apply SetSize_known|by rewrite SetSize_state].
  - split; simpl; [by apply (revoke_section_wf _ (vs o))|done..].
  - case_decide as Hw; [|by split]. split; simpl; try done.
Qed.

Lemma same_host_inv o o' : same_host o o' -> host_inv o -> host_inv o'.
Proof.
  intros H [H1 H2 H3 H4]. unfold mode_of in *.
  split; unfold mode_of;
    by rewrite <- ?(host_cfg _ _ H), <- ?(host_vs _ _ H), <- ?(host_viewers _ _ H),
      <- ?(host_sess _ _ H), <- ?(host_exitCode _ _ H).
Qed.

(** A step other than the child's exit leaves the child's state. *)
Lemma step_sess_state e o :
  (forall code, e <> EvExit code) ->
  sess_state (sess (state_of (step e) o)) = sess_state (sess o).
Proof.
  intros He. rewrite <- (host_sess _ _ (step_state e o)). destruct e; simpl; try done;
    try (by destruct (conn o)); try apply SetSize_state; try (by destruct (He code)).
  destruct (conn o); [|done]. destruct text.
  - by destruct (unmarshal_relay_msg data).
  - destruct (read_frame (v2r o) data) as [f|]; [|done]. unfold frame_after.
    case_decide; [done|]. apply request_session_state.
Qed.

(** ** Everything but the sender leaves the numbering and the socket alone *)

Definition not_write (e : effect) : Prop := match e with EWrite _ _ _ => False | _ => True end.

Definition calm {A} (m : M A) : Prop :=
  forall o, wp m (fun _ o' es => outSeq o' = outSeq o /\ Forall not_write es) o.

Lemma calm_bind {A B} (m : M A) (f : A -> M B) : calm m -> (forall a, calm (f a)) -> calm (m ≫= f).
Proof.
  intros Hm Hf o. apply wp_bind. eapply wp_mono; [apply Hm|]. intros a o' es [H1 H2].
  eapply wp_mono; [apply Hf|]. intros b o'' es' [H3 H4]. split; [congruence|by apply Forall_app].
Qed.

Lemma calm_modify f : (forall o, outSeq (f o) = outSeq o) -> calm (modify f).
Proof. intros H o. by apply wp_modify. Qed.

Lemma calm_modify_conn f : calm (modify_conn f).
Proof. apply calm_modify. intros o. by destruct (conn o). Qed.

Lemma calm_with_viewers {A} (f : ViewerState -> A * ViewerState) : calm (with_viewers f).
Proof. intros o. by apply wp_with_viewers. Qed.

Lemma calm_pty cs : calm (tell (EPty <$> cs)).
Proof. intros o. apply wp_tell. split; [done|]. by apply Forall_fmap, Forall_true. Qed.

Lemma calm_enqueue m : calm (enqueue m).
Proof.
  intros o. unfold enqueue. wp_step. apply wp_gets. destruct (conn o); [|done].
  repeat case_match; try done; try by apply calm_modify_conn.
  wp_step. unfold draw_coin, wp at 1. case_match; [|done].
  exact (calm_modify_conn _ (set_coins (S (coins o)) o)).
Qed.

Lemma calm_note s : calm (note s).
Proof. intros o. unfold note. wp_steps; [|done]. split; [done|by constructor]. Qed.

Ltac calm_steps :=
  repeat (lazymatch goal with
  | |- calm (mbind _ _) => apply calm_bind; [|intros ?]
  | |- calm (gets _) => intros ?; by apply wp_gets
  | |- calm (mret _) => intros ?; by apply wp_ret
  | |- calm skip => intros ?; by apply wp_ret
  | |- calm (modify_conn _) => apply calm_modify_conn
  | |- calm (modify_viewers _) => by apply calm_modify
  | |- calm (modify _) => by apply calm_modify
  | |- calm (with_viewers _) => apply calm_with_viewers
  | |- calm (tell (EPty <$> _)) => apply calm_pty
  | |- calm (tell [_]) => intros ?; apply wp_tell; split; [done|by constructor]
  | |- calm (enqueue _) => apply calm_enqueue
  | |- calm (note _) => apply calm_note
  | |- calm (match ?x with _ => _ end) => destruct x
  end).

Lemma reader_msg_calm text data : calm (reader_msg text data).
Proof.
  unfold reader_msg, handleControl, handle_relay_msg, handleBinary, dispatch, sess_write,
    sess_set_size, handleControlRequest, handleControlRelease, emitToViewer. calm_steps.
Qed.

Lemma step_calm e : match e with EvSender _ _ => True | _ => calm (step e) end.
Proof.
  destruct e; simpl; [|apply reader_msg_calm|..];
    unfold serveConn_start, serveConn_end, pumpOutput_chunk, pumpInput_chunk, Resize,
      keepalive_tick, Revoke, exit_watcher, signalExit, shutdown, sess_write, sess_set_size,
      emit, emitText, emitToViewer; calm_steps; done.
Qed.

Lemma step_calm_wp e o :
  (forall pick oks, e <> EvSender pick oks) ->
  outSeq (state_of (step e) o) = outSeq o /\ Forall not_write (effects_of (step e) o).
Proof.
  intros He. pose proof (step_calm e) as H. destruct e; try (exact (state_of_wp _ _ _ (H o))).
  by destruct (He pick oks).
Qed.

(** The numbering stays a uint64. *)
Definition seq_stays (o o' : Orchestrator) : Prop :=
  (0 <= outSeq o < 2 ^ 64)%Z -> (0 <= outSeq o' < 2 ^ 64)%Z.

#[export] Instance seq_stays_preorder : PreOrder seq_stays.
Proof. unfold seq_stays. split; [by intros ?|]. intros x y z; auto. Qed.

Lemma calm_seq_stays {A} (m : M A) : calm m -> preserves seq_stays m.
Proof.
  intros H o. eapply wp_mono; [apply H|]. intros a o' es [Hs _]. unfold seq_stays. by rewrite Hs.
Qed.

Lemma writeMsg_seq_stays ok target kind payload :
  preserves seq_stays (writeMsg ok target kind payload).
Proof.
  unfold writeMsg, writeTargetFrame, writeText. keep_steps.
  - apply keep_modify. intros o _. simpl. apply Z.mod_pos_bound. lia.
  - intros o. unfold draw_rand, wp, seq_stays. done.
Qed.

Lemma write_frames_seq_stays oks ms : preserves seq_stays (write_frames oks ms).
Proof.
  revert oks. induction ms as [|m ms IH]; intros oks; simpl; [keep_steps|].
  destruct (next_ok oks). keep_steps; [apply writeMsg_seq_stays|apply IH].
Qed.

Lemma sender_iter_seq_stays pick oks : preserves seq_stays (sender_iter pick oks).
Proof.
  unfold sender_iter, send_case, sendRepaint, writeText, fail_and_return. keep_steps;
    first [ apply writeMsg_seq_stays | apply write_frames_seq_stays
          | apply calm_seq_stays, calm_modify_conn ].
Qed.

(** ** Preservation *)

Lemma step_conn_inv e o : conn_inv o -> conn_inv (state_of (step e) o).
Proof.
  intros Hinv. destruct (event_cases e) as [[code ->]|[->|[->|(He & Hc1 & Hc2)]]].
  - exact (state_of_wp _ _ _ (exit_watcher_conn code o Hinv)).
  - simpl. unfold serveConn_start, state_of, mbind, M_bind, gets. simpl.
    unfold conn_inv in *. destruct (conn o) eqn:Ho; simpl; rewrite ?Ho; [done|apply newConn_ok].
  - simpl. unfold serveConn_end, state_of, mbind, M_bind, gets. simpl.
    unfold conn_inv in *. destruct (conn o) eqn:Ho; simpl; rewrite ?Ho; simpl; done.
  - assert (conn_evolves o (state_of (step e) o)) as Hev by (by apply step_evolves_wp).
    unfold conn_inv, conn_evolves, exited in *. rewrite step_sess_state by done.
    destruct (conn o), (conn (state_of (step e) o)); naive_solver.
Qed.

Lemma step_idle_inv e o : idle_inv o -> idle_inv (state_of (step e) o).
Proof.
  intros Hinv Hn.
  rewrite <- (host_vs _ _ (step_state e o)), <- (host_viewers _ _ (step_state e o)).
  destruct (conn o) as [c|] eqn:Hc.
  - assert (e = EvDisconnect) as ->.
    { destruct (event_cases e) as [[code ->]|[->|[->|(He & Hc1 & Hc2)]]]; [..|done|]; exfalso.
      - pose proof (state_of_wp _ _ _ (exit_watcher_evolves_none code o)) as Hev.
        cbv beta in Hev. rewrite Hc in Hev. by apply Hev.
      - revert Hn. simpl. unfold serveConn_start, state_of, mbind, M_bind, gets. simpl.
        rewrite Hc. simpl. congruence.
      - pose proof (step_evolves_wp e o He Hc1 Hc2) as Hev. unfold conn_evolves in Hev.
        by rewrite Hc, Hn in Hev. }
    simpl. by rewrite Hc.
  - destruct (Hinv Hc) as (H1 & H2 & H3).
    destruct e; simpl; rewrite ?Hc; simpl; rewrite ?H2; try done; by case_decide.
Qed.

Lemma step_inv `{!PrimitivesLaws P} e o : Inv o -> Inv (state_of (step e) o).
Proof.
  intros [H1 H2 H3 H4]. split.
  - eapply same_host_inv; [apply step_state|]. by apply host_after_inv.
  - by apply step_conn_inv.
  - by apply step_idle_inv.
  - assert ((exists pick oks, e = EvSender pick oks) \/ (forall pick oks, e <> EvSender pick oks))
      as [(pick & oks & ->)|He] by (destruct e; try (by right); left; eauto).
    + exact (state_of_wp _ _ _ (sender_iter_seq_stays pick oks o) H4).
    + rewrite (proj1 (step_calm_wp e o He)). done.
Qed.

Lemma run_inv `{!PrimitivesLaws P} es o : Inv o -> Inv (state_of (run es) o).
Proof. intros H. apply run_invariant; [intros; by apply step_inv|done]. Qed.

Lemma New_inv c s o :
  New c s = Ok o -> size_known s -> sess_state s = None -> Inv o.
Proof.
  unfold New. destruct (NewCipher (R2V (Config_Keys c)) _); [|done].
  simpl. destruct (NewCipher (V2R (Config_Keys c)) _); [|done]. simpl.
  intros <-%(inj Ok) Hs Hst. split; [split| | |]; simpl; try done.
  by rewrite Hst.
Qed.

End Code.

(** ** The pty and the exit code over a run *)

Definition exit_of (e : event) : option Z := match e with EvExit code => Some code | _ => None end.

(** The exit code the child ended with: the first one reported. *)
Definition first_exit (es : list event) : option Z := head (omap exit_of es).

Definition is_shutdown (e : event) : bool := match e with EvShutdown => true | _ => false end.

(** How often the pty is closed, and the child told to terminate. *)
Definition closes (cs : list pty_call) : nat := length (filter (fun c => c = PtyClose) cs).
Definition sigterms (cs : list pty_call) : nat := length (filter (fun c => c = PtySigterm) cs).

Section Runs.
Context `{P : Primitives} `{E : Env}.

Lemma run_sess_state es o :
  sess_state (sess (state_of (run es) o))
  = match sess_state (sess o) with Some c => Some c | None => first_exit es end.
Proof.
  revert o. induction es as [|e es IH]; intros o; [by destruct (sess_state (sess o)) eqn:Hs|].
  rewrite run_cons_state, IH.
  destruct (event_cases e) as [[code ->]|Hne].
  - rewrite <- (host_sess _ _ (step_state (EvExit code) o)). simpl.
    destruct (sess_state (sess o)) eqn:Hs; simpl; by rewrite ?Hs.
  - assert (forall code, e <> EvExit code) as He
      by (intros code ->; destruct Hne as [?|[?|[Hne _]]]; [done..|by destruct (Hne code)]).
    rewrite step_sess_state by done. destruct (sess_state (sess o)); [done|].
    unfold first_exit. simpl. destruct (exit_of e) eqn:Hx; [|done]. destruct e; try done.
    by destruct (He code).
Qed.

(** Only a shutdown closes the pty. *)
Lemma step_closes e o :
  closes (step_calls e o) = (if is_shutdown e && negb (terminated o) then 1 else 0) /\
  sigterms (step_calls e o) = (if is_shutdown e && negb (terminated o) then 1 else 0).
Proof.
  assert (forall s cols rows, closes (SetSize s cols rows).2 = 0 /\ sigterms (SetSize s cols rows).2 = 0)
    as Hsize by (intros; unfold SetSize; by case_decide).
  destruct e as [now|text data| | |pick oks|chunk|p|cols rows| | |code|]; simpl; try done.
  - destruct text; [done|]. destruct (conn o); [|done].
    destruct (read_frame (v2r o) data) as [f|]; [|done]. case_decide; [done|].
    destruct (frame_request f); simpl; try done; by case_match.
  - by case_match.
  - by destruct (terminated o).
Qed.

Lemma step_terminated e o :
  terminated (state_of (step e) o) = terminated o || is_shutdown e.
Proof.
  rewrite <- (host_terminated _ _ (step_state e o)).
  destruct e as [now|text data| | |pick oks|chunk|p|cols rows| | |code|]; simpl;
    rewrite ?orb_false_r, ?orb_true_r; try done; try (by destruct (conn o)).
  - destruct (conn o); [|done]. destruct text.
    + by destruct (unmarshal_relay_msg data).
    + destruct (read_frame (v2r o) data); [|done]. unfold frame_after. by case_decide.
  - by case_decide.
Qed.

Lemma run_terminated es o :
  terminated (state_of (run es) o) = terminated o || existsb is_shutdown es.
Proof.
  revert o. induction es as [|e es IH]; intros o; [by rewrite orb_false_r|].
  by rewrite run_cons_state, IH, step_terminated, <- orb_assoc.
Qed.

Lemma run_closes es o :
  let n := if existsb is_shutdown es && negb (terminated o) then 1 else 0 in
  closes (pty_calls (effects_of (run es) o)) = n /\
  sigterms (pty_calls (effects_of (run es) o)) = n.
Proof.
  revert o. induction es as [|e es IH]; intros o; [done|].
  rewrite run_cons_effects, pty_calls_app, step_pty. unfold closes, sigterms in *.
  rewrite !filter_app, !length_app.
  destruct (IH (state_of (step e) o)) as [-> ->].
  destruct (step_closes e o) as [H1 H2]. unfold closes, sigterms in *. rewrite H1, H2.
  rewrite step_terminated. simpl.
  by destruct (is_shutdown e), (terminated o), (existsb is_shutdown es).
Qed.

End Runs.

Lemma New_sess c s o `{P : Primitives} : New c s = Ok o -> sess o = s /\ exitCode o = (-1)%Z /\ terminated o = false.
Proof.
  unfold New. destruct (NewCipher (R2V (Config_Keys c)) _); [|done].
  simpl. destruct (NewCipher (V2R (Config_Keys c)) _); [|done]. simpl. by intros <-%(inj Ok).
Qed.

(** The exit code a fresh orchestrator has after any events. *)
Lemma run_exitCode `{E : Env} c s o es :
  New c s = Ok o -> size_known s -> sess_state s = None ->
  exitCode (state_of (run es) o) = default (-1)%Z (i32 <$> first_exit es).
Proof.
  intros H1 H2 H3. rewrite (inv_exit _ (inv_host _ (run_inv es o (New_inv c s o H1 H2 H3)))).
  rewrite run_sess_state. destruct (New_sess c s o H1) as [-> _]. by rewrite H3.
Qed.

(** ** Properties *)

(** Every state between handlers is well formed.  From a fresh orchestrator, after
    any events, each run as one step: the viewer state obeys the host's policy, the queues hold at
    most 256 entries, only the farewell is queued as plain text, a pending drop
    mark always has a sealed message queued behind it, a connection whose
    sender stopped stays stopped, nobody is counted or in control without a
    connection, the terminal size is unset or has two non-zero sides, and the
    sequence counter is a uint64. *)
Theorem reachable_states_are_well_formed `{E : Env} c s o es :
  New c s = Ok o -> size_known s -> sess_state s = None -> Inv (state_of (run es) o).
Proof. intros H1 H2 H3. apply run_inv. by apply (New_inv c s). Qed.

Lemma reachable_states_are_well_formed_witness :
  Inv (state_of (run demo_take) (demo ControlOnce)).
Proof.
  apply (reachable_states_are_well_formed (demo_cfg ControlOnce) demo_session (demo ControlOnce)
    demo_take (New_demo ControlOnce)); [by right|done].
Defined.

(** The exit code the program returns: -1 as long as the child has not
    been reaped, and from then on, through any further events, the child's
    exit code as an int32. *)
Theorem exit_code_is_the_childs `{E : Env} c s o es :
  New c s = Ok o -> size_known s -> sess_state s = None ->
  exitCode (state_of (run es) o) = default (-1)%Z (i32 <$> first_exit es).
Proof.
  apply run_exitCode.
Qed.

Lemma exit_code_is_the_childs_witness :
  exitCode (state_of (run [EvConnect; EvExit 3; EvShutdown; EvExit 4]) (demo ControlAuto)) = 3%Z.
Proof.
  apply (exit_code_is_the_childs (demo_cfg ControlAuto) demo_session (demo ControlAuto)
    [EvConnect; EvExit 3; EvShutdown; EvExit 4] (New_demo ControlAuto)); [by right|done].
Defined.

(** The pty is torn down exactly once: over any run with a shutdown in it,
    however many watchers call it, the pty is closed once and the child gets
    one SIGTERM; without a shutdown, never. *)
Theorem pty_is_torn_down_once `{E : Env} c s o es :
  New c s = Ok o ->
  closes (pty_calls (effects_of (run es) o)) = (if existsb is_shutdown es then 1 else 0) /\
  sigterms (pty_calls (effects_of (run es) o)) = (if existsb is_shutdown es then 1 else 0).
Proof.
  intros H1. destruct (New_sess c s o H1) as (_ & _ & Ht).
  pose proof (run_closes es o) as H. by rewrite Ht, andb_true_r in H.
Qed.

Lemma pty_is_torn_down_once_witness :
  closes (pty_calls (effects_of (run [EvShutdown; EvExit 0; EvShutdown]) (demo ControlAuto))) = 1.
Proof. apply (pty_is_torn_down_once _ _ _ [EvShutdown; EvExit 0; EvShutdown] (New_demo ControlAuto)). Defined.
