(* ===== verification/Outbound.v ===== *)
(** * Outbound: what the relay socket receives

    The theorems about the outgoing half: the sender writes the queue in order
    with the pending repaint in front, what the repaint of a joining viewer
    says, every sealed frame carries its own sequence number; and what goes
    wrong around repaints and full queues. *)
From S2P Require Import Prelude Wire Encodings Crypto StdCrypto Ring Screen Session.
From S2P Require Import Control Json Orch Sender Handlers Traces Access Refine.
From S2P Require Import Scenario Authority Invariant.
From Stdlib Require Import Strings.Byte.

(** ** The wire form of messages *)

(** The socket write of a sealed frame: binary when broadcast, wrapped for the
    relay when addressed. *)
Definition write_effect (ok : bool) (target frame : bytes) : effect :=
  if decide (target <> []) then EWrite true (to_viewer_text target frame) ok
  else EWrite false frame ok.

(** Effects whose sealed frames are numbered: every frame on the socket is the
    farewell text, or was sealed under [c] with the number after the last one
    used, from [lo] up to [hi].  A number whose nonce could not be drawn is
    skipped, so numbers only move up. *)
Inductive numbered `{P : Primitives} (c : Cipher) : Z -> Z -> list effect -> Prop :=
| numbered_nil n : numbered c n n []
| numbered_gap n hi es : numbered c (n + 1) hi es -> numbered c n hi es
| numbered_sealed n hi ok target nonce kind payload es :
    length nonce = nonceLen -> (0 < n + 1 < 2 ^ 64)%Z -> numbered c (n + 1) hi es ->
    numbered c n hi
      (write_effect ok target (sealWithNonce c nonce (n + 1) kind payload) :: es)
| numbered_bye n hi ok es :
    numbered c n hi es -> numbered c n hi (EWrite true byeEnded ok :: es)
| numbered_other n hi e es : not_write e -> numbered c n hi es -> numbered c n hi (e :: es).

(** The messages a CaseSend run writes for a queue: the pending repaint goes
    out in front of the first sealed message. *)
Fixpoint with_repaint (repaint : list outMsg) (dropped : bool) (q : list outMsg) : list outMsg :=
  match q with
  | [] => []
  | m :: q =>
    if om_text m then m :: with_repaint repaint dropped q
    else (if dropped then repaint else []) ++ m :: with_repaint repaint false q
  end.

Arguments repaintFrames : simpl never.

(** The message of a chunk of output. *)
Definition output_msg (chunk : bytes) : outMsg := mkOutMsg KindOutput chunk [] false.

Section Code.
Context `{P : Primitives} `{E : Env}.

(** The writes for a list of messages: texts as they are, the others sealed
    with the next sequence number and nonce. *)
Fixpoint wire_of (c : Cipher) (seq : Z) (draw : nat) (ms : list outMsg) : list effect :=
  match ms with
  | [] => []
  | m :: ms =>
    if om_text m then EWrite true (om_payload m) true :: wire_of c seq draw ms
    else
      write_effect true (om_target m)
        (sealWithNonce c (default [] (rand_read draw)) (u64 (seq + 1)) (om_kind m) (om_payload m))
      :: wire_of c (u64 (seq + 1)) (S draw) ms
  end.

Definition sealed_count (ms : list outMsg) : nat := length (filter (fun m => om_text m = false) ms).

(** The numbering after some sealed frames. *)
Fixpoint seq_after (n : nat) (seq : Z) : Z :=
  match n with O => seq | S n => seq_after n (u64 (seq + 1)) end.

(** The state once some sealed frames are out. *)
Definition sent (n : nat) (o : Orchestrator) : Orchestrator :=
  set_rands (rands o + n) (set_outSeq (seq_after n (outSeq o)) o).

Lemma sent_0 o : sent 0 o = o.
Proof. unfold sent. destruct o. simpl. by rewrite Nat.add_0_r. Qed.

Lemma sent_sent n k o : sent k (sent n o) = sent (n + k) o.
Proof.
  unfold sent, set_rands, set_outSeq. simpl. f_equal; [|lia].
  generalize (outSeq o). induction n as [|n IH]; intros z; [done|]. apply IH.
Qed.

Lemma sent_set_conn n x o : sent n (set_conn x o) = set_conn x (sent n o).
Proof. done. Qed.

(** ** The writing methods, as equations *)

Lemma writeMsg_eq ok m o :
  writeMsg ok (om_target m) (om_kind m) (om_payload m) o =
  match rand_read (rands o) with
  | None => (false, sent 1 o, [])
  | Some nonce =>
    (ok, sent 1 o, [write_effect ok (om_target m)
       (sealWithNonce (r2v o) nonce (u64 (outSeq o + 1)) (om_kind m) (om_payload m))])
  end.
Proof.
  unfold writeMsg, sent, mbind, M_bind, modify, gets, draw_rand, Seal. simpl.
  replace (rands o + 1) with (S (rands o)) by lia.
  destruct (rand_read (rands o)) as [nonce|]; simpl; [|done].
  unfold write_effect. by case_decide.
Qed.

(** When nothing fails, a list of sealed messages goes out whole. *)
Lemma write_frames_eq ms o :
  (forall n, is_Some (rand_read n)) -> Forall sealed ms ->
  write_frames [] ms o
  = (true, [], sent (length ms) o, wire_of (r2v o) (outSeq o) (rands o) ms).
Proof.
  intros Hr Hms. revert o. induction Hms as [|m ms Hm _ IH]; intros o; simpl.
  { by rewrite sent_0. }
  unfold mbind, M_bind. rewrite writeMsg_eq. destruct (Hr (rands o)) as [nonce Hn].
  rewrite Hn, IH. simpl. rewrite sent_sent, Hm.
  simpl. by rewrite Nat.add_1_r.
Qed.

Lemma sealed_count_sealed ms : Forall sealed ms -> sealed_count ms = length ms.
Proof. intros H. unfold sealed_count. by rewrite filter_Forall_id. Qed.

Lemma sealed_count_app ms ms' : sealed_count (ms ++ ms') = sealed_count ms + sealed_count ms'.
Proof. unfold sealed_count. by rewrite filter_app, length_app. Qed.

Lemma sealed_count_cons m ms :
  sealed_count (m :: ms) = (if om_text m then 0 else 1) + sealed_count ms.
Proof. unfold sealed_count. rewrite filter_cons. by destruct (om_text m). Qed.

Lemma wire_of_app c seq draw ms ms' :
  wire_of c seq draw (ms ++ ms')
  = wire_of c seq draw ms ++ wire_of c (seq_after (sealed_count ms) seq) (draw + sealed_count ms) ms'.
Proof.
  revert seq draw. induction ms as [|m ms IH]; intros seq draw; simpl app.
  { by rewrite Nat.add_0_r. }
  rewrite sealed_count_cons. simpl. destruct (om_text m); rewrite IH; simpl; [done|].
  by rewrite Nat.add_succ_r.
Qed.

Lemma repaintFrames_sealed v o : Forall sealed (repaintFrames v o).
Proof. unfold repaintFrames, Size. case_decide; repeat constructor. Qed.

Lemma repaintFrames_sent n v o : repaintFrames v (sent n o) = repaintFrames v o.
Proof. done. Qed.

(** ** The sender on its queue *)

Lemma sendRepaint_eq oks v o : sendRepaint oks v o = write_frames oks (repaintFrames v o) o.
Proof.
  unfold sendRepaint, mbind, M_bind, gets. by destruct (write_frames _ _ o) as [[r o'] es].
Qed.

Lemma send_case_eq m c o :
  (forall n, is_Some (rand_read n)) -> conn o = Some c ->
  let ms := with_repaint (repaintFrames [] o) (c_dropped c) [m] in
  send_case [] m o
  = (tt, sent (sealed_count ms) (set_conn (Some (if om_text m then c else set_dropped false c)) o),
      wire_of (r2v o) (outSeq o) (rands o) ms).
Proof.
  intros Hr Hc ms. subst ms. unfold send_case. simpl with_repaint.
  destruct (om_text m) eqn:Hm.
  { rewrite sealed_count_cons, Hm. simpl. rewrite Hm, sent_0, <- Hc. by destruct o. }
  set (o1 := set_conn (Some (set_dropped false c)) o).
  assert (modify_conn (set_dropped false) o = (tt, o1, [])) as Hmod
    by (unfold modify_conn, modify; by rewrite Hc).
  assert (forall k, (x ← writeMsg true (om_target m) (om_kind m) (om_payload m);
                     if x : bool then skip else fail_and_return) (sent k o1)
    = (tt, sent (k + 1) o1, wire_of (r2v o) (seq_after k (outSeq o)) (rands o + k) [m])) as Hlast.
  { intros k. destruct (Hr (rands o + k)) as [nonce Hn]. eapply bind_eval.
    - rewrite writeMsg_eq. simpl. rewrite Hn, sent_sent. reflexivity.
    - reflexivity.
    - simpl. by rewrite Hn, Hm. }
  rewrite sealed_count_app, sealed_count_cons, Hm, Nat.add_0_r.
  eapply bind_eval; [done| |done]. eapply bind_eval; [exact Hmod| |done]. rewrite Hc. simpl.
  destruct (c_dropped c).
  - assert (Forall sealed (repaintFrames [] o1)) as Hrp by apply repaintFrames_sealed.
    rewrite sealed_count_sealed, wire_of_app, sealed_count_sealed by done.
    eapply bind_eval;
      [rewrite sendRepaint_eq; by apply write_frames_eq|apply (Hlast (length _))|done].
  - eapply bind_eval; [done| |done]. simpl. rewrite <- (sent_0 o1) at 1.
    rewrite (Hlast 0). simpl. by rewrite Nat.add_0_r.
Qed.

Lemma sender_send_eq m q c o :
  (forall n, is_Some (rand_read n)) -> conn o = Some c -> c_running c = true -> c_send c = m :: q ->
  let ms := with_repaint (repaintFrames [] o) (c_dropped c) [m] in
  let c' := set_send q (if om_text m then c else set_dropped false c) in
  sender_iter CaseSend [] o
  = (tt, sent (sealed_count ms) (set_conn (Some c') o), wire_of (r2v o) (outSeq o) (rands o) ms).
Proof.
  intros Hr Hc Hrun Hq ms c'. subst ms c'. unfold sender_iter.
  eapply bind_eval; [done| |done]. rewrite Hc, Hrun, Hq.
  eapply bind_eval; [unfold modify_conn, modify; rewrite Hc; reflexivity| |done].
  rewrite (send_case_eq m (set_send q c)) by done.
  do 2 f_equal. by destruct (om_text m).
Qed.

Lemma sender_join_eq v j c o :
  (forall n, is_Some (rand_read n)) -> conn o = Some c -> c_running c = true -> c_join c = v :: j ->
  sender_iter CaseJoin [] o
  = (tt, sent (length (repaintFrames v o)) (set_conn (Some (set_join j c)) o),
      wire_of (r2v o) (outSeq o) (rands o) (repaintFrames v o)).
Proof.
  intros Hr Hc Hrun Hj. unfold sender_iter.
  eapply bind_eval; [done| |done]. rewrite Hc, Hrun, Hj.
  eapply bind_eval; [unfold modify_conn, modify; rewrite Hc; reflexivity| |done].
  eapply bind_eval;
    [rewrite sendRepaint_eq; apply write_frames_eq; [done|apply repaintFrames_sealed]
    |reflexivity|apply app_nil_r].
Qed.

(** The connection once its queue is drained. *)
Definition drained (c : connState) : connState :=
  set_send [] (set_dropped (c_dropped c && forallb om_text (c_send c)) c).

Lemma with_repaint_cons rp d m q :
  with_repaint rp d (m :: q)
  = with_repaint rp d [m] ++ with_repaint rp (if om_text m then d else false) q.
Proof. simpl. destruct (om_text m); [done|]. by rewrite <- (assoc_L (++)). Qed.

Lemma drain_queue q c o :
  (forall n, is_Some (rand_read n)) -> conn o = Some c -> c_running c = true -> c_send c = q ->
  let ms := with_repaint (repaintFrames [] o) (c_dropped c) q in
  run (replicate (length q) (EvSender CaseSend [])) o
  = (tt, sent (sealed_count ms) (set_conn (Some (drained c)) o),
      wire_of (r2v o) (outSeq o) (rands o) ms).
Proof.
  intros Hr. revert c o. induction q as [|m q IH]; intros c o Hc Hrun Hq ms; subst ms.
  { simpl. rewrite sent_0. unfold skip, mret, M_ret. do 2 f_equal.
    unfold drained. rewrite Hq, andb_true_r.
    replace (set_send [] (set_dropped (c_dropped c) c)) with c
      by (destruct c; simpl in *; by subst). rewrite <- Hc. by destruct o. }
  rewrite with_repaint_cons, sealed_count_app, wire_of_app.
  change (replicate (length (m :: q)) (EvSender CaseSend []))
    with (EvSender CaseSend [] :: replicate (length q) (EvSender CaseSend [])).
  simpl run. eapply bind_eval; [by apply (sender_send_eq m q c)| |done].
  set (n := sealed_count _) at 1 2. set (c' := set_send q _).
  rewrite (IH c') by (subst c'; destruct (om_text m); done).
  assert (c_dropped c' = if om_text m then c_dropped c else false) as Hd
    by (subst c'; by destruct (om_text m)).
  assert (drained c' = drained c) as Hdr.
  { unfold drained. rewrite Hd, Hq. subst c'. simpl.
    by destruct (om_text m), (c_dropped c). }
  rewrite Hd, Hdr. cbv zeta. rewrite <- sent_set_conn, sent_sent. done.
Qed.

(** ** Numbering *)

Lemma numbered_app c lo mid hi es es' :
  numbered c lo mid es -> numbered c mid hi es' -> numbered c lo hi (es ++ es').
Proof.
  induction 1; intros; simpl; [done|apply numbered_gap|apply numbered_sealed
    |apply numbered_bye|apply numbered_other]; auto.
Qed.

Lemma numbered_quiet c n es : Forall not_write es -> numbered c n n es.
Proof. induction 1; constructor; done. Qed.

(** A computation that numbers at most [k] frames. *)
Definition numbers (k : Z) {A} (m : M A) : Prop := forall o,
  (0 <= outSeq o)%Z -> (outSeq o + k < 2 ^ 64)%Z ->
  wp m (fun _ o' es => r2v o' = r2v o /\ (outSeq o <= outSeq o' <= outSeq o + k)%Z /\
    numbered (r2v o) (outSeq o) (outSeq o') es) o.

Lemma numbers_bind k k' {A B} (m : M A) (f : A -> M B) :
  (0 <= k')%Z -> numbers k m -> (forall a, numbers k' (f a)) -> numbers (k + k') (m ≫= f).
Proof.
  intros Hk Hm Hf o H0 Hlt. apply wp_bind. eapply wp_mono; [apply Hm; lia|].
  intros a o1 es (Hr & Hs & Hn). eapply wp_mono; [apply Hf; lia|].
  intros b o2 es' (Hr' & Hs' & Hn'). cbv beta. split_and!; [congruence|lia..|].
  eapply numbered_app; [done|]. by rewrite <- Hr.
Qed.

Lemma numbers_mono k k' {A} (m : M A) : (k <= k')%Z -> numbers k m -> numbers k' m.
Proof.
  intros Hk Hm o H0 Hlt. eapply wp_mono; [apply Hm; lia|]. intros a o' es (H1 & H2 & H3).
  split_and!; [done|lia..|done].
Qed.

Lemma numbers_ret {A} (a : A) : numbers 0 (mret a).
Proof. intros o H0 _. split_and!; [done|lia..|constructor]. Qed.

Lemma numbers_gets {A} (f : Orchestrator -> A) : numbers 0 (gets f).
Proof. intros o H0 _. split_and!; [done|lia..|constructor]. Qed.

Lemma numbers_modify_conn f : numbers 0 (modify_conn f).
Proof. intros o H0 _. apply wp_modify. destruct (conn o); split_and!; simpl; (done || lia || constructor). Qed.

Lemma numbers_bye ok : numbers 0 (writeText ok byeEnded).
Proof. intros o H0 _. unfold writeText. wp_steps. split_and!; [done|lia..|]. simpl. apply numbered_bye, numbered_nil. Qed.

Lemma writeMsg_numbers `{!EnvLaws E} ok m :
  numbers 1 (writeMsg ok (om_target m) (om_kind m) (om_payload m)).
Proof.
  intros o H0 Hlt. unfold wp. rewrite writeMsg_eq. unfold sent. simpl.
  assert (u64 (outSeq o + 1) = outSeq o + 1)%Z as -> by (apply Z.mod_small; lia).
  destruct (rand_read (rands o)) as [nonce|] eqn:Hn; simpl; (split_and!; [done|lia..|]).
  - apply numbered_sealed; [by eapply rand_read_length|lia|constructor].
  - apply numbered_gap, numbered_nil.
Qed.

Lemma write_frames_numbers `{!EnvLaws E} oks ms :
  numbers (Z.of_nat (length ms)) (write_frames oks ms).
Proof.
  revert oks. induction ms as [|m ms IH]; intros oks; simpl; [apply numbers_ret|].
  destruct (next_ok oks) as [ok oks'].
  replace (Z.of_nat (S (length ms))) with (1 + Z.of_nat (length ms))%Z by lia.
  apply numbers_bind; [lia|apply writeMsg_numbers|]. intros []; [apply IH|].
  apply (numbers_mono 0); [lia|apply numbers_ret].
Qed.

Lemma repaintFrames_length v o : length (repaintFrames v o) = if decide (v = []) then 2 else 3.
Proof. unfold repaintFrames, Size. repeat case_decide; done. Qed.

Lemma sendRepaint_numbers `{!EnvLaws E} oks v :
  numbers (if decide (v = []) then 2 else 3) (sendRepaint oks v).
Proof.
  intros o H0 Hlt. unfold wp. rewrite sendRepaint_eq.
  refine (numbers_mono _ _ _ _ (write_frames_numbers oks (repaintFrames v o)) o H0 Hlt).
  rewrite repaintFrames_length. by case_decide.
Qed.

(** One iteration of the sender numbers at most three frames. *)
Lemma sender_iter_numbers `{!EnvLaws E} pick oks o :
  conn_inv o -> (0 <= outSeq o)%Z -> (outSeq o + 3 < 2 ^ 64)%Z ->
  wp (sender_iter pick oks) (fun _ o' es => r2v o' = r2v o /\
    (outSeq o <= outSeq o' <= outSeq o + 3)%Z /\
    numbered (r2v o) (outSeq o) (outSeq o') es) o.
Proof.
  intros Hinv H0 Hlt. unfold conn_inv in Hinv.
  assert (forall A (m : M A), numbers 0 m -> numbers 3 m) as Hz
    by (intros A m; apply numbers_mono; lia).
  assert (numbers 0 skip) as Hskip by apply numbers_ret.
  assert (forall b : bool, numbers 0 (if b then skip else fail_and_return)) as Hend
    by (intros []; [done|apply numbers_modify_conn]).
  unfold sender_iter. wp_step. apply wp_gets.
  destruct (conn o) as [c|] eqn:Hc; [|by apply Hz].
  destruct (c_running c); [|by apply Hz].
  destruct pick; [by (apply Hz; [apply numbers_modify_conn|..])| | |].
  - destruct (c_done c); [by (apply Hz; [apply numbers_modify_conn|..])|by apply Hz].
  - destruct (c_join c) as [|v j]; [by apply Hz|].
    apply (numbers_mono (0 + ((if decide (v = []) then 2 else 3) + 0)));
      [case_decide; lia| |done..].
    apply numbers_bind; [case_decide; lia|apply numbers_modify_conn|intros _].
    apply numbers_bind; [lia|apply sendRepaint_numbers|]. intros [b oks']. apply Hend.
  - destruct (c_send c) as [|m q] eqn:Hq; [by apply Hz|].
    apply (numbers_mono (0 + 3)); [lia| |done..].
    apply numbers_bind; [lia|apply numbers_modify_conn|intros _]. unfold send_case.
    destruct (om_text m) eqn:Hm.
    + assert (m = bye_message) as ->.
      { pose proof (co_bye _ _ Hinv) as Hb. rewrite Hq in Hb. inversion Hb. auto. }
      apply Hz. apply (numbers_bind 0 0); [lia|apply numbers_bye|apply Hend].
    + apply (numbers_bind 0 3); [lia|apply numbers_gets|intros dropped].
      apply (numbers_bind 0 3); [lia|apply numbers_modify_conn|intros _].
      apply (numbers_bind 2 1); [lia| |].
      * destruct dropped; [apply (sendRepaint_numbers oks [])|].
        apply (numbers_mono 0); [lia|apply numbers_ret].
      * intros [[] oks']; simpl.
        -- apply (numbers_bind 1 0); [lia|apply writeMsg_numbers|apply Hend].
        -- apply (numbers_mono 0); [lia|apply numbers_modify_conn].
Qed.

Lemma run_numbers `{!EnvLaws E} `{!PrimitivesLaws P} es o :
  Inv o -> (outSeq o + 3 * Z.of_nat (length es) < 2 ^ 64)%Z ->
  (outSeq o <= outSeq (state_of (run es) o) <= outSeq o + 3 * Z.of_nat (length es))%Z /\
  numbered (r2v o) (outSeq o) (outSeq (state_of (run es) o)) (effects_of (run es) o).
Proof.
  revert o. induction es as [|e es IH]; intros o Hinv Hlt.
  { split; [simpl; unfold state_of; simpl; lia|apply numbered_nil]. }
  simpl length in *. pose proof (inv_seq _ Hinv) as H0.
  assert ((outSeq o <= outSeq (state_of (step e) o) <= outSeq o + 3)%Z /\
    numbered (r2v o) (outSeq o) (outSeq (state_of (step e) o)) (effects_of (step e) o))
    as [Hs Hn].
  { assert ((exists pick oks, e = EvSender pick oks) \/ (forall pick oks, e <> EvSender pick oks))
      as [(pick & oks & ->)|He] by (destruct e; try (by right); left; eauto).
    - apply (state_of_wp _ _ _ (sender_iter_numbers pick oks o (inv_conn _ Hinv) ltac:(lia) ltac:(lia))).
    - destruct (step_calm_wp e o He) as [-> Hw]. split; [lia|]. by apply numbered_quiet. }
  destruct (IH (state_of (step e) o)) as [Hs' Hn']; [by apply step_inv|lia|].
  rewrite run_cons_state, run_cons_effects. split; [lia|].
  eapply numbered_app; [done|]. by rewrite (proj1 (proj2 (step_config e o))) in Hn'.
Qed.

End Code.

(** ** What the ring holds in a run *)

Lemma queueing_spec `{P : Primitives} `{E : Env} m o c :
  conn o = Some c -> c_done c = false ->
  enqueue m o
  = (tt, set_conn (Some (if decide (length (c_send c) < sendQueue) then push_send m c
                         else set_dropped true c)) o, []).
Proof.
  intros Hc Hd. unfold enqueue, mbind, M_bind, gets. rewrite Hc, Hd.
  case_bool_decide; [rewrite decide_True by done|rewrite decide_False by done];
    unfold modify_conn, modify; by rewrite Hc.
Qed.

Definition output_of (e : event) : option bytes :=
  match e with EvOutput chunk => Some chunk | _ => None end.

(** Everything the command wrote, chunk by chunk. *)
Definition outputs (es : list event) : list bytes := omap output_of es.

Section Runs.
Context `{P : Primitives} `{E : Env}.

Lemma step_ring e o :
  ring (state_of (step e) o)
  = match output_of e with Some chunk => (Ring_Write (ring o) chunk).1 | None => ring o end.
Proof.
  rewrite <- (host_ring _ _ (step_state e o)).
  destruct e as [now|text data| | |pick oks|chunk|p|cols rows| | |code|]; simpl; try done;
    try (by destruct (conn o)); try by case_decide.
  destruct (conn o); [|done]. destruct text.
  - by destruct (unmarshal_relay_msg data).
  - destruct (read_frame (v2r o) data); [|done]. unfold frame_after. by case_decide.
Qed.

Lemma run_ring es o : ring (state_of (run es) o) = write_all (ring o) (outputs es).
Proof.
  revert o. induction es as [|e es IH]; intros o; [done|].
  rewrite run_cons_state, IH, step_ring. unfold outputs. simpl. by destruct (output_of e).
Qed.

Lemma New_fields c s o :
  New c s = Ok o ->
  r2v o = mkCipher (R2V (Config_Keys c)) (Config_SessionID c) /\ ring o = NewRing ringBytes /\
  outSeq o = 0%Z.
Proof.
  assert (forall k a ci, NewCipher k a = Ok ci -> ci = mkCipher k a) as Hok
    by (intros k a ci; unfold NewCipher; case_decide; [by intros <-%(inj Ok)|done]).
  unfold New. destruct (NewCipher (R2V (Config_Keys c)) _) eqn:H1; [|done].
  simpl. destruct (NewCipher (V2R (Config_Keys c)) _); [|done]. simpl. intros <-%(inj Ok).
  split; [by apply Hok|done].
Qed.

Lemma with_repaint_false rp q : with_repaint rp false q = q.
Proof. induction q as [|m q IH]; simpl; [done|]. rewrite IH. by destruct (om_text m). Qed.

End Runs.

(** ** Properties *)

(** C6. Every sealed frame on the socket has its own sequence number.  From a
    fresh orchestrator, over any run of fewer than 2^64 / 3 events, with any
    write failures and any failed nonces: each frame written is the farewell
    text or is sealed under the runner-to-viewer key and this session's id
    with a number above all those before it, starting at 1, up to the counter. *)
Theorem outgoing_frames_are_numbered `{E : Env} `{!EnvLaws E} c s o es :
  New c s = Ok o -> size_known s -> sess_state s = None ->
  (3 * Z.of_nat (length es) < 2 ^ 64)%Z ->
  numbered (mkCipher (R2V (Config_Keys c)) (Config_SessionID c)) 0
    (outSeq (state_of (run es) o)) (effects_of (run es) o).
Proof.
  intros H1 H2 H3 Hlt. destruct (New_fields c s o H1) as (<- & _ & Hs).
  destruct (run_numbers es o (New_inv c s o H1 H2 H3)) as [_ Hn]; [lia|]. by rewrite Hs in Hn.
Qed.

Lemma outgoing_frames_are_numbered_witness :
  let es := demo_types ++ [EvSender CaseSend []] in
  numbered (mkCipher (R2V (Config_Keys (demo_cfg ControlAuto))) vector_id) 0
    (outSeq (state_of (run es) (demo ControlAuto))) (effects_of (run es) (demo ControlAuto)).
Proof.
  apply (outgoing_frames_are_numbered (demo_cfg ControlAuto) demo_session (demo ControlAuto)
    (demo_types ++ [EvSender CaseSend []]) (New_demo ControlAuto)); [by right|done|done].
Defined.

(** Queueing never waits: without a connection it does nothing; with room
    in the queue the message goes to its end; with a full queue the message is
    dropped and only the drop mark is set; on a connection already failed it is
    queued or ignored.  Nothing else of the state changes, and nothing is
    written or printed. *)
Theorem queueing_never_blocks `{E : Env} m o :
  match conn o with
  | None => enqueue m o = (tt, o, [])
  | Some c =>
    (length (c_send c) < sendQueue -> c_done c = false ->
       enqueue m o = (tt, set_conn (Some (push_send m c)) o, [])) /\
    (sendQueue <= length (c_send c) -> c_done c = false ->
       enqueue m o = (tt, set_conn (Some (set_dropped true c)) o, [])) /\
    (c_done c = true ->
       exists n c', enqueue m o = (tt, set_coins n (set_conn (Some c') o), []) /\
         (c' = c \/ c' = push_send m c /\ length (c_send c) < sendQueue))
  end.
Proof.
  destruct (conn o) as [c|] eqn:Hc;
    [|by unfold enqueue, mbind, M_bind, gets; rewrite Hc]. split_and!.
  - intros Hlen Hd. by rewrite (queueing_spec _ _ c), decide_True.
  - intros Hlen Hd. rewrite (queueing_spec _ _ c), decide_False by (done || lia). done.
  - intros Hd. unfold enqueue, mbind, M_bind, gets. rewrite Hc, Hd.
    assert (forall n, set_coins n (set_conn (Some c) o) = set_coins n o) as Ho
      by (intros n; rewrite <- Hc; by destruct o).
    case_bool_decide as Hlen.
    + unfold draw_coin. exists (S (coins o)). destruct (coin (coins o)).
      * exists (push_send m c). unfold modify_conn, modify. simpl. rewrite Hc. auto.
      * exists c. rewrite Ho. auto.
    + exists (coins o), c. rewrite Ho. split; [by destruct o|by left].
Qed.

(** C16. The sender writes the queue in order.  Draining a connection's queue,
    with no failures, writes exactly its messages, each once, oldest first,
    the texts as they are and the others sealed with consecutive numbers; if
    output had been dropped, the repaint of every viewer (HELLO, then the
    screen as of now) goes out in front of the first sealed message.  The
    queue ends up empty. *)
Theorem queue_is_written_in_order `{E : Env} c o :
  (forall n, is_Some (rand_read n)) -> conn o = Some c -> c_running c = true ->
  let ms := with_repaint (repaintFrames [] o) (c_dropped c) (c_send c) in
  let r := run (replicate (length (c_send c)) (EvSender CaseSend [])) in
  effects_of r o = wire_of (r2v o) (outSeq o) (rands o) ms /\
  conn (state_of r o) = Some (drained c).
Proof.
  intros Hr Hc Hrun ms r. unfold effects_of, state_of, r.
  rewrite (drain_queue (c_send c) c) by done. done.
Qed.

Lemma queue_is_written_in_order_witness :
  let o := demo_owned ControlAuto in
  let c := default newConn (conn o) in
  conn (state_of (run (replicate (length (c_send c)) (EvSender CaseSend []))) o) = Some (drained c).
Proof.
  refine (proj2 (queue_is_written_in_order (default newConn (conn (demo_owned ControlAuto)))
    (demo_owned ControlAuto) _ _ _)).
  - intros n. by exists (make_bytes 12).
  - by vm_compute.
  - by vm_compute.
Defined.

(** C17. What the repaint of a joining viewer says.  After any run, the repaint
    for a routing id at the head of the join queue is three frames addressed to
    it alone: HELLO with the terminal's size, the terminal reset followed by the
    ring's snapshot of everything the command wrote in the run, and a CONTROL
    byte.  The HELLO's number and the CONTROL byte are looked up with that
    routing id, although floors and the owner are kept by the ids inside the
    viewers' frames: the byte is read-only when nobody is in control, and taken
    when somebody is - also on the route of the viewer that is in control,
    whatever its own id, where the comment on repaintFrames promises that
    viewer's control state - and granted only if the owner's own id is spelled
    like the route.  The empty id that a relay's hello queues gets the first two
    frames, broadcast. *)
Theorem joining_viewer_is_repainted `{E : Env} c s o es route j cn :
  New c s = Ok o ->
  let o' := state_of (run es) o in
  (forall n, is_Some (rand_read n)) ->
  conn o' = Some cn -> c_running cn = true -> c_join cn = route :: j ->
  let snapshot := Ring_Snapshot (write_all (NewRing ringBytes) (outputs es)) in
  let owner := controlOwner (vs o') in
  exists control,
    let frames :=
      [mkOutMsg KindHello
         (EncodeHello (u64 (floor (vs o') route + 1)) (sess_cols (sess o')) (sess_rows (sess o'))) route false;
       mkOutMsg KindOutput (x1b :: x63 :: snapshot) route false] ++
      (if decide (route = []) then [] else [mkOutMsg KindControl [control] route false]) in
    effects_of (step (EvSender CaseJoin [])) o' = wire_of (r2v o') (outSeq o') (rands o') frames /\
    conn (state_of (step (EvSender CaseJoin [])) o') = Some (set_join j cn) /\
    (owner = [] -> control = ControlReadOnly) /\
    (owner <> [] -> owner <> route -> control = ControlTaken) /\
    (owner <> [] -> owner = route -> control = ControlGranted).
Proof.
  intros Hnew o' Hr Hc Hrun Hj snapshot owner. exists (controlState route (vs o')). intros frames.
  assert (frames = repaintFrames route o') as ->.
  { unfold frames, snapshot, repaintFrames, Size, baseline.
    destruct (New_fields c s o Hnew) as (_ & Hring & _). rewrite <- Hring, <- run_ring.
    by repeat case_decide. }
  unfold effects_of, state_of. simpl step. rewrite (sender_join_eq route j cn) by done.
  split; [done|]. split; [done|]. unfold controlState. fold owner.
  split_and!; intros; repeat case_decide; done.
Qed.

Definition demo_join : list event :=
  [EvConnect; EvOutput (str "$ ");
   EvMessage true (json_object [(str "t", str "peer_join"); (str "viewer_id", str "r1")])].

(** The phone is in control before the sender takes up its join. *)
Lemma joining_viewer_is_repainted_witness :
  let o' := state_of (run (demo_join ++ [demo_msg (str "r1") (str "phone") 1 KindCtrlReq []])) (demo ControlAuto) in
  controlOwner (vs o') = str "phone" /\ ownerRoute (vs o') = str "r1" /\
  exists hello output,
    effects_of (step (EvSender CaseJoin [])) o' = wire_of (r2v o') (outSeq o') (rands o')
      [hello; output; mkOutMsg KindControl [ControlTaken] (str "r1") false].
Proof.
  set (es := demo_join ++ _).
  destruct (joining_viewer_is_repainted (demo_cfg ControlAuto) demo_session (demo ControlAuto)
    es (str "r1") [] (default newConn (conn (state_of (run es) (demo ControlAuto))))
    (New_demo ControlAuto)) as (control & H & _ & _ & Ht & _).
  - intros n. by exists (make_bytes 12).
  - by vm_compute.
  - by vm_compute.
  - by vm_compute.
  - assert (controlOwner (vs (state_of (run es) (demo ControlAuto))) = str "phone") as Ho by (vm_compute; reflexivity).
    split; [exact Ho|]. split; [vm_compute; reflexivity|].
    rewrite Ho in Ht. rewrite Ht in H by done. rewrite decide_False in H by done. eexists _, _. exact H.
Defined.

(** A chunk on a connection with viewers and room: the screen, the local
    terminal, the ring, the queue. *)
Lemma output_step `{E : Env} chunk o c :
  conn o = Some c -> c_done c = false -> (viewers o > 0)%Z -> length (c_send c) < sendQueue ->
  step (EvOutput chunk) o
  = (tt, set_conn (Some (push_send (output_msg chunk) c))
           (set_ring (Ring_Write (ring o) chunk).1
              (set_screen (markScreenActivity (clock o) chunk (screen o)) o)),
     if Config_LocalOut (cfg o) then [ELocal chunk] else []).
Proof.
  intros Hc Hd Hv Hroom. simpl step. unfold pumpOutput_chunk.
  eapply bind_eval; [done| |done]. eapply bind_eval; [done| |done].
  eapply (bind_eval _ _ _ _ _ (if Config_LocalOut (cfg o) then [ELocal chunk] else [])).
  - simpl. by destruct (Config_LocalOut (cfg o)).
  - eapply bind_eval; [done| |done]. eapply bind_eval; [done| |done].
    rewrite decide_True by done. unfold emit. erewrite queueing_spec; [|done|done].
    by rewrite decide_True.
  - by rewrite app_nil_r.
Qed.

(** Output still queued when a repaint goes out is sent twice.  On an
    otherwise idle connection, a chunk the command writes just before a joining
    viewer's repaint is inside the snapshot that viewer gets, and the chunk
    itself still follows it as an OUTPUT frame. *)
Theorem queued_output_is_sent_twice `{E : Env} o cn v chunk :
  (forall n, is_Some (rand_read n)) ->
  conn o = Some cn -> c_running cn = true -> c_done cn = false -> c_send cn = [] ->
  c_dropped cn = false -> c_join cn = [v] -> (viewers o > 0)%Z ->
  let o' := state_of (step (EvOutput chunk)) o in
  ring o' = (Ring_Write (ring o) chunk).1 /\
  effects_of (run [EvSender CaseJoin []; EvSender CaseSend []]) o'
  = wire_of (r2v o') (outSeq o') (rands o')
      (repaintFrames v o' ++ [mkOutMsg KindOutput chunk [] false]).
Proof.
  intros Hr Hc Hrun Hd Hs Hdr Hj Hv o'.
  assert (conn o' = Some (push_send (mkOutMsg KindOutput chunk [] false) cn)) as Hc'.
  { unfold o', state_of. rewrite (output_step chunk o cn); [done..|]. rewrite Hs. unfold sendQueue. simpl. lia. }
  split; [unfold o'; by rewrite step_ring|].
  rewrite run_cons_effects. unfold effects_of at 1, state_of at 1. simpl step.
  rewrite (sender_join_eq v [] _ o' Hr Hc' Hrun Hj). cbn [fst snd].
  rewrite run_cons_effects. unfold effects_of at 1. simpl step.
  erewrite sender_send_eq; [|done|done|done|by simpl; rewrite Hs]. simpl.
  rewrite Hdr, (wire_of_app _ _ _ (repaintFrames v o')), sealed_count_sealed
    by apply repaintFrames_sealed.
  reflexivity.
Qed.

Lemma queued_output_is_sent_twice_witness :
  let o := state_of (run [EvConnect; EvMessage true
    (json_object [(str "t", str "peer_join"); (str "viewer_id", str "r1")])]) (demo ControlAuto) in
  ring (state_of (step (EvOutput (str "$ "))) o) = (Ring_Write (ring o) (str "$ ")).1.
Proof.
  refine (proj1 (queued_output_is_sent_twice (state_of (run [EvConnect; EvMessage true
    (json_object [(str "t", str "peer_join"); (str "viewer_id", str "r1")])]) (demo ControlAuto))
    (mkConn [] [str "r1"] false false true) (str "r1") (str "$ ") _ _ _ _ _ _ _ _)).
  - intros n. by exists (make_bytes 12).
  - by vm_compute.
  - done.
  - done.
  - done.
  - done.
  - done.
  - by vm_compute.
Defined.

Definition not_control (m : outMsg) : Prop := om_kind m <> KindControl.

Lemma with_repaint_not_control rp d q :
  Forall not_control rp -> Forall not_control q -> Forall not_control (with_repaint rp d q).
Proof.
  intros Hrp Hq. revert d. induction Hq as [|m q Hm _ IH]; intros d; simpl; [constructor|].
  destruct (om_text m); [by constructor|]. apply Forall_app. split; [by destruct d|by constructor].
Qed.

(** A control reply can be lost for good.  When the send queue is full, a
    viewer's request for control is granted and its reply dropped; the
    repaint the drop asks for is a broadcast and carries no control state: the
    sender drains the whole queue without one frame of kind CONTROL, and no
    drop is pending after it - the viewer types in control and is never told. *)
Theorem control_reply_is_lost `{E : Env} o cn v route st :
  (forall n, is_Some (rand_read n)) ->
  conn o = Some cn -> c_running cn = true -> c_done cn = false ->
  length (c_send cn) = sendQueue -> Exists sealed (c_send cn) -> Forall not_control (c_send cn) ->
  request_section (Config_Control (cfg o)) v route (vs o) = (ControlGranted, true, st) ->
  let o' := state_of (handleControlRequest v route) o in
  let r := run (replicate sendQueue (EvSender CaseSend [])) in
  controlOwner (vs (state_of r o')) = v /\
  (exists ms, effects_of r o' = wire_of (r2v o) (outSeq o) (rands o) ms /\ Forall not_control ms) /\
  option_map (fun c => (c_send c, c_dropped c)) (conn (state_of r o')) = Some ([], false).
Proof.
  intros Hr Hc Hrun Hd Hlen Hsealed Hq Hreq o' r.
  set (c' := set_dropped true cn).
  assert (o' = set_conn (Some c') (set_vs st o)) as Ho.
  { unfold o', handleControlRequest. rewrite state_of_bind.
    change (state_of (gets _) o) with o. cbn [gets fst]. rewrite state_of_bind.
    unfold state_of at 2, with_viewers at 1 2. cbn [fst snd].
    unfold with_viewers. rewrite Hreq. cbn [fst snd]. rewrite state_of_bind.
    unfold emitToViewer. unfold state_of at 2. rewrite (queueing_spec _ _ cn) by done.
    rewrite decide_False by lia. cbn [fst snd].
    pose proof (note_quiet (str "onlytty: viewer took control") (set_conn (Some c') (set_vs st o))) as Hn.
    by apply state_of_wp in Hn as [Hn _]. }
  assert (conn o' = Some c') as Hc' by by rewrite Ho.
  unfold r. rewrite <- Hlen. change (length (c_send cn)) with (length (c_send c')).
  pose proof (drain_queue (c_send c') c' o' Hr Hc' Hrun eq_refl) as Hdrain. cbv zeta in Hdrain.
  unfold state_of, effects_of. rewrite Hdrain. cbn [fst snd]. split_and!.
  - rewrite Ho. revert Hreq. unfold request_section. repeat case_decide; try done; by intros [= <-].
  - eexists. split; [by rewrite Ho|]. apply with_repaint_not_control; [|done].
    unfold repaintFrames. destruct (Size _). simpl. by repeat constructor.
  - simpl. destruct (forallb om_text (c_send cn)) eqn:Hf; [|done].
    apply Exists_exists in Hsealed as (m & Hm & Hs). rewrite forallb_forall in Hf.
    unfold sealed in Hs. rewrite Hf in Hs; [done|by apply list_elem_of_In].
Qed.

Lemma control_reply_is_lost_witness :
  let o := state_of (run (EvConnect :: replicate 256 EvKeepalive)) (demo ControlAuto) in
  let o' := state_of (handleControlRequest (str "phone") (str "r1")) o in
  controlOwner (vs (state_of (run (replicate sendQueue (EvSender CaseSend []))) o')) = str "phone".
Proof.
  set (o := state_of _ _).
  destruct (control_reply_is_lost o (default newConn (conn o)) (str "phone") (str "r1")
    (request_section ControlAuto (str "phone") (str "r1") (vs o)).2) as [H _].
  - intros n. by exists (make_bytes 12).
  - by vm_compute.
  - by vm_compute.
  - by vm_compute.
  - by vm_compute.
  - apply (bool_decide_unpack (Exists sealed _)). by vm_compute.
  - apply (bool_decide_unpack (Forall not_control _)). by vm_compute.
  - by vm_compute.
  - exact H.
Defined.

(** C31. A viewer just granted control can be told that it is taken.  The repaint
    of a joining viewer asks controlState with the relay's routing id, while the
    owner is known by the id inside its frames, so to the owner's own route it
    says taken.  When a viewer's request is granted before the sender has taken
    up its join - a HELLO meant for all can tell it the counter first - and the
    sender picks the reply first, the viewer is told granted and then taken, and
    is in control. *)
Theorem late_repaint_tells_the_owner_taken `{E : Env} o cn v route st :
  (forall n, is_Some (rand_read n)) ->
  conn o = Some cn -> c_running cn = true -> c_done cn = false -> c_send cn = [] ->
  c_dropped cn = false -> c_join cn = [route] -> v <> [] -> route <> [] -> route <> v ->
  request_section (Config_Control (cfg o)) v route (vs o) = (ControlGranted, true, st) ->
  let o' := state_of (handleControlRequest v route) o in
  controlOwner (vs o') = v /\
  exists hello output,
    effects_of (run [EvSender CaseSend []; EvSender CaseJoin []]) o'
    = wire_of (r2v o) (outSeq o) (rands o)
        [mkOutMsg KindControl [ControlGranted] route false; hello; output;
         mkOutMsg KindControl [ControlTaken] route false] /\
    om_kind hello = KindHello /\ om_kind output = KindOutput.
Proof.
  intros Hr Hc Hrun Hd Hs Hdr Hj Hv Hroute Hne Hreq o'.
  set (reply := mkOutMsg KindControl [ControlGranted] route false).
  assert (o' = set_conn (Some (push_send reply cn)) (set_vs st o)) as Ho.
  { unfold o', handleControlRequest. rewrite state_of_bind.
    change (state_of (gets _) o) with o. cbn [gets fst]. rewrite state_of_bind.
    unfold state_of at 2, with_viewers at 1 2. cbn [fst snd].
    unfold with_viewers. rewrite Hreq. cbn [fst snd]. rewrite state_of_bind.
    unfold emitToViewer. unfold state_of at 2. rewrite (queueing_spec _ _ cn) by done.
    rewrite decide_True by (rewrite Hs; unfold sendQueue; simpl; lia). cbn [fst snd].
    pose proof (note_quiet (str "onlytty: viewer took control")
      (set_conn (Some (push_send reply cn)) (set_vs st o))) as Hn.
    by apply state_of_wp in Hn as [Hn _]. }
  assert (controlOwner st = v) as Hown.
  { revert Hreq. unfold request_section. repeat case_decide; try done; by intros [= <-]. }
  split; [by rewrite Ho|].
  assert (conn o' = Some (push_send reply cn)) as Hc' by by rewrite Ho.
  exists (mkOutMsg KindHello (EncodeHello (baseline route st) (sess_cols (sess o)) (sess_rows (sess o))) route false),
    (mkOutMsg KindOutput (RIS ++ Ring_Snapshot (ring o)) route false). split; [|done].
  set (frames := [_; _; _; _]). set (late := drop 1 frames). change frames with ([reply] ++ late).
  set (o2 := sent 1 (set_conn (Some (set_send [] (set_dropped false (push_send reply cn)))) o')).
  assert (repaintFrames route o2 = late) as Hlate.
  { unfold late, frames, o2. rewrite repaintFrames_sent, Ho. unfold repaintFrames, Size, controlState. simpl.
    rewrite decide_True by done. rewrite decide_False by (by rewrite Hown). by rewrite decide_False by (rewrite Hown; auto). }
  rewrite wire_of_app, run_cons_effects. unfold effects_of at 1, state_of at 1. simpl step.
  rewrite (sender_send_eq reply [] (push_send reply cn) o') by (simpl; rewrite ?Hs; done).
  cbn [c_dropped push_send]. rewrite Hdr. cbn [fst snd with_repaint om_text reply].
  f_equal; [by rewrite Ho|]. rewrite run_cons_effects. unfold effects_of at 1. simpl step.
  change (sealed_count ([] ++ [reply])) with 1. fold o2.
  rewrite (sender_join_eq route [] (set_send [] (set_dropped false (push_send reply cn))) o2) by done.
  cbn [fst snd]. rewrite Hlate. unfold o2. rewrite Ho. reflexivity.
Qed.

Lemma late_repaint_tells_the_owner_taken_witness :
  let o := state_of (run demo_join) (demo ControlAuto) in
  controlOwner (vs (state_of (handleControlRequest (str "phone") (str "r1")) o)) = str "phone".
Proof.
  set (o := state_of _ _).
  refine (proj1 (late_repaint_tells_the_owner_taken o (default newConn (conn o)) (str "phone") (str "r1")
    (request_section ControlAuto (str "phone") (str "r1") (vs o)).2 _ _ _ _ _ _ _ _ _ _ _)).
  - intros n. by exists (make_bytes 12).
  - by vm_compute.
  - by vm_compute.
  - by vm_compute.
  - by vm_compute.
  - by vm_compute.
  - by vm_compute.
  - by apply (bool_decide_unpack (str "phone" <> [])); vm_compute.
  - by apply (bool_decide_unpack (str "r1" <> [])); vm_compute.
  - by apply (bool_decide_unpack (str "r1" <> str "phone")); vm_compute.
  - by vm_compute.
Defined.
