(* ===== verification/Bounds.v ===== *)
(** * Bounds: no index or slice of the code is out of range

    Go panics on b[i] and b[i:j] out of range, on make with a negative length,
    on binary.BigEndian's reads and writes of a slice that is too short, and
    crypto/cipher on a nonce of the wrong length; one panic in a goroutine ends
    the runner.  The other files use total functions on lists.  Here the same
    routines of wire.go, crypto.go, ring.go and runner.go's output scanner are
    written with accesses that can panic ([None]), in the order the code
    evaluates them, and shown to compute what the total ones do, on every input
    the relay, the command or the host can give. *)
From S2P Require Import Prelude Wire Crypto Ring Screen Session Control.
From S2P Require Import Json Orch Sender Handlers Traces Access Refine Scenario StdCrypto.
From Stdlib Require Import Strings.Byte.

(** ** Accesses that can panic *)

(** b[i] *)
Definition get {A} (b : list A) (i : nat) : option A := b !! i.
(** b[i:j], checked against the length, which is the stricter bound *)
Definition cut {A} (b : list A) (i j : nat) : option (list A) :=
  if decide (i <= j /\ j <= length b) then Some (slice b i j) else None.
(** b[i] = x *)
Definition put {A} (b : list A) (i : nat) (x : A) : option (list A) :=
  if decide (i < length b) then Some (<[ i := x ]> b) else None.
(** copy(b[i:], src) *)
Definition copy_from {A} (b : list A) (i : nat) (src : list A) : option (list A) :=
  if decide (i <= length b) then Some (copy_at b i src) else None.
(** make([]byte, n) *)
Definition make (n : Z) : option bytes :=
  if decide (0 <= n)%Z then Some (make_bytes (Z.to_nat n)) else None.
(** binary.BigEndian.Uint of n bytes of b *)
Definition uint (n : nat) (b : bytes) : option Z :=
  if decide (n <= length b) then Some (be_decode (take n b)) else None.
(** binary.BigEndian.PutUint of n bytes into b[i:j] *)
Definition put_uint (n : nat) (b : bytes) (i j : nat) (z : Z) : option bytes :=
  if decide (i <= j /\ j <= length b /\ n <= j - i) then Some (copy_at b i (be_encode n z)) else None.

(** ** wire.go *)

Definition EncodeHello_checked (baseline cols rows : Z) : option bytes :=
  b ← make 12;
  b ← put_uint 8 b 0 8 baseline;
  b ← put_uint 2 b 8 10 cols;
  put_uint 2 b 10 12 rows.

Definition DecodeHello_checked (b : bytes) : option (result wire_error (Z * Z * Z)) :=
  if decide (length b < 12) then Some (Err errShortPayload)
  else
    x ← cut b 0 8; baseline ← uint 8 x;
    y ← cut b 8 10; cols ← uint 2 y;
    z ← cut b 10 12; rows ← uint 2 z;
    Some (Ok (baseline, cols, rows)).

Definition DecodeResize_checked (b : bytes) : option (result wire_error (Z * Z)) :=
  if decide (length b < 4) then Some (Err errShortPayload)
  else
    x ← cut b 0 2; cols ← uint 2 x;
    y ← cut b 2 4; rows ← uint 2 y;
    Some (Ok (cols, rows)).

Definition EncodeExit_checked (code : Z) : option bytes :=
  b ← make 4; put_uint 4 b 0 (length b) (u32 code).

Definition encode_envelope_checked (magic viewerID payload : bytes) : option bytes :=
  viewerID ← (if decide (255 < length viewerID) then cut viewerID 0 255 else Some viewerID);
  b ← make (Z.of_nat (length magic + 1 + length viewerID + length payload));
  b ← copy_from b 0 magic;
  b ← put b (length magic) (byte_of_Z (Z.of_nat (length viewerID)));
  b ← copy_from b (length magic + 1) viewerID;
  copy_from b (length magic + 1 + length viewerID) payload.

Definition decode_envelope_checked (magic b : bytes) : option (result wire_error (bytes * bytes)) :=
  bad ← (if decide (length b < length magic) then Some true
         else m ← cut b 0 (length magic); Some (bool_decide (m <> magic)));
  if bad : bool then Some (Err errBadPayload)
  else if decide (length b < length magic + 1) then Some (Err errShortPayload)
  else
    c ← get b (length magic);
    let n := Z.to_nat (Z_of_byte c) in
    if decide (n = 0) then Some (Err errBadPayload)
    else
      let start := length magic + 1 in
      if decide (length b < start + n) then Some (Err errShortPayload)
      else
        viewerID ← cut b start (start + n);
        payload ← cut b (start + n) (length b);
        Some (Ok (viewerID, payload)).

(** ** crypto.go *)

Section Crypto.
Context `{P : Primitives}.

(** cipher.AEAD's methods panic on a nonce that is not twelve bytes. *)
Definition aead_seal_checked (key nonce pt aad : bytes) : option bytes :=
  if decide (length nonce = nonceLen) then Some (aead_seal key nonce pt aad) else None.
Definition aead_open_checked (key nonce ct aad : bytes) : option (option bytes) :=
  if decide (length nonce = nonceLen) then Some (aead_open key nonce ct aad) else None.

Definition sealWithNonce_checked (c : Cipher) (nonce : bytes) (seq : Z) (kind : byte) (payload : bytes)
    : option bytes :=
  pt ← make (Z.of_nat (seqLen + 1 + length payload));
  pt ← put_uint 8 pt 0 seqLen seq;
  pt ← put pt seqLen kind;
  pt ← copy_from pt (seqLen + 1) payload;
  frame ← make (Z.of_nat nonceLen);
  frame ← copy_from frame 0 nonce;
  ct ← aead_seal_checked (cipher_key c) nonce pt (cipher_aad c);
  Some (frame ++ ct).

Definition Open_checked (c : Cipher) (frame : bytes) : option (result crypto_error (Z * byte * bytes)) :=
  if decide (length frame < nonceLen + seqLen + 1 + tagLen) then Some (Err ErrFrameShort)
  else
    nonce ← cut frame 0 nonceLen;
    rest ← cut frame nonceLen (length frame);
    r ← aead_open_checked (cipher_key c) nonce rest (cipher_aad c);
    match r with
    | None => Some (Err ErrOpen)
    | Some pt =>
      if decide (length pt < seqLen + 1) then Some (Err ErrFrameShort)
      else
        s ← cut pt 0 seqLen; seq ← uint 8 s;
        kind ← get pt seqLen;
        payload ← cut pt (seqLen + 1) (length pt);
        Some (Ok (seq, kind, payload))
    end.

(** What handleBinary reads of a message, the size of a resize included. *)
Definition read_message_checked (c : Cipher) (data : bytes)
    : option (option (viewer_frame * option (Z * Z))) :=
  r ← decode_envelope_checked relayViewerMagic data;
  match r with
  | Err _ => Some None
  | Ok (route, sealed) =>
    r ← Open_checked c sealed;
    match r with
    | Err _ => Some None
    | Ok (seq, kind, inner) =>
      r ← decode_envelope_checked viewerPayloadMagic inner;
      match r with
      | Err _ => Some None
      | Ok (viewer, payload) =>
        r ← DecodeResize_checked payload;
        Some (Some (mkFrame route viewer seq kind payload,
                    match r with Ok size => Some size | Err _ => None end))
      end
    end
  end.

End Crypto.

(** ** ring.go *)

Definition Ring_Write_checked (r : Ring) (p : bytes) : option (Ring * nat) :=
  let buf := ring_buf r ++ p in
  let over := (Z.of_nat (length buf) - ring_max r)%Z in
  if decide (over > 0)%Z then
    a ← cut buf 0 0;
    b ← cut buf (Z.to_nat over) (length buf);
    Some (mkRing (a ++ b) (ring_max r), length p)
  else Some (mkRing buf (ring_max r), length p).

(** Snapshot's loop from [start], of at most [fuel] rounds. *)
Fixpoint snapshot_loop (fuel : nat) (buf : bytes) (start : nat) : option nat :=
  match fuel with
  | O => Some start
  | S fuel =>
    if decide (start < length buf) then
      b ← get buf start;
      if continuation_byte b then snapshot_loop fuel buf (start + 1) else Some start
    else Some start
  end.

Definition Ring_Snapshot_checked (r : Ring) : option bytes :=
  start ← snapshot_loop (length (ring_buf r)) (ring_buf r) 0;
  out ← make (Z.of_nat (length (ring_buf r)) - Z.of_nat start);
  tl ← cut (ring_buf r) start (length (ring_buf r));
  copy_from out 0 tl.

(** ** The output scanner of runner.go *)

Fixpoint skip_params_checked (fuel : nat) (p : bytes) (j : nat) : option nat :=
  match fuel with
  | O => Some j
  | S fuel =>
    if decide (j < length p) then
      b ← get p j; if is_param b then skip_params_checked fuel p (j + 1) else Some j
    else Some j
  end.

(** i+1 >= len(p) || p[i+1] != b *)
Definition not_next (p : bytes) (i : nat) (b : byte) : option bool :=
  if decide (length p <= i + 1) then Some true
  else c ← get p (i + 1); Some (bool_decide (c <> b)).

Fixpoint mark_loop_checked (fuel : nat) (p : bytes) (i : nat) (st : bool * bool) : option (bool * bool) :=
  match fuel with
  | O => Some st
  | S fuel =>
    if decide (i < length p) then
      b ← get p i;
      if decide (b = CR) then
        bare ← not_next p i LF;
        mark_loop_checked fuel p (i + 1) (if bare : bool then (st.1, true) else st)
      else
        other ← (if decide (b <> ESC) then Some true else not_next p i x5b);
        if other : bool then mark_loop_checked fuel p (i + 1) st
        else
          let j := i + 2 in
          priv ← (if decide (j < length p) then c ← get p j; Some (is_private c) else Some false);
          let j := if priv : bool then j + 1 else j in
          let start := j in
          j ← skip_params_checked (length p) p j;
          if decide (length p <= j) then Some st
          else
            final ← get p j;
            params ← cut p start j;
            mark_loop_checked fuel p (j + 1) (csi_effect priv params final st)
    else Some st
  end.

(** ** Lemmas *)

Lemma cut_ok {A} (b : list A) i j : i <= j -> j <= length b -> cut b i j = Some (slice b i j).
Proof. intros. unfold cut. by rewrite decide_True. Qed.

Lemma cut_tail {A} (b : list A) i : i <= length b -> cut b i (length b) = Some (drop i b).
Proof. intros. rewrite cut_ok by lia. unfold slice. by rewrite take_ge by (rewrite length_drop; lia). Qed.

Lemma cut_head {A} (b : list A) j : j <= length b -> cut b 0 j = Some (take j b).
Proof. intros. rewrite cut_ok by lia. unfold slice. by rewrite drop_0, Nat.sub_0_r. Qed.

Lemma get_ok (p : bytes) i : i < length p -> get p i = Some (at_ p i).
Proof. intros [b Hb]%lookup_lt_is_Some. unfold get, at_. by rewrite Hb. Qed.

Lemma put_ok {A} (b : list A) i x : i < length b -> put b i x = Some (<[ i := x ]> b).
Proof. intros. unfold put. by rewrite decide_True. Qed.

Lemma copy_from_ok {A} (b : list A) i src : i <= length b -> copy_from b i src = Some (copy_at b i src).
Proof. intros. unfold copy_from. by rewrite decide_True. Qed.

Lemma make_ok n : make (Z.of_nat n) = Some (make_bytes n).
Proof. unfold make. rewrite decide_True by lia. by rewrite Nat2Z.id. Qed.

Lemma uint_ok n b : n <= length b -> uint n b = Some (be_decode (take n b)).
Proof. intros. unfold uint. by rewrite decide_True. Qed.

(** Reading the n bytes of a slice of just that length. *)
Lemma uint_cut n b i j x : cut b i j = Some x -> j - i = n -> uint n x = Some (be_decode (slice b i j)).
Proof.
  unfold cut. case_decide as H; [|done]. intros [= <-] Hn. 
  rewrite uint_ok by (rewrite length_slice; lia). rewrite take_ge; [done|]. rewrite length_slice; lia.
Qed.

Lemma put_uint_ok n b i j z :
  i <= j -> j <= length b -> n <= j - i -> put_uint n b i j z = Some (copy_at b i (be_encode n z)).
Proof. intros. unfold put_uint. by rewrite decide_True. Qed.

Lemma insert_copy_at {A} (b : list A) i x : i < length b -> <[ i := x ]> b = copy_at b i [x].
Proof.
  intros. unfold copy_at. rewrite insert_take_drop by done. f_equal.
  rewrite take_ge by (simpl; lia). simpl. by rewrite Nat.add_1_r.
Qed.

Lemma if_bool_decide {A} (Q : Prop) `{Decision Q} (x y : A) :
  (if bool_decide Q then x else y) = if decide Q then x else y.
Proof. by case_bool_decide; case_decide. Qed.

(** Discharges the bounds of the accesses in front. *)
Ltac in_bounds :=
  repeat ((rewrite length_copy_at by in_bounds) || rewrite length_insert || rewrite length_make_bytes
          || rewrite length_be_encode);
  lia.

Lemma DecodeHello_in_bounds b : DecodeHello_checked b = Some (DecodeHello b).
Proof.
  unfold DecodeHello_checked, DecodeHello. case_decide; [done|].
  rewrite !cut_ok by lia. simpl. by rewrite !uint_ok, !take_ge by (rewrite ?length_slice; lia).
Qed.

Lemma DecodeResize_in_bounds b : DecodeResize_checked b = Some (DecodeResize b).
Proof.
  unfold DecodeResize_checked, DecodeResize. case_decide; [done|].
  rewrite !cut_ok by lia. simpl. by rewrite !uint_ok, !take_ge by (rewrite ?length_slice; lia).
Qed.

Lemma decode_envelope_in_bounds magic b : decode_envelope_checked magic b = Some (decode_envelope magic b).
Proof.
  unfold decode_envelope_checked, decode_envelope.
  destruct (decide (length b < length magic)) as [Hl|Hl]; simpl; [by rewrite decide_True by auto|].
  rewrite cut_ok by lia. simpl. case_bool_decide as Hm; [by rewrite decide_True by auto|].
  rewrite (decide_False (P := length b < length magic \/ _)) by tauto.
  case_decide as Hs; [done|]. unfold get, byte_at.
  destruct (lookup_lt_is_Some_2 b (length magic)) as [c ->]; [lia|]. simpl.
  case_decide; [done|]. case_decide as Hn; [done|].
  by rewrite cut_tail, cut_ok by lia.
Qed.

Lemma encode_envelope_in_bounds magic viewerID payload :
  encode_envelope_checked magic viewerID payload = Some (encode_envelope magic viewerID payload).
Proof.
  unfold encode_envelope_checked, encode_envelope.
  assert ((if decide (255 < length viewerID) then cut viewerID 0 255 else Some viewerID)
    = Some (if decide (255 < length viewerID) then slice viewerID 0 255 else viewerID)) as ->.
  { case_decide; [|done]. by rewrite cut_ok by lia. }
  generalize (if decide (255 < length viewerID) then slice viewerID 0 255 else viewerID) as v. intros v. cbn [mbind option_bind].
  rewrite make_ok. cbn [mbind option_bind]. rewrite copy_from_ok by in_bounds. cbn [mbind option_bind].
  rewrite put_ok by in_bounds. cbn [mbind option_bind]. rewrite copy_from_ok by in_bounds.
  cbn [mbind option_bind]. rewrite copy_from_ok by in_bounds. by rewrite insert_copy_at by in_bounds.
Qed.

Lemma EncodeHello_in_bounds baseline cols rows :
  EncodeHello_checked baseline cols rows = Some (EncodeHello baseline cols rows).
Proof.
  unfold EncodeHello_checked, EncodeHello. change 12%Z with (Z.of_nat 12). rewrite make_ok. cbn [mbind option_bind].
  do 2 (rewrite put_uint_ok by in_bounds; cbn [mbind option_bind]). by rewrite put_uint_ok by in_bounds.
Qed.

Lemma EncodeExit_in_bounds code : EncodeExit_checked code = Some (EncodeExit code).
Proof.
  unfold EncodeExit_checked, EncodeExit. change 4%Z with (Z.of_nat 4). rewrite make_ok. cbn [mbind option_bind].
  by rewrite put_uint_ok by in_bounds.
Qed.

Section Crypto.
Context `{P : Primitives}.

Lemma sealWithNonce_in_bounds c nonce seq kind payload :
  length nonce = nonceLen ->
  sealWithNonce_checked c nonce seq kind payload = Some (sealWithNonce c nonce seq kind payload).
Proof.
  intros Hn. unfold sealWithNonce_checked, sealWithNonce, aead_seal_checked.
  rewrite (make_ok (seqLen + 1 + length payload)). cbn [mbind option_bind].
  rewrite put_uint_ok by (unfold seqLen; in_bounds).
  cbn [mbind option_bind]. rewrite put_ok by (unfold seqLen; in_bounds). cbn [mbind option_bind].
  rewrite copy_from_ok by (unfold seqLen; in_bounds). cbn [mbind option_bind]. rewrite make_ok.
  cbn [mbind option_bind]. rewrite copy_from_ok by in_bounds. cbn [mbind option_bind].
  by rewrite decide_True.
Qed.

Lemma Open_in_bounds c frame : Open_checked c frame = Some (Open c frame).
Proof.
  unfold Open_checked, Open, aead_open_checked. case_decide as Hl; [done|].
  rewrite cut_head by lia. cbn [mbind option_bind]. rewrite cut_tail by lia. cbn [mbind option_bind].
  rewrite decide_True by (rewrite length_take; lia). cbn [mbind option_bind].
  case_match; [|done]. case_decide as Hp; [done|].
  rewrite cut_head by lia. cbn [mbind option_bind].
  rewrite uint_ok by (rewrite length_take; unfold seqLen in *; lia). cbn [mbind option_bind].
  rewrite get_ok by lia. cbn [mbind option_bind]. rewrite cut_tail by lia. cbn [mbind option_bind].
  by rewrite take_take.
Qed.

Lemma read_message_in_bounds c data :
  read_message_checked c data =
    Some (f ← read_frame c data;
          Some (f, match DecodeResize (vf_payload f) with Ok size => Some size | Err _ => None end)).
Proof.
  unfold read_message_checked, read_frame, DecodeRelayViewerFrame, DecodeViewerPayload.
  rewrite decode_envelope_in_bounds. cbn [mbind option_bind].
  destruct (decode_envelope relayViewerMagic data) as [[route sealed]|]; [|done].
  rewrite Open_in_bounds. cbn [mbind option_bind].
  case_match; [|done]. case_match. case_match.
  rewrite decode_envelope_in_bounds. cbn [mbind option_bind].
  case_match; [|done]. case_match. by rewrite DecodeResize_in_bounds.
Qed.

End Crypto.

(** The compaction never asks for more than it has: the capacity is positive. *)
Lemma Ring_Write_in_bounds r p : (0 <= ring_max r)%Z -> Ring_Write_checked r p = Some (Ring_Write r p).
Proof.
  intros Hm. unfold Ring_Write_checked, Ring_Write. case_decide; [|done].
  rewrite cut_head by lia. cbn [mbind option_bind]. by rewrite cut_tail by lia.
Qed.

Lemma snapshot_loop_in_bounds fuel buf i :
  length buf - i <= fuel -> snapshot_loop fuel buf i = Some (i + snapshot_start (drop i buf)).
Proof.
  revert i. induction fuel as [|fuel IH]; intros i Hf; cbn [snapshot_loop].
  - rewrite drop_ge by lia. simpl. by rewrite Nat.add_0_r.
  - case_decide as Hi; [|rewrite drop_ge by lia; simpl; by rewrite Nat.add_0_r].
    destruct (lookup_lt_is_Some_2 buf i Hi) as [b Hb]. unfold get. rewrite Hb. cbn [mbind option_bind].
    rewrite (drop_S _ _ _ Hb). cbn [snapshot_start]. destruct (continuation_byte b); [|by rewrite Nat.add_0_r].
    rewrite IH, Nat.add_1_r by lia. f_equal. lia.
Qed.

Lemma snapshot_start_le buf : snapshot_start buf <= length buf.
Proof. induction buf as [|b buf IH]; simpl; [done|]. case_match; lia. Qed.

Lemma Ring_Snapshot_in_bounds r : Ring_Snapshot_checked r = Some (Ring_Snapshot r).
Proof.
  unfold Ring_Snapshot_checked, Ring_Snapshot. pose proof (snapshot_start_le (ring_buf r)).
  rewrite snapshot_loop_in_bounds, drop_0 by lia. cbn [mbind option_bind Nat.add].
  rewrite <- Nat2Z.inj_sub, make_ok by done. cbn [mbind option_bind].
  rewrite cut_tail by done. cbn [mbind option_bind]. by rewrite copy_from_ok by lia.
Qed.

Lemma skip_params_in_bounds fuel p j : skip_params_checked fuel p j = Some (skip_params fuel p j).
Proof.
  revert j. induction fuel as [|fuel IH]; intros j; [done|]. cbn [skip_params skip_params_checked].
  case_decide as Hj.
  - rewrite get_ok by done. cbn [mbind option_bind]. destruct (is_param (at_ p j)) eqn:E.
    + rewrite decide_True by done. apply IH.
    + rewrite decide_False; [done|]. by intros [_ ?].
  - rewrite decide_False; [done|]. by intros [? _].
Qed.

Lemma skip_params_le fuel p j : j <= skip_params fuel p j.
Proof.
  revert j. induction fuel as [|fuel IH]; intros j; [done|]. cbn [skip_params].
  case_decide; [|done]. specialize (IH (j + 1)). lia.
Qed.

Lemma not_next_in_bounds p i b :
  not_next p i b = Some (bool_decide (length p <= i + 1 \/ at_ p (i + 1) <> b)).
Proof.
  unfold not_next. case_decide as Hl; [by rewrite bool_decide_true by auto|].
  rewrite get_ok by lia. cbn [mbind option_bind]. f_equal. apply bool_decide_ext. tauto.
Qed.

Lemma mark_loop_in_bounds fuel p i st : mark_loop_checked fuel p i st = Some (mark_loop fuel p i st).
Proof.
  revert i st. induction fuel as [|fuel IH]; intros i st; [done|].
  cbn [mark_loop mark_loop_checked]. destruct (decide (i < length p)) as [Hi|]; [|done].
  rewrite (get_ok p i Hi). cbn [mbind option_bind].
  destruct (decide (at_ p i = CR)) as [Hcr|Hcr].
  { rewrite not_next_in_bounds. cbn [mbind option_bind]. by rewrite IH, if_bool_decide. }
  rewrite not_next_in_bounds. set (other := if decide (at_ p i <> ESC) then _ else _).
  assert (other = Some (bool_decide (at_ p i <> ESC \/ length p <= i + 1 \/ at_ p (i + 1) <> x5b))) as ->.
  { subst other. case_decide; f_equal; symmetry; [by apply bool_decide_true; left|].
    apply bool_decide_ext; tauto. }
  cbn [mbind option_bind]. rewrite if_bool_decide.
  destruct (decide (at_ p i <> ESC \/ _)) as [Ho|Ho]; [by rewrite IH|].
  set (priv := if decide (i + 2 < length p) then _ else _).
  assert (priv = Some (bool_decide (i + 2 < length p) && is_private (at_ p (i + 2)))) as ->.
  { subst priv. case_bool_decide as Hj; [by rewrite decide_True, get_ok|by rewrite decide_False]. }
  cbn [mbind option_bind]. rewrite skip_params_in_bounds. cbn [mbind option_bind].
  destruct (decide (length p <= _)); [done|]. rewrite get_ok by lia. cbn [mbind option_bind].
  rewrite cut_ok by (apply skip_params_le || lia). cbn [mbind option_bind]. by rewrite IH.
Qed.

(** ** The paths of the program *)

(** The writes of a session's output to its ring, each access checked. *)
Fixpoint write_all_checked (r : Ring) (chunks : list bytes) : option Ring :=
  match chunks with
  | [] => Some r
  | p :: chunks => w ← Ring_Write_checked r p; write_all_checked w.1 chunks
  end.

Definition markScreenActivity_checked (now : Z) (p : bytes) (s : ScreenState) : option ScreenState :=
  st ← mark_loop_checked (length p) p 0 (altScreen s, false);
  Some (mkScreen st.1 (if st.2 : bool then now else lastCtl s)).

Lemma write_all_in_bounds r chunks :
  (0 <= ring_max r)%Z -> write_all_checked r chunks = Some (write_all r chunks).
Proof.
  revert r. induction chunks as [|p chunks IH]; intros r Hm; [done|]. cbn [write_all_checked].
  rewrite Ring_Write_in_bounds by done. cbn [mbind option_bind]. by rewrite IH.
Qed.

Lemma markScreenActivity_in_bounds now p s :
  markScreenActivity_checked now p s = Some (markScreenActivity now p s).
Proof.
  unfold markScreenActivity_checked, markScreenActivity. rewrite mark_loop_in_bounds. simpl.
  by destruct (mark_loop (length p) p 0 (altScreen s, false)).
Qed.

(** C27. Reading what the relay sends never panics: for every message and key,
    the envelope, the sealed frame, the viewer's envelope in it and a resize in
    its payload are read without one index or slice out of range, and the
    result is the frame the total definitions read. *)
Theorem relay_input_never_panics `{P : Primitives} c data :
  read_message_checked c data =
    Some (f ← read_frame c data;
          Some (f, match DecodeResize (vf_payload f) with Ok size => Some size | Err _ => None end)).
Proof. apply read_message_in_bounds. Qed.

(** C28. Neither does what the command and the host give: a session's chunks of
    output pass the screen scanner and the ring, whatever bytes they hold and
    whatever size was asked for the ring; the snapshot, HELLO and EXIT payloads
    are built, and a payload of any length is sealed under any nonce of twelve
    bytes, all without an access out of range and with the result of the total
    definitions. *)
Theorem output_never_panics `{P : Primitives} max chunks chunk now s baseline cols rows code c
    nonce seq kind payload (Hn : length nonce = nonceLen) :
  let r := write_all (NewRing max) chunks in
  write_all_checked (NewRing max) chunks = Some r /\
  Ring_Snapshot_checked r = Some (Ring_Snapshot r) /\
  markScreenActivity_checked now chunk s = Some (markScreenActivity now chunk s) /\
  EncodeHello_checked baseline cols rows = Some (EncodeHello baseline cols rows) /\
  EncodeExit_checked code = Some (EncodeExit code) /\
  sealWithNonce_checked c nonce seq kind payload = Some (sealWithNonce c nonce seq kind payload).
Proof.
  simpl. split_and!.
  - apply write_all_in_bounds. rewrite NewRing_max. lia.
  - apply Ring_Snapshot_in_bounds.
  - apply markScreenActivity_in_bounds.
  - apply EncodeHello_in_bounds.
  - apply EncodeExit_in_bounds.
  - by apply sealWithNonce_in_bounds.
Qed.

(** The accesses do fail when they should: a nonce of eleven bytes, a payload
    cut before its last byte. *)
Example short_nonce_panics : aead_seal_checked (P := go_crypto) [] (make_bytes 11) [] [] = None.
Proof. reflexivity. Qed.

Example short_slice_panics : cut (str "OTV1") 2 5 = None /\ uint 2 [x00] = None /\ get (str "ab") 2 = None.
Proof. repeat split. Qed.

Lemma output_never_panics_witness :
  length (make_bytes 12) = nonceLen /\
  write_all_checked (NewRing 4) [str "onlytty"; [CR]] = Some (write_all (NewRing 4) [str "onlytty"; [CR]]) /\
  sealWithNonce_checked (P := go_crypto) (mkCipher [] []) (make_bytes 12) 1 x01 (str "hi")
    = Some (sealWithNonce (P := go_crypto) (mkCipher [] []) (make_bytes 12) 1 x01 (str "hi")).
Proof.
  destruct (output_never_panics (P := go_crypto) 4 [str "onlytty"; [CR]] (str "x") 0 screen0 0 80 24 0
    (mkCipher [] []) (make_bytes 12) 1 x01 (str "hi") eq_refl) as (H & _ & _ & _ & _ & H').
  split; [reflexivity|]. split; [exact H|exact H'].
Defined.
