(* ===== verification/Interleave.v ===== *)
(** * Interleave: the viewer state under concurrent critical sections

    Handlers models a handler as one step.  In the code
    (runner/internal/runner/runner.go) handleBinary is several critical sections
    on stateMu followed by a call on the pty with no lock held, and Revoke runs
    on another goroutine.  Here each critical section and each pty call is a
    step of its own, and Revoke may come between any two.  The first theorem
    says that what is done to the viewer state amounts to whole operations;
    another says what whole handlers hide: the call of a frame that had passed
    its check can land after a revocation. *)
From S2P Require Import Prelude Wire Crypto Ring Screen Session Control.
From S2P Require Import Json Orch Sender Handlers Traces Access Refine.
From S2P Require Import Encodings StdCrypto Scenario Authority.
From Stdlib Require Import Strings.Byte.

(** ** The work of the goroutine that reads the relay's socket *)

(** An authentic frame, a viewer's leaving, or the connection's end. *)
Inductive work := WFrame (f : viewer_frame) | WLeave (route : bytes) | WDown.

(** Where handleBinary is: between frames, before bindRoute, before the switch,
    or past the check of viewerHasControl with the calls it decided on. *)
Inductive pc := PIdle | PBind (f : viewer_frame) | PServe (f : viewer_frame) | PCall (cs : list pty_call).

Record mstate := mkMState {
  m_vs : ViewerState;
  m_work : list work;
  m_pc : pc;
  m_signals : nat;               (* SIGUSR1s still to come *)
  m_calls : list pty_call        (* what viewers have done to the pty *)
}.

(** The call a request asks for, once it is known that its sender has control. *)
Definition requested_calls (r : request) : list pty_call :=
  match r with
  | RInput p => [PtyWrite p]
  | RResize cols rows => if decide (cols = 0 \/ rows = 0)%Z then [] else [PtySetsize cols rows]
  | _ => []
  end.

Definition checked_calls (f : viewer_frame) (st : ViewerState) : list pty_call :=
  if viewerHasControl (vf_viewer f) st then requested_calls (frame_request f) else [].

Inductive label := LRead (w : work) | LCheck | LCall (cs : list pty_call) | LGrant | LSection | LRevoke.

(** One critical section, or one pty call. *)
Inductive mstep (mode : ControlMode) : mstate -> label -> mstate -> Prop :=
| MFresh st f ws n cs st' :
    acceptSeq (vf_viewer f) (vf_seq f) st = (true, st') ->
    mstep mode (mkMState st (WFrame f :: ws) PIdle n cs) (LRead (WFrame f))
      (mkMState st' ws (PBind f) n cs)
| MStale st f ws n cs st' :
    acceptSeq (vf_viewer f) (vf_seq f) st = (false, st') ->
    mstep mode (mkMState st (WFrame f :: ws) PIdle n cs) (LRead (WFrame f)) (mkMState st' ws PIdle n cs)
| MLeave st route ws n cs :
    mstep mode (mkMState st (WLeave route :: ws) PIdle n cs) (LRead (WLeave route))
      (mkMState (forgetViewer route st) ws PIdle n cs)
| MDown st ws n cs :
    mstep mode (mkMState st (WDown :: ws) PIdle n cs) (LRead WDown)
      (mkMState (clearControlOwner st) ws PIdle n cs)
| MBind st f ws n cs :
    mstep mode (mkMState st ws (PBind f) n cs) LSection
      (mkMState (bindRoute (vf_route f) (vf_viewer f) st) ws (PServe f) n cs)
| MCheck st f ws n cs :
    match frame_request f with RInput _ | RResize _ _ => True | _ => False end ->
    mstep mode (mkMState st ws (PServe f) n cs) LCheck
      (mkMState st ws (PCall (checked_calls f st)) n cs)
| MRequest st f ws n cs state (granted : bool) st' :
    frame_request f = RTake ->
    request_section mode (vf_viewer f) (vf_route f) st = (state, granted, st') ->
    mstep mode (mkMState st ws (PServe f) n cs) (if granted then LGrant else LSection)
      (mkMState st' ws PIdle n cs)
| MRelease st f ws n cs :
    frame_request f = RGiveUp ->
    mstep mode (mkMState st ws (PServe f) n cs) LSection
      (mkMState (release_section (vf_viewer f) st).2 ws PIdle n cs)
| MIgnore st f ws n cs :
    frame_request f = RNothing ->
    mstep mode (mkMState st ws (PServe f) n cs) LSection (mkMState st ws PIdle n cs)
| MCall st ws n cs calls :
    mstep mode (mkMState st ws (PCall calls) n cs) (LCall calls)
      (mkMState st ws PIdle n (cs ++ calls))
| MRevoke st ws p n cs :
    mstep mode (mkMState st ws p (S n) cs) LRevoke
      (mkMState (revoke_section st).2 ws p n cs).

(** Runs, with their labels in order. *)
Inductive mrun (mode : ControlMode) (s0 : mstate) : list label -> mstate -> Prop :=
| mrun_nil : mrun mode s0 [] s0
| mrun_snoc ls s l s' : mrun mode s0 ls s -> mstep mode s l s' -> mrun mode s0 (ls ++ [l]) s'.

(** ** The atomic machine *)

Inductive op := OWork (w : work) | ORevoke.

Definition work_step (mode : ControlMode) (w : work) (st : ViewerState)
    : ViewerState * list pty_call :=
  match w with
  | WFrame f =>
    if decide (vf_seq f <= floor st (vf_viewer f))%Z then (st, [])
    else (frame_viewers mode f st, checked_calls f st)
  | WLeave route => (forgetViewer route st, [])
  | WDown => (clearControlOwner st, [])
  end.

Definition op_step (mode : ControlMode) (o : op) (st : ViewerState) : ViewerState * list pty_call :=
  match o with OWork w => work_step mode w st | ORevoke => ((revoke_section st).2, []) end.

Fixpoint op_run (mode : ControlMode) (ops : list op) (st : ViewerState)
    : ViewerState * list pty_call :=
  match ops with
  | [] => (st, [])
  | o :: ops =>
    let '(st, cs) := op_step mode o st in
    let '(st, cs') := op_run mode ops st in (st, cs ++ cs')
  end.

Definition works (ops : list op) : list work :=
  omap (fun o => match o with OWork w => Some w | ORevoke => None end) ops.
#[export] Instance op_is_revoke_dec (o : op) : Decision (o = ORevoke).
Proof. destruct o; [by right|by left]. Defined.

Definition revokes (ops : list op) : nat := length (filter (fun o => o = ORevoke) ops).

(** What a run has read, and how many revocations it has seen. *)
Definition read_works (ls : list label) : list work :=
  omap (fun l => match l with LRead w => Some w | _ => None end) ls.
Definition revoked (l : label) : nat := match l with LRevoke => 1 | _ => 0 end.
Definition revocations (ls : list label) : nat := sum_list_with revoked ls.

(** ** Lemmas *)

Lemma op_run_app mode ops ops' st :
  op_run mode (ops ++ ops') st
  = let '(st1, cs) := op_run mode ops st in
    let '(st2, cs') := op_run mode ops' st1 in (st2, cs ++ cs').
Proof.
  revert st. induction ops as [|o ops IH]; intros st; simpl.
  - by destruct (op_run mode ops' st).
  - destruct (op_step mode o st) as [st1 cs]. rewrite IH.
    destruct (op_run mode ops st1) as [st2 cs2]. destruct (op_run mode ops' st2) as [st3 cs3].
    by rewrite (assoc_L (++)).
Qed.

Lemma op_run_snoc mode ops o st st' cs :
  op_run mode ops st = (st', cs) ->
  op_run mode (ops ++ [o]) st = ((op_step mode o st').1, cs ++ (op_step mode o st').2).
Proof.
  intros H. rewrite op_run_app, H. simpl. destruct (op_step mode o st'). simpl.
  by rewrite app_nil_r.
Qed.

Lemma works_app a b : works (a ++ b) = works a ++ works b.
Proof. apply omap_app. Qed.
Lemma read_works_app a b : read_works (a ++ b) = read_works a ++ read_works b.
Proof. apply omap_app. Qed.
Lemma revokes_app a b : revokes (a ++ b) = revokes a + revokes b.
Proof. unfold revokes. by rewrite filter_app, length_app. Qed.
Lemma revocations_app a b : revocations (a ++ b) = revocations a + revocations b.
Proof. apply sum_list_with_app. Qed.

(** Revoking commutes with the sections before a frame's check. *)
Lemma revoke_accept v seq st :
  (revoke_section (acceptSeq v seq st).2).2 = (acceptSeq v seq (revoke_section st).2).2.
Proof. unfold revoke_section, acceptSeq, floor, set_owner. simpl. repeat (case_decide; simpl in *); done. Qed.

Lemma revoke_bind r v st :
  (revoke_section (bindRoute r v st)).2 = bindRoute r v (revoke_section st).2.
Proof. unfold revoke_section, bindRoute, set_owner. simpl. by case_decide. Qed.

Lemma revoke_floor st v : floor (revoke_section st).2 v = floor st v.
Proof. unfold revoke_section. simpl. by case_decide. Qed.

(** The frame in progress, with its first section done. *)
Definition fresh (f : viewer_frame) (st : ViewerState) : Prop :=
  (floor st (vf_viewer f) < vf_seq f)%Z.
Definition accepted (f : viewer_frame) (st : ViewerState) : ViewerState :=
  (acceptSeq (vf_viewer f) (vf_seq f) st).2.
Definition bound (f : viewer_frame) (st : ViewerState) : ViewerState :=
  bindRoute (vf_route f) (vf_viewer f) (accepted f st).

(** How a state of a run stands to the operations it amounts to: between frames
    they agree; a frame before its check has not happened yet; a frame past its
    check has happened, calls included. *)
Definition stands (mode : ControlMode) (s0 : mstate) (ls : list label) (s : mstate)
    (ops : list op) : Prop :=
  exists st cs, op_run mode ops (m_vs s0) = (st, cs) /\ revokes ops = revocations ls /\
    match m_pc s with
    | PIdle => works ops = read_works ls /\ m_vs s = st /\ m_calls s = m_calls s0 ++ cs
    | PBind f => works ops ++ [WFrame f] = read_works ls /\ fresh f st /\ m_vs s = accepted f st /\
                 m_calls s = m_calls s0 ++ cs
    | PServe f => works ops ++ [WFrame f] = read_works ls /\ fresh f st /\ m_vs s = bound f st /\
                  m_calls s = m_calls s0 ++ cs
    | PCall calls => works ops = read_works ls /\ m_vs s = st /\ m_calls s ++ calls = m_calls s0 ++ cs
    end.

Lemma frame_done mode ops st0 f st cs ws :
  op_run mode ops st0 = (st, cs) -> works ops ++ [WFrame f] = ws -> fresh f st ->
  op_run mode (ops ++ [OWork (WFrame f)]) st0 = (frame_viewers mode f st, cs ++ checked_calls f st) /\
  works (ops ++ [OWork (WFrame f)]) = ws /\ revokes (ops ++ [OWork (WFrame f)]) = revokes ops.
Proof.
  intros Hr <- Hf. split; [|split].
  - rewrite (op_run_snoc _ _ _ _ _ _ Hr). unfold fresh in Hf. simpl. by rewrite decide_False by lia.
  - by rewrite works_app.
  - rewrite revokes_app. unfold revokes at 2. simpl. lia.
Qed.

Lemma checked_calls_bound f st : checked_calls f (bound f st) = checked_calls f st.
Proof. unfold checked_calls, bound, accepted. by rewrite viewerHasControl_accept. Qed.

(** A request that is not input or a resize calls nothing. *)
Lemma checked_calls_none f st :
  match frame_request f with RInput _ | RResize _ _ => False | _ => True end ->
  checked_calls f st = [].
Proof. unfold checked_calls. intros H. destruct (frame_request f); try done; by case_match. Qed.

Lemma snoc_label mode ops st0 o st cs ls l ws :
  op_run mode ops st0 = (st, cs) -> works ops ++ works [o] = read_works ls ++ ws ->
  read_works [l] = ws -> revokes ops = revocations ls -> revokes [o] = revocations [l] ->
  (op_step mode o st).2 = [] ->
  op_run mode (ops ++ [o]) st0 = ((op_step mode o st).1, cs) /\
  works (ops ++ [o]) = read_works (ls ++ [l]) /\ revokes (ops ++ [o]) = revocations (ls ++ [l]).
Proof.
  intros Hr Hw <- Hv Hl Hc. rewrite (op_run_snoc _ _ _ _ _ _ Hr), Hc, app_nil_r.
  by rewrite works_app, read_works_app, revokes_app, revocations_app, Hw, Hv, Hl.
Qed.

Lemma revoke_fresh f st : fresh f st -> fresh f (revoke_section st).2.
Proof. unfold fresh. by rewrite revoke_floor. Qed.

(** Every step keeps the correspondence. *)
Lemma mstep_stands mode s0 ls s l s' ops :
  stands mode s0 ls s ops -> mstep mode s l s' -> exists ops', stands mode s0 (ls ++ [l]) s' ops'.
Proof.
  intros (stA & csA & Hr & Hv & Hs) Hstep.
  assert (forall l, revoked l = 0 -> revokes ops = revocations (ls ++ [l])) as Hv0.
  { intros l1 Hl. rewrite revocations_app, Hv. simpl. lia. }
  assert (forall l, read_works [l] = [] -> read_works (ls ++ [l]) = read_works ls) as Hw0.
  { intros l1 Hl. by rewrite read_works_app, Hl, app_nil_r. }
  destruct Hstep; simpl in Hs.
  - (* a fresh frame *)
    destruct Hs as (Hw & <- & Hc). exists ops, st, csA. split; [done|]. split; [by apply Hv0|]. simpl.
    rewrite read_works_app, Hw. split; [done|]. unfold fresh, accepted.
    rewrite H. revert H. unfold acceptSeq. case_decide; [done|]. intros _. split; [lia|done].
  - (* a stale frame *)
    destruct Hs as (Hw & <- & Hc).
    exists (ops ++ [OWork (WFrame f)]), st', csA. revert H. unfold acceptSeq. case_decide; [|done].
    intros [= <-]. rewrite (op_run_snoc _ _ _ _ _ _ Hr). simpl. rewrite decide_True, app_nil_r by done.
    split; [done|]. rewrite works_app, read_works_app, Hw, revokes_app, revocations_app, Hv. done.
  - destruct Hs as (Hw & <- & Hc). exists (ops ++ [OWork (WLeave route)]). eexists _, csA.
    rewrite (op_run_snoc _ _ _ _ _ _ Hr). simpl. rewrite app_nil_r. split; [done|].
    by rewrite works_app, read_works_app, Hw, revokes_app, revocations_app, Hv.
  - destruct Hs as (Hw & <- & Hc). exists (ops ++ [OWork WDown]). eexists _, csA.
    rewrite (op_run_snoc _ _ _ _ _ _ Hr). simpl. rewrite app_nil_r. split; [done|].
    by rewrite works_app, read_works_app, Hw, revokes_app, revocations_app, Hv.
  - (* bindRoute *)
    destruct Hs as (Hw & Hf & -> & Hc). exists ops, stA, csA. split; [done|]. split; [by apply Hv0|].
    simpl. by rewrite Hw0.
  - (* the check *)
    destruct Hs as (Hw & Hf & -> & Hc).
    destruct (frame_done _ _ _ _ _ _ _ Hr Hw Hf) as (H1 & H2 & H3).
    eexists _, _, _. split; [exact H1|]. split; [rewrite H3; by apply Hv0|]. simpl.
    rewrite H2, Hw0, checked_calls_bound, Hc, (assoc_L (++)) by done. split; [done|]. split; [|done].
    unfold frame_viewers. by destruct (frame_request f).
  - destruct Hs as (Hw & Hf & -> & Hc).
    destruct (frame_done _ _ _ _ _ _ _ Hr Hw Hf) as (H1 & H2 & H3).
    eexists _, _, _. split; [exact H1|]. split; [rewrite H3; apply Hv0; by destruct granted|]. simpl.
    rewrite H2, Hw0 by (by destruct granted). rewrite checked_calls_none by (by rewrite H).
    rewrite app_nil_r. split; [done|]. split; [|done].
    unfold frame_viewers, request_viewers. rewrite H. fold (accepted f stA). fold (bound f stA).
    by rewrite H0.
  - destruct Hs as (Hw & Hf & -> & Hc).
    destruct (frame_done _ _ _ _ _ _ _ Hr Hw Hf) as (H1 & H2 & H3).
    eexists _, _, _. split; [exact H1|]. split; [rewrite H3; by apply Hv0|]. simpl.
    rewrite H2, Hw0, checked_calls_none, app_nil_r by (by rewrite ?H). split; [done|]. split; [|done].
    unfold frame_viewers, request_viewers. by rewrite H.
  - destruct Hs as (Hw & Hf & -> & Hc).
    destruct (frame_done _ _ _ _ _ _ _ Hr Hw Hf) as (H1 & H2 & H3).
    eexists _, _, _. split; [exact H1|]. split; [rewrite H3; by apply Hv0|]. simpl.
    rewrite H2, Hw0, checked_calls_none, app_nil_r by (by rewrite ?H). split; [done|]. split; [|done].
    unfold frame_viewers, request_viewers. by rewrite H.
  - (* the call *)
    destruct Hs as (Hw & <- & Hc). exists ops, st, csA. split; [done|]. split; [by apply Hv0|]. simpl.
    by rewrite Hw0.
  - (* a revocation *)
    exists (ops ++ [ORevoke]). eexists _, _. rewrite (op_run_snoc _ _ _ _ _ _ Hr). simpl op_step.
    rewrite app_nil_r. split; [reflexivity|].
    rewrite revokes_app, revocations_app, Hv. split; [done|]. simpl m_pc. simpl m_vs. simpl m_calls.
    rewrite works_app, app_nil_r, Hw0 by done.
    destruct p; destruct Hs as (Hw & Hs); (split; [done|]); simpl in *.
    + by destruct Hs as [-> ?].
    + destruct Hs as (Hf & -> & Hc). split; [by apply revoke_fresh|]. split; [|done].
      unfold accepted. apply revoke_accept.
    + destruct Hs as (Hf & -> & Hc). split; [by apply revoke_fresh|]. split; [|done].
      unfold bound, accepted. etrans; [apply revoke_bind|]. f_equal. apply revoke_accept.
    + by destruct Hs as [-> ?].
Qed.

Lemma mrun_stands mode s0 ls s :
  m_pc s0 = PIdle -> mrun mode s0 ls s -> exists ops, stands mode s0 ls s ops.
Proof.
  intros Hpc. induction 1 as [|ls s l s' _ [ops IH] Hs]; [|by eapply mstep_stands].
  exists []. exists (m_vs s0), []. split; [done|]. split; [done|]. rewrite Hpc.
  by rewrite app_nil_r.
Qed.

(** The viewers and the call in progress. *)
Definition in_flight (s : mstate) : list pty_call := match m_pc s with PCall cs => cs | _ => [] end.

Definition named (f : viewer_frame) : Prop := vf_viewer f <> [].
Definition work_named (w : work) : Prop := match w with WFrame f => named f | _ => True end.
Definition pc_named (p : pc) : Prop := match p with PBind f | PServe f => named f | _ => True end.
Definition state_named (s : mstate) : Prop := Forall work_named (m_work s) /\ pc_named (m_pc s).

Lemma mstep_named mode s l s' : mstep mode s l s' -> state_named s -> state_named s'.
Proof. destruct 1; intros [Hw Hp]; split; simpl in *; try done; by apply Forall_cons in Hw as [? ?]. Qed.

(** With nobody in control and no grant, a step only ever makes the call already
    decided on, and nobody is in control after it. *)
Lemma mstep_unowned mode s l s' :
  mstep mode s l s' -> state_named s -> controlOwner (m_vs s) = [] -> l <> LGrant ->
  controlOwner (m_vs s') = [] /\
  (m_calls s' = m_calls s /\ (in_flight s' = in_flight s \/ in_flight s' = []) \/
   m_calls s' = m_calls s ++ in_flight s /\ in_flight s' = []).
Proof.
  intros Hstep [Hw Hp] Ho Hl.
  destruct Hstep; simpl in *; unfold in_flight; simpl.
  - revert H. unfold acceptSeq. case_decide; intros [= <-]; auto.
  - revert H. unfold acceptSeq. case_decide; intros [= <-]; auto.
  - split; [|auto]. unfold forgetViewer. repeat case_match; simpl; repeat case_decide; done.
  - auto.
  - auto.
  - split; [done|]. left. split; [done|]. right. unfold checked_calls, viewerHasControl.
    rewrite Ho. by rewrite bool_decide_eq_false_2 by (intros E; by apply Hp).
  - destruct granted; [done|]. split; [|auto]. revert H0. unfold request_section.
    repeat case_decide; try (by intros [= _ <-]); by intros [= _ H0 _].
  - split; [|auto]. unfold release_section. by case_decide.
  - auto.
  - auto.
  - split; [|by destruct p; auto]. unfold revoke_section. simpl. by case_decide.
Qed.

(** Any number of steps. *)
Lemma mrun_unowned mode s0 ls s :
  mrun mode s0 ls s -> state_named s0 -> controlOwner (m_vs s0) = [] -> LGrant ∉ ls ->
  state_named s /\ controlOwner (m_vs s) = [] /\
  (m_calls s = m_calls s0 /\ (in_flight s = in_flight s0 \/ in_flight s = []) \/
   m_calls s = m_calls s0 ++ in_flight s0 /\ in_flight s = []).
Proof.
  induction 1 as [|ls s l s' _ IH Hs]; intros Hn Ho Hl; [by eauto 7|].
  apply not_elem_of_app in Hl as [Hl1 Hl2].
  destruct IH as (IHn & IHo & IHc); [done..|].
  destruct (mstep_unowned _ _ _ _ Hs IHn IHo) as [Ho' Hc]; [intros ->; by apply Hl2, list_elem_of_here|].
  split; [by eapply mstep_named|]. split; [done|].
  destruct IHc as [[Hc0 [Hf|Hf]]|[Hc0 Hf]]; rewrite Hc0, Hf, ?app_nil_r in Hc; tauto.
Qed.

(** How many steps the reader has left: at most three and a call per frame. *)
Definition pc_size (p : pc) : nat := match p with PIdle => 0 | PBind _ => 3 | PServe _ => 2 | PCall _ => 1 end.
Definition steps_left (s : mstate) : nat := 4 * length (m_work s) + pc_size (m_pc s) + m_signals s.

Lemma mstep_decreases mode s l s' : mstep mode s l s' -> steps_left s' < steps_left s.
Proof. destruct 1; unfold steps_left; simpl; lia. Qed.

(** Until the work is done, some step is enabled. *)
Lemma mstep_enabled mode s :
  (m_work s = [] /\ m_pc s = PIdle /\ m_signals s = 0) \/ exists l s', mstep mode s l s'.
Proof.
  destruct s as [st ws p n cs]. simpl. destruct p as [|f|f|calls].
  - destruct ws as [|[f|route|] ws].
    + destruct n as [|n]; [by left|right]. do 2 eexists. apply MRevoke.
    + right. destruct (acceptSeq (vf_viewer f) (vf_seq f) st) as [[] st'] eqn:E;
        do 2 eexists; [by apply MFresh|by apply MStale].
    + right. do 2 eexists. apply MLeave.
    + right. do 2 eexists. apply MDown.
  - right. do 2 eexists. apply MBind.
  - right. destruct (frame_request f) eqn:E.
    + do 2 eexists. apply MCheck. by rewrite E.
    + do 2 eexists. apply MCheck. by rewrite E.
    + destruct (request_section mode (vf_viewer f) (vf_route f) st) as [[b g] st'] eqn:R.
      do 2 eexists. by eapply MRequest.
    + do 2 eexists. by apply MRelease.
    + do 2 eexists. by apply MIgnore.
  - right. do 2 eexists. apply MCall.
Qed.

(** ** The handlers as operations *)

Section Code.
Context `{P : Primitives} `{E : Env}.

(** The operation an event of the orchestrator is, if any. *)
Definition op_of (o : Orchestrator) (e : event) : option op :=
  match e, conn o with
  | EvMessage false data, Some _ => (fun f => OWork (WFrame f)) <$> read_frame (v2r o) data
  | EvMessage true data, Some _ =>
    m ← unmarshal_relay_msg data;
    if decide (msg_t m = str "peer_left") then Some (OWork (WLeave (msg_viewer_id m))) else None
  | EvDisconnect, Some _ => Some (OWork WDown)
  | EvRevoke, _ => Some ORevoke
  | _, _ => None
  end.

Fixpoint ops_of (es : list event) (o : Orchestrator) : list op :=
  match es with
  | [] => []
  | e :: es => option_list (op_of o e) ++ ops_of es (state_of (step e) o)
  end.

Lemma request_calls v r st s :
  (request_session v r st s).2 = if viewerHasControl v st then requested_calls r else [].
Proof.
  destruct r; simpl; try (by case_match).
  case_match; [|done]. unfold SetSize. by case_decide.
Qed.

(** One event is its operation. *)
Lemma step_op e o :
  (vs (state_of (step e) o), if is_message e then pty_calls (effects_of (step e) o) else [])
  = op_run (mode_of o) (option_list (op_of o e)) (vs o).
Proof.
  rewrite step_vs, step_pty. destruct e as [|text data| | | | | | | | | |]; simpl; try done.
  - destruct (conn o); simpl; [|by destruct text]. destruct text; simpl.
    + destruct (unmarshal_relay_msg data) as [m|]; [|done]. simpl. unfold relay_after. simpl.
      by case_decide.
    + destruct (read_frame (v2r o) data) as [f|]; [|done]. simpl. unfold frame_after.
      case_decide; [done|]. simpl. by rewrite app_nil_r, request_calls.
  - by destruct (conn o).
  - by case_decide.
Qed.

Lemma run_ops es o :
  op_run (mode_of o) (ops_of es o) (vs o) = (vs (state_of (run es) o), viewer_calls es o).
Proof.
  revert o. induction es as [|e es IH]; intros o; [done|]. simpl ops_of.
  rewrite op_run_app, <- step_op, <- (mode_step e o), IH, run_cons_state. done.
Qed.

End Code.

(** ** A race *)

(** The phone, in control, types; the host revokes. *)
Definition race_frame : viewer_frame := demo_vf (str "r1") (str "phone") 2 KindInput (str "ls").
Definition race_vs : ViewerState := set_owner (str "phone") (str "r1") viewers0.
Definition race (p : pc) (n : nat) (cs : list pty_call) : mstate := mkMState race_vs [] p n cs.

Definition race_end : ViewerState :=
  (op_run ControlAuto [ORevoke; OWork (WFrame race_frame)] race_vs).1.

(** The revocation between the frame's two first sections: nothing is typed. *)
Lemma race_denied :
  mrun ControlAuto (mkMState race_vs [WFrame race_frame] PIdle 1 [])
    [LRead (WFrame race_frame); LRevoke; LSection; LCheck; LCall []]
    (mkMState race_end [] PIdle 0 []).
Proof.
  eapply (mrun_snoc _ _ [_; _; _; _] _ (LCall [])); [|exact (MCall _ _ _ _ [] [])].
  eapply (mrun_snoc _ _ [_; _; _] _ LCheck); 
    [|exact (MCheck _ race_end race_frame [] 0 [] I)].
  eapply (mrun_snoc _ _ [_; _] _ LSection); 
    [|exact (MBind _ (revoke_section (accepted race_frame race_vs)).2 race_frame [] 0 [])].
  eapply (mrun_snoc _ _ [_] _ LRevoke); 
    [|exact (MRevoke _ (accepted race_frame race_vs) [] (PBind race_frame) 0 [])].
  eapply (mrun_snoc _ _ [] _ _); [constructor|by apply MFresh].
Qed.

(** The revocation just after the check: the call still lands. *)
Lemma race_lands :
  exists s1, mstep ControlAuto (race (PCall [PtyWrite (str "ls")]) 1 []) LRevoke s1 /\
    mrun ControlAuto s1 [LCall [PtyWrite (str "ls")]]
      (mkMState (revoke_section race_vs).2 [] PIdle 0 [PtyWrite (str "ls")]).
Proof.
  eexists. split; [apply MRevoke|].
  eapply (mrun_snoc _ _ [] _ _); [constructor|]. apply (MCall _ _ _ _ []).
Qed.

(** ** Properties *)

(** C7. The critical sections of concurrent goroutines amount to atomic
    handlers.  However the sections of the socket's reader, its calls on the
    pty and the host's revocations interleave, when the reader is between two
    frames the viewer state and the calls made are those of running whole
    handlers one at a time, on the same frames in the same order and with as
    many revocations. *)
Theorem concurrent_sections_are_atomic mode s0 ls s :
  m_pc s0 = PIdle -> mrun mode s0 ls s -> m_pc s = PIdle ->
  exists ops cs,
    op_run mode ops (m_vs s0) = (m_vs s, cs) /\ m_calls s = m_calls s0 ++ cs /\
    works ops = read_works ls /\ revokes ops = revocations ls.
Proof.
  intros H0 Hr Hpc. destruct (mrun_stands _ _ _ _ H0 Hr) as (ops & st & cs & Ho & Hv & Hs).
  rewrite Hpc in Hs. destruct Hs as (Hw & -> & Hc). by exists ops, cs.
Qed.

Lemma concurrent_sections_are_atomic_witness :
  exists ops cs, works ops = [WFrame race_frame] /\ revokes ops = 1 /\ cs = [] /\
    (op_run ControlAuto ops race_vs).2 = cs.
Proof.
  destruct (concurrent_sections_are_atomic ControlAuto (mkMState race_vs [WFrame race_frame] PIdle 1 [])
    _ _ eq_refl race_denied eq_refl) as (ops & cs & Ho & Hc & Hw & Hr).
  exists ops, cs. simpl in Ho, Hc. by rewrite Ho.
Defined.

(** The atomic machine is the handlers: over any events, the viewer state of
    the orchestrator and everything viewers do to the pty are those of the
    operations its messages, teardowns and revocations amount to. *)
Theorem handlers_are_the_operations `{E : Env} es o :
  op_run (mode_of o) (ops_of (P := go_crypto) es o) (vs o)
  = (vs (state_of (run es) o), viewer_calls es o).
Proof. apply run_ops. Qed.

(** C9. What a revocation can still let through: after it, until control is
    granted again, the pty sees at most the call of one frame, which had passed
    its check before the revocation and was on its way. *)
Theorem revocation_lets_one_call_finish mode s0 s1 ls s :
  state_named s0 -> mstep mode s0 LRevoke s1 -> mrun mode s1 ls s -> LGrant ∉ ls ->
  controlOwner (m_vs s) = [] /\
  (m_calls s = m_calls s0 \/ m_calls s = m_calls s0 ++ in_flight s0).
Proof.
  intros Hn Hs Hr Hl. pose proof (mstep_named _ _ _ _ Hs Hn) as Hn1.
  assert (controlOwner (m_vs s1) = [] /\ m_calls s1 = m_calls s0 /\ in_flight s1 = in_flight s0)
    as (Ho & Hc & Hf).
  { inversion Hs; subst; simpl; try (by destruct granted). split; [|done].
    unfold revoke_section. simpl. destruct (decide _) as [|H]; [done|]. by apply dec_stable. }
  destruct (mrun_unowned _ _ _ _ Hr Hn1 Ho Hl) as (_ & Ho' & Hcs). rewrite Hc, Hf in Hcs.
  split; [done|]. tauto.
Qed.

Lemma revocation_lets_one_call_finish_witness :
  exists s1, mstep ControlAuto (race (PCall [PtyWrite (str "ls")]) 1 []) LRevoke s1 /\
    controlOwner (revoke_section race_vs).2 = [].
Proof.
  destruct race_lands as (s1 & H1 & H2). exists s1. split; [done|].
  refine (proj1 (revocation_lets_one_call_finish _ _ _ _ _ _ H1 H2 _)).
  - by split; [constructor|].
  - by intros [?|[]%elem_of_nil]%elem_of_cons.
Defined.

(** The reader never gets stuck and never runs on: in every state with work
    left some step is enabled, and a run takes at most as many steps as the
    work, the place in the handler and the pending signals allow, so every
    maximal run ends with the work done. *)
Theorem sections_terminate mode s0 ls s :
  mrun mode s0 ls s ->
  length ls <= steps_left s0 /\
  ((forall l s', ~ mstep mode s l s') -> m_work s = [] /\ m_pc s = PIdle /\ m_signals s = 0).
Proof.
  intros Hr. split.
  - assert (length ls + steps_left s <= steps_left s0); [|lia].
    induction Hr as [|ls s l s' _ IH Hs]; [simpl; lia|].
    apply mstep_decreases in Hs. rewrite length_app. simpl. lia.
  - intros Hstuck. destruct (mstep_enabled mode s) as [|(l & s' & Hs)]; [done|].
    by destruct (Hstuck l s').
Qed.

Lemma sections_terminate_witness :
  5 <= steps_left (mkMState race_vs [WFrame race_frame] PIdle 1 []).
Proof. exact (proj1 (sections_terminate _ _ _ _ race_denied)). Defined.
