(* ===== verification/Goroutines.v ===== *)
(** * Goroutines: what holds however the goroutines interleave

    The invariant of every world a session's goroutines can reach, atom by
    atom, and where the calls on the pty come from, in the logic of Threads.
    Only the goroutine that serves connections grants control, counts viewers,
    binds routes and replaces connections; the others leave all that as it is,
    but for Revoke, which may clear the owner. *)
From S2P Require Import Prelude Wire Encodings Crypto StdCrypto Ring Screen Session.
From S2P Require Import Control Json Orch Sender Handlers Traces Atoms Threads Access Refine.
From S2P Require Import Scenario Authority Invariant Outbound Interleave.
From Stdlib Require Import Strings.Byte.

Section Goroutines.
Context `{E : Env}.
(** The orchestrator the session starts with. *)
Context (o0 : Orchestrator).

(** ** The invariant *)

(** What holds of the orchestrator's fields. *)
Record host_ok (o : Orchestrator) : Prop := {
  ho_conn : conn o = None;                       (* connections are in the heap *)
  ho_cfg : cfg o = cfg o0 /\ v2r o = v2r o0 /\ r2v o = r2v o0;
  ho_viewers : wf_viewers (mode_of o) (vs o);
  ho_count : (- 2 ^ 31 <= viewers o < 2 ^ 31)%Z;
  ho_size : size_known (sess o);
  ho_exit : exitCode o = (-1)%Z \/ exists code, sess_state (sess o) = Some code /\ exitCode o = i32 code;
  ho_seq : (0 <= outSeq o < 2 ^ 64)%Z
}.

(** The queues keep within their capacity, and the only text ever queued is the
    bye. *)
Record queues_ok (c : connState) : Prop := {
  qo_send : length (c_send c) <= sendQueue;
  qo_join : length (c_join c) <= sendQueue;
  qo_bye : Forall (fun m => om_text m = true -> m = bye_message) (c_send c)
}.

Record world_ok (w : world) : Prop := {
  wo_host : host_ok (w_orch w);
  wo_queues : Forall queues_ok (w_heap w);
  (* o.conn is serveConn's connection, or nil *)
  wo_cur : w_cur w = None \/ w_cur w = w_serving w;
  wo_serving : forall i, w_serving w = Some i -> i < length (w_heap w);
  (* the single-sender invariant across reconnects *)
  wo_senders : forall i c, w_heap w !! i = Some c -> c_running c = true -> w_serving w = Some i;
  (* between connections nobody is counted, in control or bound to a route *)
  wo_idle : w_serving w = None ->
            viewers (w_orch w) = 0%Z /\ controlOwner (vs (w_orch w)) = [] /\ selfByRoute (vs (w_orch w)) = ∅
}.

(** ** What the threads do to the world *)

Record calm (o o' : Orchestrator) : Prop := {
  ca_viewers : viewers o' = viewers o;
  ca_routes : selfByRoute (vs o') = selfByRoute (vs o);
  ca_floors : floors_le (vs o) (vs o');
  ca_owner : controlOwner (vs o') = controlOwner (vs o) \/ controlOwner (vs o') = []
}.

(** Senders only stop. *)
Definition senders_stop (h h' : list connState) : Prop :=
  length h' = length h /\
  forall i c', h' !! i = Some c' -> c_running c' = true -> exists c, h !! i = Some c /\ c_running c = true.

Record quiet (w w' : world) : Prop := {
  qu_host : calm (w_orch w) (w_orch w');
  qu_cur : w_cur w' = w_cur w;
  qu_serving : w_serving w' = w_serving w;
  qu_senders : senders_stop (w_heap w) (w_heap w')
}.

Definition rely (t : thread) (w w' : world) : Prop := t = TServe -> quiet w w'.
Definition guar (t : thread) (w w' : world) : Prop :=
  floors_le (vs (w_orch w)) (vs (w_orch w')) /\ (t <> TServe -> quiet w w').

(** ** Where a viewer's call comes from *)

(** The goroutine that serves connections took up no other task meanwhile, and
    nothing it did had an effect. *)
Definition silent (a : action) : Prop :=
  match a with Begin TServe _ => False | Atom TServe es => es = [] | _ => True end.
Definition same_task (past : history) : Prop := Forall (fun m => silent m.1) past.

(** It is at work on the message [data]. *)
Definition begun (data : bytes) (past : history) : Prop :=
  exists past1 w1 past2,
    past = past1 ++ (Begin TServe (EvMessage false data), w1) :: past2 /\ same_task past2.

(** And has found the frame [f] in it above its sender's floor, which it raised
    to the frame's number. *)
Definition accepted (data : bytes) (f : viewer_frame) (past : history) : Prop :=
  exists past1 wa a w past2,
    past = past1 ++ (Atom TServe [], wa) :: (a, w) :: past2 /\ begun data past1 /\
    same_task ((a, w) :: past2) /\
    (floor (vs (w_orch wa)) (vf_viewer f) < vf_seq f <= floor (vs (w_orch w)) (vf_viewer f))%Z.

(** And then its sender in control. *)
Definition checked (data : bytes) (f : viewer_frame) (past : history) : Prop :=
  exists past1 wc past2,
    past = past1 ++ (Atom TServe [], wc) :: past2 /\ accepted data f past1 /\ same_task past2 /\
    controlOwner (vs (w_orch wc)) = vf_viewer f.

(** A call that a frame asked for, after these checks. *)
Definition justified (past : history) (c : pty_call) : Prop :=
  exists data f, read_frame (v2r o0) data = Some f /\ checked data f past /\
    c ∈ requested_calls (frame_request f).

(** Who calls what. *)
Definition allowed (t : thread) (past : history) (e : effect) : Prop :=
  match e, t with
  | EPty c, TServe => justified past c
  | EPty c, TInput => exists p, c = PtyWrite p
  | EPty c, TResize => exists cols rows, c = PtySetsize cols rows
  | EPty c, (TExit | TCancel) => c = PtySigterm \/ c = PtyClose
  | EWrite _ _ _, TSend _ => True
  | ELocal _, TPump => True
  | ENotify _ _, (TServe | TRevoke) => True
  | _, _ => False
  end.

(** What a thread knows in the middle of a task: serveConn's, that its
    connection is still the one it started with. *)
Definition known (t : thread) (i : nat) : knowledge :=
  fun _ w => t = TServe -> w_serving w = Some i.

Abbreviation leads := (Threads.leads world_ok rely guar allowed).
Abbreviation safe := (Threads.safe world_ok rely guar allowed).
Abbreviation stable := (Threads.stable rely).

(** ** Lemmas *)

#[local] Hint Extern 0 (floors_le _ _) => reflexivity : core.

Lemma floors_same st st' : (forall v, floor st' v = floor st v) -> floors_le st st'.
Proof. intros H v. by rewrite H. Qed.

Lemma senders_stop_refl h : senders_stop h h.
Proof. split; [done|]. eauto. Qed.

Lemma quiet_refl w : quiet w w.
Proof. split; [split; auto|done|done|apply senders_stop_refl]. Qed.

Lemma guar_refl t w : guar t w w.
Proof. split; [done|]. intros _. apply quiet_refl. Qed.

Lemma known_stable t i : stable t (known t i).
Proof. intros past w a w' Hk Hr _ Ht. by rewrite (qu_serving _ _ (Hr Ht)), Hk. Qed.

Lemma calm_refl o : calm o o.
Proof. split; auto. Qed.

(** An atom on the orchestrator's fields. *)
Lemma leads_atomic {A} t (K : knowledge) (m : M A) (Q : A -> knowledge) :
  (forall a, stable t (Q a)) ->
  (forall past w, world_ok w -> K past w ->
    wp m (fun a o' es =>
      host_ok o' /\ (calm (w_orch w) o' \/ t = TServe /\ is_Some (w_serving w) /\ floors_le (vs (w_orch w)) (vs o')) /\
      Forall (allowed t past) es /\
      Q a (past ++ [(Atom t es, w)]) (mkWorld o' (w_heap w) (w_cur w) (w_serving w))) (w_orch w)) ->
  leads t K (atomic m) Q.
Proof.
  intros Hs Hm k Hk. constructor. intros past w w' es p Hw HK Ha.
  pose proof (Hm past w Hw HK) as H. unfold wp in H. destruct (m (w_orch w)) as [[a o'] es'] eqn:Ho.
  simplify_eq. destruct H as (H1 & H2 & H3 & H4). pose proof Hw as [_ W2 W3 W4 W5 W6].
  split_and!; [| |done|by exists (Q a)].
  - split; simpl; try done. intros Hn. destruct H2 as [[C1 C2 _ C3]|[_ [[? Hc] _]]]; [|congruence].
    rewrite C1, C2. destruct (W6 Hn) as (-> & E2 & ->). split_and!; [done| |done]. destruct C3 as [-> | ->]; done.
  - destruct H2 as [Hc|[-> [_ Hf]]]; (split; [by apply Hc || done|]); [|by intros []].
    intros _. split; simpl; [done..|apply senders_stop_refl].
Qed.

(** The same, when nothing is learnt. *)
Lemma leads_known {A} t i (m : M A) :
  (forall past o, host_ok o ->
    wp m (fun _ o' es => host_ok o' /\ (calm o o' \/ t = TServe /\ floors_le (vs o) (vs o')) /\ Forall (allowed t past) es) o) ->
  leads t (known t i) (atomic m) (fun _ => known t i).
Proof.
  intros Hm. apply leads_atomic; [intros; apply known_stable|]. intros past w Hw HK.
  eapply wp_mono; [apply Hm, Hw|]. intros a o' es (H1 & H2 & H3). split_and!; [done| |done|done].
  destruct H2 as [H2|[Ht Hf]]; [by left|right]. split; [done|]. split; [|done]. rewrite (HK Ht). by eexists.
Qed.

(** An atom on a connection. *)
Record conn_moves (c c' : connState) : Prop := {
  cm_queues : queues_ok c -> queues_ok c';
  cm_stops : c_running c' = true -> c_running c = true
}.

Lemma leads_chan {A} t i j (m : M A) :
  (forall o c, conn o = Some c -> wp m (fun _ o' es =>
    es = [] /\ exists n c', o' = set_coins n (set_conn (Some c') o) /\ conn_moves c c') o) ->
  (forall o, conn o = None -> wp m (fun _ o' es => es = [] /\ o' = o) o) ->
  leads t (known t i) (chan j m) (fun _ => known t i).
Proof.
  intros Hm Hn k Hk. constructor. intros past w w' es p Hw HK Ha. pose proof Hw as [W1 W2 W3 W4 W5 W6].
  assert (host_ok (w_orch w) /\ set_conn None (w_orch w) = w_orch w) as [_ Hw0].
  { split; [done|]. pose proof (ho_conn _ W1) as H. revert H. destruct (w_orch w). simpl. by intros ->. }
  unfold focus in Ha. simpl in Ha. destruct (w_heap w !! j) as [c|] eqn:Hj.
  - pose proof (Hm (set_conn (Some c) (w_orch w)) c eq_refl) as H. unfold wp in H.
    destruct (m _) as [[a o'] es']. destruct H as (-> & n & c' & -> & [M1 M2]). simplify_eq.
    assert (j < length (w_heap w)) as Hlt by (by eapply lookup_lt_Some).
    split_and!; [| |done|].
    + split; simpl; try done.
      * destruct W1 as [H1 H2 H3 H4 H5 H6 H7]. by split.
      * apply Forall_insert; [done|]. apply M1. by eapply Forall_lookup_1.
      * intros i' Hi'. rewrite length_insert. by apply W4.
      * intros i' c1 Hi'. destruct (decide (i' = j)) as [->|Hne].
        -- rewrite list_lookup_insert_eq in Hi' by done. simplify_eq. intros H. by eapply W5, M2.
        -- rewrite list_lookup_insert_ne in Hi' by done. by apply W5.
    + split; [done|]. intros _. split; simpl; [split; auto|done|done|]. split; [apply length_insert|].
      intros i' c1 Hi' Hr'. destruct (decide (i' = j)) as [->|Hne].
      * rewrite list_lookup_insert_eq in Hi' by done. simplify_eq. eauto.
      * rewrite list_lookup_insert_ne in Hi' by done. eauto.
    + exists (known t i). split; [apply known_stable|]. split; [done|apply Hk].
  - pose proof (Hn (set_conn None (w_orch w)) eq_refl) as H. unfold wp in H.
    destruct (m _) as [[a o'] es']. destruct H as (-> & ->). simplify_eq.
    assert (unfocus (Some j) (set_conn None (w_orch w)) w = w) as ->.
    { unfold unfocus. simpl. rewrite set_conn_twice, Hw0. by destruct w. }
    split_and!; [done|apply guar_refl|done|].
    exists (known t i). split; [apply known_stable|]. split; [done|apply Hk].
Qed.

(** *** Queueing and notices, for any thread *)

Lemma leads_load t i (p : option nat -> part unit) :
  (forall c, leads t (known t i) (p c) (fun _ => known t i)) ->
  leads t (known t i) (c ← load_conn; p c) (fun _ => known t i).
Proof.
  intros Hp k Hk. constructor. intros past w w' es q Hw HK Ha. unfold load_conn in Ha. simplify_eq/=.
  split_and!; [done|apply guar_refl|done|].
  exists (known t i). split; [apply known_stable|]. split; [done|]. by apply Hp.
Qed.

Lemma modify_conn_moves f o c :
  conn o = Some c -> conn_moves c (f c) ->
  wp (modify_conn f) (fun _ o' es => es = [] /\ exists n c', o' = set_coins n (set_conn (Some c') o) /\ conn_moves c c') o.
Proof.
  intros Hc Hf. unfold wp, modify_conn, modify. rewrite Hc. split; [done|].
  exists (coins o), (f c). split; [by destruct o|done].
Qed.

Lemma leads_modify_conn t i j f :
  (forall c, conn_moves c (f c)) ->
  leads t (known t i) (chan j (modify_conn f)) (fun _ => known t i).
Proof.
  intros Hf. apply leads_chan.
  - intros o c Hc. by apply modify_conn_moves.
  - intros o Hc. unfold wp, modify_conn, modify. by rewrite Hc.
Qed.

Lemma push_moves m c :
  length (c_send c) < sendQueue -> (om_text m = true -> m = bye_message) -> conn_moves c (push_send m c).
Proof.
  intros Hlt Hm. split; [|done]. intros [H1 H2 H3]. split; simpl; [rewrite length_app; simpl; lia|done|].
  apply Forall_app. by split; [|constructor].
Qed.

Lemma same_moves c : conn_moves c c.
Proof. by split. Qed.

Lemma leads_enqueue t i m :
  (om_text m = true -> m = bye_message) -> leads t (known t i) (enqueue_atoms m) (fun _ => known t i).
Proof.
  intros Hm. apply leads_load. intros [j|]; [|apply (leads_ret _ _ _ _ _ tt (fun _ => known t i))].
  eapply leads_bind.
  - apply leads_chan.
    + intros o c Hc. unfold offer. apply wp_bind, wp_gets. rewrite Hc.
      destruct (decide (length (c_send c) < sendQueue)) as [Hlt|Hlt];
        [rewrite bool_decide_true by done|rewrite bool_decide_false by done]; destruct (c_done c).
      * unfold draw_coin, wp, mbind, M_bind, modify_conn, modify. simpl.
        destruct (coin (coins o)); simpl; (split; [done|]).
        -- rewrite Hc. exists (S (coins o)), (push_send m c). split; [done|by apply push_moves].
        -- exists (S (coins o)), c. split; [rewrite <- Hc; by destruct o|apply same_moves].
      * apply wp_bind. eapply wp_mono; [apply (modify_conn_moves _ o c Hc); by apply push_moves|].
        intros [] o' es [-> H]. by split.
      * split; [done|]. exists (coins o), c. split; [rewrite <- Hc; by destruct o|apply same_moves].
      * split; [done|]. exists (coins o), c. split; [rewrite <- Hc; by destruct o|apply same_moves].
    + intros o Hc. unfold offer. apply wp_bind, wp_gets. by rewrite Hc.
  - intros []; [|apply (leads_ret _ _ _ _ _ tt (fun _ => known t i))]. apply leads_modify_conn.
    intros c. split; [|done]. by intros [H1 H2 H3].
Qed.

(** An atom that only reads. *)
Lemma leads_gets {A} t i (f : Orchestrator -> A) :
  leads t (known t i) (atomic (gets f)) (fun _ => known t i).
Proof. apply leads_known. intros past o Ho. split_and!; [done|left; apply calm_refl|done]. Qed.

Lemma leads_mret {A} t i (a : A) : leads t (known t i) (mret a) (fun _ => known t i).
Proof. apply (leads_ret _ _ _ _ _ a (fun _ => known t i)). Qed.

Lemma leads_tell t i es :
  (forall past, Forall (allowed t past) es) -> leads t (known t i) (atomic (tell es)) (fun _ => known t i).
Proof. intros He. apply leads_known. intros past o Ho. split_and!; [done|left; apply calm_refl|done]. Qed.

Lemma leads_note t i s : t = TServe \/ t = TRevoke -> leads t (known t i) (note_atoms s) (fun _ => known t i).
Proof.
  intros Ht. unfold note_atoms. eapply leads_bind; [apply leads_gets|]. intros []; [|apply leads_mret].
  eapply leads_bind; [apply leads_gets|]. intros alt. eapply leads_bind.
  - instantiate (1 := fun _ => known t i). destruct alt; [apply leads_mret|apply leads_gets].
  - intros busy. apply leads_tell. intros past. constructor; [|done]. by destruct Ht as [-> | ->].
Qed.

Lemma leads_seq {A B} t i (p : part A) (f : A -> part B) :
  leads t (known t i) p (fun _ => known t i) -> (forall a, leads t (known t i) (f a) (fun _ => known t i)) ->
  leads t (known t i) (p ≫= f) (fun _ => known t i).
Proof. intros Hp Hf. by eapply leads_bind. Qed.

(** Walks through binds and matches. *)
Ltac leading :=
  repeat (cbv beta zeta;
  lazymatch goal with
  | |- Threads.leads _ _ _ _ _ _ (mbind _ _) _ => apply leads_seq; [|intros ?]
  | |- Threads.leads _ _ _ _ _ _ (mret _) _ => apply leads_mret
  | |- Threads.leads _ _ _ _ _ _ (enqueue_atoms _) _ => apply leads_enqueue; done
  | |- Threads.leads _ _ _ _ _ _ (note_atoms _) _ => apply leads_note; by auto
  | |- Threads.leads _ _ _ _ _ _ (atomic (gets _)) _ => apply leads_gets
  | |- Threads.leads _ _ _ _ _ _ (match ?x with _ => _ end) _ => destruct x
  end).

(** An update that touches neither the viewer state nor what the invariant
    speaks of. *)
Lemma host_ok_sess o s :
  host_ok o -> size_known s -> sess_state s = sess_state (sess o) -> host_ok (set_sess s o).
Proof. intros [H1 H2 H3 H4 H5 H6 H7] Hk Hs. split; simpl; try done. by rewrite Hs. Qed.

Lemma SetSize_calls s cols rows c : c ∈ (SetSize s cols rows).2 -> c = PtySetsize cols rows.
Proof. unfold SetSize. case_decide; simpl; [by intros ?%elem_of_nil|by intros ?%list_elem_of_singleton]. Qed.

(** SetSize, with calls that the thread may make. *)
Lemma leads_set_size t (K K' : knowledge) i cols rows :
  (forall past w s, K past w -> K' (past ++ [(Atom t [], w)])
     (mkWorld (set_sess s (w_orch w)) (w_heap w) (w_cur w) (w_serving w))) -> stable t K' ->
  (forall past w c, K' past w -> c ∈ (SetSize (mkSession 0 0 None) cols rows).2 -> allowed t past (EPty c)) ->
  (forall past w, K' past w -> known t i past w) -> (forall past w, K past w -> known t i past w) ->
  leads t K (set_size_atoms cols rows) (fun _ => known t i).
Proof.
  intros HK Hst Hal Hk' Hk. unfold set_size_atoms.
  eapply (leads_bind _ _ _ _ _ _ _ _ (fun cs past w => cs = (SetSize (mkSession 0 0 None) cols rows).2 /\ K' past w)).
  - apply leads_atomic; [intros a past w act w' [-> H] Hr Ha; split; [done|by eapply Hst]|].
    intros past w Hw H. unfold wp, mbind, M_bind, gets, modify, mret, M_ret. simpl.
    split_and!.
    + apply host_ok_sess; [apply Hw|apply SetSize_known, Hw|apply SetSize_state].
    + left. split; auto.
    + done.
    + unfold SetSize. by case_decide.
    + by eapply HK.
  - intros cs. apply leads_atomic; [intros; apply known_stable|]. intros past w Hw [-> H].
    split_and!; [apply Hw|left; apply calm_refl| |].
    + apply Forall_fmap, Forall_forall. intros c Hc. by eapply Hal.
    + intros Ht. by apply (Hk' _ _ H).
Qed.

Lemma leads_pumpOutput i chunk : leads TPump (known TPump i) (pumpOutput_atoms chunk) (fun _ => known TPump i).
Proof.
  unfold pumpOutput_atoms, screen_atoms, emit_atoms. leading.
  - apply leads_known. intros past o Ho. unfold wp, mbind, M_bind, gets, modify, mret, M_ret. simpl.
    split_and!; [|left; split; auto|done]. destruct Ho as [H1 H2 H3 H4 H5 H6 H7]. by split.
  - apply leads_known. intros past o Ho. unfold wp, modify. 
    split_and!; [|left; split; auto|done]. destruct Ho as [H1 H2 H3 H4 H5 H6 H7]. by split.
  - apply leads_known. intros past o Ho. unfold wp, mbind, M_bind, gets, tell, skip, mret, M_ret.
    destruct (Config_LocalOut (cfg o)); split_and!; try done; try (left; apply calm_refl). by constructor.
  - apply leads_known. intros past o Ho. unfold wp, modify.
    split_and!; [|left; split; auto|done]. destruct Ho as [H1 H2 H3 H4 H5 H6 H7]. by split.
Qed.

Lemma leads_pumpInput i p : leads TInput (known TInput i) (pumpInput_atoms p) (fun _ => known TInput i).
Proof.
  apply leads_known. intros past o Ho. unfold wp, mbind, M_bind, gets, sess_write, skip, mret, M_ret, tell.
  destruct (Config_LocalIn (cfg o)); split_and!; try done; try (left; apply calm_refl).
  constructor; [by eexists|done].
Qed.

Lemma leads_keepalive i : leads TKeepalive (known TKeepalive i) keepalive_atoms (fun _ => known TKeepalive i).
Proof. unfold keepalive_atoms, emit_atoms. leading. Qed.

Lemma leads_Resize i cols rows :
  leads TResize (known TResize i) (Resize_atoms cols rows) (fun _ => known TResize i).
Proof.
  unfold Resize_atoms, emit_atoms. leading.
  apply (leads_set_size _ _ (known TResize i)); [done|apply known_stable| |done|done].
  intros past w c _ ->%SetSize_calls. by do 2 eexists.
Qed.

Lemma revoke_calm o : calm o (set_vs (revoke_section (vs o)).2 o).
Proof.
  split; simpl; [done|by unfold revoke_section; simpl; case_decide|apply floors_same; intros; apply revoke_section_floor|].
  unfold revoke_section. simpl. case_decide; auto.
Qed.

Lemma leads_Revoke i : leads TRevoke (known TRevoke i) Revoke_atoms (fun _ => known TRevoke i).
Proof.
  unfold Revoke_atoms, emitToViewer_atoms. leading.
  apply leads_known. intros past o Ho. apply wp_with_viewers.
  split_and!; [|left; apply revoke_calm|done].
  destruct Ho as [H1 H2 H3 H4 H5 H6 H7]. split; simpl; try done. by apply revoke_section_wf.
Qed.

Lemma leads_exit i code : leads TExit (known TExit i) (exit_watcher_atoms code) (fun _ => known TExit i).
Proof.
  unfold exit_watcher_atoms, signalExit_atoms, emit_atoms, emitText_atoms. leading.
  - apply leads_known. intros past o Ho. unfold wp, mbind, M_bind, gets, modify, mret, M_ret, skip. simpl.
    pose proof Ho as [H1 H2 H3 H4 H5 H6 H7].
    case_bool_decide as Hs; (split_and!; [|left; split; auto|done]); [|done]. split; simpl; try done.
    destruct H6 as [|(code' & Hc & _)]; [by left|congruence].
  - apply leads_known. intros past o Ho. unfold wp, modify.
    split_and!; [|left; split; auto|done]. destruct Ho as [H1 H2 H3 H4 H5 H6 H7]. split; simpl; try done.
    unfold ExitCode. destruct (sess_state (sess o)) as [code'|]; simpl; [right; by eexists|by left].
Qed.

Lemma leads_shutdown t i :
  t = TExit \/ t = TCancel -> leads t (known t i) shutdown_atoms (fun _ => known t i).
Proof.
  intros Ht. apply leads_known. intros past o Ho. unfold wp, shutdown, mbind, M_bind, gets, modify, tell, skip, mret, M_ret.
  destruct (terminated o); simpl; (split_and!; [|left; split; auto|]); try done.
  - destruct Ho as [H1 H2 H3 H4 H5 H6 H7]. by split.
  - destruct Ht as [-> | ->]; (constructor; [by left|constructor; [by right|done]]).
Qed.

(** *** The sender *)

Lemma leads_writeMsg i j ok target kind payload :
  leads (TSend j) (known (TSend j) i) (writeMsg_atoms ok target kind payload) (fun _ => known (TSend j) i).
Proof.
  unfold writeMsg_atoms. leading.
  - apply leads_known. intros past o Ho. unfold wp, mbind, M_bind, gets, modify. simpl.
    split_and!; [|left; split; auto|done]. destruct Ho as [H1 H2 H3 H4 H5 H6 H7]. split; simpl; try done.
    apply Z.mod_pos_bound. lia.
  - apply leads_known. intros past o Ho. unfold wp, draw_rand.
    split_and!; [|left; split; auto|done]. destruct Ho as [H1 H2 H3 H4 H5 H6 H7]. by split.
  - apply leads_known. intros past o Ho. unfold wp, writeTargetFrame, writeText, mbind, M_bind, tell, mret, M_ret.
    split_and!; [done|left; apply calm_refl|by repeat constructor].
  - apply leads_known. intros past o Ho. unfold wp, mbind, M_bind, tell, mret, M_ret.
    split_and!; [done|left; apply calm_refl|by repeat constructor].
Qed.

Lemma leads_write_frames i j oks ms :
  leads (TSend j) (known (TSend j) i) (write_frames_atoms oks ms) (fun _ => known (TSend j) i).
Proof.
  revert oks. induction ms as [|m ms IH]; intros oks; simpl; [apply leads_mret|].
  destruct (next_ok oks) as [ok oks']. apply leads_seq; [apply leads_writeMsg|].
  intros []; [apply IH|apply leads_mret].
Qed.

Lemma leads_sendRepaint i j oks v :
  leads (TSend j) (known (TSend j) i) (sendRepaint_atoms oks v) (fun _ => known (TSend j) i).
Proof. unfold sendRepaint_atoms, repaintFrames_atoms. leading; apply leads_write_frames. Qed.

Lemma leads_fail i j : leads (TSend j) (known (TSend j) i) (fail_atoms j) (fun _ => known (TSend j) i).
Proof.
  unfold fail_atoms. leading; apply leads_modify_conn; intros c; (split; [by intros [H1 H2 H3]|done]).
Qed.

(** A select of the sender takes from the front of a queue, or stops. *)
Lemma leads_take {A} i j (m : M A) (f : connState -> option connState) :
  (forall o, exists a, m o = (a, match conn o with
                                 | Some c => match f c with Some c' => set_conn (Some c') o | None => o end
                                 | None => o
                                 end, [])) ->
  (forall c c', f c = Some c' -> conn_moves c c') ->
  leads (TSend j) (known (TSend j) i) (chan j m) (fun _ => known (TSend j) i).
Proof.
  intros Hm Hf. apply leads_chan.
  - intros o c Hc. destruct (Hm o) as [a Ha]. unfold wp. rewrite Ha, Hc. split; [done|].
    destruct (f c) as [c'|] eqn:Hfc; exists (coins o); [exists c'|exists c].
    + split; [by destruct o|by apply Hf].
    + split; [rewrite <- Hc; by destruct o|apply same_moves].
  - intros o Hc. destruct (Hm o) as [a Ha]. unfold wp. by rewrite Ha, Hc.
Qed.

Lemma leads_sender i j pick oks :
  leads (TSend j) (known (TSend j) i) (sender_atoms j pick oks) (fun _ => known (TSend j) i).
Proof.
  assert (forall b, leads (TSend j) (known (TSend j) i) (chan j (return_if b)) (fun _ => known (TSend j) i)) as Hret.
  { intros b. apply (leads_take _ _ _ (fun c => if c_running c && b c then Some (stop_sender c) else None)).
    - intros o. exists tt. unfold return_if, mbind, M_bind, gets, modify_conn, modify, skip, mret, M_ret. simpl.
      destruct (conn o) as [c|] eqn:Hc; [|done]. destruct (c_running c && b c); simpl; by rewrite ?Hc.
    - intros c c' H. case_match; simplify_eq. split; [by intros [H1 H2 H3]|done]. }
  destruct pick; simpl; [apply Hret|apply Hret| |].
  - apply leads_seq.
    + apply (leads_take _ _ _ (fun c => match c_running c, c_join c with true, v :: j => Some (set_join j c) | _, _ => None end)).
      * intros o. unfold take_join, mbind, M_bind, gets, modify_conn, modify, skip, mret, M_ret. simpl.
        destruct (conn o) as [c|] eqn:Hc; [|by eexists].
        destruct (c_running c), (c_join c); eexists; simpl; by rewrite ?Hc.
      * intros c c' H. destruct (c_running c) eqn:Hr, (c_join c) eqn:Hj; simplify_eq.
        split; simpl; [|done]. intros [H1 H2 H3]. rewrite Hj in H2. split; simpl in *; [done|lia|done].
    + intros [v|]; [|apply leads_mret]. apply leads_seq; [apply leads_sendRepaint|].
      intros r. destruct (r.1); [apply leads_mret|apply leads_fail].
  - apply leads_seq.
    + apply (leads_take _ _ _ (fun c => match c_running c, c_send c with true, m :: q => Some (set_send q c) | _, _ => None end)).
      * intros o. unfold take_send, mbind, M_bind, gets, modify_conn, modify, skip, mret, M_ret. simpl.
        destruct (conn o) as [c|] eqn:Hc; [|by eexists].
        destruct (c_running c), (c_send c); eexists; simpl; by rewrite ?Hc.
      * intros c c' H. destruct (c_running c) eqn:Hr, (c_send c) eqn:Hj; simplify_eq.
        split; simpl; [|done]. intros [H1 H2 H3]. rewrite Hj in H1, H3. apply Forall_cons in H3 as [_ H3].
        split; simpl in *; [lia|done|done].
    + intros [m|]; [|apply leads_mret]. unfold send_case_atoms, writeText_atoms. destruct (om_text m).
      * apply leads_seq; [|intros []; [apply leads_mret|apply leads_fail]].
        apply leads_known. intros past o Ho. unfold wp, writeText, mbind, M_bind, tell, mret, M_ret.
        split_and!; [done|left; apply calm_refl|by repeat constructor].
      * apply leads_seq.
        { apply (leads_take _ _ _ (fun c => Some (set_dropped false c))).
          - intros o. exists (from_option c_dropped false (conn o)).
            unfold swap_dropped, mbind, M_bind, gets, modify_conn, modify, mret, M_ret. simpl.
            destruct (conn o) eqn:Hc; simpl; by rewrite ?Hc.
          - intros c c' [= <-]. split; [by intros [H1 H2 H3]|done]. }
        intros d. apply leads_seq; [destruct d; [apply leads_sendRepaint|apply leads_mret]|].
        intros r. destruct (r.1); [|apply leads_fail]. apply leads_seq; [apply leads_writeMsg|].
        intros []; [apply leads_mret|apply leads_fail].
Qed.

(** *** The goroutine that serves connections *)

Lemma same_task_snoc past a w : same_task past -> silent a -> same_task (past ++ [(a, w)]).
Proof. intros H Ha. apply Forall_app. split; [done|]. by repeat constructor. Qed.

(** What is known of the task in progress stays so until its first effect. *)
Definition lasts (H : history -> Prop) : Prop :=
  forall past a w, H past -> silent a -> H (past ++ [(a, w)]).

Lemma begun_lasts data : lasts (begun data).
Proof.
  intros past a w (past1 & w1 & past2 & -> & Hs) Ha. exists past1, w1, (past2 ++ [(a, w)]).
  rewrite <- (assoc_L (++)). split; [done|by apply same_task_snoc].
Qed.

Lemma accepted_lasts data f : lasts (accepted data f).
Proof.
  intros past a w (past1 & wa & a1 & w1 & past2 & -> & Hb & Hs & Hf) Ha.
  exists past1, wa, a1, w1, (past2 ++ [(a, w)]). rewrite <- (assoc_L (++)).
  split_and!; [done..|by apply (same_task_snoc (_ :: _))|lia|lia].
Qed.

Lemma checked_lasts data f : lasts (checked data f).
Proof.
  intros past a w (past1 & w1 & past2 & -> & Hb & Hs & Hf) Ha. exists past1, w1, (past2 ++ [(a, w)]).
  rewrite <- (assoc_L (++)). split_and!; [done..|by apply same_task_snoc|done].
Qed.

(** Right after acceptSeq. *)
Definition accepting (data : bytes) (f : viewer_frame) (past : history) (w : world) : Prop :=
  (exists past1 wa, past = past1 ++ [(Atom TServe [], wa)] /\ begun data past1 /\
     (floor (vs (w_orch wa)) (vf_viewer f) < vf_seq f <= floor (vs (w_orch w)) (vf_viewer f))%Z) \/
  accepted data f past.

Lemma accepting_moves data f past a w : accepting data f past w -> silent a -> accepted data f (past ++ [(a, w)]).
Proof.
  intros [(past1 & wa & -> & Hb & Hf)|H] Ha; [|by apply accepted_lasts].
  exists past1, wa, a, w, []. rewrite <- (assoc_L (++)). split_and!; [done|done|by repeat constructor|lia|lia].
Qed.

(** The actions of the others are silent. *)
Lemma others_silent a : actor a <> Some TServe -> silent a.
Proof. by destruct a as [[] ?|[] ?|]. Qed.

Definition serving (i : nat) (H : history -> Prop) : knowledge :=
  fun past w => w_serving w = Some i /\ H past.

Lemma serving_stable i H : lasts H -> stable TServe (serving i H).
Proof.
  intros HH past w a w' [Hs Hp] Hr Ha. split; [by rewrite (qu_serving _ _ (Hr eq_refl))|].
  apply HH; [done|]. by apply others_silent.
Qed.

Lemma serving_known {A} i H (p : part A) Q :
  leads TServe (known TServe i) p Q -> leads TServe (serving i H) p Q.
Proof. apply leads_weaken; [|done]. intros past w [Hs _] _. done. Qed.

Lemma wf_host o st : host_ok o -> wf_viewers (mode_of o) st -> host_ok (set_vs st o).
Proof. intros [H1 H2 H3 H4 H5 H6 H7] Hwf. by split. Qed.

Lemma leads_request i v r :
  v <> [] -> r <> [] ->
  leads TServe (known TServe i) (handleControlRequest_atoms v r) (fun _ => known TServe i).
Proof.
  intros Hv Hr. unfold handleControlRequest_atoms, emitToViewer_atoms. leading.
  apply leads_known. intros past o Ho. apply wp_bind, wp_gets, wp_with_viewers.
  split_and!; [|right; split; [done|]; apply floors_same; intros; apply request_section_floor|done].
  apply wf_host; [done|]. apply request_section_wf; [done..|apply Ho].
Qed.

Lemma leads_release i v r :
  leads TServe (known TServe i) (handleControlRelease_atoms v r) (fun _ => known TServe i).
Proof.
  unfold handleControlRelease_atoms, emitToViewer_atoms. leading.
  apply leads_known. intros past o Ho. apply wp_with_viewers.
  split_and!; [|right; split; [done|]; apply floors_same; intros; apply release_section_floor|done].
  apply wf_host; [done|]. apply release_section_wf, Ho.
Qed.

(** The switch of handleBinary, on an accepted frame. *)
Lemma leads_dispatch i data f :
  read_frame (v2r o0) data = Some f ->
  leads TServe (serving i (accepted data f))
    (dispatch_atoms (vf_viewer f) (vf_route f) (vf_kind f) (vf_payload f)) (fun _ => known TServe i).
Proof.
  intros Hf. pose proof (read_frame_ids _ _ _ Hf) as [Hr%valid_id_nonempty Hv%valid_id_nonempty].
  assert (leads TServe (serving i (accepted data f))
    (atomic (gets (fun o => viewerHasControl (vf_viewer f) (vs o))))
    (fun owns => serving i (if owns : bool then checked data f else accepted data f))) as Hcheck.
  { apply leads_atomic.
    - intros []; apply serving_stable; [apply checked_lasts|apply accepted_lasts].
    - intros past w Hw [Hs Ha]. unfold wp, gets. split_and!; [apply Hw|left; apply calm_refl|done|].
      split; [done|]. unfold viewerHasControl. case_bool_decide as Ho.
      + exists past, w, []. split_and!; [done..|constructor|done].
      + by apply accepted_lasts. }
  assert (frame_request f = request_of (vf_kind f) (vf_payload f)) as Hreq by done. unfold request_of in Hreq.
  unfold dispatch_atoms. repeat case_decide.
  - eapply leads_bind; [exact Hcheck|]. intros []; [|apply serving_known, leads_mret].
    apply leads_atomic; [intros; apply known_stable|]. intros past w Hw [Hs Hc].
    unfold wp, sess_write, mbind, M_bind, gets, tell.
    split_and!; [apply Hw|left; apply calm_refl| |by intros _].
    constructor; [|done]. exists data, f. rewrite Hreq. split_and!; [done..|]. apply list_elem_of_here.
  - eapply leads_bind; [exact Hcheck|]. intros []; [|apply serving_known, leads_mret].
    destruct (DecodeResize (vf_payload f)) as [[cols rows]|]; [|apply serving_known, leads_mret].
    apply (leads_set_size _ _ (serving i (checked data f))).
    + intros past w s [Hs Hc]. split; [done|]. by apply checked_lasts.
    + apply serving_stable, checked_lasts.
    + intros past w c [Hs Hc] Hin. exists data, f. rewrite Hreq. split_and!; [done..|].
      revert Hin. unfold requested_calls, SetSize. by case_decide.
    + by intros past w [Hs _] _.
    + by intros past w [Hs _] _.
  - by apply serving_known, leads_request.
  - apply serving_known, leads_release.
  - apply serving_known, leads_mret.
Qed.

#[local] Instance Cipher_eq_dec : EqDecision Cipher.
Proof. solve_decision. Defined.

Lemma leads_mret_serving i H : leads TServe (serving i H) (mret tt) (fun _ => known TServe i).
Proof. apply serving_known, leads_mret. Qed.

Lemma read_frame_seq c data f : read_frame c data = Some f -> (0 <= vf_seq f < 2 ^ 64)%Z.
Proof. by intros ((_ & _ & ?) & _)%read_frame_exactly. Qed.

(** From the message to the frame's own section. *)
Lemma leads_accepted i data f :
  read_frame (v2r o0) data = Some f ->
  leads TServe (serving i (begun data))
    (ok ← atomic (with_viewers (acceptSeq (vf_viewer f) (vf_seq f)));
     if ok : bool then
       atomic (modify_viewers (bindRoute (vf_route f) (vf_viewer f))) ;;
       dispatch_atoms (vf_viewer f) (vf_route f) (vf_kind f) (vf_payload f)
     else mret tt) (fun _ => known TServe i).
Proof.
  intros Hf. pose proof (read_frame_ids _ _ _ Hf) as [Hr%valid_id_nonempty Hv%valid_id_nonempty].
  eapply (leads_bind _ _ _ _ _ _ _ _ (fun (ok : bool) past w =>
    w_serving w = Some i /\ if ok then accepting data f past w else begun data past)).
  - apply leads_atomic.
    + intros ok past w a w' [Hs H] Hq Ha. split; [by rewrite (qu_serving _ _ (Hq eq_refl))|].
      pose proof (others_silent a Ha). destruct ok; [right; by apply accepting_moves|by apply begun_lasts].
    + intros past w Hw [Hs Hb]. apply wp_with_viewers.
      pose proof (acceptSeq_floors (vf_viewer f) (vf_seq f) (vs (w_orch w))) as Hle.
      split_and!; [|right; split; [done|]; split; [by eexists|done]|done|done|].
      * apply wf_host; [apply Hw|]. by apply acceptSeq_wf; [apply (read_frame_seq _ _ _ Hf)|apply Hw].
      * destruct (acceptSeq (vf_viewer f) (vf_seq f) (vs (w_orch w))) as [ok st] eqn:Ha. simpl.
        destruct ok; [|by apply begun_lasts]. left. exists past, w. apply acceptSeq_true in Ha.
        split_and!; [done|done|lia|simpl; lia].
  - intros [] ; [|apply leads_mret_serving].
    eapply (leads_bind _ _ _ _ _ _ _ _ (fun _ => serving i (accepted data f)));
      [|intros []; by apply leads_dispatch].
    apply leads_atomic; [intros; by apply serving_stable, accepted_lasts|].
    intros past w Hw [Hs Ha]. unfold wp, modify_viewers, modify.
    split_and!; [|right; split; [done|]; split; [by eexists|by apply floors_same]|done|].
    + apply wf_host; [apply Hw|]. apply bindRoute_wf; [done..|apply Hw].
    + split; [done|]. by apply accepting_moves.
Qed.

Lemma leads_handleBinary i data :
  leads TServe (serving i (begun data)) (handleBinary_atoms data) (fun _ => known TServe i).
Proof.
  unfold handleBinary_atoms.
  destruct (DecodeRelayViewerFrame data) as [[route box]|] eqn:E1; [|apply leads_mret_serving].
  eapply (leads_bind _ _ _ _ _ _ _ _ (fun c past w => c = v2r o0 /\ serving i (begun data) past w)).
  { apply leads_atomic.
    - intros c past w a w' [-> H] Hr Ha. split; [done|]. by eapply serving_stable; [apply begun_lasts|..].
    - intros past w Hw [Hs Hb]. unfold wp, gets. split_and!; [apply Hw|left; apply calm_refl|done| |].
      + apply (ho_cfg _ (wo_host _ Hw)).
      + split; [done|]. by apply begun_lasts. }
  intros c.
  assert (forall p : Cipher -> part unit,
    leads TServe (serving i (begun data)) (p (v2r o0)) (fun _ => known TServe i) ->
    leads TServe (fun past w => c = v2r o0 /\ serving i (begun data) past w) (p c) (fun _ => known TServe i)) as Hcase.
  { intros p Hp. destruct (decide (c = v2r o0)) as [->|Hne].
    - eapply leads_weaken; [| |exact Hp]; [by intros past w [_ ?]|done].
    - intros k Hk. destruct (p c k); constructor. by intros past w w' es q _ [? _]. }
  apply (Hcase (fun c => match Open c box with
    | Err _ => mret tt
    | Ok (seq, kind, payload) =>
      match DecodeViewerPayload payload with
      | Err _ => mret tt
      | Ok (viewerID, payload) =>
        ok ← atomic (with_viewers (acceptSeq viewerID seq));
        if ok : bool then
          atomic (modify_viewers (bindRoute route viewerID)) ;;
          dispatch_atoms viewerID route kind payload
        else mret tt
      end
    end)).
  destruct (Open (v2r o0) box) as [[[seq kind] inner]|] eqn:E2; [|apply leads_mret_serving].
  destruct (DecodeViewerPayload inner) as [[v p]|] eqn:E3; [|apply leads_mret_serving].
  apply (leads_accepted i data (mkFrame route v seq kind p)).
  unfold read_frame. by rewrite E1, E2, E3.
Qed.

(** The relay's own messages touch the count, the routes and the owner, and ask
    for no call. *)
Lemma signal_moves v c : conn_moves c (signal v c).
Proof.
  unfold signal. case_decide as Hl; [|apply same_moves].
  split; [|done]. intros [H1 H2 H3]. split; simpl; [done| |done]. rewrite length_app. simpl. lia.
Qed.

Lemma leads_count i n :
  (- 2 ^ 31 <= n < 2 ^ 31)%Z ->
  leads TServe (known TServe i) (atomic (modify (set_viewers n))) (fun _ => known TServe i).
Proof.
  intros Hn. apply leads_known. intros past o [H1 H2 H3 H4 H5 H6 H7]. unfold wp, modify.
  split_and!; [by split|right; by split|done].
Qed.

Lemma leads_handleControl i j data :
  leads TServe (known TServe i) (handleControl_atoms j data) (fun _ => known TServe i).
Proof.
  unfold handleControl_atoms, relay_msg_atoms. leading; try apply leads_count, i32_range;
    try (apply leads_modify_conn, signal_moves).
  apply leads_known. intros past o Ho. unfold wp, modify_viewers, modify.
  split_and!; [|right; split; [done|]; apply floors_same; intros; apply forgetViewer_floor|done].
  apply wf_host; [done|]. apply forgetViewer_wf, Ho.
Qed.

(** *** A connection's start and end *)

(** Knowledge of the world that the quiet atoms of the others leave alone. *)
Definition lasting (C : world -> Prop) : Prop := forall w w', quiet w w' -> C w -> C w'.

Lemma lasting_stable C : lasting C -> stable TServe (fun _ w => C w).
Proof. intros HC past w a w' H Hr _. eapply HC; [by apply Hr|done]. Qed.

Lemma leads_start :
  leads TServe (fun _ w => w_serving w = None) serveConn_start_atoms (fun _ _ w => True).
Proof.
  intros k Hk. constructor. intros past w w' es p Hw Hs Ha. rewrite Hs in Ha. simplify_eq/=.
  pose proof Hw as [W1 W2 W3 W4 W5 W6]. split_and!; [|by split; [|intros []]|done|].
  - split; simpl; try done.
    + apply Forall_app. split; [done|]. constructor; [|done]. by split; simpl; [unfold sendQueue; lia..|].
    + by right.
    + intros i [= <-]. rewrite length_app. simpl. lia.
    + intros i c Hi Hr. destruct (decide (i < length (w_heap w))) as [Hlt|Hge].
      * rewrite lookup_app_l in Hi by done. specialize (W5 _ _ Hi Hr). congruence.
      * f_equal. apply lookup_lt_Some in Hi. rewrite length_app in Hi. simpl in Hi. lia.
  - exists (fun _ _ => True). split; [done|]. split; [done|apply Hk].
Qed.

(** The end of serveConn, one fact after the other. *)
Definition dropped_conn (i : nat) (w : world) : Prop := w_serving w = Some i /\ w_cur w = None.
Definition stopped_conn (i : nat) (w : world) : Prop :=
  dropped_conn i w /\ forall c, w_heap w !! i = Some c -> c_running c = false.
Definition uncounted (i : nat) (w : world) : Prop := stopped_conn i w /\ viewers (w_orch w) = 0%Z.
Definition unowned (i : nat) (w : world) : Prop :=
  uncounted i w /\ controlOwner (vs (w_orch w)) = [] /\ selfByRoute (vs (w_orch w)) = ∅.

Lemma dropped_lasting i : lasting (dropped_conn i).
Proof. intros w w' [_ H2 H3 _] [H4 H5]. split; congruence. Qed.

Lemma stopped_lasting i : lasting (stopped_conn i).
Proof.
  intros w w' Hq [Hd Hs]. split; [by eapply dropped_lasting|]. intros c Hc.
  destruct (c_running c) eqn:Hr; [|done].
  destruct (qu_senders _ _ Hq) as [_ H]. destruct (H _ _ Hc Hr) as (c0 & H0 & H1). rewrite (Hs _ H0) in H1. done.
Qed.

Lemma uncounted_lasting i : lasting (uncounted i).
Proof.
  intros w w' Hq [Hs Hv]. split; [by eapply stopped_lasting|]. by rewrite (ca_viewers _ _ (qu_host _ _ Hq)).
Qed.

Lemma unowned_lasting i : lasting (unowned i).
Proof.
  intros w w' Hq (Hu & Ho & Hr). pose proof (qu_host _ _ Hq) as [C1 C2 _ C3].
  split; [by eapply uncounted_lasting|]. rewrite C2. split; [|done]. destruct C3 as [-> | ->]; done.
Qed.

Lemma leads_end i :
  leads TServe (known TServe i) (serveConn_end_atoms i) (fun _ _ _ => True).
Proof.
  unfold serveConn_end_atoms. eapply leads_bind.
  { apply (leads_modify_conn _ i). intros c. split; [by intros [H1 H2 H3]|done]. }
  intros []. eapply (leads_bind _ _ _ _ _ _ _ _ (fun _ _ w => dropped_conn i w)).
  { intros k Hk. constructor. intros past w w' es p Hw Hs Ha. simplify_eq.
    pose proof Hw as [W1 W2 W3 W4 W5 W6]. specialize (Hs eq_refl).
    assert ((if decide (w_cur w = Some i) then None else w_cur w) = None) as ->.
    { case_decide as Hc; [done|]. destruct W3 as [|W3]; [done|]. congruence. }
    split_and!; [|by split; [|intros []]|done|].
    - split; simpl; try done. by left.
    - eexists. split; [apply lasting_stable, dropped_lasting|]. by split; [|apply Hk]. }
  intros []. eapply (leads_bind _ _ _ _ _ _ _ _ (fun _ _ w => stopped_conn i w)).
  { intros k Hk. constructor. intros past w w' es p Hw Hs Ha.
    assert (w' = w /\ es = [] /\ p = k tt /\ stopped_conn i w) as (-> & -> & -> & Hs').
    { destruct (w_heap w !! i) as [c|] eqn:Hc; [destruct (c_running c) eqn:Hr|]; simplify_eq;
        (do 3 (split; [done|])); (split; [done|]); intros c'; rewrite Hc; [by intros [= <-]|done]. }
    split_and!; [done|apply guar_refl|done|].
    eexists. split; [apply lasting_stable, stopped_lasting|]. by split; [|apply Hk]. }
  intros []. eapply (leads_bind _ _ _ _ _ _ _ _ (fun _ _ w => uncounted i w)).
  { apply leads_atomic; [intros; apply lasting_stable, uncounted_lasting|].
    intros past w Hw Hs. unfold wp, modify. split_and!; [|right; split; [done|split; [|done]]|done|by split].
    - destruct Hw as [[H1 H2 H3 H4 H5 H6 H7] _ _ _ _ _]. by split.
    - destruct Hs as [[-> _] _]. by eexists. }
  intros []. eapply (leads_bind _ _ _ _ _ _ _ _ (fun _ _ w => unowned i w)).
  { apply leads_atomic; [intros; apply lasting_stable, unowned_lasting|].
    intros past w Hw Hs. unfold wp, modify_viewers, modify.
    split_and!; [|right; split; [done|split; [|by apply floors_same]]|done|by split].
    - apply wf_host; [apply Hw|]. apply clearControlOwner_wf, Hw.
    - destruct Hs as [[[-> _] _] _]. by eexists. }
  intros []. intros k Hk. constructor. intros past w w' es p Hw Hs Ha. simplify_eq.
  pose proof Hw as [W1 W2 W3 W4 W5 W6]. destruct Hs as ((((Hs & Hc) & Hr) & Hv) & Ho).
  split_and!; [|by split; [|intros []]|done|].
  - split; simpl; try done; [by left|]. intros j c Hj Hrun. specialize (W5 _ _ Hj Hrun).
    rewrite Hs in W5. simplify_eq. rewrite (Hr _ Hj) in Hrun. done.
  - exists (fun _ _ => True). split; [done|]. by split; [|apply Hk].
Qed.

(** ** The threads are safe *)

Lemma rely_guar t t' w w' : world_ok w -> guar t w w' -> t <> t' -> rely t' w w'.
Proof. intros _ Hg Hne Ht. apply Hg. congruence. Qed.

Lemma rely_refl t w : rely t w w.
Proof. intros _. apply quiet_refl. Qed.

Lemma clock_ok now w : world_ok w -> world_ok (clocked now w) /\ forall t, rely t w (clocked now w).
Proof.
  intros [W1 W2 W3 W4 W5 W6]. split; [|intros t _; split; simpl; [split; auto|done|done|apply senders_stop_refl]].
  split; simpl; try done. destruct W1 as [H1 H2 H3 H4 H5 H6 H7]. by split.
Qed.

Lemma known_safe t i p : t <> TServe ->
  leads t (known t i) p (fun _ => known t i) ->
  forall past w, exists K, stable t K /\ K past w /\ safe t K (proc_of p).
Proof.
  intros Ht Hp past w. exists (known t i). split; [apply known_stable|]. split; [by intros ?|]. by eapply leads_proc.
Qed.

Lemma tasks_safe t e past w :
  world_ok w -> takes_up t e w ->
  exists K, stable t K /\ K (past ++ [(Begin t e, w)]) w /\ safe t K (proc_of (task (held t w) e)).
Proof.
  intros Hw Ht. destruct t, e; try (by destruct Ht); simpl;
    try (apply (known_safe _ 0); [done|]);
    eauto using leads_pumpOutput, leads_pumpInput, leads_keepalive, leads_Resize, leads_Revoke, leads_exit,
      leads_shutdown, leads_sender.
  - destruct Ht as [i Hi]. rewrite Hi. destruct text.
    + exists (known TServe i). split; [apply known_stable|]. split; [by intros _|].
      eapply leads_proc, leads_handleControl.
    + exists (serving i (begun data)). split; [apply serving_stable, begun_lasts|]. split.
      * split; [done|]. exists past, w, []. by split; [|constructor].
      * eapply leads_proc, leads_handleBinary.
  - exists (fun _ w => w_serving w = None). split; [|split; [done|by eapply leads_proc, leads_start]].
    apply (lasting_stable (fun w => w_serving w = None)). intros w1 w2 Hq. by rewrite (qu_serving _ _ Hq).
  - destruct Ht as [i Hi]. rewrite Hi. exists (known TServe i). split; [apply known_stable|]. split; [by intros _|].
    eapply leads_proc, leads_end.
Qed.

(** ** The past, by index *)

(** A checked frame's task began, found its number fresh and raised the floor,
    and has been silent since. *)
Lemma checked_indices data f past :
  checked data f past ->
  exists b k wb wa a w,
    b < k /\ past !! b = Some (Begin TServe (EvMessage false data), wb) /\
    past !! k = Some (Atom TServe [], wa) /\ past !! S k = Some (a, w) /\
    (floor (vs (w_orch wa)) (vf_viewer f) < vf_seq f <= floor (vs (w_orch w)) (vf_viewer f))%Z /\
    forall m x, b < m -> past !! m = Some x -> silent x.1.
Proof.
  intros (p1 & wc & p2 & -> & (q1 & wa & a & w & q2 & -> & (r1 & wb & r2 & -> & Hr) & Hq & Hf) & Hp & _).
  set (rest := r2 ++ (Atom TServe [], wa) :: (a, w) :: q2 ++ (Atom TServe [], wc) :: p2).
  assert (Forall (fun m => silent m.1) rest) as Hs.
  { unfold rest. apply Forall_app. split; [done|]. constructor; [done|]. rewrite app_comm_cons.
    apply Forall_app. split; [done|]. by constructor. }
  assert ((((r1 ++ (Begin TServe (EvMessage false data), wb) :: r2) ++ (Atom TServe [], wa) :: (a, w) :: q2)
    ++ (Atom TServe [], wc) :: p2) = r1 ++ (Begin TServe (EvMessage false data), wb) :: rest) as ->.
  { unfold rest. by rewrite <- !(assoc_L (++)). }
  assert (forall n, (r1 ++ (Begin TServe (EvMessage false data), wb) :: rest) !! (length r1 + S n) = rest !! n) as Hl.
  { intros n. rewrite lookup_app_r by lia. by replace (length r1 + S n - length r1) with (S n) by lia. }
  exists (length r1), (length r1 + S (length r2)), wb, wa, a, w. split_and!; [lia|by apply list_lookup_middle| | |lia|lia|].
  - rewrite Hl. by apply list_lookup_middle.
  - replace (S (length r1 + S (length r2))) with (length r1 + S (length r2 + 1)) by lia.
    rewrite Hl. unfold rest. rewrite lookup_app_r by lia. by replace (length r2 + 1 - length r2) with 1 by lia.
  - intros m x Hm Hx. replace m with (length r1 + S (m - S (length r1))) in Hx by lia. rewrite Hl in Hx.
    by eapply (Forall_lookup_1 (fun m => silent m.1)).
Qed.

(** The atom at [i] makes the call [c] for the frame [f], which was authentic,
    accepted and its sender found in control before, within the same task. *)
Definition acts (y : system) (i : nat) (f : viewer_frame) (c : pty_call) : Prop :=
  exists es w data,
    y_past y !! i = Some (Atom TServe es, w) /\ EPty c ∈ es /\
    read_frame (v2r o0) data = Some f /\ checked data f (take i (y_past y)) /\
    c ∈ requested_calls (frame_request f).

(** Two calls: the later one is a later message's, with a higher number. *)
Lemma acts_rise y i j f f' c c' :
  (forall i a w, y_past y !! i = Some (a, w) -> forall j a' w', i <= j -> y_past y !! j = Some (a', w') ->
     floors_le (vs (w_orch w)) (vs (w_orch w'))) ->
  acts y i f c -> acts y j f' c' -> i < j -> vf_viewer f = vf_viewer f' -> (vf_seq f < vf_seq f')%Z.
Proof.
  intros Hord (es & w & data & Hi & Hc & _ & Hk & _) (es' & w' & data' & _ & _ & _ & Hk' & _) Hij Hv.
  apply checked_indices in Hk as (b0 & k & wb0 & wa0 & a & w1 & _ & _ & _ & Hw1 & Hf & _).
  apply checked_indices in Hk' as (b & k' & wb & wa & a1 & w2 & Hbk & Hb & Hwa & _ & Hf' & Hsil).
  apply lookup_take_Some in Hw1 as [Hw1 Hlt]. apply lookup_take_Some in Hwa as [Hwa _].
  apply lookup_take_Some in Hb as [Hb _].
  assert (i <= b) as Hib.
  { destruct (decide (i <= b)) as [|Hn]; [done|]. exfalso.
    assert (silent (Atom TServe es)) as Hs.
    { apply (Hsil i (Atom TServe es, w)); [lia|]. by apply lookup_take_Some. }
    simpl in Hs. rewrite Hs in Hc. by apply elem_of_nil in Hc. }
  pose proof (Hord _ _ _ Hw1 k' _ wa ltac:(lia) Hwa (vf_viewer f)) as Hle. rewrite Hv in *. lia.
Qed.

(** Every system the goroutines reach is sound. *)
Lemma reaches_ok y :
  world_ok (mkWorld o0 [] None None) -> reaches (launched o0) y ->
  Threads.sound world_ok rely guar allowed y.
Proof.
  intros Hi. eapply reaches_sound; [apply rely_guar|apply rely_refl|apply clock_ok|apply tasks_safe|].
  by apply launched_sound.
Qed.

End Goroutines.

(** Run's orchestrator, before its first connection. *)
Lemma New_world_ok `{E : Env} c s o :
  New c s = Ok o -> size_known s -> sess_state s = None -> world_ok o (mkWorld o [] None None).
Proof.
  intros H1 H2 H3. pose proof (New_inv c s o H1 H2 H3) as [[I1 I2 I3 I4] _ I5 I6].
  unfold New in H1. destruct (NewCipher (R2V (Config_Keys c)) _); [|done]. simpl in H1.
  destruct (NewCipher (V2R (Config_Keys c)) _); [|done]. simpl in H1. apply (inj Ok) in H1 as <-. simpl in *.
  split; simpl; try done; [|by left].
  split; simpl; try done. by left.
Qed.

Section Properties.
Context `{E : Env} (c : Config) (s : Session) (o : Orchestrator).
Context (HNew : New c s = Ok o) (Hsize : size_known s) (Hstate : sess_state s = None).

(** What the properties share. *)
Lemma reaches_allowed y i t es w :
  reaches (launched o) y -> y_past y !! i = Some (Atom t es, w) ->
  Forall (allowed o t (take i (y_past y))) es.
Proof.
  intros Hy Hi. destruct (reaches_ok o y (New_world_ok c s o HNew Hsize Hstate) Hy) as (_ & _ & H).
  eapply H. by rewrite <- (take_drop_middle _ _ _ Hi) at 1.
Qed.

Lemma reaches_floors y :
  reaches (launched o) y -> forall i a w, y_past y !! i = Some (a, w) ->
  forall j a' w', i <= j -> y_past y !! j = Some (a', w') -> floors_le (vs (w_orch w)) (vs (w_orch w')).
Proof.
  intros Hy i a w Hi.
  refine (proj2 (reaches_ordered (world_ok o) rely guar (allowed o) (rely_guar o) rely_refl (clock_ok o)
    (tasks_safe o) (fun w w' => floors_le (vs (w_orch w)) (vs (w_orch w'))) (launched o) y _ _ _ eq_refl Hy i a w Hi)).
  - split; [by intros w0|]. intros w0 w1 w2. apply (PreOrder_Transitive (R := floors_le)).
  - by intros t w0 w' [Hg _].
  - by intros now w0.
  - by apply launched_sound, (New_world_ok c s).
Qed.

Lemma reaches_world_ok y : reaches (launched o) y -> world_ok o (y_world y).
Proof. intros Hy. by destruct (reaches_ok o y (New_world_ok c s o HNew Hsize Hstate) Hy). Qed.

(** Nothing before the last check was a check of this viewer's after a
    revocation that left nobody in control. *)
Lemma checked_before data f i past :
  vf_viewer f <> [] ->
  (forall j a w, i <= j -> past !! j = Some (a, w) -> controlOwner (vs (w_orch w)) = [] \/ forall es, a <> Atom TServe es) ->
  checked data f past -> checked data f (take i past) /\ same_task (drop i past).
Proof.
  intros Hv Hno (past1 & wc & past2 & -> & Ha & Hs & Ho).
  assert (length past1 < i) as Hlt.
  { destruct (decide (length past1 < i)) as [|Hge]; [done|]. exfalso.
    destruct (Hno (length past1) (Atom TServe []) wc) as [H|H]; [lia|by apply list_lookup_middle|congruence|by eapply H]. }
  rewrite take_app_ge, drop_app_ge by lia.
  destruct (i - length past1) as [|n] eqn:Hn; [lia|]. simpl. split.
  - exists past1, wc, (take n past2). split_and!; try done. by apply Forall_take.
  - by apply Forall_drop.
Qed.

(** C12. Every world the goroutines can reach is well formed.  Between any two
    atoms, whatever the interleaving: the viewer state obeys the host's policy
    (an owner has a route, nobody owns control under view-only, under once an
    owner means the grant is spent), ids and floors are in range, the queues of
    every connection ever made hold at most 256 entries and no plain text but
    the bye, o.conn is nil or the connection being served, a sender runs only
    for the connection being served (one sender at a time, across
    reconnects), with no connection nobody is counted, bound to a route or in
    control, the terminal size is unset or has two non-zero sides, the sequence
    counter is a uint64, and the exit code is -1 or the child's. *)
Theorem reachable_worlds_are_well_formed y : reaches (launched o) y -> world_ok o (y_world y).
Proof. apply reaches_world_ok. Qed.

(** C4. Every call on the pty, at the atom that makes it, has a source that is
    entitled to it, and a viewer's calls have rising numbers.  The goroutine
    that reads the relay calls it only for a message in progress that is an
    authentic frame, after the atom that found its number above its sender's
    floor and raised the floor to it and, later, an atom that found its sender
    in control, and only what the frame asks for; of two such calls for the
    same viewer the later has the higher number, so a frame acts at most once
    and never after a later one.  The input pump only writes, the SIGWINCH
    watcher only sets the size, the exit and cancellation watchers only
    terminate and close; no other goroutine calls it.  Other goroutines' atoms
    may run anywhere in between. *)
Theorem every_pty_call_was_checked y :
  reaches (launched o) y ->
  (forall i t es w call,
    y_past y !! i = Some (Atom t es, w) -> EPty call ∈ es ->
    match t with
    | TServe => exists f, acts o y i f call
    | TInput => exists p, call = PtyWrite p
    | TResize => exists cols rows, call = PtySetsize cols rows
    | TExit | TCancel => call = PtySigterm \/ call = PtyClose
    | _ => False
    end) /\
  (forall i j f f' c c',
    acts o y i f c -> acts o y j f' c' -> i < j -> vf_viewer f = vf_viewer f' -> (vf_seq f < vf_seq f')%Z).
Proof.
  intros Hy. split.
  - intros i t es w call Hi Hc. pose proof (reaches_allowed y i t es w Hy Hi) as H.
    rewrite Forall_forall in H. pose proof (H _ Hc) as Ha. destruct t; try done.
    destruct Ha as (data & f & Hf & Hk & Hin). exists f, es, w, data. by split_and!.
  - intros i j f f' c0 c'. apply acts_rise. intros i0 a w Hi. by apply (reaches_floors y Hy i0 a w Hi).
Qed.


End Properties.

(** *** A phone takes control, types, and is revoked between the check and the
    call. *)
Definition race_schedule : list move := [
  Take TServe EvConnect; Go TServe 1;
  Take TServe (demo_msg (str "r1") (str "phone") 1 KindCtrlReq []); Go TServe 10;
  Take TServe (demo_msg (str "r1") (str "phone") 2 KindInput (str "ls")); Go TServe 4;
  Take TRevoke EvRevoke; Go TRevoke 3; Go TServe 1].
Definition race : system := default (launched (demo ControlAuto)) (schedule race_schedule (launched (demo ControlAuto))).

Lemma race_reached : reaches (launched (demo ControlAuto)) race.
Proof.
  unfold race. destruct (schedule race_schedule _) as [y|] eqn:Hs; [by eapply schedule_reaches|constructor].
Qed.

Lemma demo_size_known : size_known demo_session.
Proof. by right. Qed.

Lemma past_entry (past : history) i a : fst <$> past !! i = Some a -> exists w, past !! i = Some (a, w).
Proof. destruct (past !! i) as [[a' w]|]; [|done]. intros [= ->]. by exists w. Qed.

Lemma reachable_worlds_are_well_formed_witness : world_ok (demo ControlAuto) (y_world race).
Proof.
  apply (reachable_worlds_are_well_formed (demo_cfg ControlAuto) demo_session (demo ControlAuto)
    (New_demo ControlAuto) demo_size_known eq_refl race race_reached).
Defined.

Lemma every_pty_call_was_checked_witness :
  exists f, acts (demo ControlAuto) race 22 f (PtyWrite (str "ls")).
Proof.
  destruct (past_entry (y_past race) 22 (Atom TServe [EPty (PtyWrite (str "ls"))])) as [w Hw];
    [vm_compute; reflexivity|].
  apply (proj1 (every_pty_call_was_checked (demo_cfg ControlAuto) demo_session (demo ControlAuto)
    (New_demo ControlAuto) demo_size_known eq_refl race race_reached) 22 TServe _ w _ Hw).
  by left.
Defined.


