(* ===== verification/Races.v ===== *)
(** * Races: what the order of two goroutines' atoms decides

    Schedules the program has, for every state they can start from. *)
From S2P Require Import Prelude Wire Encodings Crypto StdCrypto Ring Screen Session.
From S2P Require Import Control Json Orch Sender Handlers Traces Atoms Threads Access Refine.
From S2P Require Import Scenario Authority Invariant Goroutines.
From stdpp Require Import functions.
From Stdlib Require Import Strings.Byte.

(** ** Reaching a world *)

Section Code.
Context `{E : Env}.

(** From [y] the system can reach a world in which [Q] holds. *)
Definition can (y : system) (Q : world -> Prop) : Prop := exists y', reaches y y' /\ Q (y_world y').

(** [code'] is [code] but for the code of [t]. *)
Definition moved (t : thread) (p : proc) (code code' : thread -> proc) : Prop :=
  code' t = p /\ forall t', t' <> t -> code' t' = code t'.

Lemma moved_insert t p code : moved t p code (<[ t := p ]> code).
Proof. split; [apply fn_lookup_insert|]. intros t' H. by apply fn_lookup_insert_ne. Qed.

Lemma can_now w code past (Q : world -> Prop) : Q w -> can (mkSystem w code past) Q.
Proof. intros H. eexists. split; [constructor|done]. Qed.

Lemma can_step y y' Q : ystep y y' -> can y' Q -> can y Q.
Proof.
  intros H (y'' & Hr & HQ). exists y''. split; [|done].
  eapply reaches_trans; [|exact Hr]. eapply reaches_step; [constructor|done].
Qed.

Lemma can_begin t e w code past Q :
  code t = Done -> takes_up t e w ->
  (forall code' past', moved t (proc_of (task (held t w) e)) code code' -> can (mkSystem w code' past') Q) ->
  can (mkSystem w code past) Q.
Proof. intros H1 H2 H. eapply can_step; [by apply YBegin|]. apply H, moved_insert. Qed.

Lemma can_act t a w w' es p code past Q :
  code t = Act a -> a w = Some (w', es, p) ->
  (forall code' past', moved t p code code' -> can (mkSystem w' code' past') Q) ->
  can (mkSystem w code past) Q.
Proof. intros H1 H2 H. eapply can_step; [by eapply YAtom|]. apply H, moved_insert. Qed.

(** An atom on the orchestrator's fields. *)
Lemma can_atomic {A} t (m : M A) k o a o' es heap cur srv code past Q :
  code t = atomic m k -> m o = (a, o', es) ->
  (forall code' past', moved t (k a) code code' -> can (mkSystem (mkWorld o' heap cur srv) code' past') Q) ->
  can (mkSystem (mkWorld o heap cur srv) code past) Q.
Proof. intros H1 H2. eapply can_act; [exact H1|]. simpl. by rewrite H2. Qed.

(** Queueing on a connection that has room. *)
Lemma can_enqueue t m k o heap i c srv code past Q :
  code t = enqueue_atoms m k -> conn o = None -> heap !! i = Some c ->
  length (c_send c) < sendQueue -> c_done c = false ->
  (forall code' past', moved t (k tt) code code' ->
    can (mkSystem (mkWorld o (<[ i := push_send m c ]> heap) (Some i) srv) code' past') Q) ->
  can (mkSystem (mkWorld o heap (Some i) srv) code past) Q.
Proof.
  intros H1 Ho Hi Hl Hd H. destruct o. simpl in Ho. subst.
  eapply can_act; [exact H1|reflexivity|]. intros code1 past1 [M1 M2].
  eapply can_act; [exact M1| |].
  - unfold focus, offer, mbind, M_bind, gets. simpl. rewrite Hi. simpl.
    rewrite bool_decide_true by done. rewrite Hd. reflexivity.
  - intros code2 past2 [N1 N2]. apply H. split; [exact N1|]. intros t' Ht. by rewrite N2, M2.
Qed.

End Code.

(** ** Properties *)

(** C32. A grant's reply can overtake the revocation of that grant.  Whatever
    viewer asks for control, over whatever route and under whatever policy
    that grants it, from every state in which the goroutine that serves the
    connection and the SIGUSR1 watcher are idle and the queue has room for two:
    a revocation can fall between the grant and its reply, and then the
    viewer's route is queued read-only first and granted last, while nobody is
    in control. *)
Theorem grant_reply_overtakes_revocation `{E : Env} w code past i c data f :
  code TServe = Done -> code TRevoke = Done ->
  conn (w_orch w) = None -> w_cur w = Some i -> w_serving w = Some i -> w_heap w !! i = Some c ->
  length (c_send c) + 2 <= sendQueue -> c_done c = false ->
  read_frame (v2r (w_orch w)) data = Some f -> vf_kind f = KindCtrlReq ->
  (floor (vs (w_orch w)) (vf_viewer f) < vf_seq f)%Z ->
  controlOwner (vs (w_orch w)) = [] -> mode_of (w_orch w) <> ControlViewOnly ->
  (mode_of (w_orch w) = ControlOnce -> onceUsed (vs (w_orch w)) = false) ->
  exists y c',
    reaches (mkSystem w code past) y /\
    controlOwner (vs (w_orch (y_world y))) = [] /\ w_heap (y_world y) !! i = Some c' /\
    c_send c' = c_send c ++ [mkOutMsg KindControl [ControlReadOnly] (vf_route f) false;
                             mkOutMsg KindControl [ControlGranted] (vf_route f) false].
Proof.
  destruct w as [o heap cur srv]. simpl. intros Hc1 Hc2 Ho -> -> Hi Hl Hd Hf Hk Hfl Hown Hm1 Hm2.
  pose proof (read_frame_ids _ _ _ Hf) as [Hr%valid_id_nonempty Hv%valid_id_nonempty].
  assert (can (mkSystem (mkWorld o heap (Some i) (Some i)) code past) (fun w =>
    controlOwner (vs (w_orch w)) = [] /\ exists c', w_heap w !! i = Some c' /\
    c_send c' = c_send c ++ [mkOutMsg KindControl [ControlReadOnly] (vf_route f) false;
                             mkOutMsg KindControl [ControlGranted] (vf_route f) false])) as H;
    [|destruct H as (y & H1 & H2 & c' & H3 & H4); by exists y, c'].
  eapply (can_begin TServe (EvMessage false data)); [done|by eexists|]. simpl held. cbn [task].
  intros code1 past1 [S1 R1].
  unfold read_frame in Hf. unfold proc_of, handleBinary_atoms in S1.
  destruct (DecodeRelayViewerFrame data) as [[route box]|] eqn:E1; [|done].
  unfold mbind, part_bind in S1.
  eapply can_atomic; [exact S1|reflexivity|]. intros code2 past2 [S2 R2]. cbv beta in S2.
  destruct (Open (v2r o) box) as [[[seq kind] inner]|] eqn:E2; [|done].
  destruct (DecodeViewerPayload inner) as [[v p]|] eqn:E3; [|done].
  apply (inj Some) in Hf as <-. simpl in *. subst kind.
  eapply can_atomic; [exact S2|unfold with_viewers, acceptSeq; rewrite decide_False by lia; reflexivity|].
  intros code3 past3 [S3 R3]. cbv beta iota in S3.
  eapply can_atomic; [exact S3|reflexivity|]. intros code4 past4 [S4 R4]. cbv beta in S4.
  unfold dispatch_atoms in S4. do 2 rewrite decide_False in S4 by done. rewrite decide_True in S4 by done.
  unfold handleControlRequest_atoms, mbind, part_bind in S4.
  eapply can_atomic; [exact S4| |].
  { unfold M_bind, gets, with_viewers, request_section. simpl.
    rewrite Hown. rewrite decide_False by done. rewrite decide_False by tauto.
    rewrite decide_False. 2: { intros [?|[? ?]]; [done|]. unfold mode_of in *. rewrite Hm2 in *; done. }
    reflexivity. }
  intros code5 past5 [S5 R5]. simpl in S5.
  eapply (can_begin TRevoke EvRevoke); [rewrite R5, R4, R3, R2, R1; done|done|].
  intros code6 past6 [S6 R6]. cbn [task] in S6. unfold proc_of, Revoke_atoms, mbind, part_bind in S6.
  eapply can_atomic; [exact S6|reflexivity|]. intros code7 past7 [S7 R7]. simpl in S7.
  rewrite decide_False in S7 by done. unfold emitToViewer_atoms, mbind, part_bind in S7.
  eapply can_enqueue; [exact S7|done|exact Hi|lia|done|]. intros code8 past8 [S8 R8].
  assert (code8 TServe = code5 TServe) as S9 by (by rewrite R8, R7, R6).
  rewrite S5 in S9. unfold emitToViewer_atoms, mbind, part_bind in S9.
  eapply can_enqueue; [exact S9|done|by apply list_lookup_insert_eq; eapply lookup_lt_Some| |done|].
  { simpl. rewrite length_app. simpl. lia. }
  intros code9 past9 _. apply can_now. simpl. split; [by case_decide|].
  eexists. split; [apply list_lookup_insert_eq; rewrite length_insert; by eapply lookup_lt_Some|].
  simpl. by rewrite <- (assoc_L (++)).
Qed.

Lemma grant_reply_overtakes_revocation_witness :
  exists y c',
    reaches (mkSystem (mkWorld (demo ControlOnce) [newConn] (Some 0) (Some 0)) (fun _ => Done) []) y /\
    controlOwner (vs (w_orch (y_world y))) = [] /\ w_heap (y_world y) !! 0 = Some c' /\
    c_send c' = [mkOutMsg KindControl [ControlReadOnly] (str "r1") false;
                 mkOutMsg KindControl [ControlGranted] (str "r1") false].
Proof.
  apply (grant_reply_overtakes_revocation (mkWorld (demo ControlOnce) [newConn] (Some 0) (Some 0))
    (fun _ => Done) [] 0 newConn (demo_frame (str "r1") (str "phone") 1 KindCtrlReq [])
    (demo_vf (str "r1") (str "phone") 1 KindCtrlReq [])); try reflexivity; try done.
  unfold sendQueue. simpl. lia.
Defined.
