(* ===== verification/Split.v ===== *)
(** * Split: critical sections and what is done after them

    Many operations of the runner take a lock, decide, release it, and then do
    what they decided - tell a viewer, resize the pty - with no lock held.  This
    file has the machine of any number of goroutines that work through such
    operations: a section is one step, each of its consequences another, in any
    interleaving.  [sec o st] is an operation's section: the new state and the
    consequences, in order.  Sizes is its instance. *)
From S2P Require Import Prelude.

Section Split.
Context {St Op Eff : Type} (sec : Op -> St -> St * list Eff).

(** ** The machine *)

(** A goroutine: the operations to come, and what is left to do of the last one. *)
Record task := mkTask { todo : list Op; pending : list Eff }.

(** [done] is what has been done, by all goroutines, in order. *)
Record sys := mkSys { shared : St; tasks : list task; performed : list Eff }.

Inductive act := Sec (i : nat) (o : Op) | Out (i : nat) (e : Eff).

Inductive sstep : sys -> act -> sys -> Prop :=
| SSec i o os st ts l :
    ts !! i = Some (mkTask (o :: os) []) ->
    sstep (mkSys st ts l) (Sec i o)
      (mkSys (sec o st).1 (<[ i := mkTask os (sec o st).2 ]> ts) l)
| SOut i os e es st ts l :
    ts !! i = Some (mkTask os (e :: es)) ->
    sstep (mkSys st ts l) (Out i e) (mkSys st (<[ i := mkTask os es ]> ts) (l ++ [e])).

(** Runs whose every step satisfies [ok] in the state it is taken in. *)
Inductive srun (ok : sys -> act -> Prop) (s0 : sys) : list act -> sys -> Prop :=
| srun_nil : srun ok s0 [] s0
| srun_snoc acts s a s' :
    srun ok s0 acts s -> ok s a -> sstep s a s' -> srun ok s0 (acts ++ [a]) s'.

Definition anyhow (s : sys) (a : act) : Prop := True.

Definition pendings (ts : list task) : list Eff := concat (pending <$> ts).
Definition all_pending (s : sys) : list Eff := pendings (tasks s).

(** At rest: nothing left to do. *)
Definition at_rest (s : sys) : Prop := Forall (fun t => todo t = [] /\ pending t = []) (tasks s).

Definition start (st : St) (opss : list (list Op)) : sys :=
  mkSys st ((fun ops => mkTask ops []) <$> opss) [].

(** ** Lemmas *)

(** The pending consequences around one goroutine's. *)
Lemma pending_insert ts i os es os' es' :
  ts !! i = Some (mkTask os es) ->
  exists a b, pendings ts = a ++ es ++ b /\
    pendings (<[ i := mkTask os' es' ]> ts) = a ++ es' ++ b.
Proof.
  intros Hi. unfold pendings. exists (concat (pending <$> take i ts)), (concat (pending <$> drop (S i) ts)).
  pose proof (lookup_lt_Some _ _ _ Hi) as Hlt.
  rewrite insert_take_drop by done. rewrite <- (take_drop_middle _ _ _ Hi) at 1.
  by rewrite !fmap_app, !concat_app.
Qed.

Lemma no_pending ts : pendings ts = [] <-> Forall (fun t => pending t = []) ts.
Proof.
  unfold pendings. induction ts as [|t ts IH]; [by split|]. rewrite fmap_cons, Forall_cons, <- IH.
  split; [by intros [? ?]%app_eq_nil|by simpl; intros [-> ->]].
Qed.

Lemma start_pending st opss : all_pending (start st opss) = [].
Proof.
  apply no_pending. simpl. apply Forall_fmap. by apply Forall_true.
Qed.

(** An invariant of the machine. *)
Lemma srun_inv (ok : sys -> act -> Prop) (I : sys -> Prop) s0 acts s :
  (forall s a s', I s -> ok s a -> sstep s a s' -> I s') -> I s0 -> srun ok s0 acts s -> I s.
Proof. intros Hstep H0. induction 1; eauto. Qed.

End Split.

Arguments task : clear implicits.
Arguments sys : clear implicits.
Arguments act : clear implicits.
