(* ===== verification/Sizes.v ===== *)
(** * Sizes: the recorded terminal size and the pty's

    SetSize (runner/internal/ptysession/session.go) records the size under the
    session's mutex and calls pty.Setsize after releasing it; Size reads the
    record.  The goroutine of SIGWINCH (Orchestrator.Resize), the reader (a
    viewer's resize) and keepalive interleave, as an instance of Split: a section
    of SetSize or Size is one step, the call on the pty and the HELLO that
    carries what Size read are others. *)
From S2P Require Import Prelude Session Split.

(** ** Operations and their consequences *)

(** SetSize; and Size with the HELLO emitted next, as Resize does after its
    SetSize when a viewer is there, and keepalive at every tick. *)
Inductive size_op := OSetSize (cols rows : Z) | OHello.

(** Resize, as the operations it runs, with what it reads of the viewer count. *)
Definition resize_ops (cols rows : Z) (watched : bool) : list size_op :=
  OSetSize cols rows :: (if watched then [OHello] else []).

Inductive size_effect := ECall (c : pty_call) | EHello (cols rows : Z).

Definition size_section (o : size_op) (s : Session) : Session * list size_effect :=
  match o with
  | OSetSize cols rows => ((SetSize s cols rows).1, ECall <$> (SetSize s cols rows).2)
  | OHello => (s, [EHello (Size s).1 (Size s).2])
  end.

(** The pty's size, after the calls made on it. *)
Definition sized (size : Z * Z) (e : size_effect) : Z * Z :=
  match e with ECall (PtySetsize cols rows) => (cols, rows) | _ => size end.
Definition device_size (size : Z * Z) (es : list size_effect) : Z * Z := foldl sized size es.

(** A resize of the pty that is still to come. *)
Definition resizes (e : size_effect) : Prop := exists cols rows, e = ECall (PtySetsize cols rows).

Lemma resizes_dec e : resizes e \/ ~ resizes e.
Proof. destruct e as [[]|]; try (right; intros (? & ? & ?); discriminate). left. by do 2 eexists. Qed.

Lemma sized_quiet size e : ~ resizes e -> sized size e = size.
Proof. destruct e as [[]|]; try done. intros []. by do 2 eexists. Qed.

(** No SetSize records a size while another's call is still to come. *)
Definition unhurried (s : sys Session size_op size_effect) (a : act size_op size_effect) : Prop :=
  match a with
  | Sec _ (OSetSize _ _) => forall e, e ∈ all_pending s -> ~ resizes e
  | _ => True
  end.

(** The recorded size is that of any call still to come, else the pty's. *)
Record recorded (size : Z * Z) (s : sys Session size_op size_effect) : Prop := {
  rec_pending : forall cols rows, ECall (PtySetsize cols rows) ∈ all_pending s -> Size (shared s) = (cols, rows);
  rec_device : (forall e, e ∈ all_pending s -> ~ resizes e) ->
               Size (shared s) = device_size size (performed s)
}.

Lemma device_size_snoc size es e : device_size size (es ++ [e]) = sized (device_size size es) e.
Proof. unfold device_size. by rewrite foldl_app. Qed.

(** A section that records no size. *)
Lemma recorded_keep size s s' :
  recorded size s -> shared s' = shared s -> performed s' = performed s ->
  (forall e, resizes e -> e ∈ all_pending s' <-> e ∈ all_pending s) -> recorded size s'.
Proof.
  intros [H1 H2] E1 E2 Hp. split; rewrite E1, ?E2.
  - intros cols rows Hc. apply H1, Hp; [by do 2 eexists|done].
  - intros Hn. apply H2. intros e He Hr. by apply (Hn e); [apply Hp|].
Qed.

Lemma recorded_step size s a s' :
  recorded size s -> unhurried s a -> sstep size_section s a s' -> recorded size s'.
Proof.
  intros Hrec Hok Hs. destruct Hs as [i o os st ts l Hi|i os e es st ts l Hi].
  - destruct (pending_insert _ _ _ _ os (size_section o st).2 Hi) as (a & b & E1 & E2). simpl in E1, E2.
    destruct o as [cols rows|].
    + simpl in *. unfold SetSize in *. case_decide as Hz; simpl in *.
      { eapply recorded_keep; [exact Hrec|done..|]. intros e _. unfold all_pending. simpl.
        by rewrite E1, E2. }
      split; simpl; unfold all_pending; simpl; rewrite E2.
      * intros c r [Hin|[[= -> ->]|Hin]%elem_of_cons]%elem_of_app; [|done|];
          (destruct (Hok (ECall (PtySetsize c r))); [|by do 2 eexists]);
          unfold all_pending; simpl; rewrite E1; apply elem_of_app; auto.
      * intros Hn. destruct (Hn (ECall (PtySetsize cols rows))); [set_solver|by do 2 eexists].
    + eapply recorded_keep; [exact Hrec|done..|]. intros e He. unfold all_pending. simpl in *.
      rewrite E1, E2, !elem_of_app. rewrite elem_of_cons. split; [|tauto].
      intros [?|[->|?]]; [by left| |by right]. by destruct He as (? & ? & ?).
  - destruct (pending_insert _ _ _ _ os es Hi) as (a & b & E1 & E2).
    destruct Hrec as [H1 H2]. unfold all_pending in *. simpl in *.
    assert (forall e', e' ∈ a ++ es ++ b -> e' ∈ pendings ts) as Hin.
    { intros e'. rewrite E1, !elem_of_app, elem_of_cons, ?elem_of_app. tauto. }
    split; simpl; unfold all_pending; simpl; rewrite E2.
    + intros c r Hc. by apply H1, Hin.
    + intros Hn. rewrite device_size_snoc. destruct (resizes_dec e) as [(c & r & ->)|He].
      * apply H1. rewrite E1, !elem_of_app, elem_of_cons. auto.
      * rewrite sized_quiet by done. apply H2. rewrite E1. intros e' He'.
        rewrite elem_of_app, elem_of_cons in He'. destruct He' as [?|[->|?]]; [|done|];
          apply Hn, elem_of_app; auto.
Qed.

(** ** A race of two resizes *)

Definition size0 : Session := mkSession 80 24 None.

(** A phone in control makes the terminal wide; the host's window shrinks. *)
Definition wide : size_op := OSetSize 200 50.
Definition small : size_op := OSetSize 60 20.
Definition setsize (cols rows : Z) : size_effect := ECall (PtySetsize cols rows).

Definition race_acts : list (act size_op size_effect) :=
  [Sec 0 wide; Sec 1 small; Out 1 (setsize 60 20); Out 0 (setsize 200 50); Sec 1 OHello; Out 1 (EHello 60 20)].
Definition race_end : sys Session size_op size_effect :=
  mkSys (mkSession 60 20 None) [mkTask [] []; mkTask [] []] [setsize 60 20; setsize 200 50; EHello 60 20].

Lemma race_run : srun size_section anyhow (start size0 [[wide]; resize_ops 60 20 true]) race_acts race_end.
Proof.
  set (st := mkSession 60 20 None). set (t := @mkTask size_op size_effect [] []).
  set (w := @mkTask size_op size_effect [] [setsize 200 50]).
  eapply (srun_snoc _ _ _ [_; _; _; _; _] _ (Out 1 (EHello 60 20))); [|done|
    exact (SOut size_section 1 [] _ [] st [t; mkTask [] [EHello 60 20]] [setsize 60 20; setsize 200 50] eq_refl)].
  eapply (srun_snoc _ _ _ [_; _; _; _] _ (Sec 1 OHello)); [|done|
    exact (SSec size_section 1 OHello [] st [t; mkTask [OHello] []] [setsize 60 20; setsize 200 50] eq_refl)].
  eapply (srun_snoc _ _ _ [_; _; _] _ (Out 0 (setsize 200 50))); [|done|
    exact (SOut size_section 0 [] _ [] st [w; mkTask [OHello] []] [setsize 60 20] eq_refl)].
  eapply (srun_snoc _ _ _ [_; _] _ (Out 1 (setsize 60 20))); [|done|
    exact (SOut size_section 1 [OHello] _ [] st [w; mkTask [OHello] [setsize 60 20]] [] eq_refl)].
  eapply (srun_snoc _ _ _ [_] _ (Sec 1 small)); [|done|
    exact (SSec size_section 1 small [OHello] (mkSession 200 50 None) [w; mkTask [small; OHello] []] [] eq_refl)].
  eapply (srun_snoc _ _ _ [] _ (Sec 0 wide)); [constructor|done|
    exact (SSec size_section 0 wide [] size0 [mkTask [wide] []; mkTask [small; OHello] []] [] eq_refl)].
Qed.

(** One resize on its own. *)
Definition alone_end : sys Session size_op size_effect :=
  mkSys (mkSession 200 50 None) [mkTask [] []] [setsize 200 50].

Lemma alone_run (ok : sys Session size_op size_effect -> act size_op size_effect -> Prop) :
  (forall s a, all_pending s = [] \/ (exists e, a = Out 0 e) -> ok s a) ->
  srun size_section ok (start size0 [[wide]]) [Sec 0 wide; Out 0 (setsize 200 50)] alone_end.
Proof.
  intros Hok.
  eapply (srun_snoc _ _ _ [_] _ (Out 0 (setsize 200 50))); [|apply Hok; right; by eexists|
    exact (SOut size_section 0 [] _ [] (mkSession 200 50 None) [mkTask [] [setsize 200 50]] [] eq_refl)].
  eapply (srun_snoc _ _ _ [] _ (Sec 0 wide)); [constructor|by apply Hok; left|
    exact (SSec size_section 0 wide [] size0 [mkTask [wide] []] [] eq_refl)].
Qed.

(** ** Properties *)

(** C25. The recorded size is the pty's.  However many goroutines resize and
    greet, as long as no SetSize records a size while the pty.Setsize of another
    is still to come: whenever no such call is to come, Size returns the size
    the pty has. *)
Theorem recorded_size_is_the_ptys st0 opss acts s :
  srun size_section unhurried (start st0 opss) acts s ->
  (forall e, e ∈ all_pending s -> ~ resizes e) ->
  Size (shared s) = device_size (Size st0) (performed s).
Proof.
  intros Hr Hn. refine (rec_device _ _ (srun_inv _ unhurried (recorded (Size st0)) _ _ _ _ _ Hr) Hn).
  - apply recorded_step.
  - split; rewrite start_pending; [by intros ? ? []%elem_of_nil|done].
Qed.

Lemma recorded_size_is_the_ptys_witness : Size (mkSession 200 50 None) = device_size (80, 24)%Z [setsize 200 50].
Proof.
  apply (recorded_size_is_the_ptys size0 [[wide]] [Sec 0 wide; Out 0 (setsize 200 50)] alone_end).
  - apply alone_run. intros s a [H|[w ->]]; [|done]. destruct a as [i []|]; try done.
    simpl. rewrite H. by intros e []%elem_of_nil.
  - by intros e []%elem_of_nil.
Defined.

(** Two resizes at once can leave the record wrong.  The reader's SetSize
    records a viewer's size and, before it has called pty.Setsize, the host's
    resize records and sets another: at rest the pty has the viewer's size while
    Size, and the HELLO sent to the viewers, have the host's. *)
Theorem concurrent_resizes_diverge :
  exists acts s,
    srun size_section anyhow (start size0 [[wide]; resize_ops 60 20 true]) acts s /\ at_rest s /\
    Size (shared s) = (60, 20)%Z /\ last (performed s) = Some (EHello 60 20) /\
    device_size (Size size0) (performed s) = (200, 50)%Z.
Proof. exists race_acts, race_end. split; [apply race_run|]. split; [by repeat constructor|done]. Qed.
