(* ===== verification/Fanout.v ===== *)
(** * Fanout: a chunk's way to the viewers, section by section

    pumpOutput, the sender and the reader of runner/internal/runner/runner.go
    share the ring, the viewer count, the two queues and the drop mark of one
    connection.  Handlers runs each as one step; here every access to what they
    share is a step of its own - the ring written, the count read, the message
    queued, the mark stored, the snapshot read, each write to the socket - in
    any interleaving.  Chunks are numbered (a ghost) to say what a viewer has
    been sent.  A viewer that joined misses nothing once all is quiet and no
    drop is pending; a drop is repaired before anything else is said; but
    nothing need be said, when the mark is stored after the queue was emptied. *)
From S2P Require Import Prelude Wire Ring Control Session Crypto Screen Orch Sender Handlers Traces Outbound.
From stdpp Require Import sorting.
From Stdlib Require Import Strings.Byte.

(** ** State *)

(** A queued message, with the number of the chunk it carries. *)
Record tagged := mkTagged { t_msg : outMsg; t_chunk : option nat }.

(** pumpOutput: reading; the ring written; the count read, about to queue; the
    queue found full, about to store the mark. *)
Inductive pump := PIdle | PWrote (chunk : bytes) | PSend (chunk : bytes) | PMark.

(** The sender: selecting; a sealed message taken; the mark taken with it; the
    snapshot read; a message about to be written; a join taken; its snapshot
    read.  [k] is the number of chunks the ring had been written. *)
Inductive turn :=
| TIdle
| TPopped (m : tagged)
| TRepaint (m : tagged)
| TSnap (m : tagged) (k : nat) (snapshot : bytes)
| TWrite (m : tagged)
| TJoin (v : bytes)
| TJoinSnap (v : bytes) (k : nat) (snapshot : bytes)
| TStopped.

(** What goes to the socket: a repaint, of one viewer or of all, and a message. *)
Inductive written := WRepaint (target : bytes) (k : nat) (snapshot : bytes) | WMsg (m : tagged).

Record fstate := mkFState {
  f_ring : Ring;
  f_output : list bytes;             (* the chunks written to the ring *)
  f_viewers : Z;
  f_send : list tagged;
  f_join : list bytes;
  f_dropped : bool;
  f_pump : pump;
  f_turn : turn;
  f_wire : list written;
  f_done : bool                      (* c.done is closed *)
}.

(** A fresh connection, after some output. *)
Definition fresh_conn (output : list bytes) (viewers : Z) : fstate :=
  mkFState (write_all (NewRing ringBytes) output) output viewers [] [] false PIdle TIdle [] false.

(** ** Steps; those that store a viewer count are labelled with it *)

Inductive fstep : fstate -> option Z -> fstate -> Prop :=
(* pumpOutput *)
| FWrite chunk r o n q j d t w z :
    fstep (mkFState r o n q j d PIdle t w z) None
      (mkFState (Ring_Write r chunk).1 (o ++ [chunk]) n q j d (PWrote chunk) t w z)
| FViewers chunk r o n q j d t w z :
    (n > 0)%Z ->
    fstep (mkFState r o n q j d (PWrote chunk) t w z) None (mkFState r o n q j d (PSend chunk) t w z)
| FNoViewers chunk r o n q j d t w z :
    ~ (n > 0)%Z ->
    fstep (mkFState r o n q j d (PWrote chunk) t w z) None (mkFState r o n q j d PIdle t w z)
(* enqueue, for pumpOutput *)
| FQueued chunk r o n q j d t w z :
    length q < sendQueue ->
    fstep (mkFState r o n q j d (PSend chunk) t w z) None
      (mkFState r o n (q ++ [mkTagged (output_msg chunk) (Some (length o - 1))]) j d PIdle t w z)
| FFull chunk r o n q j d t w z :
    sendQueue <= length q -> z = false ->
    fstep (mkFState r o n q j d (PSend chunk) t w z) None (mkFState r o n q j d PMark t w z)
| FSkip chunk r o n q j d t w z :
    z = true ->
    fstep (mkFState r o n q j d (PSend chunk) t w z) None (mkFState r o n q j d PIdle t w z)
| FMark r o n q j d t w z :
    fstep (mkFState r o n q j d PMark t w z) None (mkFState r o n q j true PIdle t w z)
(* enqueue, for the other goroutines: their message, or at any time their mark *)
| FOther m r o n q j d p t w z :
    length q < sendQueue ->
    fstep (mkFState r o n q j d p t w z) None (mkFState r o n (q ++ [mkTagged m None]) j d p t w z)
| FOtherMark r o n q j d p t w z :
    fstep (mkFState r o n q j d p t w z) None (mkFState r o n q j true p t w z)
(* handleControl: the count, and the signal *)
| FStore n' r o n q j d p t w z :
    fstep (mkFState r o n q j d p t w z) (Some n') (mkFState r o n' q j d p t w z)
| FSignal v r o n q j d p t w z :
    length j < sendQueue ->
    fstep (mkFState r o n q j d p t w z) None (mkFState r o n q (j ++ [v]) d p t w z)
(* the sender *)
| FJoin v r o n q j d p w z :
    fstep (mkFState r o n q (v :: j) d p TIdle w z) None (mkFState r o n q j d p (TJoin v) w z)
| FJoinSnap v r o n q j d p w z :
    fstep (mkFState r o n q j d p (TJoin v) w z) None
      (mkFState r o n q j d p (TJoinSnap v (length o) (Ring_Snapshot r)) w z)
| FJoinWrite v k s r o n q j d p w z :
    fstep (mkFState r o n q j d p (TJoinSnap v k s) w z) None
      (mkFState r o n q j d p TIdle (w ++ [WRepaint v k s]) z)
| FText m r o n q j d p w z :
    om_text (t_msg m) = true ->
    fstep (mkFState r o n (m :: q) j d p TIdle w z) None (mkFState r o n q j d p (TWrite m) w z)
| FTake m r o n q j d p w z :
    om_text (t_msg m) = false ->
    fstep (mkFState r o n (m :: q) j d p TIdle w z) None (mkFState r o n q j d p (TPopped m) w z)
| FNoDrop m r o n q j p w z :
    fstep (mkFState r o n q j false p (TPopped m) w z) None (mkFState r o n q j false p (TWrite m) w z)
| FDrop m r o n q j p w z :
    fstep (mkFState r o n q j true p (TPopped m) w z) None (mkFState r o n q j false p (TRepaint m) w z)
| FSnap m r o n q j d p w z :
    fstep (mkFState r o n q j d p (TRepaint m) w z) None
      (mkFState r o n q j d p (TSnap m (length o) (Ring_Snapshot r)) w z)
| FRepaint m k s r o n q j d p w z :
    fstep (mkFState r o n q j d p (TSnap m k s) w z) None
      (mkFState r o n q j d p (TWrite m) (w ++ [WRepaint [] k s]) z)
| FSent m r o n q j d p w z :
    fstep (mkFState r o n q j d p (TWrite m) w z) None
      (mkFState r o n q j d p TIdle (w ++ [WMsg m]) z)
(* a write fails: c.fail(), return; of a join's repaint the snapshot may be out *)
| FFailJoin v k s r o n q j d p w z :
    fstep (mkFState r o n q j d p (TJoinSnap v k s) w z) None (mkFState r o n q j d p TStopped w true)
| FFailJoinLate v k s r o n q j d p w z :
    fstep (mkFState r o n q j d p (TJoinSnap v k s) w z) None
      (mkFState r o n q j d p TStopped (w ++ [WRepaint v k s]) true)
| FFailRepaint m k s r o n q j d p w z :
    fstep (mkFState r o n q j d p (TSnap m k s) w z) None (mkFState r o n q j d p TStopped w true)
| FFailWrite m r o n q j d p w z :
    fstep (mkFState r o n q j d p (TWrite m) w z) None (mkFState r o n q j d p TStopped w true)
(* the reader is through: c.fail() *)
| FDown r o n q j d p t w z :
    fstep (mkFState r o n q j d p t w z) None (mkFState r o n q j d p t w true)
(* the sender sees c.done or ctx.Done() *)
| FStop r o n q j d p w z :
    fstep (mkFState r o n q j d p TIdle w z) None (mkFState r o n q j d p TStopped w z).

Inductive fsteps : fstate -> list (option Z) -> fstate -> Prop :=
| fsteps_nil s : fsteps s [] s
| fsteps_cons s l s1 ls s2 : fstep s l s1 -> fsteps s1 ls s2 -> fsteps s (l :: ls) s2.

(** ** What a viewer has been sent *)

(** How many chunks the viewer [v] is up to, from its first repaint on. *)
Definition advance (v : bytes) (s : option nat) (x : written) : option nat :=
  match x with
  | WRepaint t k _ =>
    if decide (t = v) then Some k
    else if decide (t = []) then (match s with Some _ => Some k | None => None end)
    else s
  | WMsg m =>
    match s, t_chunk m with
    | Some n, Some i => Some (max n (S i))
    | _, _ => s
    end
  end.
Definition seen (v : bytes) (s : option nat) (w : list written) : option nat := foldl (advance v) s w.

(** No chunk comes before those ahead of it. *)
Definition in_turn (s : option nat) (x : written) : Prop :=
  match s, x with
  | Some n, WMsg m => match t_chunk m with Some i => i <= n | None => True end
  | _, _ => True
  end.
Fixpoint gapless (v : bytes) (s : option nat) (w : list written) : Prop :=
  match w with [] => True | x :: w => in_turn s x /\ gapless v (advance v s x) w end.

(** A repaint carries the snapshot of the chunks before it, a message its chunk. *)
Definition truthful_msg (output : list bytes) (m : tagged) : Prop :=
  match t_chunk m with
  | Some i => exists c, output !! i = Some c /\ t_msg m = output_msg c
  | None => True
  end.
Definition truthful (output : list bytes) (x : written) : Prop :=
  match x with
  | WRepaint _ k s => k <= length output /\ s = Ring_Snapshot (write_all (NewRing ringBytes) (take k output))
  | WMsg m => truthful_msg output m
  end.

(** ** Invariants *)

(** The message in the sender's hands. *)
Definition in_hand (t : turn) : list tagged :=
  match t with TPopped m | TRepaint m | TSnap m _ _ | TWrite m => [m] | _ => [] end.

(** The chunks on their way, oldest first. *)
Definition on_the_way (s : fstate) : list nat := omap t_chunk (in_hand (f_turn s) ++ f_send s).

(** The chunks pumpOutput is done with. *)
Definition handed_on (s : fstate) : nat :=
  length (f_output s) - match f_pump s with PIdle => 0 | _ => 1 end.

Record flow (s : fstate) : Prop := {
  fl_sorted : StronglySorted lt (on_the_way s);
  fl_bound : Forall (fun i => i < handed_on s) (on_the_way s);
  fl_pump : f_pump s <> PIdle -> 0 < length (f_output s);
  fl_ring : f_ring s = write_all (NewRing ringBytes) (f_output s);
  fl_last : match f_pump s with PWrote c | PSend c => last (f_output s) = Some c | _ => True end;
  fl_msgs : Forall (truthful_msg (f_output s)) (in_hand (f_turn s) ++ f_send s);
  fl_turn : match f_turn s with
            | TSnap m k sn =>
              truthful (f_output s) (WRepaint [] k sn) /\
              (forall i, t_chunk m = Some i -> i < k)
            | TJoinSnap v k sn => truthful (f_output s) (WRepaint v k sn)
            | _ => True
            end;
  fl_wire : Forall (truthful (f_output s)) (f_wire s)
}.

Lemma truthful_msg_mono o c m : truthful_msg o m -> truthful_msg (o ++ [c]) m.
Proof.
  unfold truthful_msg. destruct (t_chunk m) as [i|]; [|done]. intros (c' & H & ?). exists c'.
  split; [|done]. by apply lookup_app_l_Some.
Qed.

Lemma truthful_mono o c x : truthful o x -> truthful (o ++ [c]) x.
Proof.
  destruct x as [t k s|m]; [|by apply truthful_msg_mono]. simpl. intros [H ->].
  rewrite length_app. split; [simpl; lia|]. by rewrite take_app_le.
Qed.

Lemma truthful_now o t : truthful o (WRepaint t (length o) (Ring_Snapshot (write_all (NewRing ringBytes) o))).
Proof. split; [done|]. by rewrite firstn_all. Qed.

Lemma write_all_snoc r o c : write_all r (o ++ [c]) = (Ring_Write (write_all r o) c).1.
Proof. revert r. induction o as [|p o IH]; intros r; simpl; [done|]. apply IH. Qed.

Lemma sorted_snoc l x : StronglySorted lt l -> Forall (fun i => i < x) l -> StronglySorted lt (l ++ [x]).
Proof.
  induction 1 as [|y l Hl IH Hy]; intros Hb; [by repeat constructor|].
  apply Forall_cons in Hb as [H1 H2]. constructor; [by apply IH|]. apply Forall_app. by split; [|constructor].
Qed.

Lemma flow_fresh o n : flow (fresh_conn o n).
Proof. by split; simpl; try constructor. Qed.

(** More chunks handed on keep the bound. *)
Lemma bound_mono l b b' : Forall (fun i => i < b) l -> b <= b' -> Forall (fun i => i < b') l.
Proof. intros H Hle. eapply Forall_impl; [exact H|]. simpl. lia. Qed.

Ltac flow_simpl := split; unfold on_the_way, handed_on in *; simpl in *; rewrite ?app_nil_r; auto.

Lemma flow_pump s l s' :
  flow s -> fstep s l s' -> f_turn s' = f_turn s -> f_wire s' = f_wire s -> flow s'.
Proof.
  intros [Hs Hb Hp Hr Hl Hm Ht Hw] Hstep Et Ew.
  destruct Hstep; simpl in Et, Ew; try done; try (by flow_simpl).
  - (* the ring written *)
    flow_simpl.
    + rewrite length_app, Nat.sub_0_r in *. simpl. by replace (length o + 1 - 1) with (length o) by lia.
    + rewrite length_app. simpl. lia.
    + by rewrite Hr, write_all_snoc.
    + by rewrite last_snoc.
    + eapply Forall_impl; [exact Hm|]. intros. by apply truthful_msg_mono.
    + destruct t; try done.
      * destruct Ht as [Ht ?]. split; [by apply (truthful_mono o chunk (WRepaint [] k snapshot))|done].
      * by apply (truthful_mono o chunk (WRepaint v k snapshot)).
    + eapply Forall_impl; [exact Hw|]. intros. by apply truthful_mono.
  - flow_simpl. by eapply bound_mono; [exact Hb|lia].
  - (* queued *)
    specialize (Hp ltac:(done)). flow_simpl.
    + rewrite (assoc_L (++)), omap_app. simpl. by apply sorted_snoc.
    + rewrite (assoc_L (++)), omap_app. simpl. apply Forall_app. split; [|repeat constructor; lia].
      by eapply bound_mono; [exact Hb|lia].
    + rewrite (assoc_L (++)). apply Forall_app. split; [done|]. constructor; [|done].
      exists chunk. split; [|done]. replace (length o - 1) with (pred (length o)) by lia.
      by rewrite <- last_lookup.
  - flow_simpl. by eapply bound_mono; [exact Hb|lia].
  - flow_simpl. by eapply bound_mono; [exact Hb|lia].
  - flow_simpl; rewrite (assoc_L (++)); [by rewrite omap_app, app_nil_r|by rewrite omap_app, app_nil_r|].
    apply Forall_app. split; [done|]. by constructor.
Qed.

(** The message in hand goes. *)
Ltac flow_drop m Hs Hb Hm :=
  let Hm1 := fresh "Hm1" in
  apply Forall_cons in Hm as [Hm1 Hm]; flow_simpl;
  [destruct (t_chunk m); [by apply StronglySorted_inv in Hs as [? _]|done]
  |destruct (t_chunk m); [by apply Forall_cons in Hb as [_ ?]|done]|..].

Lemma flow_turn s l s' :
  flow s -> fstep s l s' -> f_turn s' <> f_turn s \/ f_wire s' <> f_wire s -> flow s'.
Proof.
  intros [Hs Hb Hp Hr Hl Hm Ht Hw] Hstep Hne.
  destruct Hstep; simpl in Hne; try (by destruct Hne); clear Hne; try (by flow_simpl).
  - flow_simpl. rewrite Hr. apply (truthful_now o v).
  - flow_simpl. apply Forall_app. split; [done|]. by constructor.
  - flow_simpl. split; [rewrite Hr; apply (truthful_now o [])|]. intros i Hi. rewrite Hi in Hb.
    apply Forall_cons in Hb as [Hb _]. lia.
  - flow_simpl. apply Forall_app. split; [done|]. constructor; [apply Ht|done].
  - flow_drop m Hs Hb Hm. apply Forall_app. split; [done|]. by constructor.
  - flow_simpl. apply Forall_app. split; [done|]. by constructor.
  - flow_drop m Hs Hb Hm.
  - flow_drop m Hs Hb Hm.
Qed.

Lemma flow_step s l s' : flow s -> fstep s l s' -> flow s'.
Proof.
  intros Hf Hs.
  assert ((f_turn s' = f_turn s /\ f_wire s' = f_wire s) \/ (f_turn s' <> f_turn s \/ f_wire s' <> f_wire s))
    as [[H1 H2]|H].
  { destruct Hs; simpl; auto; right; try (by left);
      right; intros H; apply (f_equal length) in H; rewrite length_app in H; simpl in H; lia. }
  - by eapply flow_pump.
  - by eapply flow_turn.
Qed.

Lemma flow_steps s ls s' : flow s -> fsteps s ls s' -> flow s'.
Proof. intros Hf Hs. induction Hs as [|s l s1 ls s2 Hstep _ IH]; [done|]. apply IH. by eapply flow_step. Qed.

(** c.done stays closed. *)
Lemma done_before s ls s' : fsteps s ls s' -> f_done s' = false -> f_done s = false.
Proof.
  induction 1 as [|s l s1 ls s2 Hstep _ IH]; [done|]. intros Hd%IH. by destruct Hstep.
Qed.

(** ** A viewer that joined *)

(** How far the viewer is, or is about to be taken by the repaint in hand. *)
Definition level (v : bytes) (s : fstate) (sn : option nat) : option nat :=
  match f_turn s with
  | TRepaint _ => (match sn with Some _ => Some (length (f_output s)) | None => None end)
  | TSnap _ k snap => advance v sn (WRepaint [] k snap)
  | TJoinSnap t k snap => advance v sn (WRepaint t k snap)
  | _ => sn
  end.

(** What a viewer is missing is on its way to it, or a repaint is due. *)
Record served (v : bytes) (s : fstate) (sn : option nat) : Prop := {
  sv_viewers : (f_viewers s > 0)%Z;
  sv_seen : forall n, sn = Some n -> n <= length (f_output s);
  sv_due : forall e i, level v s sn = Some e -> f_dropped s = false ->
           e <= i < handed_on s -> i ∈ on_the_way s;
  sv_write : forall m n i, f_turn s = TWrite m -> sn = Some n -> t_chunk m = Some i -> i <= n
}.

(** The head of a sorted list is at most any number the list is bound to hold. *)
Lemma sorted_head (i s b : nat) l :
  StronglySorted lt (i :: l) -> i < b -> (forall j, s <= j < b -> j ∈ i :: l) -> i <= s.
Proof.
  intros Hs Hb H. destruct (decide (i <= s)) as [|Hn]; [done|]. exfalso.
  apply StronglySorted_inv in Hs as [_ Hs]. rewrite Forall_forall in Hs.
  destruct (proj1 (elem_of_cons _ _ _) (H s ltac:(lia))) as [->|Hin]; [lia|].
  specialize (Hs _ Hin). lia.
Qed.

Definition stays (l : option Z) : Prop := match l with Some n => (n > 0)%Z | None => True end.

Ltac served_simpl :=
  split; unfold level, on_the_way, handed_on in *; simpl in *; auto; try (intros; discriminate).

(** Steps that write nothing. *)
Lemma served_quiet v s l s' sn :
  v <> [] -> flow s -> served v s sn -> fstep s l s' -> stays l -> f_done s' = false ->
  f_wire s' = f_wire s -> served v s' sn.
Proof.
  intros Hv [Hs Hb Hp _ _ Hm Ht _] [Hn Hsn Hdue Hwr] Hstep Hl Hd0 Ew.
  destruct Hstep; unfold level, on_the_way, handed_on in *; simpl in *; try (exfalso; congruence);
    try (by served_simpl); try (by apply (f_equal length) in Ew; rewrite length_app in Ew; simpl in Ew; lia).
  - (* a chunk *)
    served_simpl; [intros m0 H%Hsn; rewrite length_app; lia|].
    intros e i He Hd Hi. rewrite length_app in *. simpl in *. apply (Hdue e); [|done|lia].
    destruct t; try done. destruct sn; [|done]. injection He as <-. lia.
  - (* queued *)
    specialize (Hp ltac:(done)). served_simpl. intros e i He Hd Hi. rewrite (assoc_L (++)), omap_app.
    simpl. apply elem_of_app. destruct (decide (i = length o - 1)) as [->|]; [right; by left|left].
    apply (Hdue e); [done|done|lia].
  - served_simpl. intros e i He Hd Hi. rewrite (assoc_L (++)), omap_app, app_nil_r. by apply (Hdue e).
  - (* a join's snapshot *)
    served_simpl. intros e i He Hd Hi. apply (Hdue e); [|done|done]. revert He.
    case_decide; [intros [= <-]; destruct p; lia|]. case_decide; [|done].
    destruct sn; [intros [= <-]; destruct p; lia|done].
  - (* a text *)
    served_simpl. intros m0 n0 i [= <-] _ Hi. exfalso. apply Forall_cons in Hm as [Hm _].
    unfold truthful_msg in Hm. rewrite Hi in Hm. destruct Hm as (c & _ & Hm). by rewrite Hm in H.
  - (* no drop: the message is next in turn *)
    served_simpl. intros m0 n0 i [= <-] -> Hi. rewrite Hi in *.
    apply Forall_cons in Hb as [Hb _]. eapply sorted_head; [exact Hs|exact Hb|].
    intros j' Hj'. by apply (Hdue n0).
  - (* a drop: a repaint of everything is due *)
    served_simpl. intros e i He Hd Hi. destruct sn; [|done]. injection He as <-. destruct p; lia.
  - (* its snapshot *)
    served_simpl. intros e i He Hd Hi. revert He. case_decide; [done|].
    destruct sn; [intros [= <-]; destruct p; lia|done].
Qed.

Lemma advance_repaint_le v sn t k s n b :
  advance v sn (WRepaint t k s) = Some n -> k <= b -> (forall m, sn = Some m -> m <= b) -> n <= b.
Proof. simpl. intros H Hk Hb. repeat case_decide; [by simplify_eq| |by apply Hb]. by destruct sn; simplify_eq. Qed.

(** Steps that write. *)
Lemma served_writes v s l s' sn x :
  v <> [] -> flow s -> served v s sn -> fstep s l s' -> f_done s' = false -> f_wire s' = f_wire s ++ [x] ->
  in_turn sn x /\ served v s' (advance v sn x).
Proof.
  intros Hv [Hs Hb Hp _ _ Hm Ht _] [Hn Hsn Hdue Hwr] Hstep Hd0 Ew.
  destruct Hstep; simpl in Ew; try done;
    try (by apply (f_equal length) in Ew; rewrite length_app in Ew; simpl in Ew; lia);
    apply (inj (app w)) in Ew; injection Ew as <-; unfold level, on_the_way, handed_on in *; cbn [f_turn f_send f_output f_pump f_dropped f_viewers in_hand] in *.
  - (* a join's repaint *)
    split; [by destruct sn|]. split; simpl; auto; try (intros; discriminate).
    intros m0 H. eapply (advance_repaint_le v sn v0 k s); [exact H|apply Ht|done].
  - (* a repaint of all *)
    split; [by destruct sn|]. split; simpl; auto.
    + intros m0 H. eapply (advance_repaint_le v sn [] k s); [exact H|apply Ht|done].
    + intros m0 n0 i [= <-] Hn0 Hi. revert Hn0. simpl. rewrite decide_False by done.
      destruct sn; [|done]. intros [= <-]. destruct Ht as [_ Ht]. specialize (Ht _ Hi). lia.
  - (* a message *)
    assert (forall n0 i, sn = Some n0 -> t_chunk m = Some i -> i <= n0) as Hi by (intros; by eapply Hwr).
    split; [destruct sn; simpl; [|done]; destruct (t_chunk m); [by apply Hi|done]|].
    cbn [app] in *. destruct (t_chunk m) as [i|] eqn:Hc; cbn in Hb, Hdue; rewrite Hc in *.
    + apply Forall_cons in Hb as [Hb _]. split; simpl; rewrite ?Hc; auto; try (intros; discriminate).
      * intros m0. destruct sn as [n0|]; [|done]. intros [= <-]. specialize (Hsn n0 eq_refl).
        destruct p; lia.
      * intros e i0 He Hd Hi0. destruct sn as [n0|]; [|done]. injection He as <-. unfold handed_on in Hi0. simpl in Hi0.
        destruct (proj1 (elem_of_cons _ _ _) (Hdue n0 i0 eq_refl Hd ltac:(lia))) as [->|?]; [lia|done].
    + split; simpl; rewrite ?Hc; auto; try (intros; discriminate).
      * intros m0. by destruct sn; auto.
      * intros e i0 He. apply Hdue. by destruct sn.
Qed.

Lemma served_step v s l s' sn :
  v <> [] -> flow s -> served v s sn -> fstep s l s' -> stays l -> f_done s' = false ->
  exists w, f_wire s' = f_wire s ++ w /\ gapless v sn w /\ served v s' (seen v sn w).
Proof.
  intros Hv Hf Hsv Hs Hl Hd.
  assert (f_wire s' = f_wire s \/ exists x, f_wire s' = f_wire s ++ [x]) as [H|[x H]]
    by (destruct Hs; simpl; auto; right; by eexists).
  - exists []. rewrite app_nil_r. split; [done|]. split; [done|]. by eapply served_quiet.
  - exists [x]. destruct (served_writes v s l s' sn x) as [? ?]; done.
Qed.

Lemma served_steps v s ls s' sn :
  v <> [] -> flow s -> served v s sn -> fsteps s ls s' -> Forall stays ls -> f_done s' = false ->
  exists w, f_wire s' = f_wire s ++ w /\ gapless v sn w /\ served v s' (seen v sn w).
Proof.
  intros Hv Hf Hsv Hs Hl Hd. revert sn Hf Hsv. induction Hs as [s|s l s1 ls s2 Hstep Hs IH]; intros sn Hf Hsv.
  { exists []. by rewrite app_nil_r. }
  apply Forall_cons in Hl as [Hl1 Hl2].
  destruct (served_step v s l s1 sn Hv Hf Hsv Hstep Hl1 (done_before _ _ _ Hs Hd)) as (w1 & Hw1 & Hg1 & H1).
  destruct (IH Hl2 Hd _ (flow_step _ _ _ Hf Hstep) H1) as (w2 & Hw2 & Hg2 & H2).
  exists (w1 ++ w2). rewrite Hw2, Hw1, (assoc_L (++)). split; [done|].
  unfold seen in *. rewrite foldl_app. split; [|done].
  clear -Hg1 Hg2. revert sn Hg1 Hg2. induction w1 as [|x w1 IH]; intros sn; simpl; [done|].
  intros [H1 H2] H3. split; [done|]. by apply IH.
Qed.

(** ** The atomic handler *)

(** A state of the orchestrator seen as one of the sections. *)
Definition matches (s : fstate) (o : Orchestrator) : Prop :=
  ring o = f_ring s /\ viewers o = f_viewers s /\ f_pump s = PIdle /\ f_done s = false /\
  exists c, conn o = Some c /\ c_done c = false /\ c_send c = t_msg <$> f_send s /\
    c_join c = f_join s /\ c_dropped c = f_dropped s.

(** pumpOutput's handler of one chunk is a run of its sections. *)
Lemma chunk_handler_is_its_sections `{P : Primitives} `{E : Env} s o chunk :
  matches s o ->
  exists ls s', fsteps s ls s' /\ f_output s' = f_output s ++ [chunk] /\
    matches s' (state_of (pumpOutput_chunk chunk) o).
Proof.
  intros (Hr & Hv & Hp & Hz & c & Hc & Hd & Hq & Hj & Hm).
  destruct s as [r out n q j d p t w z]. simpl in *. subst p z.
  set (o' := state_of (pumpOutput_chunk chunk) o).
  assert (ring o' = (Ring_Write r chunk).1 /\ viewers o' = n /\
    conn o' = Some (if decide (n > 0)%Z then
                      if decide (length (c_send c) < sendQueue) then push_send (output_msg chunk) c
                      else set_dropped true c
                    else c)) as (Hr' & Hv' & Hc').
  { unfold o', pumpOutput_chunk. rewrite state_of_bind. set (o1 := state_of (modify _) o).
    rewrite state_of_bind. set (o2 := state_of (gets _) o1). rewrite state_of_bind.
    set (o3 := state_of _ o2).
    assert (ring o3 = r /\ viewers o3 = n /\ conn o3 = Some c) as (H1 & H2 & H3).
    { unfold o3. by destruct (gets _ o1).1.1. }
    rewrite state_of_bind. set (o4 := state_of (modify _) o3). rewrite state_of_bind.
    assert (ring o4 = (Ring_Write r chunk).1 /\ viewers o4 = n /\ conn o4 = Some c) as (H4 & H5 & H6).
    { unfold o4, state_of, modify. simpl. by rewrite H1. }
    change (state_of (gets viewers) o4) with o4. change (gets viewers o4).1.1 with (viewers o4).
    rewrite H5. case_decide as Hn; [|done]. unfold emit, state_of.
    rewrite (queueing_spec _ _ c) by done.
    split; [exact H4|]. by split; [exact H5|]. }
  assert (length q = length (c_send c)) as Hlen by (by rewrite Hq, length_fmap).
  case_decide as Hn; [case_decide as Hlt|].
  - eexists _, _. split; [|split].
    + eapply fsteps_cons; [apply FWrite|]. eapply fsteps_cons; [by apply FViewers|].
      eapply fsteps_cons; [apply FQueued; lia|apply fsteps_nil].
    + done.
    + unfold matches. simpl. split_and!; [done..|]. eexists. split; [exact Hc'|]. simpl.
      by rewrite Hq, fmap_app.
  - eexists _, _. split; [|split].
    + eapply fsteps_cons; [apply FWrite|]. eapply fsteps_cons; [by apply FViewers|].
      eapply fsteps_cons; [apply FFull; [lia|done]|]. eapply fsteps_cons; [apply FMark|apply fsteps_nil].
    + done.
    + unfold matches. simpl. split_and!; [done..|]. eexists. by split; [exact Hc'|].
  - eexists _, _. split; [|split].
    + eapply fsteps_cons; [apply FWrite|]. eapply fsteps_cons; [by apply FNoViewers|apply fsteps_nil].
    + done.
    + unfold matches. simpl. split_and!; [done..|]. eexists. by split; [exact Hc'|].
Qed.

(** ** Properties *)

(** C13. A viewer that joined misses nothing.  However pumpOutput, the sender and
    the reader interleave, from any moment on at which somebody is counted as
    watching, and as long as somebody is and neither the reader nor a write has
    failed: what goes to the socket has, for every viewer, from its own repaint
    on, no gap - no chunk comes before all those ahead of it have come, in a
    chunk's frame or in a snapshot; every snapshot is the ring's of the chunks
    before it and every frame its chunk; and when everything is quiet - pump
    and sender idle, the queue empty, no drop pending - the viewer has had
    every chunk. *)
Theorem joined_viewer_misses_nothing output n ls1 s1 ls2 s2 v :
  fsteps (fresh_conn output n) ls1 s1 -> fsteps s1 ls2 s2 -> v <> [] ->
  (f_viewers s1 > 0)%Z -> Forall stays ls2 -> f_done s2 = false ->
  match f_turn s1 with TJoinSnap t _ _ => t <> v | _ => True end ->
  exists w, f_wire s2 = f_wire s1 ++ w /\ gapless v None w /\
    Forall (truthful (f_output s2)) (f_wire s2) /\
    (f_pump s2 = PIdle -> f_turn s2 = TIdle -> f_send s2 = [] -> f_dropped s2 = false ->
     forall k, seen v None w = Some k -> k = length (f_output s2)).
Proof.
  intros H1 H2 Hv Hn Hl Hz Ht. pose proof (flow_steps _ _ _ (flow_fresh output n) H1) as Hf.
  assert (served v s1 None) as Hs.
  { split; [done|done| |done]. intros e i He. exfalso. revert He. unfold level.
    destruct (f_turn s1); simpl; try done; repeat case_decide; try done. }
  destruct (served_steps v s1 ls2 s2 None Hv Hf Hs H2 Hl Hz) as (w & Hw & Hg & [_ Hb Hdue _]).
  exists w. split; [done|]. split; [done|].
  split; [apply fl_wire; by eapply flow_steps|].
  intros Hp Hidle Hq Hd k Hk. specialize (Hb k Hk).
  destruct (decide (k < length (f_output s2))) as [Hlt|]; [|lia].
  specialize (Hdue k k). unfold level, handed_on, on_the_way in Hdue. rewrite Hidle, Hp, Hq in Hdue.
  exfalso. apply (not_elem_of_nil (A := nat) k), Hdue; [done|done|lia].
Qed.

Lemma joined_viewer_misses_nothing_witness :
  exists s w, f_wire s = w /\ length w = 2 /\ seen (str "phone") None w = Some (length (f_output s)).
Proof.
  destruct (joined_viewer_misses_nothing [str "$ "] 1 [] (fresh_conn [str "$ "] 1) (replicate 10 None)
    (mkFState (Ring_Write (write_all (NewRing ringBytes) [str "$ "]) (str "ls")).1 [str "$ "; str "ls"]
       1 [] [] false PIdle TIdle
       [WRepaint (str "phone") 1 (Ring_Snapshot (write_all (NewRing ringBytes) [str "$ "]));
        WMsg (mkTagged (output_msg (str "ls")) (Some 1))] false) (str "phone"))
    as (w & Hw & _ & _ & Hend); [apply fsteps_nil| |done|done|by apply Forall_replicate|done|done|].
  - eapply fsteps_cons; [apply (FSignal (str "phone")); simpl; unfold sendQueue; lia|]. eapply fsteps_cons; [apply FJoin|].
    eapply fsteps_cons; [apply FJoinSnap|]. eapply fsteps_cons; [apply FJoinWrite|].
    eapply fsteps_cons; [apply (FWrite (str "ls"))|]. eapply fsteps_cons; [by apply FViewers|].
    eapply fsteps_cons; [apply FQueued; simpl; unfold sendQueue; lia|].
    eapply fsteps_cons; [by apply FTake|]. eapply fsteps_cons; [apply FNoDrop|].
    eapply fsteps_cons; [apply FSent|]. apply fsteps_nil.
  - eexists _, w. split; [exact Hw|]. simpl in Hw. subst w. split; [done|].
    rewrite <- (Hend eq_refl eq_refl eq_refl eq_refl 2 eq_refl). reflexivity.
Defined.

(** A sender that returned writes nothing more, and whatever happens to a
    connection - failed writes, a reader that is through, a cancelled context -
    all that is ever written to it is truthful, and the chunks still queued are
    in order. *)
Theorem stopped_sender_is_silent output n ls1 s1 ls2 s2 :
  fsteps (fresh_conn output n) ls1 s1 -> f_turn s1 = TStopped -> fsteps s1 ls2 s2 ->
  f_wire s2 = f_wire s1 /\ f_turn s2 = TStopped /\
  Forall (truthful (f_output s2)) (f_wire s2) /\ StronglySorted lt (omap t_chunk (f_send s2)).
Proof.
  intros H1 Ht H2. pose proof (flow_steps _ _ _ (flow_fresh output n) H1) as Hf.
  pose proof (flow_steps _ _ _ Hf H2) as Hf2.
  assert (f_wire s2 = f_wire s1 /\ f_turn s2 = TStopped) as [Hw Hs].
  { clear H1 Hf Hf2. induction H2 as [s|s l s1 ls s2 Hstep _ IH]; [done|].
    assert (f_wire s1 = f_wire s /\ f_turn s1 = TStopped) as [<- Ht1] by (by destruct Hstep). by apply IH. }
  split; [done|]. split; [done|]. split; [apply fl_wire, Hf2|].
  pose proof (fl_sorted _ Hf2) as Hsort. unfold on_the_way in Hsort. by rewrite Hs in Hsort.
Qed.

Lemma stopped_sender_is_silent_witness :
  f_wire (mkFState (NewRing ringBytes) [] 1 [] [] false PIdle TStopped [] true) = [].
Proof.
  refine (proj1 (stopped_sender_is_silent [] 1 [None; None; None; None]
    (mkFState (NewRing ringBytes) [] 1 [] [] false PIdle TStopped [] true) [] _ _ eq_refl _)).
  - eapply fsteps_cons; [apply (FSignal (str "phone")); simpl; unfold sendQueue; lia|].
    eapply fsteps_cons; [apply FJoin|]. eapply fsteps_cons; [apply FJoinSnap|].
    eapply fsteps_cons; [apply FFailJoin|]. apply fsteps_nil.
  - apply fsteps_nil.
Defined.

(** Giving a connection up can leave a gap.  Once the reader is through and
    before the sender notices, enqueue may skip a chunk - its select finds both
    the queue and c.done ready - and queue the next one, which the sender
    writes: the viewer is sent a chunk without the one before it. *)
Theorem closing_connection_can_skip_a_chunk :
  exists ls s w, fsteps (fresh_conn [] 1) ls s /\ Forall stays ls /\ f_done s = true /\ f_wire s = w /\
    ~ gapless (str "phone") None w.
Proof.
  set (r := (Ring_Write (Ring_Write (NewRing ringBytes) (str "a")).1 (str "b")).1).
  set (snap := Ring_Snapshot (write_all (NewRing ringBytes) [])).
  exists (replicate 14 None).
  exists (mkFState r [str "a"; str "b"] 1 [] [] false PIdle TIdle
    [WRepaint (str "phone") 0 snap; WMsg (mkTagged (output_msg (str "b")) (Some 1))] true).
  eexists. split; [|split; [by apply Forall_replicate|split; [done|split; [done|]]]].
  - eapply fsteps_cons; [apply (FSignal (str "phone")); simpl; unfold sendQueue; lia|].
    eapply fsteps_cons; [apply FJoin|]. eapply fsteps_cons; [apply FJoinSnap|].
    eapply fsteps_cons; [apply FJoinWrite|]. eapply fsteps_cons; [apply FDown|].
    eapply fsteps_cons; [apply (FWrite (str "a"))|]. eapply fsteps_cons; [by apply FViewers|].
    eapply fsteps_cons; [by apply FSkip|].
    eapply fsteps_cons; [apply (FWrite (str "b"))|]. eapply fsteps_cons; [by apply FViewers|].
    eapply fsteps_cons; [apply FQueued; simpl; unfold sendQueue; lia|].
    eapply fsteps_cons; [by apply FTake|]. eapply fsteps_cons; [apply FNoDrop|].
    eapply fsteps_cons; [apply FSent|]. apply fsteps_nil.
  - simpl. intros (_ & H & _). simpl in H. lia.
Qed.

(** ** The drop mark *)

Definition plain (x : written) : Prop := match x with WRepaint _ _ _ => True | WMsg m => om_text (t_msg m) = true end.

(** The repaint that a mark asks for is out, or it comes before the next sealed
    message. *)
Definition repainted (n : nat) (w : list written) : Prop :=
  exists w1 k snap w2, w = w1 ++ WRepaint [] k snap :: w2 /\ Forall plain w1 /\ n <= k.
Definition due (n : nat) (s : fstate) (w : list written) : Prop :=
  Forall plain w /\ n <= length (f_output s) /\
  match f_turn s with
  | TRepaint _ | TStopped => True
  | TSnap _ k _ => n <= k
  | TWrite m => om_text (t_msg m) = true /\ f_dropped s = true
  | _ => f_dropped s = true
  end.

Lemma repainted_app n w x : repainted n w -> repainted n (w ++ x).
Proof.
  intros (w1 & k & snap & w2 & -> & H). exists w1, k, snap, (w2 ++ x). by rewrite <- (assoc_L (++)).
Qed.

Lemma due_quiet n s l s' w : due n s w -> fstep s l s' -> f_wire s' = f_wire s -> due n s' w.
Proof.
  intros (Hw & Hn & Ht) Hstep Ew. split; [done|].
  destruct Hstep; simpl in *; try (by apply (f_equal length) in Ew; rewrite length_app in Ew; simpl in Ew; lia);
    rewrite ?length_app; simpl; (split; [lia|]); try done; try (destruct t; naive_solver); try naive_solver.
Qed.

Lemma due_writes n s l s' w x :
  due n s w -> fstep s l s' -> f_wire s' = f_wire s ++ [x] -> due n s' (w ++ [x]) \/ repainted n (w ++ [x]).
Proof.
  intros (Hw & Hn & Ht) Hstep Ew.
  destruct Hstep; simpl in *; try (by apply (f_equal length) in Ew; rewrite length_app in Ew; simpl in Ew; lia);
    apply (inj (app w0)) in Ew; injection Ew as <-.
  - left. split; [apply Forall_app; by repeat constructor|]. by split.
  - right. by exists w, k, s, [].
  - destruct Ht as [Ht Hd]. left. split; [apply Forall_app; by repeat constructor|]. by split.
  - left. split; [apply Forall_app; by repeat constructor|]. by split.
Qed.

Lemma step_wire s l s' : fstep s l s' -> f_wire s' = f_wire s \/ exists x, f_wire s' = f_wire s ++ [x].
Proof. intros H. destruct H; simpl; auto; right; by eexists. Qed.

Lemma due_step n s l s' w :
  due n s w -> fstep s l s' ->
  exists x, f_wire s' = f_wire s ++ x /\ (due n s' (w ++ x) \/ repainted n (w ++ x)).
Proof.
  intros Hd Hs. destruct (step_wire _ _ _ Hs) as [H|[x H]].
  - exists []. rewrite !app_nil_r. split; [done|left]. by eapply due_quiet.
  - exists [x]. split; [done|]. by eapply due_writes.
Qed.

Lemma due_steps n s ls s' w :
  due n s w -> fsteps s ls s' ->
  exists x, f_wire s' = f_wire s ++ x /\ (due n s' (w ++ x) \/ repainted n (w ++ x)).
Proof.
  intros Hd Hs. revert w Hd. induction Hs as [s|s l s1 ls s2 Hstep Hs IH]; intros w Hd.
  { exists []. rewrite !app_nil_r. by split; [|left]. }
  destruct (due_step n s l s1 w Hd Hstep) as (x1 & H1 & [Hd1|Hr]).
  - destruct (IH _ Hd1) as (x2 & H2 & H). exists (x1 ++ x2). by rewrite !(assoc_L (++)), <- H1.
  - assert (exists x2, f_wire s2 = f_wire s1 ++ x2) as [x2 H2].
    { clear -Hs. induction Hs as [s|s l s1 ls s2 Hstep _ [x IH]]; [exists []; by rewrite app_nil_r|].
      assert (exists y, f_wire s1 = f_wire s ++ y) as [y Hy]
        by (destruct (step_wire _ _ _ Hstep) as [->|[y ->]]; [exists []; by rewrite app_nil_r|by eexists]).
      exists (y ++ x). by rewrite (assoc_L (++)), <- Hy. }
    exists (x1 ++ x2). rewrite !(assoc_L (++)), <- H1. split; [done|right]. by apply repainted_app.
Qed.

(** C15. A drop is repaired before anything else is said.  From any moment at
    which the drop mark is set and the sender is not in the middle of a
    message, however pumpOutput, the sender and the others interleave: no
    sealed message is written to the socket before a repaint of all viewers
    whose snapshot was taken at that moment or later, so with all the output up
    to it.  (The repaint goes out with the next message that is queued; none is
    forced: see [late_mark_waits].) *)
Theorem drops_are_repaired_first s1 ls s2 :
  f_dropped s1 = true -> in_hand (f_turn s1) = [] -> fsteps s1 ls s2 ->
  exists w, f_wire s2 = f_wire s1 ++ w /\
    forall pre m post, w = pre ++ WMsg m :: post -> om_text (t_msg m) = false ->
    exists w1 k snap w2, pre = w1 ++ WRepaint [] k snap :: w2 /\ Forall plain w1 /\ length (f_output s1) <= k.
Proof.
  intros Hd Hh Hs. destruct (due_steps (length (f_output s1)) s1 ls s2 []) as (w & Hw & H); [|done|].
  { split; [done|]. split; [done|]. by destruct (f_turn s1). }
  simpl in H. exists w. split; [done|]. intros pre m post -> Hm. destruct H as [(Hp & _)|(w1 & k & snap & w2 & He & H1 & H2)].
  - apply Forall_app in Hp as [_ Hp]. apply Forall_cons in Hp as [Hp _]. simpl in Hp. congruence.
  - assert (length w1 < length pre) as Hlt.
    { destruct (decide (length w1 < length pre)) as [|Hge]; [done|]. exfalso.
      assert ((w1 ++ WRepaint [] k snap :: w2) !! length pre = Some (WMsg m)) as Hl
        by (rewrite <- He; by apply list_lookup_middle).
      destruct (decide (length w1 = length pre)) as [Heq|].
      - rewrite <- Heq, list_lookup_middle in Hl by done. done.
      - rewrite lookup_app_l in Hl by lia. rewrite Forall_lookup in H1. specialize (H1 _ _ Hl). simpl in H1. congruence. }
    exists w1, k, snap, (take (length pre - S (length w1)) w2). split; [|done].
    apply (f_equal (take (length pre))) in He. rewrite take_app_length, take_app_ge in He by lia.
    destruct (length pre - length w1) as [|i] eqn:Hi; [lia|].
    replace (length pre - S (length w1)) with i by lia. exact He.
Qed.

(** The sender empties the queue, message by message. *)
Lemma drain_steps q : forall r o n j p w,
  exists ls, Forall (fun l => l = None) ls /\
    fsteps (mkFState r o n q j false p TIdle w false) ls
      (mkFState r o n [] j false p TIdle (w ++ (WMsg <$> q)) false).
Proof.
  induction q as [|m q IH]; intros r o n j p w.
  { exists []. split; [constructor|]. simpl. rewrite app_nil_r. constructor. }
  destruct (IH r o n j p (w ++ [WMsg m])) as (ls & Hl & Hs). rewrite <- (assoc_L (++)) in Hs.
  destruct (om_text (t_msg m)) eqn:Hm.
  - exists (None :: None :: ls). split; [by repeat constructor|].
    eapply fsteps_cons; [by apply FText|]. eapply fsteps_cons; [apply FSent|exact Hs].
  - exists (None :: None :: None :: ls). split; [by repeat constructor|].
    eapply fsteps_cons; [by apply FTake|]. eapply fsteps_cons; [apply FNoDrop|].
    eapply fsteps_cons; [apply FSent|exact Hs].
Qed.

Lemma fsteps_app s1 ls1 s2 ls2 s3 : fsteps s1 ls1 s2 -> fsteps s2 ls2 s3 -> fsteps s1 (ls1 ++ ls2) s3.
Proof. induction 1; [done|]. intros. simpl. eapply fsteps_cons; eauto. Qed.

(** C33. But the mark can come too late to be noticed.  From every reachable
    state in which pumpOutput is about to queue a chunk, the queue is full and
    the sender is idle, there is a schedule after which pump and sender are
    idle, everything queued has been written, nothing is queued, the mark is
    set, and the chunk has not been sent, in a frame or a snapshot: enqueue
    found the queue full, the sender emptied it, and then the mark was
    stored. *)
Theorem late_mark_waits output n ls1 s1 chunk :
  fsteps (fresh_conn output n) ls1 s1 ->
  f_pump s1 = PSend chunk -> sendQueue <= length (f_send s1) -> f_turn s1 = TIdle ->
  f_dropped s1 = false -> f_done s1 = false ->
  last (f_output s1) = Some chunk /\
  Forall (fun m => t_chunk m <> Some (length (f_output s1) - 1)) (f_send s1) /\
  exists ls s2, fsteps s1 ls s2 /\ f_output s2 = f_output s1 /\
    f_pump s2 = PIdle /\ f_turn s2 = TIdle /\ f_send s2 = [] /\ f_dropped s2 = true /\
    f_wire s2 = f_wire s1 ++ (WMsg <$> f_send s1).
Proof.
  intros H1 Hp Hq Ht Hd Hz. pose proof (flow_steps _ _ _ (flow_fresh output n) H1) as [_ Hb Hpos _ Hl _ _ _].
  unfold on_the_way, handed_on in *. destruct s1 as [r o n' q j d p t w z]. simpl in *. subst.
  split; [done|]. split.
  - apply Forall_forall. intros m Hm Hc. rewrite Forall_forall in Hb.
    assert (length o - 1 < length o - 1); [|lia]. apply Hb. apply list_elem_of_omap. eauto.
  - destruct (drain_steps q r o n' j PMark w) as (ls & _ & Hs).
    exists (None :: ls ++ [None]). eexists. split.
    { eapply fsteps_cons; [by apply FFull|]. eapply fsteps_app; [exact Hs|].
    eapply fsteps_cons; [apply FMark|constructor]. }
    by split_and!.
Qed.

(** *** A queue filled by the keepalive, with the sender held up *)

Lemma fill_steps m k : forall q r o n j d p t w z, length q + k <= sendQueue ->
  fsteps (mkFState r o n q j d p t w z) (replicate k None)
    (mkFState r o n (q ++ replicate k (mkTagged m None)) j d p t w z).
Proof.
  induction k as [|k IH]; intros q r o n j d p t w z Hk; simpl; [rewrite app_nil_r; constructor|].
  eapply fsteps_cons; [apply (FOther m); lia|]. specialize (IH (q ++ [mkTagged m None]) r o n j d p t w z).
  rewrite <- (assoc_L (++)) in IH. apply IH. rewrite length_app. simpl. lia.
Qed.

Definition hello_tagged : tagged := mkTagged (mkOutMsg KindHello (EncodeHello 1 80 24) [] false) None.

(** The queue is full, a chunk is about to be queued. *)
Definition full_conn : fstate :=
  mkFState (Ring_Write (NewRing ringBytes) (str "ls")).1 [str "ls"] 1 (replicate sendQueue hello_tagged) []
    false (PSend (str "ls")) TIdle [] false.

Lemma full_conn_reached : fsteps (fresh_conn [] 1) (replicate sendQueue None ++ [None; None]) full_conn.
Proof.
  eapply fsteps_app; [apply (fill_steps (t_msg hello_tagged)); simpl; lia|].
  eapply fsteps_cons; [apply (FWrite (str "ls"))|]. eapply fsteps_cons; [by apply FViewers|]. constructor.
Qed.

Lemma late_mark_waits_witness :
  exists ls s, fsteps full_conn ls s /\ f_dropped s = true /\ f_send s = [] /\ length (f_wire s) = sendQueue.
Proof.
  destruct (late_mark_waits [] 1 _ full_conn (str "ls") full_conn_reached eq_refl) as (_ & _ & ls & s & H & _ & _ & _ & Hq & Hd & Hw).
  - done.
  - done.
  - done.
  - done.
  - exists ls, s. split_and!; [done..|]. by rewrite Hw.
Defined.

Lemma drops_are_repaired_first_witness :
  exists k snap rest, [WRepaint [] 1 (Ring_Snapshot (Ring_Write (NewRing ringBytes) (str "ls")).1); WMsg hello_tagged]
    = rest ++ WRepaint [] k snap :: [WMsg hello_tagged] /\ 1 <= k.
Proof.
  set (s := mkFState (Ring_Write (NewRing ringBytes) (str "ls")).1 [str "ls"] 1 [hello_tagged] [] true PIdle TIdle [] false).
  set (snap := Ring_Snapshot (Ring_Write (NewRing ringBytes) (str "ls")).1).
  destruct (drops_are_repaired_first s (replicate 5 None)
    (mkFState (f_ring s) [str "ls"] 1 [] [] false PIdle TIdle [WRepaint [] 1 snap; WMsg hello_tagged] false)
    eq_refl eq_refl) as (w & Hw & H).
  - eapply fsteps_cons; [by apply FTake|]. eapply fsteps_cons; [apply FDrop|].
    eapply fsteps_cons; [apply FSnap|]. eapply fsteps_cons; [apply FRepaint|].
    eapply fsteps_cons; [apply FSent|]. constructor.
  - simpl in Hw. subst w. destruct (H [WRepaint [] 1 snap] hello_tagged [] eq_refl eq_refl) as (w1 & k & sn & w2 & He & _ & Hk).
    destruct w1 as [|? [|]]; [|done|done]. injection He as <- <- <-. exists 1, snap, []. split; [done|exact Hk].
Defined.
