(* ===== verification/GoTime.v ===== *)
(** * GoTime: durations, clocks and the float arithmetic between them

    The part of Go's time and math packages the runner computes deadlines with:
    int64 durations in nanoseconds, time.Unix and Time.Sub with their overflow
    behaviour, Duration.Seconds as the float64 it is, and the conversions and
    texts made from it. *)
From S2P Require Import Prelude Json.
From Stdlib Require Import Strings.Byte.
Local Open Scope Z_scope.

(** ** int64 *)

Definition i64 (z : Z) : Z := (z + 2 ^ 63) mod 2 ^ 64 - 2 ^ 63.

Definition Nanosecond : Z := 1.
Definition Millisecond : Z := 1000000.
Definition Second : Z := 1000000000.
Definition Minute : Z := 60 * Second.
Definition Hour : Z := 60 * Minute.

Definition maxDuration : Z := 2 ^ 63 - 1.
Definition minDuration : Z := - 2 ^ 63.

(** ** float64

    A non-negative float is [m / 2^k]; every quantity here is below 2^53, so
    the scale [k] is never negative. *)
Record float64 := mkFloat { f_mant : Z; f_scale : Z }.

(** Rounds [n / d] to the nearest integer, ties to even. *)
Definition round_even (n d : Z) : Z :=
  let q := n / d in
  let r := n mod d in
  if decide (2 * r < d) then q
  else if decide (2 * r > d) then q + 1
  else if Z.even q then q else q + 1.

(** The binary exponent of [n / d]: the [e] with 2^e <= n/d < 2^(e+1). *)
Definition exponent (n d : Z) : Z :=
  let e := Z.log2 n - Z.log2 d in
  if decide (d * 2 ^ Z.max 0 e <= n * 2 ^ Z.max 0 (- e)) then e else e - 1.

(** The float nearest to [n / d], with its 53 significant bits. *)
Definition float_of_ratio (n d : Z) : float64 :=
  if decide (n = 0) then mkFloat 0 0
  else
    let k := Z.max 0 (52 - exponent n d) in
    mkFloat (round_even (n * 2 ^ k) d) k.

(** int(f) and math.Ceil(f), for f >= 0. *)
Definition float_trunc (f : float64) : Z := f_mant f / 2 ^ f_scale f.
Definition float_ceil (f : float64) : Z := - ((- f_mant f) / 2 ^ f_scale f).

(** Duration.Seconds of a non-negative duration: float64(sec) + float64(nsec)/1e9,
    the division and the sum each rounded. *)
Definition Seconds (d : Z) : float64 :=
  let sec := d / Second in
  let nsec := d mod Second in
  let f := float_of_ratio nsec Second in
  float_of_ratio (sec * 2 ^ f_scale f + f_mant f) (2 ^ f_scale f).

(** int(d.Seconds()), of any sign: the float of -d is that of d, negated. *)
Definition int_seconds (d : Z) : Z :=
  if decide (0 <= d) then float_trunc (Seconds d) else - float_trunc (Seconds (- d)).

(** ** Instants

    time.Unix(sec, 0) keeps seconds since year 1 in an int64; the clock [now]
    is in nanoseconds since 1970. *)
Definition unixToInternal : Z := 62135596800.

Definition Unix (sec : Z) : Z := (i64 (sec + unixToInternal) - unixToInternal) * Second.

(** t.Sub(u), saturating. *)
Definition Sub (t u : Z) : Z :=
  let d := t - u in
  if decide (minDuration <= d <= maxDuration) then d
  else if decide (t < u) then minDuration else maxDuration.

(** d.Round(time.Second): to the nearest second, halves away from zero. *)
Definition Round_second (d : Z) : Z :=
  let r := Z.rem d Second in
  if decide (d < 0) then
    let r := - r in
    if decide (r + r < Second) then d + r
    else let d1 := d - Second + r in if decide (minDuration <= d1) then d1 else minDuration
  else
    if decide (r + r < Second) then d - r
    else let d1 := d + Second - r in if decide (d1 <= maxDuration) then d1 else maxDuration.

(** ** Duration.String *)

(** fmtFrac: the fraction of v/10^prec without trailing zeros, and v/10^prec;
    [print] is whether a digit has been written, [acc] the text behind it. *)
Fixpoint fmtFrac (prec : nat) (v : Z) (print : bool) (acc : bytes) : bytes * Z :=
  match prec with
  | O => (if print then x2e :: acc else acc, v)
  | S prec =>
    let digit := v mod 10 in
    let print := print || negb (digit =? 0) in
    fmtFrac prec (v / 10) print (if print then byte_of_Z (48 + digit) :: acc else acc)
  end.

Definition duration_String (d : Z) : bytes :=
  let u := Z.abs d in
  let text :=
    if decide (u < Second) then
      if decide (u = 0) then str "0s"
      else
        let '(prec, unit) :=
          if decide (u < 1000) then (0%nat, str "ns")
          else if decide (u < Millisecond) then (3%nat, str "µs")
          else (6%nat, str "ms") in
        let '(frac, v) := fmtFrac prec u false unit in itoa v ++ frac
    else
      let '(sec, v) := fmtFrac 9 u false (str "s") in
      let sec := itoa (v mod 60) ++ sec in
      let v := v / 60 in
      if decide (0 < v) then
        let min := itoa (v mod 60) ++ str "m" ++ sec in
        let v := v / 60 in
        if decide (0 < v) then itoa v ++ str "h" ++ min else min
      else sec in
  if decide (d < 0) then x2d :: text else text.

Example duration_hours : duration_String (3600 * Second + 61 * Second) = str "1h1m1s".
Proof. vm_compute. reflexivity. Qed.
Example duration_max : duration_String maxDuration = str "2562047h47m16.854775807s".
Proof. vm_compute. reflexivity. Qed.
Example duration_half : duration_String (1500 * 1000) = str "1.5ms".
Proof. vm_compute. reflexivity. Qed.

(** ** Rounding *)

Lemma i64_small z : - 2 ^ 63 <= z < 2 ^ 63 -> i64 z = z.
Proof. intros. unfold i64. rewrite Z.mod_small; lia. Qed.

Lemma round_even_bounds n d : 0 < d -> n / d <= round_even n d <= n / d + 1.
Proof. intros. unfold round_even. repeat case_match; lia. Qed.

Lemma round_even_ge n d a : 0 < d -> a * d <= n -> a <= round_even n d.
Proof.
  intros Hd H. pose proof (round_even_bounds n d Hd).
  assert (a <= n / d) by (apply Z.div_le_lower_bound; lia). lia.
Qed.

Lemma round_even_le n d b : 0 < d -> n <= b * d -> round_even n d <= b.
Proof.
  intros Hd H. unfold round_even. pose proof (Z.mod_pos_bound n d Hd).
  pose proof (Z.div_mod n d ltac:(lia)) as Hdm.
  assert (n / d < b \/ n / d = b /\ n mod d = 0) as [?|[? Hr]] by nia.
  - repeat case_match; lia.
  - rewrite Hr. rewrite decide_True by lia. lia.
Qed.

(** Rounding up needs more than half a unit. *)
Lemma round_even_gt n d a : 0 < d -> 2 * a * d + d < 2 * n -> a + 1 <= round_even n d.
Proof.
  intros Hd H. unfold round_even. pose proof (Z.mod_pos_bound n d Hd).
  pose proof (Z.div_mod n d ltac:(lia)) as Hdm.
  assert (a + 1 <= n / d \/ n / d = a /\ 2 * (n mod d) > d) as [?|[? Hr]] by nia.
  - repeat case_match; lia.
  - rewrite decide_False, decide_True by lia. lia.
Qed.

(** A rounded quotient stays between the integers around it. *)
Lemma float_of_ratio_scale n d : 0 <= f_scale (float_of_ratio n d).
Proof. unfold float_of_ratio. case_decide; simpl; lia. Qed.

Lemma float_of_ratio_ge n d a :
  0 < d -> a * d <= n ->
  a * 2 ^ f_scale (float_of_ratio n d) <= f_mant (float_of_ratio n d).
Proof.
  intros Hd H. unfold float_of_ratio. case_decide as Hn; simpl f_scale; simpl f_mant; [nia|].
  set (k := Z.max 0 _). assert (0 < 2 ^ k) by (apply Z.pow_pos_nonneg; lia).
  apply round_even_ge; [done|]. nia.
Qed.

Lemma float_of_ratio_le n d b :
  0 < d -> n <= b * d ->
  f_mant (float_of_ratio n d) <= b * 2 ^ f_scale (float_of_ratio n d).
Proof.
  intros Hd H. unfold float_of_ratio. case_decide as Hn; simpl f_scale; simpl f_mant; [nia|].
  set (k := Z.max 0 _). assert (0 < 2 ^ k) by (apply Z.pow_pos_nonneg; lia).
  apply round_even_le; [done|]. nia.
Qed.

Lemma scale_pos f : 0 <= f_scale f -> 0 < 2 ^ f_scale f.
Proof. intros. by apply Z.pow_pos_nonneg. Qed.

(** ** Seconds, between the whole seconds around it *)

Lemma Seconds_bounds d :
  0 <= d ->
  d / Second * 2 ^ f_scale (Seconds d) <= f_mant (Seconds d)
  <= (d / Second + (if decide (d mod Second = 0) then 0 else 1)) * 2 ^ f_scale (Seconds d).
Proof.
  intros Hd. unfold Seconds. set (s := d / Second). set (n := d mod Second).
  assert (0 <= n < Second) as Hn by (apply Z.mod_pos_bound; done).
  set (f := float_of_ratio n Second).
  pose proof (float_of_ratio_scale n Second) as Hk. fold f in Hk.
  pose proof (scale_pos f Hk) as Hp.
  pose proof (float_of_ratio_ge n Second 0 ltac:(done) ltac:(lia)) as Hge. fold f in Hge.
  assert (f_mant f <= (if decide (n = 0) then 0 else 1) * 2 ^ f_scale f) as Hle.
  { apply float_of_ratio_le; [done|]. case_decide; unfold Second in *; lia. }
  split; [apply float_of_ratio_ge|apply float_of_ratio_le]; nia.
Qed.

Lemma Seconds_scale d : 0 <= f_scale (Seconds d).
Proof. apply float_of_ratio_scale. Qed.

(** int(d.Seconds()) is the whole seconds, or one more. *)
Lemma float_trunc_Seconds d :
  0 <= d -> d / Second <= float_trunc (Seconds d) <= d / Second + (if decide (d mod Second = 0) then 0 else 1).
Proof.
  intros Hd. pose proof (Seconds_bounds d Hd) as [H1 H2].
  pose proof (scale_pos _ (Seconds_scale d)) as Hp. unfold float_trunc. split.
  - apply Z.div_le_lower_bound; lia.
  - apply Z.div_le_upper_bound; lia.
Qed.

Lemma float_ceil_Seconds d :
  0 <= d -> d / Second <= float_ceil (Seconds d) <= d / Second + (if decide (d mod Second = 0) then 0 else 1).
Proof.
  intros Hd. pose proof (Seconds_bounds d Hd) as [H1 H2].
  pose proof (scale_pos _ (Seconds_scale d)) as Hp. unfold float_ceil. split.
  - assert (- f_mant (Seconds d) / 2 ^ f_scale (Seconds d) <= - (d / Second))
      by (apply Z.div_le_upper_bound; lia). lia.
  - set (b := d / Second + _) in *.
    assert (- b <= - f_mant (Seconds d) / 2 ^ f_scale (Seconds d))
      by (apply Z.div_le_lower_bound; lia). lia.
Qed.

(** Under 2^22 seconds (48 days), Seconds tells every nanosecond from a whole
    second: rounding up is exact. *)
Lemma exponent_le n d b :
  0 < n -> 0 < d -> n < 2 ^ (Z.log2 d + b + 1) -> 0 <= b -> exponent n d <= b.
Proof.
  intros Hn Hd Hlt Hb. unfold exponent.
  assert (Z.log2 n < Z.log2 d + b + 1).
  { apply Z.log2_lt_pow2; done. }
  case_decide; lia.
Qed.

Lemma fraction_at_least n :
  0 < n < Second ->
  let f := float_of_ratio n Second in 2 ^ f_scale f <= f_mant f * 2 ^ 30.
Proof.
  intros Hn f. unfold f, float_of_ratio. rewrite decide_False by lia. simpl f_scale. simpl f_mant.
  assert (exponent n Second <= 0) as He.
  { apply exponent_le; [lia|done| |lia]. change (Z.log2 Second + 0 + 1) with 30.
    unfold Second in *. lia. }
  set (k := Z.max 0 (52 - exponent n Second)). assert (30 <= k) as Hk by lia.
  replace k with (k - 30 + 30) at 1 by lia. rewrite Z.pow_add_r by lia.
  apply Z.mul_le_mono_nonneg_r; [lia|]. apply round_even_ge; [done|].
  replace k with (k - 30 + 30) at 2 by lia. rewrite Z.pow_add_r by lia.
  assert (0 < 2 ^ (k - 30)) by (apply Z.pow_pos_nonneg; lia).
  unfold Second in *. nia.
Qed.

Lemma Seconds_above d :
  0 <= d -> d / Second < 2 ^ 22 - 1 -> d mod Second <> 0 ->
  d / Second * 2 ^ f_scale (Seconds d) + 1 <= f_mant (Seconds d).
Proof.
  intros Hd Hlt Hne. unfold Seconds. set (s := d / Second) in *. set (n := d mod Second) in *.
  assert (0 < n < Second) as Hn by (pose proof (Z.mod_pos_bound d Second ltac:(done)); lia).
  assert (0 <= s) as Hs by (apply Z.div_pos; done).
  pose proof (fraction_at_least n Hn) as Hf. cbv zeta in Hf.
  set (f := float_of_ratio n Second) in *.
  pose proof (float_of_ratio_scale n Second) as Hk. fold f in Hk.
  pose proof (scale_pos f Hk) as Hp.
  assert (f_mant f <= 1 * 2 ^ f_scale f) as Hle by (apply float_of_ratio_le; [done|lia]).
  set (k := f_scale f) in *. set (m := f_mant f) in *.
  assert (0 < m) as Hm by nia.
  unfold float_of_ratio. rewrite decide_False by nia. simpl f_scale. simpl f_mant.
  assert (exponent (s * 2 ^ k + m) (2 ^ k) <= 21) as He.
  { apply exponent_le; [nia|done| |lia]. rewrite Z.log2_pow2 by done.
    replace (k + 21 + 1) with (22 + k) by lia. rewrite Z.pow_add_r by lia. nia. }
  set (k' := Z.max 0 _). assert (31 <= k') as Hk' by lia.
  apply round_even_gt; [done|].
  replace k' with (31 + (k' - 31)) by lia. rewrite Z.pow_add_r by lia.
  assert (0 < 2 ^ (k' - 31)) by (apply Z.pow_pos_nonneg; lia).
  set (p := 2 ^ (k' - 31)) in *. change (2 ^ 31) with (2 * 2 ^ 30).
  assert (2 ^ k < 4 * (m * 2 ^ 30) * p) by nia. nia.
Qed.

Lemma float_ceil_exact d :
  0 <= d -> d / Second < 2 ^ 22 - 1 ->
  float_ceil (Seconds d) = d / Second + (if decide (d mod Second = 0) then 0 else 1).
Proof.
  intros Hd Hlt. pose proof (float_ceil_Seconds d Hd) as H.
  case_decide as Hn; [lia|]. pose proof (Seconds_above d Hd Hlt Hn) as Ha.
  pose proof (scale_pos _ (Seconds_scale d)) as Hp. unfold float_ceil in *.
  assert (- f_mant (Seconds d) / 2 ^ f_scale (Seconds d) < - (d / Second)); [|lia].
  apply Z.div_lt_upper_bound; lia.
Qed.

(** Rounding keeps a quotient that is 2^-30 below one there. *)
Lemma float_of_ratio_below n d :
  0 <= n -> 0 < d -> n * 2 ^ 30 <= (2 ^ 30 - 1) * d ->
  let f := float_of_ratio n d in 0 <= f_mant f < 2 ^ f_scale f /\
    f_mant f * 2 ^ 30 <= (2 ^ 30 - 1) * 2 ^ f_scale f.
Proof.
  intros Hn Hd H f. pose proof (scale_pos f (float_of_ratio_scale n d)) as Hp.
  pose proof (float_of_ratio_ge n d 0 Hd ltac:(lia)) as H0. fold f in H0.
  assert (f_mant f * 2 ^ 30 <= (2 ^ 30 - 1) * 2 ^ f_scale f) as Hf; [|lia].
  unfold f, float_of_ratio. case_decide as Hz; [simpl; lia|]. simpl f_scale. simpl f_mant.
  assert (exponent n d <= 0) as He.
  { apply exponent_le; [lia|done| |lia]. rewrite Z.add_0_r.
    destruct (Z.log2_spec d Hd) as [_ Hlt]. unfold Z.succ in Hlt. lia. }
  set (k := Z.max 0 _). assert (52 <= k) as Hk by lia.
  replace k with (k - 30 + 30) at 2 by lia. rewrite Z.pow_add_r by lia.
  rewrite Z.mul_assoc. apply Z.mul_le_mono_nonneg_r; [lia|].
  apply round_even_le; [done|].
  replace k with (k - 30 + 30) at 1 by lia. rewrite Z.pow_add_r by lia.
  assert (0 < 2 ^ (k - 30)) by (apply Z.pow_pos_nonneg; lia).
  set (p := 2 ^ (k - 30)) in *. nia.
Qed.

(** Under one second, int(d.Seconds()) is 0. *)
Lemma float_trunc_subsecond d : 0 <= d < Second -> float_trunc (Seconds d) = 0.
Proof.
  intros Hd. unfold Seconds. rewrite Z.div_small, Z.mod_small by done.
  destruct (float_of_ratio_below d Second) as [Hf Hb]; [lia|done|unfold Second in *; lia|].
  set (f := float_of_ratio d Second) in *. rewrite Z.add_0_l.
  destruct (float_of_ratio_below (f_mant f) (2 ^ f_scale f)) as [Hg _]; [lia..|].
  unfold float_trunc. by apply Z.div_small.
Qed.

(** Round(time.Second) lands on a whole second, at most half a second away. *)
Lemma Round_second_near d :
  minDuration + Second <= d <= maxDuration - Second ->
  (exists s, Round_second d = s * Second) /\ 2 * Z.abs (Round_second d - d) <= Second.
Proof.
  intros Hd. unfold Round_second. unfold minDuration, maxDuration, Second in *.
  pose proof (Z.quot_rem d 1000000000 ltac:(lia)) as Hq.
  pose proof (Z.rem_bound_abs d 1000000000 ltac:(lia)) as Hb.
  pose proof (Z.rem_sign_mul d 1000000000 ltac:(lia)) as Hs.
  set (q := Z.quot d 1000000000) in *. set (r := Z.rem d 1000000000) in *.
  case_decide as Hneg.
  - assert (r <= 0) by nia. case_decide; [split; [exists q; lia|lia]|].
    rewrite decide_True by lia. split; [exists (q - 1); lia|lia].
  - assert (0 <= r) by nia. case_decide; [split; [exists q; lia|lia]|].
    rewrite decide_True by lia. split; [exists (q + 1); lia|lia].
Qed.
