(* ===== verification/GoFlag.v ===== *)
(** * GoFlag: command-line flags and duration texts

    Go's flag package as runner/cmd/onlytty/main.go uses it (boolean, string
    and duration flags, parsed with ExitOnError), strconv.ParseBool and
    time.ParseDuration with its uint64 and float64 arithmetic. *)
From S2P Require Import Prelude Utf8 Json GoTime.
From Stdlib Require Import Strings.Byte.
Local Open Scope Z_scope.

(** ** time.ParseDuration *)

(** leadingInt: the number a run of digits spells, refused above 2^63. *)
Fixpoint leadingInt (x : Z) (s : bytes) : option (Z * bytes) :=
  match s with
  | c :: s' =>
    if is_digit c then
      if decide (2 ^ 63 / 10 < x) then None
      else
        let x := x * 10 + (Z_of_byte c - 48) in
        if decide (2 ^ 63 < x) then None else leadingInt x s'
    else Some (x, s)
  | [] => Some (x, [])
  end.

(** leadingFraction: the digits that fit, and the power of ten they are over (a
    float64, exact up to 10^22). *)
Fixpoint leadingFraction (x scale : Z) (overflow : bool) (s : bytes) : Z * Z * bytes :=
  match s with
  | c :: s' =>
    if is_digit c then
      if overflow then leadingFraction x scale true s'
      else if decide ((2 ^ 63 - 1) / 10 < x) then leadingFraction x scale true s'
      else
        let y := x * 10 + (Z_of_byte c - 48) in
        if decide (2 ^ 63 < y) then leadingFraction x scale true s'
        else leadingFraction y (scale * 10) false s'
    else (x, scale, s)
  | [] => (x, scale, [])
  end.

Definition unit_of (u : bytes) : option Z :=
  if decide (u = str "ns") then Some Nanosecond
  else if decide (u = str "us") then Some 1000
  else if decide (u = str "µs") then Some 1000
  else if decide (u = str "μs") then Some 1000
  else if decide (u = str "ms") then Some Millisecond
  else if decide (u = str "s") then Some Second
  else if decide (u = str "m") then Some Minute
  else if decide (u = str "h") then Some Hour
  else None.

(** float64(n) of a uint64, as an integer. *)
Definition float_of_uint (n : Z) : Z :=
  let j := Z.max 0 (Z.log2 n - 52) in round_even n (2 ^ j) * 2 ^ j.

(** uint64(float64(f) * (float64(unit) / scale)) *)
Definition fraction_of (f unit scale : Z) : Z :=
  let q := float_of_ratio unit scale in
  float_trunc (float_of_ratio (float_of_uint f * f_mant q) (2 ^ f_scale q)).

Definition unit_byte (b : byte) : bool := negb (bool_decide (b = x2e) || is_digit b).

(** One number and its unit: their value in nanoseconds, and the rest. *)
Definition duration_term (s : bytes) : option (Z * bytes) :=
  match s with
  | [] => None
  | c :: _ =>
    if bool_decide (c = x2e) || is_digit c then
      '(v, s1) ← leadingInt 0 s;
      let pre := negb (bool_decide (length s = length s1)) in
      let '(f, scale, s2, post) :=
        match s1 with
        | x2e :: t =>
          let '(f, scale, t') := leadingFraction 0 1 false t in
          (f, scale, t', negb (bool_decide (length t = length t')))
        | _ => (0, 1, s1, false)
        end in
      if negb pre && negb post then None
      else
        let '(u, s3) := span unit_byte s2 in
        if decide (u = []) then None
        else
          unit ← unit_of u;
          if decide (2 ^ 63 / unit < v) then None
          else
            let v := v * unit in
            if decide (0 < f) then
              let v := u64 (v + fraction_of f unit scale) in
              if decide (2 ^ 63 < v) then None else Some (v, s3)
            else Some (v, s3)
    else None
  end.

(** The loop over the terms; each takes at least one byte. *)
Fixpoint duration_terms (fuel : nat) (d : Z) (s : bytes) : option Z :=
  match s with
  | [] => Some d
  | _ =>
    match fuel with
    | O => None
    | S fuel =>
      '(v, s) ← duration_term s;
      let d := u64 (d + v) in
      if decide (2 ^ 63 < d) then None else duration_terms fuel d s
    end
  end.

Definition ParseDuration (s : bytes) : option Z :=
  let '(neg, s) := match s with
                   | x2d :: s => (true, s)
                   | x2b :: s => (false, s)
                   | _ => (false, s)
                   end in
  if decide (s = [x30]) then Some 0
  else if decide (s = []) then None
  else
    d ← duration_terms (length s) 0 s;
    if neg : bool then Some (i64 (- d))
    else if decide (2 ^ 63 - 1 < d) then None else Some d.

Example parse_duration_mixed : ParseDuration (str "1h30m.5s") = Some (5400 * Second + 500 * Millisecond).
Proof. vm_compute. reflexivity. Qed.
Example parse_duration_min :
  ParseDuration (str "-2562047h47m16.854775808s") = Some minDuration.
Proof. vm_compute. reflexivity. Qed.
Example parse_duration_bare : ParseDuration (str "90") = None.
Proof. vm_compute. reflexivity. Qed.

(** strconv.ParseBool *)
Definition ParseBool (s : bytes) : option bool :=
  if decide (s ∈ [str "1"; str "t"; str "T"; str "true"; str "TRUE"; str "True"]) then Some true
  else if decide (s ∈ [str "0"; str "f"; str "F"; str "false"; str "FALSE"; str "False"]) then Some false
  else None.

(** ** The flag package *)

Inductive flag_kind := FBool | FString | FDuration.
Inductive flag_value := VBool (b : bool) | VString (s : bytes) | VDuration (d : Z).

Inductive flag_error :=
| BadSyntax (arg : bytes)
| NotDefined (name : bytes)
| NeedsArgument (name : bytes)
| InvalidValue (name value : bytes).

(** How parsing ends: with the arguments left, for -help, or in error. *)
Inductive parse_end := Parsed (rest : list bytes) | Help | Failed (e : flag_error).

(** flag.Value.Set *)
Definition set_value (k : flag_kind) (s : bytes) : option flag_value :=
  match k with
  | FBool => VBool <$> ParseBool s
  | FString => Some (VString s)
  | FDuration => VDuration <$> ParseDuration s
  end.

(** The name and the value after an equals sign, which cannot come first. *)
Definition split_value (name : bytes) : bytes * option bytes :=
  match name with
  | [] => ([], None)
  | c :: name =>
    let '(n, rest) := span (fun b => negb (bool_decide (b = x3d))) name in
    (c :: n, match rest with _ :: v => Some v | [] => None end)
  end.

(** What one argument is: not a flag, the terminator, or a flag's text. *)
Inductive arg_kind := NotFlag | Terminator | FlagText (name : bytes) (value : option bytes) | BadFlag.

Definition classify (s : bytes) : arg_kind :=
  match s with
  | x2d :: x2d :: [] => Terminator
  | x2d :: c :: rest =>
    let name := if decide (c = x2d) then rest else c :: rest in
    match name with
    | [] => BadFlag
    | n0 :: _ =>
      if decide (n0 = x2d \/ n0 = x3d) then BadFlag
      else let '(n, v) := split_value name in FlagText n v
    end
  | _ => NotFlag
  end.

(** Parse: the values set, in order, and the end. *)
Fixpoint Parse (formal : bytes -> option flag_kind) (args : list bytes)
    : list (bytes * flag_value) * parse_end :=
  match args with
  | [] => ([], Parsed [])
  | s :: rest =>
    match classify s with
    | NotFlag => ([], Parsed (s :: rest))
    | Terminator => ([], Parsed rest)
    | BadFlag => ([], Failed (BadSyntax s))
    | FlagText name value =>
      match formal name with
      | None =>
        ([], if decide (name = str "help" \/ name = str "h") then Help else Failed (NotDefined name))
      | Some k =>
        match k, value with
        | FBool, None =>
          let '(l, e) := Parse formal rest in ((name, VBool true) :: l, e)
        | _, Some v =>
          match set_value k v with
          | Some x => let '(l, e) := Parse formal rest in ((name, x) :: l, e)
          | None => ([], Failed (InvalidValue name v))
          end
        | _, None =>
          match rest with
          | [] => ([], Failed (NeedsArgument name))
          | v :: rest =>
            match set_value k v with
            | Some x => let '(l, e) := Parse formal rest in ((name, x) :: l, e)
            | None => ([], Failed (InvalidValue name v))
            end
          end
        end
      end
    end
  end.

(** The value a flag ends with: the last one set. *)
Fixpoint last_value (name : bytes) (l : list (bytes * flag_value)) : option flag_value :=
  match l with
  | [] => None
  | (n, v) :: l =>
    match last_value name l with
    | Some v => Some v
    | None => if decide (n = name) then Some v else None
    end
  end.

(** ** Lemmas on durations *)

Lemma leadingInt_digits ds x c rest :
  0 <= x -> forallb is_digit ds = true -> is_digit c = false ->
  foldl (fun acc d => acc * 10 + (Z_of_byte d - 48)) x ds <= 2 ^ 63 ->
  leadingInt x (ds ++ c :: rest)
  = Some (foldl (fun acc d => acc * 10 + (Z_of_byte d - 48)) x ds, c :: rest).
Proof.
  intros Hx Hd Hc. revert x Hx. induction ds as [|d ds IH]; intros x Hx Hle; simpl in *.
  { by rewrite Hc. }
  apply andb_true_iff in Hd as [Hd1 Hd]. rewrite Hd1.
  assert (48 <= Z_of_byte d) as H48.
  { unfold is_digit in Hd1. apply bool_decide_eq_true in Hd1. lia. }
  assert (x * 10 + (Z_of_byte d - 48) <= 2 ^ 63) as Hy.
  { etrans; [|exact Hle]. clear -Hx H48 Hd.
    assert (0 <= x * 10 + (Z_of_byte d - 48)) as H0 by lia. revert H0.
    generalize (x * 10 + (Z_of_byte d - 48)). clear Hx H48.
    induction ds as [|e ds IH]; intros y Hy; simpl; [lia|].
    simpl in Hd. apply andb_true_iff in Hd as [He Hd].
    unfold is_digit in He. apply bool_decide_eq_true in He.
    etrans; [|apply IH; [done|lia]]. lia. }
  rewrite decide_False by (pose proof (Z.div_le_lower_bound (2 ^ 63) 10 x ltac:(lia)); lia).
  rewrite decide_False by lia. apply IH; [done|lia|done].
Qed.

Lemma itoa_digits v :
  0 <= v -> exists ds, itoa v = ds /\ forallb is_digit ds = true /\ ds <> [] /\
    foldl (fun acc d => acc * 10 + (Z_of_byte d - 48)) 0 ds = v.
Proof.
  intros Hv. exists (itoa v). split; [done|]. unfold itoa. set (fuel := S _).
  rewrite decide_False by lia.
  assert (Z.abs v < 2 ^ Z.of_nat fuel) as Hf.
  { unfold fuel. rewrite Nat2Z.inj_succ, Z2Nat.id by apply Z.log2_nonneg.
    destruct (decide (v = 0)) as [->|]; [done|]. apply Z.log2_spec. lia. }
  destruct (decimal_digits_read fuel (Z.abs v) ltac:(lia) Hf) as (Hn & Hd & Hne).
  split; [done|]. split; [by apply Hne|]. unfold number_of in Hn. rewrite Hn. lia.
Qed.

Lemma span_unit u rest :
  forallb unit_byte u = true -> (rest = [] \/ exists c k, rest = c :: k /\ is_digit c = true) ->
  span unit_byte (u ++ rest) = (u, rest).
Proof.
  intros Hu Hr. induction u as [|b u IH]; simpl in *.
  - destruct Hr as [->|(c & k & -> & Hc)]; [done|]. simpl. unfold unit_byte. by rewrite Hc, orb_true_r.
  - apply andb_true_iff in Hu as [-> Hu]. by rewrite IH.
Qed.

(** A whole number of a unit. *)
Lemma whole_term v u unit rest :
  0 <= v -> unit_of u = Some unit -> 0 < unit -> v <= 2 ^ 63 / unit -> forallb unit_byte u = true ->
  (rest = [] \/ exists c k, rest = c :: k /\ is_digit c = true) ->
  duration_term (itoa v ++ u ++ rest) = Some (v * unit, rest).
Proof.
  intros Hv Hu Hpos Hle Hb Hr. destruct (itoa_digits v Hv) as (ds & -> & Hd & Hne & Hn).
  destruct ds as [|d0 ds0] eqn:E; [done|]. rewrite <- E in *.
  assert (exists c k, u ++ rest = c :: k /\ is_digit c = false /\ c <> x2e) as (c & k & Huk & Hc & Hdot).
  { destruct u as [|c u]; [done|]. exists c, (u ++ rest). split; [done|].
    simpl in Hb. apply andb_true_iff in Hb as [Hb _]. unfold unit_byte in Hb.
    apply negb_true_iff, orb_false_iff in Hb as [H1 H2]. split; [done|].
    by apply bool_decide_eq_false in H1. }
  assert (leadingInt 0 (ds ++ u ++ rest) = Some (v, u ++ rest)) as Hlead.
  { pose proof (leadingInt_digits ds 0 c k ltac:(lia) Hd Hc) as HL. rewrite Hn in HL.
    rewrite Huk. apply HL. etrans; [exact Hle|]. apply Z.div_le_upper_bound; nia. }
  unfold duration_term.
  assert (length (ds ++ u ++ rest) <> length (u ++ rest)) as Hlen
    by (rewrite (length_app ds), E; simpl; lia).
  destruct (ds ++ u ++ rest) as [|c0 s0] eqn:Es; [by rewrite E in Es|].
  assert (is_digit c0 = true) as Hc0.
  { rewrite E in Es. injection Es as <- _. rewrite E in Hd. simpl in Hd.
    by apply andb_true_iff in Hd as [-> _]. }
  rewrite Hc0, orb_true_r, Hlead. cbn [mbind option_bind].
  rewrite (bool_decide_eq_false_2 _ Hlen).
  replace (match u ++ rest with
           | x2e :: t => let '(f, scale, t') := leadingFraction 0 1 false t in
                         (f, scale, t', negb (bool_decide (length t = length t')))
           | _ => (0, 1, u ++ rest, false) end) with (0, 1, u ++ rest, false)
    by (rewrite Huk; clear -Hdot; by destruct c).
  cbn [negb andb]. rewrite span_unit by done.
  rewrite decide_False by (by intros ->). rewrite Hu. cbn [mbind option_bind].
  by rewrite decide_False, decide_False by lia.
Qed.

Lemma duration_terms_step fuel d s v rest :
  duration_term s = Some (v, rest) -> 0 <= d -> 0 <= v -> d + v <= 2 ^ 63 ->
  duration_terms (S fuel) d s = duration_terms fuel (d + v) rest.
Proof.
  intros Ht Hd Hv Hle. destruct s as [|c s]; [done|]. cbn [duration_terms].
  rewrite Ht. cbn [mbind option_bind].
  unfold u64. rewrite Z.mod_small by lia. by rewrite decide_False by lia.
Qed.

(** ** Whole seconds *)

Lemma fmtFrac_whole n v acc : fmtFrac n (v * 10 ^ Z.of_nat n) false acc = (acc, v).
Proof.
  revert v. induction n as [|n IH]; intros v; [by rewrite Z.mul_1_r|].
  cbn [fmtFrac]. rewrite Nat2Z.inj_succ, Z.pow_succ_r by lia.
  replace (v * (10 * 10 ^ Z.of_nat n)) with (v * 10 ^ Z.of_nat n * 10) by ring.
  rewrite Z.mod_mul, Z.div_mul by lia. apply IH.
Qed.

(** The text of a whole number of seconds. *)
Definition clock_text (s : Z) : bytes :=
  if decide (s < 60) then itoa s ++ str "s"
  else if decide (s < 3600) then itoa (s / 60) ++ str "m" ++ itoa (s mod 60) ++ str "s"
  else itoa (s / 3600) ++ str "h" ++ itoa (s / 60 mod 60) ++ str "m" ++ itoa (s mod 60) ++ str "s".

Lemma duration_String_whole s : 0 <= s -> duration_String (s * Second) = clock_text s.
Proof.
  intros Hs. unfold duration_String. cbv zeta. rewrite Z.abs_eq by (unfold Second; lia).
  destruct (decide (s = 0)) as [->|Hne]; [done|].
  rewrite (decide_False (P := s * Second < 0)) by (unfold Second; lia).
  rewrite (decide_False (P := s * Second < Second)) by (unfold Second; lia).
  pose proof (fmtFrac_whole 9 s (str "s")) as Hf. change (10 ^ Z.of_nat 9) with Second in Hf.
  rewrite Hf.
  unfold clock_text. destruct (decide (s < 60)) as [H1|H1].
  { rewrite decide_False by (rewrite Z.div_small by lia; lia). by rewrite Z.mod_small by lia. }
  rewrite decide_True by (apply Z.div_str_pos; lia).
  rewrite Z.div_div by lia. change (60 * 60) with 3600. destruct (decide (s < 3600)) as [H2|H2].
  - rewrite decide_False by (rewrite Z.div_small by lia; lia).
    rewrite (Z.mod_small (s / 60)); [done|]. split; [apply Z.div_pos; lia|].
    apply Z.div_lt_upper_bound; lia.
  - by rewrite decide_True by (apply Z.div_str_pos; lia).
Qed.

(** A text that starts with a number is taken as it is. *)
Lemma ParseDuration_unsigned v u rest :
  0 <= v -> u <> [] ->
  ParseDuration (itoa v ++ u ++ rest)
  = d ← duration_terms (length (itoa v ++ u ++ rest)) 0 (itoa v ++ u ++ rest);
    if decide (2 ^ 63 - 1 < d) then None else Some d.
Proof.
  intros Hv Hu. destruct (itoa_digits v Hv) as (ds & -> & Hd & Hne & _).
  destruct ds as [|c ds]; [done|]. simpl in Hd. apply andb_true_iff in Hd as [Hc _].
  set (t := ds ++ u ++ rest). change ((c :: ds) ++ u ++ rest) with (c :: t).
  assert (t <> []) as Ht by (unfold t; destruct ds; [by destruct u|done]).
  unfold ParseDuration.
  replace (match c :: t with x2d :: s => (true, s) | x2b :: s => (false, s) | _ => (false, c :: t) end)
    with (false, c :: t) by (clear -Hc; by destruct c).
  rewrite decide_False by (by intros [= _ ?]). by rewrite decide_False.
Qed.

Lemma digit_next v rest : 0 <= v -> exists c k, itoa v ++ rest = c :: k /\ is_digit c = true.
Proof.
  intros Hv. destruct (itoa_digits v Hv) as (ds & -> & Hd & Hne & _).
  destruct ds as [|c ds]; [done|]. simpl in Hd. apply andb_true_iff in Hd as [Hc _]. by exists c, (ds ++ rest).
Qed.

(** One term behind another: the sum so far, the fuel going down by one. *)
Lemma clock_term fuel d v u unit rest :
  0 <= d -> 0 <= v -> unit_of u = Some unit -> 0 < unit -> forallb unit_byte u = true ->
  (rest = [] \/ exists c k, rest = c :: k /\ is_digit c = true) -> d + v * unit <= maxDuration ->
  duration_terms (S fuel) d (itoa v ++ u ++ rest) = duration_terms fuel (d + v * unit) rest.
Proof.
  intros Hd Hv Hu Hpos Hb Hr Hle. unfold maxDuration in Hle.
  apply (duration_terms_step _ _ _ (v * unit)); [|lia|nia|lia].
  apply whole_term; [done..| |done|done]. apply Z.div_le_lower_bound; nia.
Qed.

Lemma length_itoa_pos v : 0 <= v -> (0 < length (itoa v))%nat.
Proof.
  intros Hv. destruct (itoa_digits v Hv) as (ds & -> & _ & Hne & _). destruct ds; [done|simpl; lia].
Qed.

(** More fuel gives the same sum. *)
Lemma duration_terms_more fuel fuel' d s n :
  duration_terms fuel d s = Some n -> (fuel <= fuel')%nat -> duration_terms fuel' d s = Some n.
Proof.
  revert fuel' d s. induction fuel as [|fuel IH]; intros fuel' d s H Hle.
  { destruct s; [by destruct fuel'|done]. }
  destruct fuel' as [|fuel']; [lia|]. destruct s as [|c s]; [done|]. cbn [duration_terms] in *.
  destruct (duration_term (c :: s)) as [[v s']|]; [|done]. cbn [mbind option_bind] in *.
  case_decide; [done|]. apply IH; [done|lia].
Qed.

(** A text whose terms are read within its length, up to the largest duration. *)
Lemma ParseDuration_terms fuel v u rest n :
  0 <= v -> u <> [] -> (fuel <= length (itoa v ++ u ++ rest))%nat -> n <= maxDuration ->
  duration_terms fuel 0 (itoa v ++ u ++ rest) = Some n ->
  ParseDuration (itoa v ++ u ++ rest) = Some n.
Proof.
  intros Hv Hu Hf Hn H. rewrite ParseDuration_unsigned by done.
  rewrite (duration_terms_more fuel _ _ _ n) by done. cbn [mbind option_bind].
  unfold maxDuration in Hn. by rewrite decide_False by lia.
Qed.

Ltac units := unfold maxDuration, Hour, Minute, Second in *; lia.

Lemma clock_text_reads s :
  0 <= s -> s * Second <= maxDuration -> ParseDuration (clock_text s) = Some (s * Second).
Proof.
  intros Hs Hm.
  assert (0 <= s / 60 /\ 0 <= s mod 60 < 60 /\ s = 60 * (s / 60) + s mod 60) as (Hq & Hr & E).
  { split; [by apply Z.div_pos|]. split; [by apply Z.mod_pos_bound|]. by apply Z.div_mod. }
  assert (0 <= s / 3600 /\ 0 <= s / 60 mod 60 < 60 /\ s / 60 = 60 * (s / 3600) + s / 60 mod 60)
    as (Hq' & Hr' & E').
  { split; [by apply Z.div_pos|]. split; [by apply Z.mod_pos_bound|].
    change 3600 with (60 * 60). rewrite <- Z.div_div by lia. by apply Z.div_mod. }
  pose proof (digit_next (s mod 60) (str "s") ltac:(lia)) as Hds.
  pose proof (digit_next (s / 60 mod 60) (str "m" ++ itoa (s mod 60) ++ str "s") ltac:(lia)) as Hdm.
  unfold clock_text. rewrite <- (app_nil_r (str "s")) in *.
  destruct (decide (s < 60)) as [H1|H1]; [|destruct (decide (s < 3600)) as [H2|H2]].
  - apply (ParseDuration_terms 1); [done|done| |done|].
    { rewrite !length_app. pose proof (length_itoa_pos s). lia. }
    rewrite (clock_term 0 0 s (str "s") Second []) by (eauto; units). done.
  - apply (ParseDuration_terms 2); [done|done| |done|].
    { rewrite !length_app. pose proof (length_itoa_pos (s / 60)). simpl. lia. }
    rewrite (clock_term 1 0 (s / 60) (str "m") Minute) by (eauto; units).
    rewrite (clock_term 0 _ (s mod 60) (str "s") Second []) by (eauto; units).
    simpl. f_equal. units.
  - apply (ParseDuration_terms 3); [done|done| |done|].
    { rewrite !length_app. pose proof (length_itoa_pos (s / 3600)).
      pose proof (length_itoa_pos (s / 60 mod 60)). simpl. lia. }
    rewrite (clock_term 2 0 (s / 3600) (str "h") Hour) by (eauto; units).
    rewrite (clock_term 1 _ (s / 60 mod 60) (str "m") Minute) by (eauto; units).
    rewrite (clock_term 0 _ (s mod 60) (str "s") Second []) by (eauto; units).
    simpl. f_equal. units.
Qed.

(** Every argument of three bytes or more that starts with a dash. *)
Lemma classify_long b c t :
  classify (x2d :: b :: c :: t) =
  match (if decide (b = x2d) then c :: t else b :: c :: t) with
  | [] => BadFlag
  | (n0 :: _) as name =>
    if decide (n0 = x2d \/ n0 = x3d) then BadFlag
    else let '(n, v) := split_value name in FlagText n v
  end.
Proof. by destruct b. Qed.

Lemma classify_terminator s : classify s = Terminator -> s = str "--".
Proof.
  destruct s as [|a [|b [|c t]]].
  - done.
  - by destruct a.
  - destruct (decide (a = x2d)) as [->|]; [|by destruct a].
    destruct (decide (b = x2d)) as [->|]; [done|].
    intros H. by destruct b.
  - destruct (decide (a = x2d)) as [->|]; [|by destruct a]. rewrite classify_long.
    destruct (if decide (b = x2d) then _ else _) as [|n0 l]; [done|].
    case_decide; [done|]. by destruct (split_value (n0 :: l)).
Qed.

(** ** The arguments, one flag at a time *)

(** One flag and the arguments behind it, or the end. *)
Definition set_flag (k : flag_kind) (name v : bytes) (rest : list bytes)
    : (bytes * flag_value) * list bytes + parse_end :=
  match set_value k v with
  | Some x => inl ((name, x), rest)
  | None => inr (Failed (InvalidValue name v))
  end.

Definition parseOne (formal : bytes -> option flag_kind) (s : bytes) (rest : list bytes)
    : (bytes * flag_value) * list bytes + parse_end :=
  match classify s with
  | NotFlag => inr (Parsed (s :: rest))
  | Terminator => inr (Parsed rest)
  | BadFlag => inr (Failed (BadSyntax s))
  | FlagText name value =>
    match formal name with
    | None =>
      inr (if decide (name = str "help" \/ name = str "h") then Help else Failed (NotDefined name))
    | Some k =>
      match k, value, rest with
      | FBool, None, _ => inl ((name, VBool true), rest)
      | _, None, [] => inr (Failed (NeedsArgument name))
      | _, None, v :: rest => set_flag k name v rest
      | _, Some v, _ => set_flag k name v rest
      end
    end
  end.

Section Parsing.
Context (formal : bytes -> option flag_kind).

Lemma Parse_cons s rest :
  Parse formal (s :: rest) =
  match parseOne formal s rest with
  | inl (x, rest') => let '(l, e) := Parse formal rest' in (x :: l, e)
  | inr e => ([], e)
  end.
Proof.
  unfold parseOne, set_flag. cbn [Parse]. destruct (classify s) as [| |name value|]; try done.
  destruct (formal name) as [k|]; [|done].
  destruct k, value as [v|]; try done; try (by destruct (set_value _ v));
    (destruct rest as [|v rest]; [done|by destruct (set_value _ v)]).
Qed.

Lemma set_flag_inl k name v rest x rest' :
  set_flag k name v rest = inl (x, rest') ->
  rest' = rest /\ forall r, set_flag k name v r = inl (x, r).
Proof. unfold set_flag. destruct (set_value k v); [by intros [= <- <-]|done]. Qed.

(** A flag takes its argument, and perhaps the one behind it; more arguments
    behind those change nothing. *)
Lemma parseOne_inl s rest x rest' :
  parseOne formal s rest = inl (x, rest') ->
  (rest' = rest \/ exists v, rest = v :: rest') /\
  forall k, parseOne formal s (rest ++ k) = inl (x, rest' ++ k).
Proof.
  unfold parseOne. destruct (classify s) as [| |name value|]; try done.
  destruct (formal name) as [k|]; [|done].
  destruct value as [v|].
  - destruct k; intros [-> H]%set_flag_inl; (split; [by left|intros; apply H]).
  - destruct k; [intros [= <- <-]; by split; [left|]|..];
      (destruct rest as [|v rest]; [done|]; intros [-> H]%set_flag_inl; split; [right; by eexists|intros; apply H]).
Qed.

Lemma parse_induction (Q : list bytes -> Prop) :
  Q [] ->
  (forall s rest, (forall x rest', parseOne formal s rest = inl (x, rest') -> Q rest') -> Q (s :: rest)) ->
  forall args, Q args.
Proof.
  intros Hnil Hcons args. remember (length args) as n eqn:Hn. revert args Hn.
  induction (lt_wf n) as [n _ IH]. intros [|s rest] ->; [done|]. apply Hcons. intros x rest' H.
  apply parseOne_inl in H as [[->|[v ->]] _]; eapply IH; try reflexivity; simpl; lia.
Qed.

(** Where all the arguments are flags, those behind them are parsed as if alone. *)
Lemma Parse_app args l k :
  Parse formal args = (l, Parsed []) -> str "--" ∉ args ->
  Parse formal (args ++ k) = (l ++ (Parse formal k).1, (Parse formal k).2).
Proof.
  revert l. induction args as [|s rest IH] using parse_induction; intros l H Hd.
  { injection H as <-. cbn [app]. by destruct (Parse formal k). }
  rewrite Parse_cons in H. cbn [app]. rewrite Parse_cons.
  destruct (parseOne formal s rest) as [[x rest']|e] eqn:Ho.
  - destruct (parseOne_inl _ _ _ _ Ho) as [Hr ->].
    destruct (Parse formal rest') as [l' e] eqn:Hp. injection H as <- ->.
    erewrite IH; [done|done|done|]. destruct Hr as [->|[v ->]]; set_solver.
  - injection H as <- ->. exfalso. revert Ho. unfold parseOne.
    destruct (classify s) as [| |name value|] eqn:Hc; try done.
    + intros _. apply Hd. rewrite (classify_terminator s) by done. apply list_elem_of_here.
    + destruct (formal name) as [kind|]; [|by case_decide].
      assert (forall v r, set_flag kind name v r <> inr (Parsed [])) as Hset
        by (intros v r; unfold set_flag; by destruct (set_value kind v)).
      destruct kind, value as [v|]; try done; try apply Hset; destruct rest; try done; apply Hset.
Qed.

End Parsing.

(** A flag with its value, spelled with one dash or two, and with an equals
    sign or as the next argument. *)
Definition plain_name (n : bytes) : bool :=
  match n with
  | c :: _ => negb (bool_decide (c = x2d)) && forallb (fun b => negb (bool_decide (b = x3d))) n
  | [] => false
  end.

Lemma span_plain n v :
  forallb (fun b => negb (bool_decide (b = x3d))) n = true ->
  span (fun b => negb (bool_decide (b = x3d))) n = (n, []) /\
  span (fun b => negb (bool_decide (b = x3d))) (n ++ x3d :: v) = (n, x3d :: v).
Proof.
  induction n as [|c n IH]; [done|]. simpl. intros [-> H]%andb_true_iff.
  destruct (IH H) as [-> ->]. done.
Qed.

Lemma classify_spellings n v :
  plain_name n = true ->
  classify (str "-" ++ n) = FlagText n None /\ classify (str "--" ++ n) = FlagText n None /\
  classify (str "-" ++ n ++ x3d :: v) = FlagText n (Some v) /\
  classify (str "--" ++ n ++ x3d :: v) = FlagText n (Some v).
Proof.
  destruct n as [|c n]; [done|]. unfold plain_name. cbn [forallb].
  intros [H1%negb_true_iff%bool_decide_eq_false [H2 H3]%andb_true_iff]%andb_true_iff.
  apply negb_true_iff, bool_decide_eq_false in H2. destruct (span_plain n v H3) as [Hs1 Hs2].
  assert (forall t, classify (str "-" ++ c :: t) = (let '(n, v) := split_value (c :: t) in FlagText n v) /\
    classify (str "--" ++ c :: t) = (let '(n, v) := split_value (c :: t) in FlagText n v)) as Hc.
  { intros t. split.
    - transitivity (if decide (c = x2d \/ c = x3d) then BadFlag
        else let '(n, v) := split_value (c :: t) in FlagText n v);
        [destruct c; done|by rewrite decide_False by (by intros [?|?])].
    - transitivity (if decide (c = x2d \/ c = x3d) then BadFlag
        else let '(n, v) := split_value (c :: t) in FlagText n v);
        [done|by rewrite decide_False by (by intros [?|?])]. }
  pose proof (Hc n) as [-> ->]. change ((c :: n) ++ x3d :: v) with (c :: n ++ x3d :: v).
  pose proof (Hc (n ++ x3d :: v)) as [-> ->]. cbn [split_value]. by rewrite Hs1, Hs2.
Qed.

(** ** Durations fit an int64 *)

Lemma duration_terms_range fuel d s n :
  0 <= d <= 2 ^ 63 -> duration_terms fuel d s = Some n -> 0 <= n <= 2 ^ 63.
Proof.
  revert d s. induction fuel as [|fuel IH]; intros d s Hd; destruct s as [|c s]; try done;
    try by intros [= <-].
  cbn [duration_terms]. destruct (duration_term (c :: s)) as [[v s']|]; [|done].
  cbn [mbind option_bind]. case_decide; [done|]. apply IH. unfold u64 in *.
  pose proof (Z.mod_pos_bound (d + v) (2 ^ 64) ltac:(lia)). lia.
Qed.

Lemma ParseDuration_range s d : ParseDuration s = Some d -> minDuration <= d <= maxDuration.
Proof.
  unfold ParseDuration, minDuration, maxDuration. destruct (match s with [] => _ | _ => _ end) as [neg t].
  case_decide; [intros [= <-]; lia|]. case_decide; [done|].
  destruct (duration_terms (length t) 0 t) as [n|] eqn:Hn; [|done]. cbn [mbind option_bind].
  apply duration_terms_range in Hn; [|lia]. destruct neg; [|by case_decide; [|intros [= <-]; lia]].
  intros [= <-]. unfold i64. pose proof (Z.mod_pos_bound (- n + 2 ^ 63) (2 ^ 64) ltac:(lia)). lia.
Qed.
