(* ===== verification/RelayClient.v ===== *)
(** * RelayClient: the relay's control plane

    Models runner/internal/relayclient/client.go: the checks on the relay's
    URL, the create request and its answer, the viewer's link, and the dial of
    the runner socket.  net/url's parser and printer are the class
    [UrlPackage]; the HTTP round trip and the socket handshake are inputs;
    net.ParseIP and IsLoopback are written out. *)
From S2P Require Import Prelude Utf8 Encodings Json GoTime.
From Stdlib Require Import Strings.Byte.

(** ** URLs *)

(** url.Userinfo: a name and, if given, a password. *)
Record Userinfo := mkUserinfo { Username : bytes; Password : option bytes }.

(** Every field of net/url's struct: a copy of the relay's URL with a new path
    or fragment keeps the rest, and so does the text printed of it. *)
Record URL := mkURL {
  Scheme : bytes;
  Opaque : bytes;
  User : option Userinfo;
  Host : bytes;
  Path : bytes;
  RawPath : bytes;
  OmitHost : bool;
  ForceQuery : bool;
  RawQuery : bytes;
  Fragment : bytes;
  RawFragment : bytes
}.

Class UrlPackage := {
  url_Parse : bytes -> option URL;
  url_String : URL -> bytes;
  url_JoinPath : URL -> list bytes -> URL
}.

Definition set_scheme (s : bytes) (u : URL) : URL :=
  mkURL s (Opaque u) (User u) (Host u) (Path u) (RawPath u) (OmitHost u) (ForceQuery u) (RawQuery u)
    (Fragment u) (RawFragment u).
Definition set_path (p : bytes) (u : URL) : URL :=
  mkURL (Scheme u) (Opaque u) (User u) (Host u) p (RawPath u) (OmitHost u) (ForceQuery u) (RawQuery u)
    (Fragment u) (RawFragment u).
Definition set_fragment (f : bytes) (u : URL) : URL :=
  mkURL (Scheme u) (Opaque u) (User u) (Host u) (Path u) (RawPath u) (OmitHost u) (ForceQuery u) (RawQuery u)
    f (RawFragment u).

(** The URL of a scheme and a host alone. *)
Definition origin_url (scheme host : bytes) : URL :=
  mkURL scheme [] None host [] [] false false [] [] [].

(** The part of a string behind its last [c], if any: where it starts. *)
Fixpoint last_index (c : byte) (s : bytes) : option nat :=
  match s with
  | [] => None
  | b :: s =>
    match last_index c s with
    | Some i => Some (S i)
    | None => if decide (b = c) then Some 0 else None
    end
  end.

(** A port is empty, or a colon and digits. *)
Definition validOptionalPort (p : bytes) : bool :=
  match p with [] => true | b :: ds => bool_decide (b = x3a) && forallb is_digit ds end.

(** u.Hostname(): the host without its port and without brackets. *)
Definition Hostname (u : URL) : bytes :=
  let h := Host u in
  let h := match last_index x3a h with
           | Some i => if validOptionalPort (drop i h) then take i h else h
           | None => h
           end in
  if decide (head h = Some x5b /\ last h = Some x5d) then slice h 1 (length h - 1) else h.

(** ** net.ParseIP *)

(** The decimal fields of an IPv4 address: digits without a leading zero, at
    most 255 each; [cur] is the field being read, if it has digits. *)
Fixpoint ipv4_fields (s : bytes) (cur : option Z) : option (list Z) :=
  match s with
  | [] => match cur with Some v => Some [v] | None => None end
  | b :: s =>
    if decide (b = x2e) then
      match cur with Some v => rest ← ipv4_fields s None; Some (v :: rest) | None => None end
    else if is_digit b then
      let d := (Z_of_byte b - 48)%Z in
      match cur with
      | None => ipv4_fields s (Some d)
      | Some v =>
        if decide (v = 0 \/ 255 < v * 10 + d)%Z then None else ipv4_fields s (Some (v * 10 + d)%Z)
      end
    else None
  end.

Definition parse_ipv4 (s : bytes) : option (list Z) :=
  match ipv4_fields s None with
  | Some [a; b; c; d] => Some [a; b; c; d]
  | _ => None
  end.

(** Up to four hex digits. *)
Fixpoint hex_group (n : nat) (s : bytes) (acc : Z) : option (Z * bytes) :=
  match s with
  | b :: s' =>
    match hex_value b with
    | Some v => match n with O => None | S n => hex_group n s' (acc * 16 + v)%Z end
    | None => Some (acc, s)
    end
  | [] => Some (acc, [])
  end.

(** The groups of an IPv6 address: the bytes read so far, where the ellipsis
    was, and the text left. *)
Fixpoint ipv6_groups (fuel : nat) (ip : list Z) (ell : option nat) (s : bytes)
    : option (list Z * option nat) :=
  match fuel with
  | O => if decide (s = []) then Some (ip, ell) else None
  | S fuel =>
    '(acc, s') ← hex_group 4 s 0;
    if decide (length s' = length s) then None
    else
      if decide (head s' = Some x2e) then
        if decide (ell = None /\ length ip <> 12) then None
        else if decide (16 < length ip + 4) then None
        else v4 ← parse_ipv4 s; Some (ip ++ v4, ell)
      else
        let ip := ip ++ [acc / 256; acc mod 256]%Z in
        match s' with
        | [] => Some (ip, ell)
        | [_] => None
        | c :: d :: s'' =>
          if decide (c <> x3a) then None
          else if decide (d = x3a) then
            if decide (ell <> None) then None
            else if decide (s'' = []) then Some (ip, Some (length ip))
            else ipv6_groups fuel ip (Some (length ip)) s''
          else ipv6_groups fuel ip ell (d :: s'')
        end
  end.

Definition parse_ipv6 (s : bytes) : option (list Z) :=
  let '(ell, s) := if decide (take 2 s = [x3a; x3a]) then (Some 0, drop 2 s) else (None, s) in
  if decide (ell <> None /\ s = []) then Some (replicate 16 0%Z)
  else
    '(ip, ell) ← ipv6_groups 8 [] ell s;
    match ell with
    | Some i =>
      if decide (length ip < 16) then Some (take i ip ++ replicate (16 - length ip) 0%Z ++ drop i ip)
      else None
    | None => if decide (length ip = 16) then Some ip else None
    end.

(** The first dot or colon tells the family; an address with a zone is none. *)
Fixpoint parse_ip_by (s rest : bytes) : option (list Z) :=
  match rest with
  | [] => None
  | b :: rest =>
    if decide (b = x2e) then parse_ipv4 s
    else if decide (b = x3a) then parse_ipv6 s
    else if decide (b = x25) then None
    else parse_ip_by s rest
  end.

Definition ParseIP (s : bytes) : option (list Z) := parse_ip_by s s.

(** ip.IsLoopback(): 127.0.0.0/8, also mapped into IPv6, and ::1. *)
Definition IsLoopback (ip : list Z) : bool :=
  match ip with
  | [a; _; _; _] => bool_decide (a = 127%Z)
  | _ =>
    if decide (take 12 ip = replicate 10 0%Z ++ [255; 255]%Z)
    then bool_decide (ip !! 12 = Some 127%Z)
    else bool_decide (ip = replicate 15 0%Z ++ [1%Z])
  end.

(** ** The client *)

Definition isLoopbackHost (host : bytes) : bool :=
  if decide (host = str "localhost") then true
  else match ParseIP host with Some ip => IsLoopback ip | None => false end.

Record Client := mkClient { base : URL }.

Inductive url_error :=
| errParse                                (* relay url: ... *)
| errNeedsScheme (base : bytes)           (* needs an http(s):// scheme *)
| errScheme (base scheme : bytes)         (* must be http or https *)
| errNoHost (base : bytes)                (* is missing a host *)
| errPlainHttp (base : bytes).            (* plain http to a non-local host *)

Section Code.
Context `{UP : UrlPackage}.

Definition New (base : bytes) (allowInsecure : bool) : result url_error Client :=
  match url_Parse base with
  | None => Err errParse
  | Some u =>
    if decide (Scheme u <> str "http" /\ Scheme u <> str "https") then
      if decide (Scheme u = [] \/ Opaque u <> []) then Err (errNeedsScheme base)
      else Err (errScheme base (Scheme u))
    else if decide (Host u = []) then Err (errNoHost base)
    else if decide (Scheme u = str "http" /\ allowInsecure = false /\
                    isLoopbackHost (Hostname u) = false) then Err (errPlainHttp base)
    else Ok (mkClient u)
  end.

(** ** Creating a session *)

Record SessionInfo := mkSessionInfo { ID : bytes; RunnerToken : bytes; ExpiresAt : Z }.

(** The body: json.Marshal of the map, its keys in sorted order. *)
Definition create_body (id runnerToken : bytes) (ttl : Z) (MultiViewer : bool) : bytes :=
  json_map ([(str "id", json_quote id)]
    ++ (if MultiViewer then [(str "multi_viewer", str "true")] else [])
    ++ [(str "runner_token", json_quote runnerToken);
        (str "ttl_seconds", itoa (int_seconds ttl))]).

Definition create_url (c : Client) : bytes :=
  url_String (url_JoinPath (base c) [str "api"; str "sessions"]).

(** What the HTTP round trip gave: no response, or a status and a body. *)
Inductive http_result := HttpError | HttpResponse (status : Z) (body : bytes).

Inductive create_error :=
| errDo                                 (* create session: the round trip failed *)
| errStatus (status : Z) (snippet : bytes)
| errDecode
| errEmptyID.

(** The error's text: [status_line] is resp.Status, [reason] the text of the
    error net/http or encoding/json gave. *)
Definition create_error_Error (status_line reason : bytes) (e : create_error) : bytes :=
  str "create session: " ++
  match e with
  | errDo => reason
  | errStatus _ snippet => status_line ++ str ": " ++ TrimSpace snippet
  | errDecode => str "decode: " ++ reason
  | errEmptyID => str "relay returned an empty id or token"
  end.

(** Decoding the answer: the first JSON value of the body into the struct. *)
Definition set_session_member (m : SessionInfo) (kv : bytes * json) : option SessionInfo :=
  let '(k, v) := kv in
  if folds_to k (str "id") then
    match v with
    | JString s => Some (mkSessionInfo s (RunnerToken m) (ExpiresAt m))
    | JNull => Some m | _ => None
    end
  else if folds_to k (str "runner_token") then
    match v with
    | JString s => Some (mkSessionInfo (ID m) s (ExpiresAt m))
    | JNull => Some m | _ => None
    end
  else if folds_to k (str "expires_at") then
    match v with
    | JNumber t => z ← parse_int64 t; Some (mkSessionInfo (ID m) (RunnerToken m) z)
    | JNull => Some m | _ => None
    end
  else Some m.

Definition decode_session (body : bytes) : option SessionInfo :=
  '(v, _) ← parse_value (S (length body)) 0 body;
  match v with
  | JObject l => foldl (fun m kv => m ≫= fun m => set_session_member m kv)
                   (Some (mkSessionInfo [] [] 0)) l
  | JNull => Some (mkSessionInfo [] [] 0)
  | _ => None
  end.

(** The request that goes out and the outcome, for the round trip's result. *)
Definition CreateSessionWithOptions (c : Client) (id runnerToken : bytes) (ttl : Z)
    (MultiViewer : bool) (r : http_result) : bytes * result create_error SessionInfo :=
  (create_body id runnerToken ttl MultiViewer,
   match r with
   | HttpError => Err errDo
   | HttpResponse status body =>
     if decide (status <> 201 /\ status <> 200)%Z then Err (errStatus status (take 256 body))
     else
       match decode_session body with
       | None => Err errDecode
       | Some s =>
         if decide (ID s = [] \/ RunnerToken s = []) then Err errEmptyID else Ok s
       end
   end).

Definition CreateSession (c : Client) (id runnerToken : bytes) (ttl : Z) (r : http_result)
    : bytes * result create_error SessionInfo :=
  CreateSessionWithOptions c id runnerToken ttl false r.

(** ** The viewer's link *)

(** The URL whose text is the link. *)
Definition viewer_url (c : Client) (id secretB64 : bytes) (passphrase : bool) : URL :=
  let secretB64 := if passphrase then secretB64 ++ str ".p" else secretB64 in
  set_fragment secretB64 (set_path (str "/s/" ++ id) (base c)).

Definition ViewerURL (c : Client) (id secretB64 : bytes) (passphrase : bool) : bytes :=
  url_String (viewer_url c id secretB64 passphrase).

(** ** Dialing the runner socket *)

Record FatalDialError := mkFatalDialError { Status : Z }.

Definition NotFound (e : FatalDialError) : bool := bool_decide (Status e = 404%Z).

Definition FatalDialError_Error (e : FatalDialError) : bytes :=
  if decide (Status e = 401%Z) then str "relay rejected the runner token (401)"
  else if decide (Status e = 404%Z) then str "relay says the session is unknown or expired (404)"
  else str "relay rejected the connection (" ++ itoa (Status e) ++ str ")".

Inductive dial_error := FatalDial (e : FatalDialError) | TransientDial.

(** The URL dialed and the authorization header sent. *)
Definition dial_request (c : Client) (id token : bytes) : bytes * bytes :=
  let u := if decide (Scheme (base c) = str "https") then set_scheme (str "wss") (base c)
           else set_scheme (str "ws") (base c) in
  (url_String (set_path (str "/ws/runner/" ++ id) u), str "Bearer " ++ token).

(** What websocket.Dial gave: a connection, or an error with the handshake's
    status when there was a response. *)
Inductive handshake := HandshakeOk | HandshakeError (status : option Z).

Definition DialRunner (h : handshake) : result dial_error unit :=
  match h with
  | HandshakeOk => Ok tt
  | HandshakeError (Some status) =>
    if decide (status = 401 \/ status = 404)%Z
    then Err (FatalDial (mkFatalDialError status)) else Err TransientDial
  | HandshakeError None => Err TransientDial
  end.

End Code.

(** ** Examples *)

Example parse_ipv4_ex : ParseIP (str "127.0.0.1") = Some [127; 0; 0; 1]%Z.
Proof. vm_compute. reflexivity. Qed.
Example parse_ipv4_zero : ParseIP (str "127.0.0.01") = None.
Proof. vm_compute. reflexivity. Qed.
Example parse_ipv6_one : ParseIP (str "::1") = Some (replicate 15 0%Z ++ [1%Z]).
Proof. vm_compute. reflexivity. Qed.
Example parse_ipv6_mapped : option_map IsLoopback (ParseIP (str "::ffff:127.0.0.1")) = Some true.
Proof. vm_compute. reflexivity. Qed.
Example parse_ipv6_full :
  ParseIP (str "2001:db8:0:0:1::F") = Some [32; 1; 13; 184; 0; 0; 0; 0; 0; 1; 0; 0; 0; 0; 0; 15]%Z.
Proof. vm_compute. reflexivity. Qed.
Example hostname_port : Hostname (origin_url (str "http") (str "[::1]:4000")) = str "::1".
Proof. vm_compute. reflexivity. Qed.

(** ** Dotted addresses *)

(** The dotted text of an IPv4 address. *)
Definition dotted (a b c d : Z) : bytes :=
  itoa a ++ [x2e] ++ itoa b ++ [x2e] ++ itoa c ++ [x2e] ++ itoa d.

Definition octets : list Z := seqZ 0 256.

Lemma octet_elem n : (0 <= n < 256)%Z -> n ∈ octets.
Proof. intros. apply elem_of_seqZ. lia. Qed.

(** A field reads back its octet, up to the dot or the end. *)
Lemma field_dot n s :
  (0 <= n < 256)%Z ->
  ipv4_fields (itoa n ++ [x2e] ++ s) None = rest ← ipv4_fields s None; Some (n :: rest).
Proof.
  intros Hn%octet_elem. revert n Hn. apply Forall_forall.
  unfold octets. vm_compute seqZ. repeat constructor.
Qed.

Lemma field_end n : (0 <= n < 256)%Z -> ipv4_fields (itoa n) None = Some [n].
Proof.
  intros Hn%octet_elem. revert n Hn. apply Forall_forall.
  unfold octets. vm_compute seqZ. repeat constructor.
Qed.

Lemma dotted_is_ipv4 n s t :
  (0 <= n < 256)%Z -> parse_ip_by s (itoa n ++ [x2e] ++ t) = parse_ipv4 s.
Proof.
  intros Hn%octet_elem. revert n Hn. apply Forall_forall.
  unfold octets. vm_compute seqZ. repeat constructor.
Qed.

Lemma ParseIP_dotted a b c d :
  (0 <= a < 256 -> 0 <= b < 256 -> 0 <= c < 256 -> 0 <= d < 256 ->
   ParseIP (dotted a b c d) = Some [a; b; c; d])%Z.
Proof.
  intros Ha Hb Hc Hd. unfold ParseIP. unfold dotted at 2. rewrite dotted_is_ipv4 by done.
  unfold parse_ipv4, dotted. rewrite !field_dot, field_end by done. done.
Qed.

(** ** Properties *)

(** C35. The client talks to a relay only over https, or plain http that stays
    on this machine unless explicitly allowed: New succeeds exactly when the
    URL parses with one of the two schemes and a host and, for plain http,
    insecure use is allowed or the host is a loopback name or address; the
    client then keeps the parsed URL. *)
Theorem relay_is_https_or_local `{UP : UrlPackage} base insecure c :
  New base insecure = Ok c <->
  url_Parse base = Some (RelayClient.base c) /\ Host (RelayClient.base c) <> [] /\
  (Scheme (RelayClient.base c) = str "https" \/
   Scheme (RelayClient.base c) = str "http" /\
     (insecure = true \/ isLoopbackHost (Hostname (RelayClient.base c)) = true)).
Proof.
  unfold New. destruct (url_Parse base) as [u|]; [|naive_solver].
  split.
  - destruct (decide (Scheme u <> str "http" /\ Scheme u <> str "https")) as [|Hs];
      [by case_decide|].
    destruct (decide (Host u = [])) as [|Hh]; [done|].
    destruct (decide (Scheme u = str "http" /\ insecure = false /\ _)) as [|Hl]; [done|].
    intros <-%(inj Ok). simpl. split; [done|]. split; [done|].
    destruct (decide (Scheme u = str "https")) as [|H1]; [by left|]. right.
    assert (Scheme u = str "http") as H2 by (apply dec_stable; tauto). split; [done|].
    destruct insecure; [by left|]. right. apply not_false_is_true. tauto.
  - intros (Hu%(inj Some) & Hh & Hs). subst u.
    rewrite decide_False by (intros [H1 H2]; destruct Hs as [|[]]; done).
    rewrite decide_False by done. rewrite decide_False; [by destruct c|].
    intros (H1 & H2 & H3). destruct Hs as [Hs|[_ [Hs|Hs]]]; [by rewrite Hs in H1|congruence..].
Qed.

(** Which IPv4 addresses are local: a dotted address of four octets is
    loopback exactly when the first is 127. *)
Theorem loopback_addresses a b c d :
  (0 <= a < 256 -> 0 <= b < 256 -> 0 <= c < 256 -> 0 <= d < 256 ->
   isLoopbackHost (dotted a b c d) = true <-> a = 127)%Z.
Proof.
  intros Ha Hb Hc Hd. unfold isLoopbackHost. rewrite ParseIP_dotted by done.
  case_decide as Hl; simpl; [|apply bool_decide_eq_true].
  exfalso. apply (f_equal (fun s => parse_ipv4 s)) in Hl. unfold parse_ipv4, dotted in Hl.
  rewrite !field_dot, field_end in Hl by done. vm_compute in Hl. discriminate.
Qed.

Lemma loopback_addresses_witness :
  isLoopbackHost (dotted 127 0 0 1) = true <-> (127 = 127)%Z.
Proof. apply loopback_addresses; lia. Defined.

(** A positive lifetime under a second is sent as no lifetime: the request
    of any positive --ttl below one second says ttl_seconds 0, the relay's
    word for a session that never expires. *)
Theorem subsecond_ttl_means_no_expiry id tok ttl multi :
  (0 < ttl < Second)%Z ->
  int_seconds ttl = 0%Z /\ create_body id tok ttl multi = create_body id tok 0 multi.
Proof.
  intros Ht. assert (int_seconds ttl = 0%Z) as H0.
  { unfold int_seconds. rewrite decide_True by lia. apply float_trunc_subsecond. lia. }
  split; [done|]. unfold create_body. by rewrite H0.
Qed.

Lemma subsecond_ttl_means_no_expiry_witness : int_seconds (500 * Millisecond) = 0%Z.
Proof.
  apply (subsecond_ttl_means_no_expiry [] [] (500 * Millisecond) false).
  unfold Millisecond, Second. lia.
Defined.

(** The secret rides in the fragment and nowhere else: the links of two
    secrets differ in their fragment only, which is the secret's text, with a
    .p behind it when a passphrase is needed; and the link determines the
    secret and whether a passphrase is needed. *)
Theorem secret_is_in_the_fragment_only c id s1 p1 s2 p2 :
  let link s (p : bool) := viewer_url c id (base64_rawurl s) p in
  Fragment (link s1 p1) = base64_rawurl s1 ++ (if p1 then str ".p" else []) /\
  set_fragment [] (link s1 p1) = set_fragment [] (link s2 p2) /\
  (link s1 p1 = link s2 p2 -> s1 = s2 /\ p1 = p2).
Proof.
  intros link. unfold link, viewer_url, set_fragment. simpl.
  split; [by destruct p1; rewrite ?app_nil_r|]. split; [done|].
  intros [= H].
  assert (forall s t, base64_rawurl s ++ str ".p" <> base64_rawurl t) as Hdot.
  { intros s t Heq.
    assert (Forall (fun b => b ∈ base64_url_alphabet) (base64_rawurl t)) as Ha
      by by apply radix_encode_alphabet.
    rewrite <- Heq in Ha. apply Forall_app in Ha as [_ Ha]. apply Forall_cons in Ha as [Ha _].
    apply (bool_decide_pack _) in Ha. vm_compute in Ha. done. }
  destruct p1, p2.
  - apply (inj (.++ str ".p")) in H. by apply (inj base64_rawurl) in H.
  - by apply Hdot in H.
  - symmetry in H. by apply Hdot in H.
  - by apply (inj base64_rawurl) in H.
Qed.
