(* ===== verification/Messages.v ===== *)
(** * Messages: the JSON the program sends, as its receivers read it

    The text frames of runner/internal/runner/runner.go (to_viewer and bye) and
    the create request of runner/internal/relayclient/client.go, read back with
    the JSON grammar: each is one object with exactly the members meant. *)
From S2P Require Import Prelude Utf8 Encodings Json JsonText GoTime Crypto Session.
From S2P Require Import Control Ring Screen Orch Sender RelayClient.
From Stdlib Require Import Strings.Byte.
Local Open Scope Z_scope.

(** The member of a key, the last one when it is repeated. *)
Fixpoint member (k : bytes) (l : list (bytes * json)) : option json :=
  match l with
  | [] => None
  | (k', v) :: l =>
    match member k l with Some v => Some v | None => if decide (k' = k) then Some v else None end
  end.

Definition string_member (k : bytes) (v : json) : option bytes :=
  match v with
  | JObject l => match member k l with Some (JString s) => Some s | _ => None end
  | _ => None
  end.

(** What the relay does with a runner's text frame: the type, and for a
    to_viewer the viewer and the frame, decoded. *)
Definition read_to_viewer (text : bytes) : option (bytes * bytes) :=
  v ← parse_json text;
  t ← string_member (str "t") v;
  if decide (t = str "to_viewer") then
    viewer ← string_member (str "viewer_id") v;
    frame ← string_member (str "frame") v;
    frame ← base64_std_decode frame;
    Some (viewer, frame)
  else None.

(** ** Members *)

Lemma base64_std_ascii b : ascii (base64_std b).
Proof.
  unfold ascii, base64_std. apply Forall_app. split.
  - assert (Forall (fun c => c ∈ base64_std_alphabet) (radix_encode 6 base64_std_alphabet b)) as H
      by by apply radix_encode_alphabet.
    eapply Forall_impl; [exact H|]. apply Forall_forall.
    apply (bool_decide_unpack (Forall (fun c => Z_of_byte c < 128) base64_std_alphabet)). by vm_compute.
  - apply Forall_replicate. by vm_compute.
Qed.

(** The texts' members with their values. *)
Definition to_viewer_members (viewerID frame : bytes) : list (bytes * bytes * json) :=
  [(str "frame", json_quote (base64_std frame), JString (to_valid (base64_std frame)));
   (str "t", json_quote (str "to_viewer"), JString (to_valid (str "to_viewer")));
   (str "viewer_id", json_quote viewerID, JString (to_valid viewerID))].

Definition create_members (id tok : bytes) (ttl : Z) (multi : bool) : list (bytes * bytes * json) :=
  [(str "id", json_quote id, JString (to_valid id))]
  ++ (if multi then [(str "multi_viewer", str "true", JBool true)] else [])
  ++ [(str "runner_token", json_quote tok, JString (to_valid tok));
      (str "ttl_seconds", itoa (int_seconds ttl), JNumber (itoa (int_seconds ttl)))].

Lemma to_viewer_text_map v frame : to_viewer_text v frame = json_map (fst <$> to_viewer_members v frame).
Proof. reflexivity. Qed.

Lemma create_body_map id tok ttl multi :
  create_body id tok ttl multi = json_map (fst <$> create_members id tok ttl multi).
Proof. by destruct multi. Qed.

Lemma to_viewer_reads v frame : Forall (fun m => reads_as m.1.2 m.2) (to_viewer_members v frame).
Proof. repeat (apply Forall_cons; split); [apply json_quote_reads..|constructor]. Qed.

Lemma create_reads id tok ttl multi :
  Forall (fun m => reads_as m.1.2 m.2) (create_members id tok ttl multi).
Proof.
  apply Forall_app. split; [apply Forall_singleton, json_quote_reads|]. apply Forall_app. split.
  - destruct multi; [apply Forall_singleton, true_reads|constructor].
  - repeat (apply Forall_cons; split); [apply json_quote_reads|apply itoa_reads|constructor].
Qed.

(** ** Properties *)

(** What the runner addresses to one viewer reaches the relay intact: the
    text frame is one JSON object from which the relay reads the viewer's id
    (its invalid bytes, if any, replaced as Go's encoder does) and, byte for
    byte, the sealed frame. *)
Theorem to_viewer_roundtrip viewerID frame :
  read_to_viewer (to_viewer_text viewerID frame) = Some (to_valid viewerID, frame) /\
  (forall rs, Forall valid_rune rs -> viewerID = encode_runes rs ->
     read_to_viewer (to_viewer_text viewerID frame) = Some (viewerID, frame)).
Proof.
  assert (read_to_viewer (to_viewer_text viewerID frame) = Some (to_valid viewerID, frame)) as H.
  { unfold read_to_viewer. rewrite to_viewer_text_map, parse_json_map by (apply to_viewer_reads || done).
    unfold to_viewer_members. rewrite (to_valid_ascii (base64_std frame)) by apply base64_std_ascii.
    pose proof (base64_std_roundtrip frame) as Hb. revert Hb.
    generalize (base64_std frame) (to_valid viewerID). intros t v Hb.
    transitivity (frame ← base64_std_decode t; Some (v, frame)); [|by rewrite Hb].
    reflexivity. }
  split; [done|]. intros rs Hrs ->. by rewrite H, to_valid_encode.
Qed.

(** The relay reads the registration as it was meant: the body of a create
    request is one JSON object with the id, the token, the whole seconds of the
    lifetime and, only when several viewers are allowed, the flag. *)
Theorem create_body_reads_back id tok ttl multi :
  parse_json (create_body id tok ttl multi)
  = Some (JObject ([(str "id", JString (to_valid id))]
      ++ (if multi then [(str "multi_viewer", JBool true)] else [])
      ++ [(str "runner_token", JString (to_valid tok));
          (str "ttl_seconds", JNumber (itoa (int_seconds ttl)))])).
Proof.
  rewrite create_body_map, parse_json_map by (apply create_reads || done). by destruct multi.
Qed.

Example bye_is_json :
  parse_json byeEnded = Some (JObject [(str "t", JString (str "bye")); (str "reason", JString (str "ended"))]).
Proof. vm_compute. reflexivity. Qed.
