(* ===== verification/Reconnect.v ===== *)
(** * Reconnect: deadlines, backoff and the connect loop

    Models reclaimTTL and connectLoop of runner/internal/runner/runner.go.  One
    iteration of the loop is a function of what the dial, the clock, the create
    request and the context gave it; the loop is its iteration, until it
    returns.  serveConn, which the loop calls, is in Handlers. *)
From S2P Require Import Prelude Json GoTime RelayClient.
From Stdlib Require Import Strings.Byte.
Local Open Scope Z_scope.

(** ** reclaimTTL *)

(** Some ttl for (ttl, true), None for (0, false). *)
Definition reclaimTTL (ttl expiresAt now : Z) : option Z :=
  if decide (expiresAt = 0) then Some ttl
  else
    let remaining := Sub (Unix expiresAt) now in
    if decide (remaining <= 0) then None
    else Some (i64 (float_ceil (Seconds remaining) * Second)).

(** ** connectLoop *)

Definition initialBackoff : Z := 500 * Millisecond.
Definition maxBackoff : Z := 15 * Second.

Definition next_backoff (backoff : Z) : Z := Z.min (i64 (backoff * 2)) maxBackoff.

(** What one iteration meets: whether the context was done at its start, the
    handshake, the clock, the create request's outcome, and whether the context
    was done when looked at again, or ended during the wait. *)
Record attempt := mkAttempt {
  at_done_before : bool;
  at_dial : handshake;
  at_now : Z;
  at_create : http_result;
  at_done_after : bool;
  at_done_waiting : bool
}.

Inductive loop_action :=
| LNote (s : bytes)                   (* o.note *)
| LCreate (body : bytes)              (* the create request sent *)
| LWait (d : Z)                       (* select on ctx.Done and time.After *)
| LServe.                             (* serveConn, until the connection ends *)

(** Why the loop returned: the context, the expiry, or a fatal rejection. *)
Inductive loop_end := EndCancelled | EndExpired | EndRejected (status : Z).

(** The retry after a failure: returns if the context is done, else waits. *)
Definition retry (a : attempt) (backoff : Z) : list loop_action * (Z + loop_end) :=
  if at_done_after a then ([], inr EndCancelled)
  else if at_done_waiting a then ([LWait backoff], inr EndCancelled)
  else ([LWait backoff], inl (next_backoff backoff)).

Record loop_config := mkLoopConfig {
  lc_client : Client;
  lc_id : bytes;
  lc_token : bytes;
  lc_ttl : Z;
  lc_expiresAt : Z;
  lc_multiViewer : bool
}.

(** One iteration from a backoff: its actions, and the next backoff or the end. *)
Definition connect_iter (lc : loop_config) (a : attempt) (backoff : Z)
    : list loop_action * (Z + loop_end) :=
  if at_done_before a then ([], inr EndCancelled)
  else
    match DialRunner (at_dial a) with
    | Ok _ => ([LServe], inl initialBackoff)
    | Err TransientDial => retry a backoff
    | Err (FatalDial fatal) =>
      if NotFound fatal then
        match reclaimTTL (lc_ttl lc) (lc_expiresAt lc) (at_now a) with
        | None =>
          ([LNote (str "onlytty: session reached its expiry while the relay was gone — sharing stopped (command still running locally)")],
           inr EndExpired)
        | Some ttl =>
          let '(body, r) := CreateSessionWithOptions (lc_client lc) (lc_id lc) (lc_token lc) ttl
                              (lc_multiViewer lc) (at_create a) in
          match r with
          | Err _ => let '(acts, next) := retry a backoff in (LCreate body :: acts, next)
          | Ok _ =>
            ([LCreate body;
              LNote (str "onlytty: relay session was replaced (deploy?) — re-establishing")],
             inl initialBackoff)
          end
        end
      else
        ([LNote (str "onlytty: " ++ FatalDialError_Error fatal
                 ++ str " — sharing stopped (command still running locally)")],
         inr (EndRejected (Status fatal)))
    end.

(** The loop over what its iterations meet: the actions, and how it stands
    after them (still running with a backoff, or ended). *)
Fixpoint connect_loop (lc : loop_config) (attempts : list attempt) (backoff : Z)
    : list loop_action * (Z + loop_end) :=
  match attempts with
  | [] => ([], inl backoff)
  | a :: attempts =>
    let '(acts, next) := connect_iter lc a backoff in
    match next with
    | inr e => (acts, inr e)
    | inl backoff => let '(acts', r) := connect_loop lc attempts backoff in (acts ++ acts', r)
    end
  end.

Definition connectLoop (lc : loop_config) (attempts : list attempt)
    : list loop_action * (Z + loop_end) :=
  connect_loop lc attempts initialBackoff.

(** ** Lemmas *)

Definition ok_backoff (b : Z) : Prop := initialBackoff <= b <= maxBackoff.

Lemma next_backoff_ok b : ok_backoff b -> next_backoff b = Z.min (2 * b) maxBackoff.
Proof.
  unfold ok_backoff, next_backoff, initialBackoff, maxBackoff, i64, Millisecond, Second.
  intros H. rewrite Z.mod_small by lia. lia.
Qed.

Lemma next_backoff_range b : ok_backoff b -> ok_backoff (next_backoff b).
Proof.
  intros H. rewrite next_backoff_ok by done.
  unfold ok_backoff, initialBackoff, maxBackoff, Millisecond, Second in *. lia.
Qed.

Lemma initialBackoff_ok : ok_backoff initialBackoff.
Proof. unfold ok_backoff, initialBackoff, maxBackoff, Millisecond, Second. lia. Qed.

(** The waits of an iteration are its backoff, and the next backoff is one. *)
Definition wait_of (a : loop_action) : option Z := match a with LWait d => Some d | _ => None end.

Lemma retry_spec a b : ok_backoff b ->
  Forall (fun d => d = b) (omap wait_of (retry a b).1) /\
  match (retry a b).2 with inl b' => ok_backoff b' | inr e => e = EndCancelled end.
Proof.
  intros Hb. unfold retry.
  destruct (at_done_after a); [done|]. destruct (at_done_waiting a); simpl.
  - split; [by repeat constructor|done].
  - split; [by repeat constructor|by apply next_backoff_range].
Qed.

Lemma connect_iter_waits lc a b : ok_backoff b ->
  Forall (fun d => d = b) (omap wait_of (connect_iter lc a b).1) /\
  match (connect_iter lc a b).2 with inl b' => ok_backoff b' | inr _ => True end.
Proof.
  intros Hb. unfold connect_iter. destruct (at_done_before a); [done|].
  destruct (retry_spec a b Hb) as [H1 H2].
  destruct (DialRunner (at_dial a)) as [|[e|]].
  - simpl. split; [constructor|apply initialBackoff_ok].
  - destruct (NotFound e); [|done]. destruct (reclaimTTL _ _ _); [|done].
    unfold CreateSessionWithOptions. destruct (match at_create a with HttpError => _ | _ => _ end).
    + simpl. split; [constructor|apply initialBackoff_ok].
    + destruct (retry a b) as [acts [b'|e']]; simpl in *; done.
  - destruct (retry a b) as [acts [b'|e']]; simpl in *; done.
Qed.

(** An iteration that fails without ending: waits and goes on. *)
Definition transient (a : attempt) : Prop :=
  at_done_before a = false /\ DialRunner (at_dial a) = Err TransientDial /\
  at_done_after a = false /\ at_done_waiting a = false.

Lemma connect_loop_cons lc a attempts b :
  connect_loop lc (a :: attempts) b
  = match (connect_iter lc a b).2 with
    | inr e => ((connect_iter lc a b).1, inr e)
    | inl b' => ((connect_iter lc a b).1 ++ (connect_loop lc attempts b').1,
                 (connect_loop lc attempts b').2)
    end.
Proof.
  simpl. destruct (connect_iter lc a b) as [acts [b'|e]]; simpl; [|done].
  by destruct (connect_loop lc attempts b').
Qed.

(** What holds of every iteration's actions, from any backoff of the loop,
    holds of the loop's. *)
Lemma connect_loop_actions (Q : attempt -> loop_action -> Prop) lc attempts b :
  ok_backoff b ->
  (forall a b act, ok_backoff b -> act ∈ (connect_iter lc a b).1 -> Q a act) ->
  forall act, act ∈ (connect_loop lc attempts b).1 -> exists a, a ∈ attempts /\ Q a act.
Proof.
  intros Hb HQ. revert b Hb. induction attempts as [|a attempts IH]; intros b Hb act Hact.
  { by apply elem_of_nil in Hact. }
  rewrite connect_loop_cons in Hact.
  pose proof (connect_iter_waits lc a b Hb) as [_ Hnext].
  destruct (connect_iter lc a b).2 as [b'|e] eqn:E; simpl in Hact.
  - apply elem_of_app in Hact as [Hact|Hact].
    + exists a. split; [by left|by apply (HQ a b)].
    + destruct (IH b' Hnext act Hact) as (a' & Ha' & H). exists a'. split; [by right|done].
  - exists a. split; [by left|by apply (HQ a b)].
Qed.

Lemma connect_loop_end (Q : attempt -> loop_end -> Prop) lc attempts b e :
  (forall a b e, (connect_iter lc a b).2 = inr e -> Q a e) ->
  (connect_loop lc attempts b).2 = inr e -> exists a, a ∈ attempts /\ Q a e.
Proof.
  intros HQ. revert b. induction attempts as [|a attempts IH]; intros b He; [done|].
  rewrite connect_loop_cons in He. destruct (connect_iter lc a b).2 as [b'|e'] eqn:E; simpl in He.
  - destruct (IH b' He) as (a' & Ha' & H). exists a'. split; [by right|done].
  - simplify_eq. exists a. split; [by left|by eapply HQ].
Qed.

(** *** The time left *)

Lemma Unix_small sec : - 2 ^ 62 <= sec <= 2 ^ 62 -> Unix sec = sec * Second.
Proof. intros H. unfold Unix. rewrite i64_small; [unfold unixToInternal; lia|unfold unixToInternal; lia]. Qed.

Lemma Sub_small t u : minDuration <= t - u <= maxDuration -> Sub t u = t - u.
Proof. intros. unfold Sub. by rewrite decide_True. Qed.

(** int(d.Seconds()) of whole seconds is exact. *)
Lemma int_seconds_whole s : 0 <= s -> int_seconds (s * Second) = s.
Proof.
  intros Hs. unfold int_seconds. rewrite decide_True by (unfold Second; lia).
  pose proof (float_trunc_Seconds (s * Second) ltac:(unfold Second; lia)) as H.
  rewrite Z.div_mul, Z.mod_mul in H by done. rewrite decide_True in H by done. lia.
Qed.

Lemma reclaimTTL_left ttl expiresAt now :
  expiresAt <> 0 ->
  let left := Sub (Unix expiresAt) now in
  left <= 9223372035 * Second ->
  match reclaimTTL ttl expiresAt now with
  | None => left <= 0
  | Some t => 0 < left /\ exists s, t = s * Second /\ 1 <= s /\
      left / Second <= s <= left / Second + 1 /\
      (left / Second < 2 ^ 22 - 1 -> left <= t < left + Second)
  end.
Proof.
  intros Hne left Hle. unfold reclaimTTL. rewrite decide_False by done. fold left.
  case_decide as Hpos; [done|]. split; [lia|].
  pose proof (float_ceil_Seconds left ltac:(lia)) as Hc.
  pose proof (Z.div_mod left Second ltac:(done)) as Hdm.
  pose proof (Z.mod_pos_bound left Second ltac:(done)) as Hm.
  assert (0 <= left / Second <= 9223372035) as Hs.
  { split; [apply Z.div_pos; unfold Second; lia|apply Z.div_le_upper_bound; unfold Second in *; lia]. }
  exists (float_ceil (Seconds left)). split; [|split; [|split]].
  - apply i64_small. unfold Second. destruct (decide (left mod Second = 0)); lia.
  - destruct (decide (left / Second = 0)) as [H0|]; [|lia].
    rewrite float_ceil_exact by lia. rewrite decide_False by lia. lia.
  - destruct (decide (left mod Second = 0)); lia.
  - intros Hsmall. rewrite i64_small, float_ceil_exact by
      (try done; unfold Second in *; destruct (decide (left mod _ = 0)); lia).
    destruct (decide (left mod Second = 0)); lia.
Qed.

(** What a re-creation asks for with [left] nanoseconds to the deadline. *)
Definition honours (left : Z) (r : option Z) : Prop :=
  match r with
  | None => left <= 0
  | Some t => 0 < left /\ exists s, t = s * Second /\ 1 <= s /\ int_seconds t = s /\
      left / Second <= s <= left / Second + 1 /\
      (left / Second < 2 ^ 22 - 1 -> left <= t < left + Second)
  end.

(** ** Properties *)

(** C26. Re-creating a lost session honours the original deadline.  For a
    bounded session with at most 292 years left, reclaimTTL refuses once the
    deadline has passed; otherwise it asks for a whole number of seconds, at
    least one, that is the time left rounded down or up, and under 48 days
    exactly rounded up; the request then carries that number. *)
Theorem reclaim_honours_the_deadline ttl expiresAt now :
  expiresAt <> 0 -> - 2 ^ 62 <= expiresAt <= 2 ^ 62 ->
  minDuration <= expiresAt * Second - now <= 9223372035 * Second ->
  honours (expiresAt * Second - now) (reclaimTTL ttl expiresAt now).
Proof.
  intros Hne Hexp Hleft. set (left := expiresAt * Second - now). unfold honours.
  pose proof (reclaimTTL_left ttl expiresAt now Hne) as H. cbv zeta in H.
  rewrite (Unix_small expiresAt Hexp), Sub_small in H
    by (unfold maxDuration, Second in *; lia).
  specialize (H ltac:(lia)). fold left in H. destruct (reclaimTTL ttl expiresAt now) as [t|]; [|done].
  destruct H as (Hl & s & -> & Hs & Hb & Hx). split; [done|]. exists s.
  split; [done|]. split; [done|]. split; [apply int_seconds_whole; lia|done].
Qed.

Lemma reclaim_honours_the_deadline_witness :
  honours (1700000000 * Second - 1699999999500000000)
    (reclaimTTL 0 1700000000 1699999999500000000).
Proof. apply reclaim_honours_the_deadline; unfold minDuration, Second; lia. Defined.

(** A deadline out of the range of durations (over 292 years away) is not
    honoured: the seconds overflow int64 and the request asks for a negative
    lifetime. *)
Theorem far_deadlines_overflow ttl expiresAt now :
  expiresAt <= 2 ^ 62 -> maxDuration < expiresAt * Second - now -> 0 <= now ->
  reclaimTTL ttl expiresAt now = Some (-9223372036709551616) /\
  int_seconds (-9223372036709551616) = -9223372036.
Proof.
  intros Hexp Hleft Hnow. split; [|by vm_compute]. unfold reclaimTTL.
  rewrite decide_False by (unfold maxDuration in *; lia).
  rewrite Unix_small by (unfold maxDuration, Second in *; lia).
  assert (Sub (expiresAt * Second) now = maxDuration) as ->.
  { unfold Sub. rewrite decide_False by lia. rewrite decide_False; [done|].
    unfold maxDuration in *. lia. }
  by vm_compute.
Qed.

Lemma far_deadlines_overflow_witness :
  reclaimTTL 0 (2 ^ 62) 0 = Some (-9223372036709551616).
Proof. apply (far_deadlines_overflow 0 (2 ^ 62) 0); unfold maxDuration, Second; lia. Defined.

(** The backoff: the waits of a run of transient failures from a fresh
    start are half a second, doubling, never above fifteen seconds; and every
    wait of the loop, whatever it meets, is between those bounds. *)
Theorem backoff_doubles_to_its_cap lc attempts :
  Forall (fun d => initialBackoff <= d <= maxBackoff) (omap wait_of (connectLoop lc attempts).1) /\
  (Forall transient attempts ->
   (connectLoop lc attempts).1
   = (fun i => LWait (Z.min (initialBackoff * 2 ^ Z.of_nat i) maxBackoff)) <$> seq 0 (length attempts)).
Proof.
  split.
  - apply Forall_forall. intros d Hd. apply list_elem_of_omap in Hd as (act & Hact & Hw).
    destruct (connect_loop_actions (fun _ act => match wait_of act with Some d => ok_backoff d | None => True end)
      lc attempts initialBackoff initialBackoff_ok) with (act := act) as (a & _ & H); [|done|].
    + intros a b act' Hb Hin. destruct (wait_of act') as [d'|] eqn:Ed; [|done].
      destruct (connect_iter_waits lc a b Hb) as [Hall _]. rewrite Forall_forall in Hall.
      rewrite (Hall d'); [done|]. apply list_elem_of_omap. eauto.
    + by rewrite Hw in H.
  - unfold connectLoop. intros Ht.
    replace initialBackoff with (Z.min (initialBackoff * 2 ^ Z.of_nat 0) maxBackoff) at 1
      by (vm_compute; done).
    generalize 0%nat. induction Ht as [|a attempts (H1 & H2 & H3 & H4) _ IH]; intros n; [done|].
    rewrite connect_loop_cons. unfold connect_iter, retry. rewrite H1, H2, H3, H4.
    cbn [fst snd]. rewrite next_backoff_ok.
    + change (seq n (length (a :: attempts))) with (n :: seq (S n) (length attempts)).
      rewrite fmap_cons, <- (IH (S n)). cbn [app]. do 3 f_equal.
      rewrite Nat2Z.inj_succ, Z.pow_succ_r by lia.
      unfold initialBackoff, maxBackoff, Millisecond, Second. lia.
    + unfold ok_backoff, initialBackoff, maxBackoff, Millisecond, Second.
      assert (0 < 2 ^ Z.of_nat n) by (apply Z.pow_pos_nonneg; lia). lia.
Qed.

(** The loop gives up only for a cause: the context ended; or the relay had
    no such session (404) after the session's own deadline; or it rejected the
    runner token (401).  Any other failure, and a lost session that has time
    left, keeps it going. *)
Theorem loop_gives_up_only_for_cause lc attempts e :
  (connectLoop lc attempts).2 = inr e ->
  match e with
  | EndCancelled =>
    exists a, a ∈ attempts /\
      (at_done_before a || at_done_after a || at_done_waiting a) = true
  | EndExpired =>
    lc_expiresAt lc <> 0 /\
    exists a, a ∈ attempts /\ at_dial a = HandshakeError (Some 404) /\
      Sub (Unix (lc_expiresAt lc)) (at_now a) <= 0
  | EndRejected status =>
    status = 401 /\ exists a, a ∈ attempts /\ at_dial a = HandshakeError (Some 401)
  end.
Proof.
  intros He. unfold connectLoop in He.
  apply (connect_loop_end (fun a e => match e with
    | EndCancelled => (at_done_before a || at_done_after a || at_done_waiting a) = true
    | EndExpired => lc_expiresAt lc <> 0 /\ at_dial a = HandshakeError (Some 404) /\
        Sub (Unix (lc_expiresAt lc)) (at_now a) <= 0
    | EndRejected status => status = 401 /\ at_dial a = HandshakeError (Some 401)
    end)) in He as (a & Ha & H).
  - destruct e; naive_solver.
  - clear. intros a b e. unfold connect_iter, retry.
    destruct (at_done_before a) eqn:E1; [by intros [= <-]|].
    destruct (at_done_after a) eqn:E2, (at_done_waiting a) eqn:E3;
      (destruct (at_dial a) as [|[status|]]; simpl; try (by intros [= <-]); try done);
      (case_decide as Hs; simpl; try (by intros [= <-]); try done);
      (unfold NotFound; simpl; case_bool_decide as Hn;
       [subst|destruct Hs as [->|]; [by intros [= <-]|done]]);
      unfold reclaimTTL; (case_decide as Hx; [|case_decide as Hl; [by intros [= <-]|]]);
      (destruct (match at_create a with HttpError => _ | _ => _ end); simpl; by intros [= <-]).
Qed.

Definition demo_rejected : attempt :=
  mkAttempt false (HandshakeError (Some 401)) 0 HttpError false false.
Definition demo_lost (now : Z) : attempt :=
  mkAttempt false (HandshakeError (Some 404)) now
    (HttpResponse 201 (json_map [(str "id", json_quote (str "a")); (str "runner_token", json_quote (str "b"))]))
    false false.
Definition demo_loop : loop_config :=
  mkLoopConfig (mkClient (origin_url (str "https") (str "relay"))) (str "a") (str "b") 0
    1700000000 false.

Lemma loop_gives_up_only_for_cause_witness :
  exists a, a ∈ [demo_lost 1699999999500000000; demo_rejected] /\
    at_dial a = HandshakeError (Some 401).
Proof.
  apply (loop_gives_up_only_for_cause demo_loop [demo_lost 1699999999500000000; demo_rejected]
    (EndRejected 401)).
  by vm_compute.
Defined.

(** No re-creation extends a bounded session, and none makes it unbounded:
    every create request of the loop asks for at least one second and at most
    the time then left, rounded up to a second. *)
Theorem reclaims_never_extend_the_lifetime lc attempts :
  lc_expiresAt lc <> 0 ->
  Forall (fun a => Sub (Unix (lc_expiresAt lc)) (at_now a) <= 9223372035 * Second) attempts ->
  forall body, LCreate body ∈ (connectLoop lc attempts).1 ->
  exists a s, a ∈ attempts /\
    body = create_body (lc_id lc) (lc_token lc) (s * Second) (lc_multiViewer lc) /\
    int_seconds (s * Second) = s /\ 1 <= s /\
    s <= Sub (Unix (lc_expiresAt lc)) (at_now a) / Second + 1.
Proof.
  intros Hne Hall body Hin.
  destruct (connect_loop_actions (fun a act => forall body, act = LCreate body ->
    Sub (Unix (lc_expiresAt lc)) (at_now a) <= 9223372035 * Second ->
    exists s, body = create_body (lc_id lc) (lc_token lc) (s * Second) (lc_multiViewer lc) /\
    1 <= s /\ s <= Sub (Unix (lc_expiresAt lc)) (at_now a) / Second + 1)
    lc attempts initialBackoff initialBackoff_ok) with (act := LCreate body) as (a & Ha & H).
  - clear body Hin. intros a b act _ Hin body -> Hleft.
    pose proof (reclaimTTL_left (lc_ttl lc) (lc_expiresAt lc) (at_now a) Hne Hleft) as Hr.
    assert (exists t, reclaimTTL (lc_ttl lc) (lc_expiresAt lc) (at_now a) = Some t /\
      body = create_body (lc_id lc) (lc_token lc) t (lc_multiViewer lc)) as (t & Ht & ->).
    { revert Hin. unfold connect_iter, retry. destruct (at_done_before a); [by intros ?%elem_of_nil|].
      destruct (DialRunner (at_dial a)) as [|[f|]].
      - by intros ?%list_elem_of_singleton.
      - destruct (NotFound f); [|by intros ?%list_elem_of_singleton].
        destruct (reclaimTTL _ _ _) as [t|]; [|by intros ?%list_elem_of_singleton].
        intros Hin. exists t. split; [done|]. revert Hin. unfold CreateSessionWithOptions.
        destruct (match at_create a with HttpError => _ | _ => _ end).
        + intros [Hb|Hb%list_elem_of_singleton]%elem_of_cons; [by simplify_eq|done].
        + destruct (at_done_after a), (at_done_waiting a); simpl;
            set_solver.
      - destruct (at_done_after a), (at_done_waiting a); simpl; set_solver. }
    rewrite Ht in Hr. destruct Hr as (_ & s & -> & Hs & Hb & _). exists s. split; [done|lia].
  - done.
  - rewrite Forall_forall in Hall. destruct (H body eq_refl (Hall a Ha)) as (s & Hb & Hs & Hl).
    exists a, s. split_and!; [done|done|apply int_seconds_whole; lia|done..].
Qed.

Lemma reclaims_never_extend_the_lifetime_witness :
  exists a s, a ∈ [demo_lost 1699999999500000000] /\
    create_body (str "a") (str "b") Second false = create_body (str "a") (str "b") (s * Second) false /\
    int_seconds (s * Second) = s /\ 1 <= s /\ s <= Sub (Unix 1700000000) (at_now a) / Second + 1.
Proof.
  apply (reclaims_never_extend_the_lifetime demo_loop [demo_lost 1699999999500000000]).
  - done.
  - constructor; [|constructor]. by vm_compute.
  - replace (connectLoop demo_loop [demo_lost 1699999999500000000]).1
      with [LCreate (create_body (str "a") (str "b") Second false);
            LNote (str "onlytty: relay session was replaced (deploy?) — re-establishing")]
      by (vm_compute; reflexivity).
    by left.
Defined.
