(* ===== verification/Run.v ===== *)
(** * Run: the goroutines of a session

    Models Orchestrator.Run of runner/internal/runner/runner.go: the exit
    watcher, the cancellation watcher, pumpOutput, the other event sources and
    the connect loop, interleaved step by step from the start to the value Run
    returns.  What is at stake here is the order of whole handlers, their
    termination and the value returned: a handler is one step, and what the
    operating system, the context and the relay do is a step of its own; what
    can come in the middle of a handler is modelled in Threads. *)
From S2P Require Import Prelude Wire Encodings Crypto Ring Screen Session Control.
From S2P Require Import Json Orch Sender Handlers Traces Access Refine Scenario Authority Invariant.
From S2P Require Import StdCrypto GoTime RelayClient Reconnect.
From Stdlib Require Import Strings.Byte.

(** ** State *)

(** The exit watcher: in Wait, asleep for exitFlush, about to call shutdown,
    finished. *)
Inductive watcher := WWait | WSleep | WCancelled | WDone.

(** The connect loop: at the top of an iteration, within one, in serveConn,
    returned. *)
Inductive loop := LoopTop (backoff : Z) | LoopIter (backoff : Z) | LoopServing | LoopEnded (e : loop_end).

#[export] Instance watcher_eq_dec : EqDecision watcher.
Proof. solve_decision. Defined.
#[export] Instance loop_end_eq_dec : EqDecision loop_end.
Proof. solve_decision. Defined.

Record rstate := mkRState {
  r_orch : Orchestrator;
  r_effects : list effect;
  r_ctx : bool;                    (* the context is done *)
  r_parent : bool;                 (* the parent context is *)
  r_child : option Z;              (* the exit code of the command, once it ended *)
  r_hangup : bool;                 (* the command's side of the pty is closed *)
  r_watcher : watcher;
  r_canceller : bool;              (* the cancellation watcher is still waiting *)
  r_pump : bool;                   (* pumpOutput is running *)
  r_loop : loop;
  r_result : option Z              (* what Run returned *)
}.

Definition start (o : Orchestrator) : rstate :=
  mkRState o [] false false None false WWait true true (LoopTop initialBackoff) None.

Definition set_ctx (x : bool) (r : rstate) : rstate :=
  mkRState (r_orch r) (r_effects r) x (r_parent r) (r_child r) (r_hangup r) (r_watcher r)
    (r_canceller r) (r_pump r) (r_loop r) (r_result r).
Definition set_parent (x : bool) (r : rstate) : rstate :=
  mkRState (r_orch r) (r_effects r) (r_ctx r) x (r_child r) (r_hangup r) (r_watcher r)
    (r_canceller r) (r_pump r) (r_loop r) (r_result r).
Definition set_child (x : option Z) (r : rstate) : rstate :=
  mkRState (r_orch r) (r_effects r) (r_ctx r) (r_parent r) x (r_hangup r) (r_watcher r)
    (r_canceller r) (r_pump r) (r_loop r) (r_result r).
Definition set_hangup (x : bool) (r : rstate) : rstate :=
  mkRState (r_orch r) (r_effects r) (r_ctx r) (r_parent r) (r_child r) x (r_watcher r)
    (r_canceller r) (r_pump r) (r_loop r) (r_result r).
Definition set_watcher (x : watcher) (r : rstate) : rstate :=
  mkRState (r_orch r) (r_effects r) (r_ctx r) (r_parent r) (r_child r) (r_hangup r) x
    (r_canceller r) (r_pump r) (r_loop r) (r_result r).
Definition set_canceller (x : bool) (r : rstate) : rstate :=
  mkRState (r_orch r) (r_effects r) (r_ctx r) (r_parent r) (r_child r) (r_hangup r) (r_watcher r)
    x (r_pump r) (r_loop r) (r_result r).
Definition set_pump (x : bool) (r : rstate) : rstate :=
  mkRState (r_orch r) (r_effects r) (r_ctx r) (r_parent r) (r_child r) (r_hangup r) (r_watcher r)
    (r_canceller r) x (r_loop r) (r_result r).
Definition set_loop (x : loop) (r : rstate) : rstate :=
  mkRState (r_orch r) (r_effects r) (r_ctx r) (r_parent r) (r_child r) (r_hangup r) (r_watcher r)
    (r_canceller r) (r_pump r) x (r_result r).
Definition set_result (x : option Z) (r : rstate) : rstate :=
  mkRState (r_orch r) (r_effects r) (r_ctx r) (r_parent r) (r_child r) (r_hangup r) (r_watcher r)
    (r_canceller r) (r_pump r) (r_loop r) x.

Section Code.
Context `{P : Primitives} `{E : Env}.

(** Runs a handler on the orchestrator. *)
Definition does (m : M unit) (r : rstate) : rstate :=
  mkRState (state_of m (r_orch r)) (r_effects r ++ effects_of m (r_orch r)) (r_ctx r) (r_parent r)
    (r_child r) (r_hangup r) (r_watcher r) (r_canceller r) (r_pump r) (r_loop r) (r_result r).

(** The notices of a connect-loop iteration. *)
Fixpoint loop_notes (acts : list loop_action) : M unit :=
  match acts with
  | [] => skip
  | LNote s :: acts => note s ;; loop_notes acts
  | _ :: acts => loop_notes acts
  end.

(** The goroutines that only handle events: messages and the sender's turns
    come while a connection is served, chunks while pumpOutput reads. *)
Definition handled (r : rstate) (e : event) : Prop :=
  match e with
  | EvClock _ | EvInput _ | EvResize _ _ | EvRevoke | EvKeepalive => True
  | EvMessage _ _ | EvSender _ _ => r_loop r = LoopServing
  | EvOutput chunk => r_pump r = true /\ terminated (r_orch r) = false /\ chunk <> []
  | EvConnect | EvDisconnect | EvExit _ | EvShutdown => False
  end.

(** What an iteration saw of the context: it was not done at its start, and is
    done now if it was seen done. *)
Definition consistent (a : attempt) (ctx : bool) : Prop :=
  at_done_before a = false /\ (at_done_after a = true \/ at_done_waiting a = true -> ctx = true).

Definition loop_next (acts : list loop_action) (next : Z + loop_end) : loop :=
  match next with
  | inr e => LoopEnded e
  | inl b => if existsb (fun a => match a with LServe => true | _ => false end) acts
             then LoopServing else LoopTop b
  end.

(** The step's name: the environment's, a handler's, or one of Run's own. *)
Inductive rlabel := RParent | RChild (code : Z) | RHangup | REvent (e : event) | ROwn.

Inductive rstep (lc : loop_config) : rstate -> rlabel -> rstate -> Prop :=
| Parent r : (* SIGTERM or SIGHUP *)
    r_result r = None -> rstep lc r RParent (set_ctx true (set_parent true r))
| Child r code : (* the command ends *)
    r_result r = None -> r_child r = None -> rstep lc r (RChild code) (set_child (Some code) r)
| Hangup r : (* the last descriptor of the command's side of the pty is closed *)
    r_result r = None -> rstep lc r RHangup (set_hangup true r)
| Handled r e :
    r_result r = None -> handled r e -> rstep lc r (REvent e) (does (step e) r)
(* the exit watcher *)
| Waited r code :
    r_result r = None -> r_watcher r = WWait -> r_child r = Some code ->
    rstep lc r ROwn (set_watcher WSleep (does (step (EvExit code)) r))
| Cancel r :
    r_result r = None -> r_watcher r = WSleep ->
    rstep lc r ROwn (set_ctx true (set_watcher WCancelled r))
| WatcherShutdown r :
    r_result r = None -> r_watcher r = WCancelled ->
    rstep lc r ROwn (set_watcher WDone (does (step EvShutdown) r))
(* the cancellation watcher *)
| CancellerShutdown r :
    r_result r = None -> r_ctx r = true -> r_canceller r = true ->
    rstep lc r ROwn (set_canceller false (does (step EvShutdown) r))
(* pumpOutput: a read fails once the pty is closed, on this side or the other *)
| PumpEnd r :
    r_result r = None -> r_pump r = true -> (terminated (r_orch r) = true \/ r_hangup r = true) ->
    rstep lc r ROwn (set_pump false r)
(* connectLoop *)
| LoopDone r b :
    r_result r = None -> r_loop r = LoopTop b -> r_ctx r = true ->
    rstep lc r ROwn (set_loop (LoopEnded EndCancelled) r)
| LoopDial r b :
    r_result r = None -> r_loop r = LoopTop b -> r_ctx r = false ->
    rstep lc r ROwn (set_loop (LoopIter b) r)
| LoopTried r b a acts next :
    r_result r = None -> r_loop r = LoopIter b -> consistent a (r_ctx r) ->
    connect_iter lc a b = (acts, next) -> loop_next acts next <> LoopServing ->
    rstep lc r ROwn (set_loop (loop_next acts next) (does (loop_notes acts) r))
| LoopConnected r b a acts next :
    r_result r = None -> r_loop r = LoopIter b -> consistent a (r_ctx r) ->
    connect_iter lc a b = (acts, next) -> loop_next acts next = LoopServing ->
    rstep lc r ROwn (set_loop LoopServing (does (step EvConnect) (does (loop_notes acts) r)))
| LoopLost r :
    r_result r = None -> r_loop r = LoopServing ->
    rstep lc r ROwn (set_loop (LoopTop initialBackoff) (does (step EvDisconnect) r))
(* Run, with connectLoop and pumpOutput returned *)
| Return r e :
    r_result r = None -> r_loop r = LoopEnded e -> r_pump r = false ->
    rstep lc r ROwn (set_result (Some (exitCode (r_orch r))) r).

Inductive rsteps (lc : loop_config) : rstate -> list rlabel -> rstate -> Prop :=
| rsteps_nil r : rsteps lc r [] r
| rsteps_cons r l r1 ls r2 : rstep lc r l r1 -> rsteps lc r1 ls r2 -> rsteps lc r (l :: ls) r2.

End Code.

(** ** Lemmas *)

#[export] Instance is_note_dec e : Decision (is_note e).
Proof. destruct e; simpl; apply _. Defined.

(** Everything a run did but its notices. *)
Definition deeds (es : list effect) : list effect := filter (fun e => ~ is_note e) es.

Lemma deeds_app es es' : deeds (es ++ es') = deeds es ++ deeds es'.
Proof. apply filter_app. Qed.

Lemma deeds_notes es : Forall is_note es -> deeds es = [].
Proof.
  induction 1 as [|e es He _ IH]; [done|]. unfold deeds. by rewrite filter_cons_False by tauto.
Qed.

(** The events of the goroutines that only handle them. *)
Definition plain_event (e : event) : bool :=
  match e with EvConnect | EvDisconnect | EvExit _ | EvShutdown => false | _ => true end.

Definition handled_events (ls : list rlabel) : list event :=
  omap (fun l => match l with REvent e => Some e | _ => None end) ls.

Definition is_own (l : rlabel) : bool := match l with ROwn => true | _ => false end.

Section Facts.
Context `{P : Primitives} `{E : Env}.

Lemma loop_notes_state acts o :
  state_of (loop_notes acts) o = o /\ Forall is_note (effects_of (loop_notes acts) o).
Proof.
  induction acts as [|[s|body|d|] acts [IH1 IH2]]; [by split; [|constructor]|..]; try done.
  simpl. rewrite state_of_bind, effects_of_bind.
  pose proof (note_quiet s o) as Hn. apply state_of_wp in Hn as [Hn1 Hn2]. rewrite Hn1.
  split; [done|]. by apply Forall_app.
Qed.

(** The state of a run as the events it amounts to. *)
Definition amounts (o : Orchestrator) (r : rstate) (es : list event) : Prop :=
  r_orch r = state_of (run es) o /\ deeds (r_effects r) = deeds (effects_of (run es) o).

Lemma amounts_does o r es e :
  amounts o r es -> amounts o (does (step e) r) (es ++ [e]).
Proof.
  intros [H1 H2]. unfold amounts, does. simpl. rewrite run_app_state, run_app_effects, !deeds_app, <- H2, <- H1.
  rewrite run_cons_state, run_cons_effects. split; [done|].
  by change (effects_of (run []) (state_of (step e) (r_orch r))) with ([] : list effect); rewrite app_nil_r.
Qed.

Lemma amounts_notes o r es acts : amounts o r es -> amounts o (does (loop_notes acts) r) es.
Proof.
  intros [H1 H2]. destruct (loop_notes_state acts (r_orch r)) as [Hs Hn].
  unfold amounts, does. simpl. by rewrite Hs, deeds_app, (deeds_notes _ Hn), app_nil_r.
Qed.

(** The exit codes reported so far. *)
Definition exits (es : list event) : list Z := omap exit_of es.

Record run_inv (o : Orchestrator) (ls : list rlabel) (r : rstate) (es : list event) : Prop := {
  ri_amounts : amounts o r es;
  ri_plain : filter plain_event es = handled_events ls;
  ri_exits : exits es = match r_watcher r with WWait => [] | _ => option_list (r_child r) end;
  ri_child : r_watcher r <> WWait -> is_Some (r_child r);
  ri_ctx : r_ctx r = true -> r_parent r = true \/ r_watcher r = WCancelled \/ r_watcher r = WDone;
  ri_canceller : r_canceller r = false -> existsb is_shutdown es = true;
  ri_loop : r_loop r = LoopEnded EndCancelled -> r_ctx r = true;
  ri_parent : r_parent r = true <-> RParent ∈ ls;
  ri_result : forall c, r_result r = Some c -> c = exitCode (r_orch r) /\ exists e, r_loop r = LoopEnded e
}.

Lemma run_inv_start o : run_inv o [] (start o) [].
Proof. split; try done; set_solver. Qed.

Lemma handled_events_snoc ls l :
  handled_events (ls ++ [l]) = handled_events ls ++ match l with REvent e => [e] | _ => [] end.
Proof. unfold handled_events. rewrite omap_app. by destruct l. Qed.

Lemma parent_snoc ls l : RParent ∈ ls ++ [l] <-> RParent ∈ ls \/ l = RParent.
Proof. rewrite elem_of_app, list_elem_of_singleton. naive_solver. Qed.

Lemma exits_snoc es e : exits (es ++ [e]) = exits es ++ option_list (exit_of e).
Proof. unfold exits. rewrite omap_app. simpl. by destruct (exit_of e). Qed.

(** The loop ends for the context only once it is done. *)
Lemma connect_iter_cancelled lc a b acts :
  connect_iter lc a b = (acts, inr EndCancelled) -> at_done_before a = false ->
  at_done_after a = true \/ at_done_waiting a = true.
Proof.
  assert (forall acts, retry a b = (acts, inr EndCancelled) ->
    at_done_after a = true \/ at_done_waiting a = true) as Hr.
  { intros acts'. unfold retry. destruct (at_done_after a), (at_done_waiting a); auto; done. }
  unfold connect_iter. intros H Hb. rewrite Hb in H.
  destruct (DialRunner (at_dial a)) as [|[fatal|]]; [done| |by eapply Hr].
  destruct (NotFound fatal); [|done]. destruct (reclaimTTL _ _ _); [|done].
  unfold CreateSessionWithOptions in H. destruct (match at_create a with HttpError => _ | _ => _ end); [done|].
  destruct (retry a b) as [acts' next] eqn:Hrt. injection H as _ ->. by eapply Hr.
Qed.

(** The parts of the invariant a step leaves as they are. *)
Local Ltac keep Hh Hq Hex :=
  split;
  lazymatch goal with
  | |- amounts _ _ _ => try match goal with H : _ |- _ => exact H || exact (H _) end
  | _ => simpl
  end; rewrite ?Hh by done; auto; try (by apply Hq); try (by rewrite Hex); try (intros; congruence).

Lemma run_inv_step lc o ls r es l r' :
  run_inv o ls r es -> rstep lc r l r' -> exists es', run_inv o (ls ++ [l]) r' es'.
Proof.
  intros [Ha Hp He Hc Hx Hk Hl Hpar Hres] Hstep.
  assert (forall e, amounts o (does (step e) r) (es ++ [e])) as Hdoes by (intros; by apply amounts_does).
  assert (forall acts, amounts o (does (loop_notes acts) r) es) as Hnotes by (intros; by apply amounts_notes).
  assert (forall e, plain_event e = false ->
    filter plain_event (es ++ [e]) = handled_events ls) as Hplain.
  { intros e Hn. by rewrite filter_app, Hp, filter_cons_False, filter_nil, app_nil_r
      by (rewrite Hn; by intros []). }
  assert (forall e, exit_of e = None -> exits (es ++ [e]) = exits es) as Hex.
  { intros e Hn. rewrite exits_snoc, Hn. apply app_nil_r. }
  assert (forall l0, l0 <> RParent -> r_parent r = true <-> RParent ∈ ls ++ [l0]) as Hq.
  { intros l0 Hl0. rewrite Hpar, parent_snoc. naive_solver. }
  assert (forall l0, (forall e, l0 <> REvent e) -> handled_events (ls ++ [l0]) = handled_events ls) as Hh.
  { intros l0 Hl0. rewrite handled_events_snoc. destruct l0; rewrite ?app_nil_r; try done. by destruct (Hl0 e). }
  assert (forall e, r_canceller r = false -> existsb is_shutdown (es ++ [e]) = true) as Hks.
  { intros e Hf%Hk. by rewrite existsb_app, Hf. }
  destruct Hstep.
  - exists es. keep Hh Hq Hex. rewrite parent_snoc. naive_solver.
  - exists es. keep Hh Hq Hex. destruct (r_watcher r); [done|..]; destruct (Hc ltac:(done)); congruence.
  - exists es. keep Hh Hq Hex.
  - (* an event *)
    exists (es ++ [e]). assert (plain_event e = true /\ exit_of e = None) as [H1 H2] by by destruct e.
    keep Hh Hq Hex.
    by rewrite filter_app, handled_events_snoc, Hp, filter_cons_True by (by rewrite H1).
  - exists (es ++ [EvExit code]). keep Hh Hq Hex; [by rewrite exits_snoc, He, H0, H1|].
    intros [?|[?|?]]%Hx; [by left|congruence..].
  - exists es. rewrite H0 in *. keep Hh Hq Hex.
  - exists (es ++ [EvShutdown]). rewrite H0 in *. keep Hh Hq Hex.
  - exists (es ++ [EvShutdown]). keep Hh Hq Hex.
    intros _. by rewrite existsb_app, orb_true_r.
  - exists es. keep Hh Hq Hex.
  - exists es. keep Hh Hq Hex.
  - exists es. keep Hh Hq Hex.
  - exists es. keep Hh Hq Hex. intros Hn. unfold loop_next in Hn.
    destruct next as [b'|e]; [by destruct (existsb _ acts)|]. injection Hn as ->.
    apply H1. eapply connect_iter_cancelled; [eassumption|apply H1].
  - exists (es ++ [EvConnect]). keep Hh Hq Hex.
    apply (amounts_does _ (does (loop_notes acts) r)), Hnotes.
  - exists (es ++ [EvDisconnect]). keep Hh Hq Hex.
  - exists es. keep Hh Hq Hex. intros c [= <-]. split; [done|by eexists].
Qed.

Lemma rsteps_inv lc o ls0 r es ls r' :
  run_inv o ls0 r es -> rsteps lc r ls r' -> exists es', run_inv o (ls0 ++ ls) r' es'.
Proof.
  intros Hi Hs. revert ls0 es Hi. induction Hs as [r|r l r1 ls r2 Hstep _ IH]; intros ls0 es Hi.
  { exists es. by rewrite app_nil_r. }
  destruct (run_inv_step _ _ _ _ _ _ _ Hi Hstep) as [es1 H1].
  destruct (IH _ _ H1) as [es2 H2]. exists es2. by rewrite <- (assoc_L (++)) in H2.
Qed.

(** What Run's own goroutines have left to do once the context is done. *)
Definition steps_to_go (r : rstate) : nat :=
  match r_watcher r with WWait => 3 | WSleep => 2 | WCancelled => 1 | WDone => 0 end
  + (if r_canceller r then 1 else 0) + (if r_pump r then 1 else 0)
  + match r_loop r with LoopIter _ => 3 | LoopServing => 2 | LoopTop _ => 1 | LoopEnded _ => 0 end
  + match r_result r with None => 1 | Some _ => 0 end.

Lemma to_go_step lc r l r' :
  rstep lc r l r' -> r_ctx r = true ->
  r_ctx r' = true /\ (if is_own l then 1 else 0) + steps_to_go r' <= steps_to_go r.
Proof.
  intros Hstep Hc. destruct Hstep; unfold steps_to_go; simpl; (split; [done|]);
    repeat match goal with H : ?f r = _ |- _ => rewrite H end; try lia.
  - congruence.
  - destruct (loop_next acts next) eqn:Hn; try lia. unfold loop_next in Hn.
    destruct next; [by case_match|done].
Qed.

Lemma to_go_steps lc r ls r' :
  rsteps lc r ls r' -> r_ctx r = true -> length (filter is_own ls) + steps_to_go r' <= steps_to_go r.
Proof.
  intros Hs. induction Hs as [|r l r1 ls r2 Hstep _ IH]; intros Hc; [done|].
  destruct (to_go_step _ _ _ _ Hstep Hc) as [Hc1 Hl]. specialize (IH Hc1).
  rewrite filter_cons. destruct l; simpl in *; lia.
Qed.

(** Until Run returns, a goroutine of its own can go on, once the context is done. *)
Lemma own_step lc o ls r es :
  run_inv o ls r es -> terminated o = false -> r_ctx r = true -> r_result r = None ->
  exists r', rstep lc r ROwn r'.
Proof.
  intros Hi Ht Hc Hr. destruct (r_loop r) as [b|b| |e] eqn:Hl.
  - eexists. by eapply LoopDone.
  - eexists. eapply (LoopTried _ _ b (mkAttempt false (HandshakeError None) 0 HttpError true true) [] (inr EndCancelled));
      done.
  - eexists. by eapply LoopLost.
  - destruct (r_pump r) eqn:Hp; [|eexists; by eapply Return].
    destruct (r_canceller r) eqn:Hk; [eexists; by eapply CancellerShutdown|].
    eexists. apply PumpEnd; [done..|]. left.
    pose proof (ri_canceller _ _ _ _ Hi Hk) as Hs. destruct (ri_amounts _ _ _ _ Hi) as [-> _].
    rewrite run_terminated, Hs. apply orb_true_r.
Qed.

End Facts.

(** What Run returns, of any run with the invariant. *)
Lemma run_inv_result `{E : Env} c s o ls r es code :
  Orch.New c s = Ok o -> size_known s -> sess_state s = None ->
  run_inv o ls r es -> r_result r = Some code ->
  (exists child, r_child r = Some child /\ code = i32 child) \/
  (code = (-1)%Z /\ (RParent ∈ ls \/ exists e, r_loop r = LoopEnded e /\ e <> EndCancelled)).
Proof.
  intros HN Hk H0 Hi Hr.
  destruct (ri_result _ _ _ _ Hi _ Hr) as [-> [e He]].
  destruct (ri_amounts _ _ _ _ Hi) as [-> _]. rewrite (run_exitCode c s) by done.
  pose proof (ri_exits _ _ _ _ Hi) as Hx. unfold first_exit. fold (exits es). rewrite Hx.
  destruct (decide (r_watcher r = WWait)) as [Hw|Hw].
  - right. rewrite Hw. split; [done|].
    destruct (decide (e = EndCancelled)) as [->|]; [|right; by exists e].
    left. apply (ri_parent _ _ _ _ Hi).
    destruct (ri_ctx _ _ _ _ Hi (ri_loop _ _ _ _ Hi He)) as [?|[?|?]]; [done|congruence..].
  - left. destruct (ri_child _ _ _ _ Hi Hw) as [child Hc]. exists child. split; [done|].
    rewrite Hc. by destruct (r_watcher r).
Qed.

(** ** Properties *)

(** Run is a sequence of events: however its goroutines interleave, what it
    has done - the orchestrator's state, and every byte written to the pty,
    the terminal and the relay - is what some sequence of events does; the
    events the pumps, the reader, the sender and the signals handled are in it
    in their order, and the child's exit is in it at most once. *)
Theorem run_is_a_sequence_of_events `{E : Env} lc o ls r :
  rsteps lc (start o) ls r ->
  exists es, r_orch r = state_of (run es) o /\ deeds (r_effects r) = deeds (effects_of (run es) o) /\
    filter plain_event es = handled_events ls /\ length (exits es) <= 1 /\
    (forall code, EvExit code ∈ es -> r_child r = Some code).
Proof.
  intros Hs. destruct (rsteps_inv _ _ _ _ _ _ _ (run_inv_start o) Hs) as [es Hi]. simpl in Hi.
  exists es. destruct (ri_amounts _ _ _ _ Hi) as [H1 H2]. split; [done|]. split; [done|].
  split; [apply Hi|]. pose proof (ri_exits _ _ _ _ Hi) as He.
  assert (exits es = [] \/ exits es = option_list (r_child r)) as Hx
    by (destruct (r_watcher r); [by left|by right..]).
  split.
  - destruct Hx as [-> | ->]; [simpl; lia|]. destruct (r_child r); simpl; lia.
  - intros code Hin. assert (code ∈ exits es) as Hc
      by (apply list_elem_of_omap; by exists (EvExit code)).
    destruct Hx as [Hx|Hx]; rewrite Hx in Hc; [by apply elem_of_nil in Hc|].
    destruct (r_child r); simpl in Hc; set_solver.
Qed.

(** Run returns the command's exit code: what it returns is the code the
    command ended with - or -1, and then it was told to end (SIGTERM, SIGHUP)
    or had stopped sharing before. *)
Theorem run_returns_the_childs_code `{E : Env} lc c s o ls r code :
  Orch.New c s = Ok o -> size_known s -> sess_state s = None ->
  rsteps lc (start o) ls r -> r_result r = Some code ->
  (exists child, r_child r = Some child /\ code = i32 child) \/
  (code = (-1)%Z /\ (RParent ∈ ls \/ exists e, r_loop r = LoopEnded e /\ e <> EndCancelled)).
Proof.
  intros HN Hk H0 Hs. destruct (rsteps_inv _ _ _ _ _ _ _ (run_inv_start o) Hs) as [es Hi].
  by apply (run_inv_result c s o ls r es).
Qed.

(** The exit code is lost once sharing has stopped: when the connect loop has
    given up - a rejected or an expired session - and the command then ends,
    pumpOutput sees the closed pty and Run can return -1 before the exit
    watcher has stored the code, whatever it is, and with nobody having told
    it to end. *)
Theorem exit_code_is_lost_after_sharing `{E : Env} lc c s o a acts e code :
  Orch.New c s = Ok o -> consistent a false ->
  connect_iter lc a initialBackoff = (acts, inr e) ->
  exists ls r, rsteps lc (start o) ls r /\ (RParent ∉ ls) /\ r_child r = Some code /\
    r_result r = Some (-1)%Z.
Proof.
  intros HN Hc Ha. destruct (New_sess c s o HN) as (_ & Hx & _).
  destruct (loop_notes_state acts o) as [Hn _].
  eexists [ROwn; ROwn; RChild code; RHangup; ROwn; ROwn], _. split; [|split; [set_solver|]].
  - eapply rsteps_cons; [by eapply LoopDial|]. eapply rsteps_cons; [by eapply LoopTried|].
    eapply rsteps_cons; [by eapply Child|]. eapply rsteps_cons; [by eapply Hangup|].
    eapply rsteps_cons; [eapply PumpEnd; by auto|]. eapply rsteps_cons; [by eapply Return|].
    apply rsteps_nil.
  - simpl. by rewrite Hn, Hx.
Qed.

(** C20. A cancelled Run returns: once the context is done, the goroutines of Run
    have at most nine steps left, whatever the command, the relay and the
    host do meanwhile, and until Run has returned one of them can go on. *)
Theorem cancelled_run_returns `{E : Env} lc c s o ls r :
  Orch.New c s = Ok o -> rsteps lc (start o) ls r -> r_ctx r = true ->
  (forall ls' r', rsteps lc r ls' r' -> length (filter is_own ls') <= 9) /\
  (r_result r = None -> exists r', rstep lc r ROwn r').
Proof.
  intros HN Hs Hc. destruct (New_sess c s o HN) as (_ & _ & Ht).
  destruct (rsteps_inv _ _ _ _ _ _ _ (run_inv_start o) Hs) as [es Hi]. split.
  - intros ls' r' Hs'. pose proof (to_go_steps _ _ _ _ Hs' Hc) as H.
    assert (steps_to_go r <= 9); [|lia]. unfold steps_to_go.
    destruct (r_watcher r), (r_canceller r), (r_pump r), (r_loop r), (r_result r); simpl; lia.
  - intros Hr. by eapply own_step.
Qed.

(** ** A session from start to end *)

Definition demo_ends : list rlabel := [REvent EvKeepalive; RChild 3; ROwn; ROwn; ROwn; ROwn; ROwn; ROwn].

Lemma demo_run :
  exists r, rsteps demo_loop (start (demo ControlAuto)) demo_ends r /\ r_result r = Some 3%Z /\
    r_child r = Some 3%Z.
Proof.
  eexists. split.
  - eapply rsteps_cons; [by apply (Handled _ _ EvKeepalive)|]. eapply rsteps_cons; [by eapply Child|].
    eapply rsteps_cons; [by eapply (Waited _ _ 3)|]. eapply rsteps_cons; [by eapply Cancel|].
    eapply rsteps_cons; [by eapply WatcherShutdown|]. eapply rsteps_cons; [by eapply LoopDone|].
    eapply rsteps_cons; [by apply PumpEnd; [..|left]|]. eapply rsteps_cons; [by eapply Return|].
    apply rsteps_nil.
  - split; vm_compute; reflexivity.
Defined.

Lemma run_is_a_sequence_of_events_witness :
  exists es, filter plain_event es = [EvKeepalive] /\ length (exits es) <= 1.
Proof.
  destruct demo_run as (r & Hs & _).
  destruct (run_is_a_sequence_of_events demo_loop (demo ControlAuto) demo_ends r Hs)
    as (es & _ & _ & H1 & H2 & _). by exists es.
Defined.

Lemma run_returns_the_childs_code_witness :
  exists r child, r_result r = Some 3%Z /\ r_child r = Some child /\ 3%Z = i32 child.
Proof.
  destruct demo_run as (r & Hs & Hr & Hc). exists r.
  destruct (run_returns_the_childs_code demo_loop (demo_cfg ControlAuto) demo_session
    (demo ControlAuto) demo_ends r 3 (New_demo ControlAuto)) as [(child & H1 & H2)|[H _]];
    [by right|done|done|done| |done]. by exists child.
Defined.

Lemma exit_code_is_lost_after_sharing_witness :
  exists ls r, rsteps demo_loop (start (demo ControlAuto)) ls r /\ (RParent ∉ ls) /\
    r_child r = Some 0%Z /\ r_result r = Some (-1)%Z.
Proof.
  eapply (exit_code_is_lost_after_sharing demo_loop (demo_cfg ControlAuto) demo_session
    (demo ControlAuto) demo_rejected _ (EndRejected 401) 0 (New_demo ControlAuto));
    [by split; [|intros [?|?]]|vm_compute; reflexivity].
Defined.

Lemma cancelled_run_returns_witness :
  exists r', rstep demo_loop (set_ctx true (set_parent true (start (demo ControlAuto)))) ROwn r'.
Proof.
  apply (cancelled_run_returns demo_loop (demo_cfg ControlAuto) demo_session (demo ControlAuto)
    [RParent]); [apply (New_demo ControlAuto)|..|done|done].
  eapply rsteps_cons; [by apply Parent|apply rsteps_nil].
Defined.
