(* ===== verification/Farewell.v ===== *)
(** * Farewell: how the viewers learn that the command ended

    signalExit of runner/internal/runner/runner.go queues the EXIT frame and the
    plaintext bye, behind the output the pump has queued.  What the viewers are
    sent then, and what becomes of output the pump has not read yet: the bye
    makes the relay close the whole session (PROTOCOL.md). *)
From S2P Require Import Prelude Wire Encodings Crypto StdCrypto Ring Screen Session.
From S2P Require Import Control Json Orch Sender Handlers Traces Access Refine.
From S2P Require Import Scenario Authority Invariant Outbound GoTime RelayClient Reconnect Run.
From Stdlib Require Import Strings.Byte.

Definition exit_message (code : Z) : outMsg := mkOutMsg KindExit (EncodeExit (i32 code)) [] false.

(** ** Lemmas *)

Lemma DecodeExit_i32 code : DecodeExit (EncodeExit (i32 code)) = Ok (i32 code).
Proof.
  rewrite EncodeExit_app. unfold DecodeExit. rewrite length_be_encode. rewrite decide_False by lia.
  rewrite <- (app_nil_r (be_encode 4 _)), slice_app_start by (by rewrite length_be_encode).
  rewrite be_decode_encode. unfold u32, i32. f_equal. Z.div_mod_to_equations; lia.
Qed.

(** The repaint a queue leaves owing is in front of what is queued next. *)
Lemma with_repaint_app rp d q q' :
  with_repaint rp d (q ++ q') = with_repaint rp d q ++ with_repaint rp (d && forallb om_text q) q'.
Proof.
  revert d. induction q as [|m q IH]; intros d; simpl; [by rewrite andb_true_r|].
  destruct (om_text m); simpl; rewrite IH; [done|]. by rewrite andb_false_r, <- !(assoc_L (++)).
Qed.

Section Farewell.
Context `{E : Env}.

(** The state once the exit watcher has spoken. *)
Definition ended (code : Z) (o : Orchestrator) : Orchestrator :=
  set_exitCode (i32 code) (set_sess (Wait (sess o) code) o).

Lemma exit_step code o c :
  conn o = Some c -> c_done c = false -> sess_state (sess o) = None ->
  length (c_send c) + 2 <= sendQueue ->
  step (EvExit code) o
  = (tt, set_conn (Some (push_send bye_message (push_send (exit_message code) c))) (ended code o), []).
Proof.
  intros Hc Hd Hw Hroom. simpl step. unfold exit_watcher.
  eapply bind_eval; [done| |done]. rewrite bool_decide_true by done.
  eapply bind_eval; [done| |done]. eapply bind_eval; [done| |done].
  unfold signalExit. eapply bind_eval; [done| |done].
  set (o1 := set_exitCode _ _).
  assert (conn o1 = Some c) as Hc1 by done.
  eapply bind_eval; [apply (queueing_spec _ _ c Hc1 Hd)| |done].
  rewrite decide_True by lia.
  unfold emitText. erewrite queueing_spec; [|done|done].
  rewrite decide_True; [done|]. unfold push_send. simpl. rewrite length_app. simpl. lia.
Qed.

(** Turns of the sender, while a connection is served. *)
Lemma sender_turns lc n r :
  r_result r = None -> r_loop r = LoopServing ->
  exists r', rsteps lc r (replicate n (REvent (EvSender CaseSend []))) r' /\
    r_effects r' = r_effects r ++ effects_of (run (replicate n (EvSender CaseSend []))) (r_orch r).
Proof.
  revert r. induction n as [|n IH]; intros r Hres Hl.
  - exists r. split; [apply rsteps_nil|by rewrite app_nil_r].
  - destruct (IH (does (step (EvSender CaseSend [])) r) Hres Hl) as (r' & Hs & He).
    exists r'. split; [eapply rsteps_cons; [by apply Handled|exact Hs]|].
    rewrite He. simpl replicate. rewrite run_cons_effects. unfold does. simpl r_effects. simpl r_orch.
    by rewrite <- (assoc_L (++)).
Qed.

End Farewell.

(** ** Properties *)

(** C29. Viewers are told the exit code, after all output queued before.  When
    the command ends on a connection with room for two messages, the sender
    writes what was queued, in order (with the repaint owed for dropped
    output), then an EXIT frame that a viewer opens to the very int32 Run will
    return, and then the bye. *)
Theorem viewers_are_told_the_exit_code `{E : Env} `{!EnvLaws E} o c code :
  (forall n, is_Some (rand_read n)) ->
  conn o = Some c -> c_running c = true -> c_done c = false -> sess_state (sess o) = None ->
  length (c_send c) + 2 <= sendQueue ->
  let o' := state_of (step (EvExit code)) o in
  exists frame seq,
    effects_of (run (replicate (length (c_send c) + 2) (EvSender CaseSend []))) o'
    = wire_of (r2v o) (outSeq o) (rands o)
        (with_repaint (repaintFrames [] o') (c_dropped c) (c_send c)
         ++ if c_dropped c && forallb om_text (c_send c) then repaintFrames [] o' else [])
      ++ [EWrite false frame true; EWrite true byeEnded true] /\
    Open (r2v o) frame = Ok (seq, KindExit, EncodeExit (i32 code)) /\
    DecodeExit (EncodeExit (i32 code)) = Ok (exitCode o').
Proof.
  intros Hr Hc Hrun Hd Hw Hroom o'.
  set (q := c_send c ++ [exit_message code; bye_message]).
  set (c' := push_send bye_message (push_send (exit_message code) c)).
  assert (o' = set_conn (Some c') (ended code o)) as Ho
    by (unfold o', state_of; by rewrite (exit_step code o c)).
  assert (c_send c' = q) as Hq by (unfold c', q; simpl; by rewrite <- (assoc_L (++))).
  replace (length (c_send c) + 2) with (length q) by (unfold q; by rewrite length_app).
  unfold effects_of. rewrite (drain_queue q c') by (done || by rewrite Ho). cbn [snd].
  set (ms := with_repaint (repaintFrames [] o') (c_dropped c) (c_send c)).
  set (owed := if c_dropped c && forallb om_text (c_send c) then repaintFrames [] o' else []).
  assert (with_repaint (repaintFrames [] o') (c_dropped c') q
    = (ms ++ owed) ++ [exit_message code; bye_message]) as ->.
  { unfold q. rewrite with_repaint_app, <- (assoc_L (++)). f_equal. }
  rewrite wire_of_app. set (n := rands o' + _). set (seq := seq_after _ _).
  destruct (Hr n) as [nonce Hn].
  exists (sealWithNonce (r2v o) nonce (u64 (seq + 1)) KindExit (EncodeExit (i32 code))), (u64 (seq + 1)).
  split; [|split].
  - replace (r2v o') with (r2v o) by (by rewrite Ho). replace (outSeq o') with (outSeq o) by (by rewrite Ho).
    replace (rands o') with (rands o) by (by rewrite Ho). f_equal. cbn [wire_of exit_message om_text].
    by rewrite Hn.
  - apply Open_sealWithNonce; [by eapply rand_read_length|]. unfold u64. apply Z.mod_pos_bound. lia.
  - rewrite DecodeExit_i32. by rewrite Ho.
Qed.

Lemma viewers_are_told_the_exit_code_witness :
  exists frame seq, Open (r2v (demo ControlAuto)) frame = Ok (seq, KindExit, EncodeExit (i32 3)).
Proof.
  destruct (viewers_are_told_the_exit_code (demo_owned ControlAuto)
    (default newConn (conn (demo_owned ControlAuto))) 3) as (frame & seq & _ & H & _).
  - intros n. by exists (make_bytes 12).
  - by vm_compute.
  - by vm_compute.
  - by vm_compute.
  - by vm_compute.
  - apply (bool_decide_unpack (_ <= sendQueue)). by vm_compute.
  - exists frame, seq. exact H.
Defined.

(** C30. The farewell can overtake the command's last output.  The exit watcher
    does not wait for the pump: in a run of Run that nobody told to end, a
    chunk the command wrote before it ended and the pump reads after it is
    queued behind the bye, and the sender writes EXIT, the bye - at which the
    relay closes the session - and only then the chunk. *)
Theorem farewell_overtakes_the_output `{E : Env} lc r c code chunk :
  (forall n, is_Some (rand_read n)) ->
  r_result r = None -> r_child r = None -> r_watcher r = WWait -> r_pump r = true ->
  r_loop r = LoopServing -> terminated (r_orch r) = false -> sess_state (sess (r_orch r)) = None ->
  conn (r_orch r) = Some c -> c_running c = true -> c_done c = false -> c_send c = [] ->
  c_dropped c = false -> (viewers (r_orch r) > 0)%Z -> chunk <> [] ->
  let o := r_orch r in
  exists r' local,
    rsteps lc r ([RChild code; ROwn; REvent (EvOutput chunk)]
                 ++ replicate 3 (REvent (EvSender CaseSend []))) r' /\
    r_effects r' = r_effects r ++ local
      ++ wire_of (r2v o) (outSeq o) (rands o) [exit_message code; bye_message; output_msg chunk] /\
    Forall (fun e => e = ELocal chunk) local.
Proof.
  intros Hr Hres Hch Hwa Hp Hl Ht Hs Hc Hrun Hd Hq Hdr Hv Hne o.
  set (c1 := push_send bye_message (push_send (exit_message code) c)).
  set (o1 := set_conn (Some c1) (ended code o)).
  assert (step (EvExit code) o = (tt, o1, [])) as H1.
  { apply exit_step; try done. rewrite Hq. unfold sendQueue. simpl. lia. }
  set (c2 := push_send (output_msg chunk) c1).
  pose proof (output_step chunk o1 c1 eq_refl Hd Hv) as H2. cbv zeta in H2.
  assert (length (c_send c1) < sendQueue) as Hroom
    by (unfold c1, sendQueue; simpl; rewrite Hq; simpl; lia).
  specialize (H2 Hroom). set (o2 := set_conn _ _) in H2. set (local := if Config_LocalOut _ then _ else _) in H2.
  set (r1 := set_watcher WSleep (does (step (EvExit code)) (set_child (Some code) r))).
  set (r2 := does (step (EvOutput chunk)) r1).
  assert (r_orch r1 = o1 /\ r_effects r1 = r_effects r) as [Ho1 He1].
  { unfold r1, does, state_of, effects_of. cbn -[step]. fold o. rewrite H1. by rewrite app_nil_r. }
  assert (r_orch r2 = o2 /\ r_effects r2 = r_effects r ++ local) as [Ho2 He2].
  { change (r_orch r2) with (state_of (step (EvOutput chunk)) (r_orch r1)).
    change (r_effects r2) with (r_effects r1 ++ effects_of (step (EvOutput chunk)) (r_orch r1)).
    rewrite Ho1, He1. unfold state_of, effects_of. by rewrite H2. }
  destruct (sender_turns lc 3 r2) as (r' & Hs' & He'); [done..|].
  exists r', local. split; [|split].
  - eapply rsteps_cons; [by apply Child|]. eapply rsteps_cons; [by eapply (Waited _ _ code)|].
    fold r1. eapply rsteps_cons; [|exact Hs']. apply Handled; [done|]. split; [done|].
    split; [change (terminated (r_orch r1) = false); by rewrite Ho1|done].
  - rewrite He', He2, Ho2, <- (assoc_L (++)). do 2 f_equal.
    assert (c_send c2 = [exit_message code; bye_message; output_msg chunk]) as Hq2
      by (unfold c2, c1; simpl; by rewrite Hq).
    change 3 with (length [exit_message code; bye_message; output_msg chunk]).
    unfold effects_of. rewrite (drain_queue _ c2) by done. cbn [snd].
    replace (c_dropped c2) with false by done. by rewrite with_repaint_false.
  - unfold local. case_match; by repeat constructor.
Qed.

(** Where a viewer watches, nobody in control. *)
Definition demo_watched : rstate :=
  set_loop LoopServing (does (run [EvConnect; EvMessage true
    (json_object [(str "t", str "peer_join"); (str "viewer_id", str "r1")])]) (Run.start (demo ControlAuto))).

Lemma farewell_overtakes_the_output_witness :
  exists r' local,
    rsteps demo_loop demo_watched ([RChild 0; ROwn; REvent (EvOutput (str "bye"))]
      ++ replicate 3 (REvent (EvSender CaseSend []))) r' /\ Forall (fun e => e = ELocal (str "bye")) local.
Proof.
  destruct (farewell_overtakes_the_output demo_loop demo_watched
    (mkConn [] [str "r1"] false false true) 0 (str "bye")) as (r' & local & H1 & _ & H3);
    [by intros n; exists (make_bytes 12)|try done; by vm_compute..|exists r', local; by split].
Defined.
