(* ===== verification/Whole.v ===== *)
(** * Whole: where every call on the pty of a session comes from

    Composes Run, Interleave and Authority: over any execution of
    Orchestrator.Run (runner/internal/runner/runner.go), each thing done to the
    command's pty is traced to the goroutine's event that asked for it - a key or
    a resize of the host's terminal, the teardown, or one authentic frame of a
    viewer. *)
From stdpp Require Import sorting.
From S2P Require Import Prelude Wire Encodings Crypto StdCrypto Ring Screen Session Control.
From S2P Require Import Json Orch Sender Handlers Traces Access Refine Scenario Authority Invariant.
From S2P Require Import Interleave GoTime RelayClient Reconnect Run.
From Stdlib Require Import Strings.Byte.

(** ** Sources *)

Inductive source := Host | Viewer (f : viewer_frame).

Definition viewer_of (s : source) : option viewer_frame :=
  match s with Host => None | Viewer f => Some f end.

(** The frames behind calls, in the order of the calls. *)
Definition frames_of (calls : list (source * pty_call)) : list viewer_frame :=
  omap (fun sc => viewer_of sc.1) calls.

(** A later frame of the same viewer has a higher number. *)
Definition later (f f' : viewer_frame) : Prop :=
  vf_viewer f = vf_viewer f' -> (vf_seq f < vf_seq f')%Z.

Section Events.
Context `{P : Primitives} `{E : Env}.

Definition source_of (o : Orchestrator) (e : event) : source :=
  match e with
  | EvMessage false data => match read_frame (v2r o) data with Some f => Viewer f | None => Host end
  | _ => Host
  end.

(** The calls of a run of events, each with its source. *)
Fixpoint called (es : list event) (o : Orchestrator) : list (source * pty_call) :=
  match es with
  | [] => []
  | e :: es => (pair (source_of o e) <$> step_calls e o) ++ called es (state_of (step e) o)
  end.

(** The authentic frames among messages. *)
Definition received (c : Cipher) (es : list event) : list viewer_frame :=
  omap (fun e => match e with EvMessage false data => read_frame c data | _ => None end) es.

(** What the host's own events ask for. *)
Definition from_host (e : event) (c : pty_call) : Prop :=
  match e, c with
  | EvInput p, PtyWrite p' => p = p'
  | EvResize cols rows, PtySetsize cols' rows' => cols = cols' /\ rows = rows'
  | EvShutdown, (PtySigterm | PtyClose) => True
  | _, _ => False
  end.

Lemma called_calls es o : (called es o).*2 = pty_calls (effects_of (run es) o).
Proof.
  revert o. induction es as [|e es IH]; intros o; [done|].
  rewrite run_cons_effects, pty_calls_app, step_pty, <- IH. simpl. rewrite fmap_app. f_equal.
  rewrite <- list_fmap_compose. apply list_fmap_id.
Qed.

(** A message's calls: those its frame asks for, from the owner, fresh. *)
Lemma message_cases data o :
  step_calls (EvMessage false data) o = [] \/
  exists f, read_frame (v2r o) data = Some f /\ (floor (vs o) (vf_viewer f) < vf_seq f)%Z /\
    controlOwner (vs o) = vf_viewer f /\ conn o <> None /\
    step_calls (EvMessage false data) o = requested_calls (frame_request f).
Proof.
  simpl. destruct (conn o); [|by left]. destruct (read_frame (v2r o) data) as [f|]; [|by left].
  case_decide; [by left|]. rewrite request_calls. unfold viewerHasControl.
  case_bool_decide; [right|by left]. exists f. split_and!; done || lia.
Qed.

Lemma requested_at_most_one r : length (requested_calls r) <= 1.
Proof. destruct r; simpl; try lia. case_decide; simpl; lia. Qed.

Lemma host_call_source e o c :
  (forall data, e <> EvMessage false data) -> c ∈ step_calls e o -> from_host e c.
Proof.
  intros He. destruct e as [|[] data| | | | | | | | | |]; simpl; try (by intros []%elem_of_nil); try done.
  - by destruct (He data).
  - case_match; [|by intros []%elem_of_nil]. by intros ->%list_elem_of_singleton.
  - unfold SetSize. case_decide; simpl; [by intros []%elem_of_nil|]. by intros ->%list_elem_of_singleton.
  - case_match; [by intros []%elem_of_nil|]. by intros [->|[->|[]%elem_of_nil]%elem_of_cons]%elem_of_cons.
Qed.

(** Any event but a binary message is the host's. *)
Lemma event_source e o : (exists data, e = EvMessage false data) \/ (forall data, e <> EvMessage false data) /\ source_of o e = Host.
Proof. destruct e as [|[]| | | | | | | | | |]; try (right; split; [intros; discriminate|done]). left. by eexists. Qed.

Lemma frames_of_host cs : frames_of (pair Host <$> cs) = [].
Proof. by induction cs. Qed.

(** The sources of a step's calls. *)
Lemma step_sources e o sc :
  sc ∈ pair (source_of o e) <$> step_calls e o ->
  match sc.1 with
  | Host => from_host e sc.2
  | Viewer f => sc.2 ∈ requested_calls (frame_request f) /\ controlOwner (vs o) = vf_viewer f /\
                exists data, e = EvMessage false data /\ read_frame (v2r o) data = Some f
  end.
Proof.
  intros (c & -> & Hc)%list_elem_of_fmap. simpl.
  destruct (event_source e o) as [[data ->]|[Hne Hsrc]].
  - destruct (message_cases data o) as [Hn|(f & Hf & _ & Ho & _ & Hr)]; [by rewrite Hn in Hc; apply elem_of_nil in Hc|].
    rewrite Hr in Hc. simpl. rewrite Hf. split_and!; [done..|]. by eexists.
  - rewrite Hsrc. by apply (host_call_source e o).
Qed.

(** The frames of a step's calls: none, or the one received, which is fresh. *)
Lemma step_frames e o :
  frames_of (pair (source_of o e) <$> step_calls e o) = [] \/
  exists data f, e = EvMessage false data /\ read_frame (v2r o) data = Some f /\ conn o <> None /\
    (floor (vs o) (vf_viewer f) < vf_seq f)%Z /\
    frames_of (pair (source_of o e) <$> step_calls e o) = [f].
Proof.
  destruct (event_source e o) as [[data ->]|[Hne Hsrc]]; [|left; rewrite Hsrc; apply frames_of_host].
  destruct (message_cases data o) as [Hn|(f & Hf & Hs & _ & Hc & Hr)]; [by rewrite Hn; left|].
  rewrite Hr. pose proof (requested_at_most_one (frame_request f)) as Hl.
  destruct (requested_calls (frame_request f)) as [|c [|]]; [by left| |simpl in Hl; lia].
  right. exists data, f. split_and!; [done..|]. simpl. by rewrite Hf.
Qed.

Lemma frames_of_app a b : frames_of (a ++ b) = frames_of a ++ frames_of b.
Proof. apply omap_app. Qed.

(** The frames behind the calls are fresh, in order, and among those received. *)
Lemma called_frames es o :
  Forall (fun f => (floor (vs o) (vf_viewer f) < vf_seq f)%Z) (frames_of (called es o)) /\
  StronglySorted later (frames_of (called es o)) /\
  frames_of (called es o) `sublist_of` received (v2r o) es.
Proof.
  revert o. induction es as [|e es IH]; intros o; [by repeat constructor|].
  destruct (IH (state_of (step e) o)) as (H1 & H2 & H3). simpl called. rewrite frames_of_app.
  rewrite (proj2 (proj2 (step_config e o))) in H3.
  assert (Forall (fun f => (floor (vs o) (vf_viewer f) < vf_seq f)%Z) (frames_of (called es (state_of (step e) o)))) as H1'.
  { eapply Forall_impl; [exact H1|]. intros f Hf. pose proof (run_floor [e] o (vf_viewer f)) as Hle.
    rewrite run_cons_state in Hle. simpl in Hle. cbv beta in Hf. unfold state_of in *. simpl in *. lia. }
  unfold received. simpl omap.
  destruct (step_frames e o) as [-> |(data & f & -> & Hf & Hc & Hs & ->)].
  - split; [done|]. split; [done|]. simpl. etrans; [exact H3|]. unfold received.
    destruct e as [|[] data| | | | | | | | | |]; try done. destruct (read_frame (v2r o) data); [by apply sublist_cons|done].
  - split; [by constructor|]. split; [|rewrite Hf; by apply sublist_skip].
    simpl. constructor; [done|]. eapply Forall_impl; [exact H1|]. intros f' Hf' He.
    pose proof (received_frame_floor data f o Hf Hc) as Hfl. rewrite He in Hfl. cbv beta in Hf'. lia.
Qed.

Lemma called_sources es o sc :
  sc ∈ called es o ->
  match sc.1 with
  | Host => exists e, e ∈ es /\ from_host e sc.2
  | Viewer f => sc.2 ∈ requested_calls (frame_request f) /\
      exists es1 es2, es = es1 ++ es2 /\ controlOwner (vs (state_of (run es1) o)) = vf_viewer f
  end.
Proof.
  revert o. induction es as [|e es IH]; intros o; [by intros []%elem_of_nil|].
  simpl called. intros [H|H]%elem_of_app.
  - apply step_sources in H. destruct (sc.1) as [|f].
    + exists e. split; [apply list_elem_of_here|done].
    + destruct H as (H1 & H2 & _). split; [done|]. exists [], (e :: es). split; [done|]. done.
  - apply IH in H. destruct (sc.1) as [|f].
    + destruct H as (e' & He & Hc). exists e'. split; [by apply list_elem_of_further|done].
    + destruct H as (H1 & es1 & es2 & -> & H2). split; [done|]. exists (e :: es1), es2.
      split; [done|]. by rewrite run_cons_state.
Qed.

End Events.

Lemma pty_calls_deeds es : pty_calls (deeds es) = pty_calls es.
Proof.
  induction es as [|e es IH]; [done|]. unfold deeds in *. rewrite filter_cons.
  case_decide as Hn; [simpl; by rewrite IH|]. rewrite IH. by destruct e; try done; destruct Hn.
Qed.

Section Runs.
Context `{E : Env}.

Lemma omap_filter {A B} (f : A -> option B) (Q : A -> Prop) `{forall x, Decision (Q x)} (l : list A) :
  (forall x, ~ Q x -> f x = None) -> omap f (filter Q l) = omap f l.
Proof.
  intros Hf. induction l as [|x l IH]; [done|]. rewrite filter_cons.
  assert (forall k, omap f (x :: k) = match f x with Some y => y :: omap f k | None => omap f k end) as Hc
    by done.
  case_decide as Hx; rewrite !Hc, IH; [done|]. by rewrite Hf.
Qed.

(** Only the events a goroutine handled count. *)
Lemma received_plain c es : received c (filter plain_event es) = received c es.
Proof.
  apply omap_filter. intros e Hp. by destruct e; try done; destruct Hp.
Qed.

Lemma handled_label e ls : e ∈ handled_events ls -> REvent e ∈ ls.
Proof. unfold handled_events. rewrite list_elem_of_omap. intros (l & Hl & He). destruct l; try done. by simplify_eq. Qed.

Lemma received_elem c es f :
  f ∈ received c es -> exists data, EvMessage false data ∈ es /\ read_frame c data = Some f.
Proof.
  unfold received. rewrite list_elem_of_omap. intros (e & He & Hf).
  destruct e as [|[] data| | | | | | | | | |]; try done. by exists data.
Qed.

Lemma New_cfg c s o : Orch.New c s = Ok o -> cfg o = c.
Proof.
  unfold Orch.New. destruct (NewCipher (R2V _) _) as [c1|]; [|done]. simpl.
  destruct (NewCipher (V2R _) _) as [c2|]; [|done]. simpl. by intros <-%(inj Ok).
Qed.

(** Under a view-only policy nobody is ever in control. *)
Lemma view_only_unowned c s o es :
  Orch.New c s = Ok o -> size_known s -> sess_state s = None -> Config_Control c = ControlViewOnly ->
  controlOwner (vs (state_of (run es) o)) = [].
Proof.
  intros HN Hk H0 Hm. pose proof (Invariant.run_inv es o (New_inv c s o HN Hk H0)) as Hi.
  apply (wf_view_only _ _ (inv_viewers _ (inv_host _ Hi))).
  unfold mode_of. rewrite (proj1 (run_config es o)). by rewrite (New_cfg c s o HN).
Qed.

End Runs.

(** ** Properties *)

(** C2. Every call on the pty of a session has a source.  Over any execution of
    Run, against any relay and viewers: each call made on the pty is a key or a
    resize of the host's own terminal, or the teardown; or it is the one call
    that a frame asks for - never under a view-only policy - and these frames
    were all sealed under the session's viewer key and received in this order,
    each of them acts at most once, and the numbers of one viewer's rise. *)
Theorem session_calls_have_a_source `{E : Env} lc c s o ls r :
  Orch.New c s = Ok o -> size_known s -> sess_state s = None -> rsteps lc (start o) ls r ->
  exists calls : list (source * pty_call),
    calls.*2 = pty_calls (r_effects r) /\
    Forall (fun sc =>
      match sc.1 with
      | Host => (exists e, REvent e ∈ ls /\ from_host e sc.2) \/ from_host EvShutdown sc.2
      | Viewer f => Config_Control c <> ControlViewOnly /\ sc.2 ∈ requested_calls (frame_request f)
      end) calls /\
    frames_of calls `sublist_of` received (v2r o) (handled_events ls) /\
    StronglySorted later (frames_of calls) /\
    (forall f, f ∈ frames_of calls -> exists nonce, length nonce = nonceLen /\ frame_ok f /\
       REvent (EvMessage false (frame_bytes (v2r o) nonce f)) ∈ ls).
Proof.
  intros HN Hk H0 Hs. destruct (rsteps_inv _ _ _ _ _ _ _ (run_inv_start o) Hs) as [es Hi].
  destruct (ri_amounts _ _ _ _ Hi) as [_ Hd]. pose proof (ri_plain _ _ _ _ Hi) as Hp.
  destruct (called_frames es o) as (_ & Hsort & Hsub).
  rewrite <- (received_plain (v2r o) es), Hp in Hsub.
  exists (called es o). split; [by rewrite called_calls, <- pty_calls_deeds, <- Hd, pty_calls_deeds|].
  assert (forall f, f ∈ frames_of (called es o) -> exists nonce, length nonce = nonceLen /\ frame_ok f /\
    REvent (EvMessage false (frame_bytes (v2r o) nonce f)) ∈ ls) as Hfs.
  { intros f Hf. pose proof (elem_of_sublist _ _ _ Hf Hsub) as Hf'.
    apply received_elem in Hf' as (data & Hin & Hr).
    apply read_frame_exactly in Hr as (Hok & nonce & Hn & ->). exists nonce. split_and!; [done..|].
    by apply handled_label. }
  split_and!; [|done..]. apply Forall_forall. intros sc Hsc. pose proof (called_sources es o sc Hsc) as H.
  destruct sc as [[|f] call]; simpl in *.
  - destruct H as (e & He & Hc). destruct (plain_event e) eqn:Hpe.
    + left. exists e. split; [|done]. apply handled_label. rewrite <- Hp. apply list_elem_of_filter. by rewrite Hpe.
    + right. by destruct e.
  - destruct H as (Hr & es1 & es2 & _ & Ho). split; [|done]. intros Hm.
    rewrite (view_only_unowned c s o es1) in Ho by done.
    destruct (Hfs f) as (_ & _ & (_ & Hv & _) & _).
    { apply list_elem_of_omap. by exists (Viewer f, call). }
    by apply valid_id_nonempty in Hv.
Qed.

(** A session: the relay is dialed, a phone takes control and types. *)
Definition demo_session_labels : list rlabel :=
  [ROwn; ROwn; REvent (demo_msg (str "r1") (str "phone") 1 KindCtrlReq []);
   REvent (demo_msg (str "r1") (str "phone") 2 KindInput (str "ls")); REvent (EvInput (str "x"))].

Definition demo_accepted : attempt := mkAttempt false HandshakeOk 0 HttpError false false.

Lemma demo_session_run :
  exists r, rsteps demo_loop (start (demo ControlAuto)) demo_session_labels r /\
    pty_calls (r_effects r) = [PtyWrite (str "ls"); PtyWrite (str "x")].
Proof.
  eexists. split.
  - eapply rsteps_cons; [by eapply LoopDial|].
    eapply rsteps_cons; [eapply (LoopConnected _ _ _ demo_accepted); [done|done| |vm_compute; reflexivity|done]; by split; [|intros [?|?]]|].
    eapply rsteps_cons; [by apply Handled|]. eapply rsteps_cons; [by apply Handled|].
    eapply rsteps_cons; [by apply Handled|]. apply rsteps_nil.
  - vm_compute. reflexivity.
Defined.

Lemma session_calls_have_a_source_witness :
  exists calls : list (source * pty_call), calls.*2 = [PtyWrite (str "ls"); PtyWrite (str "x")] /\
    StronglySorted later (frames_of calls).
Proof.
  destruct demo_session_run as (r & Hs & Hc).
  destruct (session_calls_have_a_source demo_loop (demo_cfg ControlAuto) demo_session (demo ControlAuto)
    demo_session_labels r (New_demo ControlAuto)) as (calls & H1 & _ & _ & H2 & _);
    [by right|done|done|]. exists calls. by rewrite H1, Hc.
Defined.
