(* ===== verification/Qr.v ===== *)
(** * Qr: the link as half-block art

    Models runner/cmd/onlytty/qr.go.  The QR encoder (rsc.io/qr) is a
    parameter: a size and the test of a module.  The specification is the grid
    of pixels a reader of the art sees: two pixels per character, white where
    the glyph is drawn. *)
From S2P Require Import Prelude.
From Stdlib Require Import Strings.Byte.

(** ** The code *)

Definition qrQuietZone : nat := 4.

(** strings.Repeat *)
Definition Repeat (s : bytes) (n : nat) : bytes := concat (replicate n s).

Definition Fprintln (s : bytes) : bytes := s ++ [x0a].

Definition blackBlack : bytes := str " ".
Definition blackWhite : bytes := str "▄".
Definition whiteBlack : bytes := str "▀".
Definition whiteWhite : bytes := str "█".

(** rsc.io/qr's Code: Size, and Black(x, y). *)
Record Code := mkCode { Size : nat; Black : nat -> nat -> bool }.

(** The character for two modules, top and bottom black or not. *)
Definition half_block (top bottom : bool) : bytes :=
  match top, bottom with
  | true, true => blackBlack
  | true, false => blackWhite
  | false, true => whiteBlack
  | false, false => whiteWhite
  end.

(** The line of module rows y and y+1. *)
Definition module_line (code : Code) (y : nat) : bytes :=
  Repeat whiteWhite qrQuietZone
  ++ concat ((fun x =>
       let top := Black code x y in
       let bottom := if decide (y + 1 < Size code) then Black code x (y + 1) else false in
       half_block top bottom) <$> seq 0 (Size code + 1))
  ++ Fprintln (Repeat whiteWhite (qrQuietZone - 1)).

(** The quiet zone's lines; it is even, so the branches for an odd one are
    not taken. *)
Definition writeQRHalfBlockCode (code : Code) : bytes :=
  let wide s := Fprintln (Repeat s (Size code + qrQuietZone * 2)) in
  (if decide (qrQuietZone mod 2 <> 0) then wide blackWhite else [])
  ++ Repeat (wide whiteWhite) (qrQuietZone / 2)
  ++ concat ((fun i => module_line code (2 * i)) <$> seq 0 (Size code / 2 + 1))
  ++ (if decide (qrQuietZone mod 2 = 0) then
        Repeat (wide whiteWhite) (qrQuietZone / 2 - 1) ++ wide whiteBlack
      else Repeat (wide whiteWhite) (qrQuietZone / 2)).

(** qr.Encode's code, or nothing when it fails. *)
Definition writeQRHalfBlock (encoded : option Code) : bytes :=
  match encoded with Some code => writeQRHalfBlockCode code | None => [] end.

(** ** The specification: pixels *)

(** Whether pixel (X, Y) is white: inside the square of the code and its quiet
    zone of four, everything but the code's black modules. *)
Definition white (code : Code) (X Y : nat) : bool :=
  bool_decide (Y < Size code + 8) &&
  negb (bool_decide (4 <= X < Size code + 4 /\ 4 <= Y < Size code + 4)
        && Black code (X - 4) (Y - 4)).

(** The text of a grid of pixels, [rows] characters high and [cols] wide. *)
Definition draw_row (cols : nat) (pixel : nat -> nat -> bool) (r : nat) : bytes :=
  concat ((fun X => half_block (negb (pixel X (2 * r))) (negb (pixel X (2 * r + 1))))
            <$> seq 0 cols) ++ [x0a].

Definition draw (rows cols : nat) (pixel : nat -> nat -> bool) : bytes :=
  concat (draw_row cols pixel <$> seq 0 rows).

(** ** Lemmas *)

Lemma Repeat_seq s n m : Repeat s n = concat ((fun _ => s) <$> seq m n).
Proof.
  unfold Repeat. revert m. induction n as [|n IH]; intros m; [done|].
  simpl. by rewrite (IH (S m)).
Qed.

Lemma concat_fmap_app {A B} (f : A -> list B) l k :
  concat (f <$> l ++ k) = concat (f <$> l) ++ concat (f <$> k).
Proof. by rewrite fmap_app, concat_app. Qed.

Lemma fmap_seq_shift {A} (f : nat -> A) i n : f <$> seq i n = (fun x => f (i + x)) <$> seq 0 n.
Proof.
  apply list_eq. intros j. rewrite !list_lookup_fmap.
  destruct (decide (j < n)).
  - by rewrite !lookup_seq_lt by done.
  - by rewrite !lookup_seq_ge by lia.
Qed.

(** Two rows of characters that agree on every cell. *)
Lemma concat_fmap_ext {A} (f g : nat -> list A) i n :
  (forall x, i <= x < i + n -> f x = g x) -> concat (f <$> seq i n) = concat (g <$> seq i n).
Proof.
  intros H. f_equal. apply list_fmap_ext. intros j x Hx. apply H.
  apply lookup_seq in Hx. lia.
Qed.

Section Pixels.
Context (code : Code).

Lemma white_row_line r :
  (forall X, X < Size code + 8 -> white code X (2 * r) = true /\ white code X (2 * r + 1) = true) ->
  draw_row (Size code + 8) (white code) r
  = Fprintln (Repeat whiteWhite (Size code + qrQuietZone * 2)).
Proof.
  intros H. unfold draw_row, Fprintln. f_equal. rewrite (Repeat_seq _ _ 0).
  apply concat_fmap_ext. intros X HX. unfold qrQuietZone in HX. destruct (H X ltac:(lia)) as [-> ->]. done.
Qed.

Lemma white_outside X Y :
  Y < Size code + 8 -> ~ (4 <= X < Size code + 4 /\ 4 <= Y < Size code + 4) ->
  white code X Y = true.
Proof.
  intros HY H. unfold white. rewrite bool_decide_true by done. by rewrite bool_decide_false.
Qed.

Lemma white_module X Y :
  4 <= X < Size code + 4 -> 4 <= Y < Size code + 4 ->
  white code X Y = negb (Black code (X - 4) (Y - 4)).
Proof. intros HX HY. unfold white. by rewrite !bool_decide_true by lia. Qed.

Lemma module_line_pixels i :
  (forall x y, Size code <= x \/ Size code <= y -> Black code x y = false) ->
  2 * i < Size code ->
  module_line code (2 * i) = draw_row (Size code + 8) (white code) (i + 2).
Proof.
  intros Hout Hi. unfold module_line, draw_row, Fprintln, qrQuietZone.
  replace (Size code + 8) with (4 + (Size code + 1 + 3)) by lia.
  rewrite (seq_app 4), (seq_app (Size code + 1) 3), !concat_fmap_app, <- !(assoc_L (++)).
  f_equal; [|f_equal; [|f_equal]].
  - rewrite (Repeat_seq _ _ 0). apply concat_fmap_ext. intros X HX.
    by rewrite !white_outside by lia.
  - rewrite (fmap_seq_shift _ (0 + 4)). apply concat_fmap_ext. intros x Hx.
    assert (forall y, y <= Size code ->
      negb (white code (0 + 4 + x) (4 + y)) = if decide (y < Size code) then Black code x y else false)
      as Hw.
    { intros y Hy. case_decide.
      - destruct (decide (x < Size code)) as [Hx'|Hx'].
        + rewrite white_module by lia. rewrite negb_involutive. f_equal; lia.
        + rewrite white_outside, Hout by lia. done.
      - by rewrite white_outside by lia. }
    replace (2 * (i + 2)) with (4 + 2 * i) by lia.
    replace (4 + 2 * i + 1) with (4 + (2 * i + 1)) by lia.
    rewrite !Hw by lia. by rewrite (decide_True (P := 2 * i < Size code)) by lia.
  - rewrite (Repeat_seq _ _ (0 + 4 + (Size code + 1))). apply concat_fmap_ext. intros X HX.
    by rewrite !white_outside by lia.
Qed.

End Pixels.

(** ** Properties *)

(** The art is the code: for a code of odd size whose modules outside it are
    not black, what is printed is exactly the drawing of the grid of pixels that
    has the code's modules in the middle and a quiet zone of four white pixels
    on every side, with nothing drawn below it. *)
Theorem qr_art_is_the_code code :
  Nat.Odd (Size code) ->
  (forall x y, Size code <= x \/ Size code <= y -> Black code x y = false) ->
  writeQRHalfBlockCode code
  = draw ((Size code + 9) / 2) (Size code + 8) (white code).
Proof.
  intros [m Hm] Hout. unfold writeQRHalfBlockCode, draw.
  assert (Size code / 2 = m) as -> by (symmetry; apply (Nat.div_unique _ 2 m 1); lia).
  assert ((Size code + 9) / 2 = 2 + (m + 1 + (1 + 1))) as ->
    by (symmetry; apply (Nat.div_unique _ 2 _ 0); lia).
  change (qrQuietZone mod 2) with 0. rewrite decide_False, decide_True by lia. rewrite app_nil_l.
  rewrite (seq_app 2), (seq_app (m + 1)), (seq_app 1 1 (0 + 2 + (m + 1))), !concat_fmap_app.
  f_equal; [|f_equal; [|f_equal]].
  - change (qrQuietZone / 2) with 2. rewrite (Repeat_seq _ 2 0). apply concat_fmap_ext. intros r Hr.
    rewrite white_row_line; [done|]. intros X HX. by rewrite !white_outside by lia.
  - rewrite (fmap_seq_shift _ (0 + 2)). apply concat_fmap_ext. intros i Hi.
    rewrite module_line_pixels by (done || lia). f_equal. lia.
  - change (qrQuietZone / 2 - 1) with 1. rewrite (Repeat_seq _ 1 (0 + 2 + (m + 1))).
    apply concat_fmap_ext. intros r Hr. rewrite white_row_line; [done|].
    intros X HX. by rewrite !white_outside by lia.
  - symmetry. etrans; [apply (app_nil_r (draw_row _ _ (0 + 2 + (m + 1) + 1)))|].
    unfold draw_row, Fprintln. f_equal. unfold qrQuietZone.
    rewrite (Repeat_seq _ _ 0). apply concat_fmap_ext. intros X HX.
    rewrite white_outside by lia. unfold white. by rewrite bool_decide_false by lia.
Qed.

(** A code of one black module. *)
Definition demo_code : Code := mkCode 1 (fun x y => bool_decide (x = 0 /\ y = 0)).

Lemma qr_art_is_the_code_witness :
  writeQRHalfBlockCode demo_code = draw 5 9 (white demo_code).
Proof.
  apply (qr_art_is_the_code demo_code).
  - by exists 0.
  - intros x y H. apply bool_decide_eq_false. simpl in H. lia.
Defined.
