(* ===== verification/Cli.v ===== *)
(** * Cli: the onlytty command

    Models runner/cmd/onlytty/main.go: the flags' values, the helpers and texts,
    and [run] from the first check to the exit code.  What the program does to
    the world is a list of [cli_action]s; what the world answers is [World].
    Terminal probes (golang.org/x/term, creack/pty), the environment, random
    bytes, the HTTP round trip and the session's run are inputs. *)
From S2P Require Import Prelude Utf8 Encodings Json GoTime GoFlag Crypto Session Control.
From S2P Require Import Ring Screen Orch Sender Handlers RelayClient Qr.
From S2P Require Import StdCrypto.
From Stdlib Require Import Strings.Byte.

(** ** Values from flags and the environment *)

Definition defaultPublicRelay : bytes := str "https://onlytty.com".

(** [v] is os.Getenv(key). *)
Definition envOr (v fallback : bytes) : bytes := if decide (v <> []) then v else fallback.

(** [version] is the linker's; [buildInfo] is the main module's version. *)
Definition resolveVersion (version : bytes) (buildInfo : option bytes) : bytes :=
  if decide (version <> str "dev") then version
  else match buildInfo with
       | Some v => if decide (v <> []) then v else version
       | None => version
       end.

Definition resolveControl (controlFlag : bytes) : option ControlMode :=
  if decide (controlFlag = str "auto") then Some ControlAuto
  else if decide (controlFlag = str "view-only") then Some ControlViewOnly
  else if decide (controlFlag = str "once") then Some ControlOnce
  else None.

(** [shell] is os.Getenv("SHELL"). *)
Definition resolveCommand (shell : bytes) (args : list bytes) : list bytes :=
  match args with
  | _ :: _ => args
  | [] => [if decide (shell = []) then str "/bin/sh" else shell]
  end.

(** ** Random texts *)

(** formatFingerprint: a dash before every rune at a byte offset divisible by
    four, the first apart; [i] is the offset. *)
Definition fingerprint_rune (ir : nat * Z) : bytes :=
  (if decide (0 < ir.1 /\ ir.1 mod 4 = 0) then [x2d] else []) ++ EncodeRune ir.2.

Definition formatFingerprint (fp : bytes) : bytes := concat (fingerprint_rune <$> string_runes fp).

(** [rnd] is what rand.Read gave. *)
Definition generatePassphrase (rnd : option bytes) : option bytes :=
  b ← rnd; Some (formatFingerprint (base32_nopad b)).

Definition randToken (rnd : option bytes) : option bytes := b ← rnd; Some (base64_rawurl b).

(** ** Styles and notices; [tty] is whether stderr is a terminal *)

Definition styled (tty : bool) (code s : bytes) : bytes :=
  if tty then [x1b] ++ str "[" ++ code ++ str "m" ++ s ++ [x1b] ++ str "[0m" else s.
Definition bold (tty : bool) (s : bytes) : bytes := styled tty (str "1") s.
Definition dim (tty : bool) (s : bytes) : bytes := styled tty (str "2") s.

Definition crlf : bytes := [x0d; x0a].

(** The notifier: what it writes to stderr for a notice. *)
Definition notifier (tty verbose : bool) (s : bytes) (screenBusy : bool) : bytes :=
  if negb tty then s ++ [x0a]
  else if verbose || negb screenBusy then
    [x0d; x1b] ++ str "[2K" ++ [x1b] ++ str "[2m" ++ s ++ [x1b] ++ str "[0m" ++ crlf
  else [].

Definition remaining (expiresAt now : Z) : Z := Round_second (Sub (Unix expiresAt) now).

Definition expiryLine (expiresAt now : Z) : bytes :=
  if decide (expiresAt <= 0)%Z then str "never — ends when the command exits"
  else str "in " ++ duration_String (remaining expiresAt now).

Definition controlDesc (control : ControlMode) : bytes :=
  match control with
  | ControlAuto => str "any viewer may take control on request (auto-granted; SIGUSR1 to revoke)"
  | ControlViewOnly => str "view-only (viewers cannot type or resize)"
  | ControlOnce => str "the first viewer to ask is auto-granted control, once"
  end.

(** [qr] is the QR encoder's answer for the link. *)
Definition printBanner (tty : bool) (link fingerprint expiry : bytes) (control : ControlMode)
    (multiViewer : bool) (passphrase : bytes) (generated noQR : bool) (qr : option Code) : bytes :=
  let nl := [x0a] in
  nl ++ str "  " ++ bold tty (str "onlytty — this session is shared, end-to-end encrypted") ++ nl ++ nl
  ++ (if noQR then [] else writeQRHalfBlock qr ++ nl)
  ++ str "  Link         " ++ link ++ nl
  ++ str "  Fingerprint  " ++ fingerprint ++ str "  " ++ dim tty (str "(must match in the browser)") ++ nl
  ++ str "  Expires      " ++ expiry ++ nl
  ++ (if multiViewer then str "  Viewers      multiple allowed; one controls at a time" ++ nl else [])
  ++ str "  Control      " ++ controlDesc control ++ nl
  ++ (if generated then
        nl ++ str "  " ++ bold tty (str "Passphrase — send in a DIFFERENT channel than the link:") ++ nl
        ++ str "  " ++ bold tty passphrase ++ nl
      else if decide (passphrase <> []) then
        str "  Passphrase   "
        ++ dim tty (str "required in the browser (the link alone won't decrypt)") ++ nl
      else [])
  ++ nl ++ str "  "
  ++ dim tty (str "Scan the QR or open the link. The relay only ever sees ciphertext.") ++ nl ++ nl.

(** ** The host's terminal *)

Inductive host_file := Stdin | DevTty.

(** [devtty] is whether /dev/tty opens. *)
Definition hostInput (stdin_tty stderr_tty devtty : bool) : host_file :=
  if stdin_tty || negb stderr_tty then Stdin
  else if devtty then DevTty else Stdin.

Definition gateLaunch (shellMode stderr_tty in_tty : bool) : bool :=
  negb shellMode && stderr_tty && in_tty.

(** strings.Join(argv, " ") *)
Fixpoint join (sep : bytes) (l : list bytes) : bytes :=
  match l with
  | [] => []
  | [s] => s
  | s :: l => s ++ sep ++ join sep l
  end.

Definition startPrompt (argv : list bytes) : bytes :=
  str "Press Enter to start: " ++ join (str " ") argv.

(** waitForStart's loop: how many reads it makes of those the host's input
    would give (the bytes of each, and whether it failed); [None] while it is
    still waiting after them. *)
Fixpoint wait_reads (reads : list (bytes * bool)) : option nat :=
  match reads with
  | [] => None
  | (p, failed) :: reads =>
    if decide (failed = true \/ x0d ∈ p \/ x0a ∈ p) then Some 1
    else option_map S (wait_reads reads)
  end.

Definition sessionInstruction (shellMode : bool) : bytes :=
  if shellMode
  then str "You are now inside a shared shell. Press Ctrl-D or type exit to stop sharing."
  else str "Use the command normally here; when it exits, sharing stops.".

Definition sessionActiveText (argv : list bytes) (shellMode : bool) : bytes :=
  if shellMode then str "onlytty: sharing is ACTIVE — this shell is now shared"
  else if decide (argv = []) then str "onlytty: sharing is ACTIVE"
  else str "onlytty: sharing is ACTIVE — running: " ++ join (str " ") argv.

Definition sessionStoppedText (code : Z) : bytes :=
  str "OnlyTTY sharing stopped. Browser viewers are disconnected. Exit code: " ++ itoa code ++ str ".".

Definition printStartNotice (tty : bool) (argv : list bytes) (shellMode : bool) : bytes :=
  crlf ++ bold tty (sessionActiveText argv shellMode) ++ crlf
  ++ dim tty (sessionInstruction shellMode) ++ crlf ++ crlf.

(** ** run *)

Record Flags := mkFlags {
  f_server : bytes;
  f_control : bytes;
  f_multiViewer : bool;
  f_ttl : Z;
  f_passphrase : bool;
  f_genPass : bool;
  f_noQR : bool;
  f_allowInsecure : bool;
  f_verbose : bool;
  f_showVer : bool;
  f_args : list bytes
}.

Inductive prompt_result := NotATerminal | ReadFailed | ReadOk (p : bytes).

Record World := mkWorld {
  w_version : bytes;
  w_buildInfo : option bytes;
  w_shell : bytes;
  w_stdin_tty : bool;
  w_stderr_tty : bool;
  w_devtty : bool;
  w_devtty_tty : bool;                 (* whether /dev/tty is a terminal *)
  w_prompt : prompt_result;            (* reading the passphrase *)
  w_rand_pass : option bytes;          (* the four reads of crypto/rand *)
  w_rand_id : option bytes;
  w_rand_tok : option bytes;
  w_rand_secret : option bytes;
  w_http : http_result;
  w_now : Z;
  w_qr : bytes -> option Code;
  w_started : bool;                    (* whether the command starts *)
  w_size : option (Z * Z);             (* pty.GetsizeFull *)
  w_raw : bool;                        (* whether term.MakeRaw succeeds *)
  w_run : Orchestrator -> Z            (* what orch.Run returns *)
}.

(** Whether the host's input is a terminal. *)
Definition in_tty (w : World) : bool :=
  match hostInput (w_stdin_tty w) (w_stderr_tty w) (w_devtty w) with
  | Stdin => w_stdin_tty w
  | DevTty => w_devtty_tty w
  end.

Inductive run_error :=
| RunControl (flag : bytes)
| RunUrl (e : url_error)
| RunRand
| RunNoTerminal | RunReadPass | RunEmptyPass
| RunCreate (e : create_error)
| RunCrypto (e : crypto_error).

Inductive cli_action :=
| Stdout (s : bytes)
| Stderr (s : bytes)
| StderrError (e : run_error)          (* onlytty: and the error *)
| StderrStartError                     (* failed to start command *)
| StderrFlagError (e : flag_error)     (* what the flag package prints of a bad argument *)
| Register (body : bytes)              (* the create request sent *)
| WaitForStart (prompt : bytes)        (* shown, then the launch held *)
| StartCommand (argv : list bytes)
| PtyCalls (cs : list pty_call)
| MakeRaw | RestoreRaw
| RunSession (o : Orchestrator).

(** Computations that act, and go on with a value or end with an exit code. *)
Definition R (A : Type) : Type := list cli_action * (A + Z).

#[export] Instance R_ret : MRet R := fun _ a => ([], inl a).
#[export] Instance R_bind : MBind R := fun _ _ f m =>
  match m.2 with
  | inl a => let r := f a in (m.1 ++ r.1, r.2)
  | inr code => (m.1, inr code)
  end.

Definition act (a : cli_action) : R unit := ([a], inl tt).
Definition exit {A} (code : Z) : R A := ([], inr code).
Definition fail {A} (e : run_error) : R A := act (StderrError e) ;; exit 1.

(** A step that can fail. *)
Definition or_fail {A} (e : run_error) (o : option A) : R A :=
  match o with Some a => mret a | None => fail e end.

Definition println (s : bytes) : cli_action := Stderr (s ++ [x0a]).

(** The deferred term.Restore, on every way out of the rest of run. *)
Definition deferred (raw : bool) (m : R Z) : R Z :=
  if raw then (m.1 ++ [RestoreRaw], m.2) else m.

Definition promptPassphrase (r : prompt_result) : R bytes :=
  match r with
  | NotATerminal => fail RunNoTerminal
  | ReadFailed =>
    act (Stderr (str "Passphrase (shared out-of-band): ")) ;; act (println []) ;; fail RunReadPass
  | ReadOk p =>
    act (Stderr (str "Passphrase (shared out-of-band): ")) ;; act (println []) ;;
    if decide (p = []) then fail RunEmptyPass else mret p
  end.

Definition waitForStart (tty : bool) (argv : list bytes) : R unit :=
  act (WaitForStart (str "  " ++ bold tty (startPrompt argv) ++ str " "
        ++ dim tty (str "(the QR stays visible until you do)"))) ;;
  act (println []).

Section Code.
Context `{P : Primitives} `{UP : UrlPackage}.

(** From the raw mode to the end: the session itself. *)
Definition run_session (f : Flags) (w : World) (argv : list bytes) (shellMode : bool)
    (control : ControlMode) (keys : Keys) (id tok : bytes) (info : SessionInfo) (psess : Session)
    : R Z :=
  let raw := in_tty w && w_raw w in
  (if raw then act MakeRaw else mret tt) ;;
  deferred raw
    (match Orch.New (mkConfig keys id tok (f_ttl f) (f_multiViewer f) (ExpiresAt info) control
                       true true true (formatFingerprint (Fingerprint keys))) psess with
     | Err e => fail (RunCrypto e)
     | Ok orch =>
       act (Stderr (printStartNotice (w_stderr_tty w) argv shellMode)) ;;
       act (RunSession orch) ;;
       let code := w_run w orch in
       act (Stderr (crlf ++ bold (w_stderr_tty w) (sessionStoppedText code) ++ crlf)) ;;
       mret code
     end).

(** From the registration to the start of the command. *)
Definition run_start (f : Flags) (w : World) (argv : list bytes) (shellMode : bool)
    (control : ControlMode) (client : Client) (passphrase id tok : bytes) : R Z :=
  let '(body, r) := CreateSessionWithOptions client id tok (f_ttl f) (f_multiViewer f) (w_http w) in
  act (Register body) ;;
  info ← (match r with Ok info => mret info | Err e => fail (RunCreate e) end);
  secret ← or_fail RunRand (w_rand_secret w);
  keys ← (match DeriveKeys secret id passphrase with Ok k => mret k | Err e => fail (RunCrypto e) end);
  let link := ViewerURL client id (base64_rawurl secret) (bool_decide (passphrase <> [])) in
  act (Stderr (printBanner (w_stderr_tty w) link (formatFingerprint (Fingerprint keys))
                 (expiryLine (ExpiresAt info) (w_now w)) control (f_multiViewer f) passphrase
                 (f_genPass f) (f_noQR f) (w_qr w link))) ;;
  (if gateLaunch shellMode (w_stderr_tty w) (in_tty w)
   then waitForStart (w_stderr_tty w) argv else mret tt) ;;
  act (StartCommand argv) ;;
  match Start argv (w_started w) with
  | Err _ => act StderrStartError ;; exit 1
  | Ok psess =>
    let '(cols, rows) := match w_size w with Some s => s | None => (80, 24)%Z end in
    let '(psess, cs) := SetSize psess cols rows in
    act (PtyCalls cs) ;;
    run_session f w argv shellMode control keys id tok info psess
  end.

Definition run (f : Flags) (w : World) : R Z :=
  if f_showVer f then
    act (Stdout (str "onlytty " ++ resolveVersion (w_version w) (w_buildInfo w) ++ [x0a])) ;; mret 0%Z
  else if decide (f_server f = []) then
    act (println (str "onlytty: --server is empty (unset it to use the default "
                  ++ defaultPublicRelay ++ str ")")) ;; exit 2
  else if decide (f_ttl f < 0)%Z then
    act (println (str "onlytty: --ttl cannot be negative (0 = no expiry)")) ;; exit 2
  else
    match resolveControl (f_control f) with
    | None => act (StderrError (RunControl (f_control f))) ;; exit 2
    | Some control =>
      let shellMode := bool_decide (f_args f = []) in
      let argv := resolveCommand (w_shell w) (f_args f) in
      match RelayClient.New (f_server f) (f_allowInsecure f) with
      | Err e => fail (RunUrl e)
      | Ok client =>
        passphrase ← (if f_genPass f then or_fail RunRand (generatePassphrase (w_rand_pass w))
                      else if f_passphrase f then promptPassphrase (w_prompt w)
                      else mret []);
        id ← or_fail RunRand (randToken (w_rand_id w));
        tok ← or_fail RunRand (randToken (w_rand_tok w));
        run_start f w argv shellMode control client passphrase id tok
      end
    end.

(** The exit code. *)
Definition exit_code (r : R Z) : Z := match r.2 with inl code => code | inr code => code end.

End Code.

(** ** Signals while the session runs *)

Section Signals.
Context `{P : Primitives} `{E : Env}.

(** SIGWINCH: the host's new size, when it can be read. *)
Definition watchResize_signal (size : option (Z * Z)) : M unit :=
  match size with Some (cols, rows) => Resize cols rows | None => skip end.

(** SIGUSR1. *)
Definition watchRevoke_signal : M unit := Revoke.

End Signals.

(** ** How a run goes *)

#[export] Instance cli_raw_dec a : Decision (a = MakeRaw \/ a = RestoreRaw).
Proof. destruct a; first [by left; auto | by right; intros [?|?]]. Defined.

(** What touches the terminal's mode. *)
Definition terminal (acts : list cli_action) : list cli_action :=
  filter (fun a => a = MakeRaw \/ a = RestoreRaw) acts.

(** Actions that only print, or talk to the host before the launch. *)
Definition prints (a : cli_action) : Prop :=
  match a with Stdout _ | Stderr _ | StderrError _ | WaitForStart _ | StderrStartError
  | StderrFlagError _ => True | _ => False end.

#[export] Instance prints_dec a : Decision (prints a).
Proof. destruct a; apply _. Defined.

Section Facts.
Context `{P : Primitives} `{UP : UrlPackage}.

Lemma R_bind_inl {A B} (m : R A) (f : A -> R B) acts a :
  m = (acts, inl a) -> (m ≫= f) = (acts ++ (f a).1, (f a).2).
Proof. by intros ->. Qed.

Lemma R_bind_inr {A B} (m : R A) (f : A -> R B) acts code :
  m = (acts, inr code) -> (m ≫= f) = (acts, inr code).
Proof. by intros ->. Qed.

Lemma promptPassphrase_prints r :
  Forall prints (promptPassphrase r).1 /\
  match (promptPassphrase r).2 with inl p => p <> [] | inr code => code = 1%Z end.
Proof.
  destruct r as [| |p]; simpl; try by (split; [repeat constructor|]).
  unfold act, mbind, R_bind. simpl. by case_decide; (split; [repeat constructor|]).
Qed.

(** The passphrase of a run. *)
Definition obtain_passphrase (f : Flags) (w : World) : R bytes :=
  if f_genPass f then or_fail RunRand (generatePassphrase (w_rand_pass w))
  else if f_passphrase f then promptPassphrase (w_prompt w)
  else mret [].

Lemma obtain_passphrase_prints f w :
  Forall prints (obtain_passphrase f w).1 /\
  match (obtain_passphrase f w).2 with inl _ => True | inr code => code = 1%Z end.
Proof.
  unfold obtain_passphrase. destruct (f_genPass f).
  - unfold or_fail. destruct (generatePassphrase _); by (split; [repeat constructor|]).
  - destruct (f_passphrase f); [|done]. destruct (promptPassphrase_prints (w_prompt w)) as [H1 H2].
    split; [done|]. by destruct (promptPassphrase _).2.
Qed.

(** A run's early checks: it stops with a message and 0, 1 or 2, or it reaches
    the registration having only printed. *)
Definition usage_ok (f : Flags) : Prop :=
  f_server f <> [] /\ (0 <= f_ttl f)%Z /\ is_Some (resolveControl (f_control f)).

#[export] Instance usage_ok_dec f : Decision (usage_ok f).
Proof. unfold usage_ok. apply _. Defined.

(** What is registered, and when. *)
Definition registered (acts : list cli_action) : list bytes :=
  omap (fun a => match a with Register body => Some body | _ => None end) acts.

Definition registration (f : Flags) (w : World) : option bytes :=
  if decide (f_showVer f = false /\ usage_ok f /\
             is_ok (RelayClient.New (f_server f) (f_allowInsecure f)) = true) then
    match (obtain_passphrase f w).2 with
    | inl _ =>
      id ← randToken (w_rand_id w); tok ← randToken (w_rand_tok w);
      Some (create_body id tok (f_ttl f) (f_multiViewer f))
    | inr _ => None
    end
  else None.

(** A flag in error: no registration, and the code is 2. *)
Lemma usage_error f w :
  ~ usage_ok f ->
  (if decide (usage_ok f) then 1%Z else 2%Z) = 2%Z /\ registration f w = None.
Proof.
  intros H. split; [by rewrite decide_False|].
  unfold registration. by rewrite decide_False by naive_solver.
Qed.

Lemma run_early f w :
  (exists acts code, run f w = (acts, code) /\ Forall prints acts /\
     exit_code (run f w) = (if f_showVer f then 0%Z else if decide (usage_ok f) then 1%Z else 2%Z) /\
     registration f w = None) \/
  (f_showVer f = false /\ usage_ok f /\
   exists control client passphrase id tok acts,
     resolveControl (f_control f) = Some control /\
     RelayClient.New (f_server f) (f_allowInsecure f) = Ok client /\
     (obtain_passphrase f w).2 = inl passphrase /\
     randToken (w_rand_id w) = Some id /\ randToken (w_rand_tok w) = Some tok /\
     Forall prints acts /\
     registration f w = Some (create_body id tok (f_ttl f) (f_multiViewer f)) /\
     let r := run_start f w (resolveCommand (w_shell w) (f_args f)) (bool_decide (f_args f = []))
                control client passphrase id tok in
     run f w = (acts ++ r.1, r.2)).
Proof.
  unfold run. destruct (f_showVer f) eqn:Hv.
  { left. do 2 eexists. split; [reflexivity|]. split; [repeat constructor|]. split; [done|].
    unfold registration. rewrite decide_False; [done|]. rewrite Hv. by intros [? _]. }
  destruct (decide (f_server f = [])) as [Hs|Hs].
  { left. do 2 eexists. split; [reflexivity|]. split; [repeat constructor|].
    destruct (usage_error f w) as [-> ->]; [|done]. by intros [? _]. }
  destruct (decide (f_ttl f < 0)%Z) as [Ht|Ht].
  { left. do 2 eexists. split; [reflexivity|]. split; [repeat constructor|].
    destruct (usage_error f w) as [-> ->]; [|done]. intros (_ & ? & _); lia. }
  destruct (resolveControl (f_control f)) as [control|] eqn:Hc.
  2: { left. do 2 eexists. split; [reflexivity|]. split; [repeat constructor|].
    destruct (usage_error f w) as [-> ->]; [|done]. intros (_ & _ & [? ?]); congruence. }
  assert (usage_ok f) as Hok by (split_and!; [done|lia|by exists control]).
  unfold registration. rewrite Hv, (decide_True (P := usage_ok f)) by done.
  destruct (RelayClient.New (f_server f) (f_allowInsecure f)) as [client|e].
  2: { left. do 2 eexists. split; [reflexivity|]. split; [repeat constructor|]. split; [done|].
    by rewrite decide_False by (by intros (_ & _ & ?)). }
  rewrite (decide_True (P := false = false /\ _)) by done.
  fold (obtain_passphrase f w). destruct (obtain_passphrase_prints f w) as [Hp1 Hp2].
  destruct (obtain_passphrase f w) as [acts [passphrase|code]] eqn:Ho; simpl in Hp1, Hp2.
  2: { subst code. left. rewrite (R_bind_inr _ _ acts 1%Z) by done. do 2 eexists.
    split; [reflexivity|]. by split. }
  rewrite (R_bind_inl _ _ acts passphrase) by done.
  destruct (randToken (w_rand_id w)) as [id|].
  2: { left. do 2 eexists. split; [reflexivity|]. split; [|done].
    apply Forall_app. split; [done|repeat constructor]. }
  destruct (randToken (w_rand_tok w)) as [tok|].
  2: { left. do 2 eexists. split; [reflexivity|]. split; [|done].
    apply Forall_app. split; [done|repeat constructor]. }
  right. split; [done|]. split; [done|].
  exists control, client, passphrase, id, tok, acts. by split_and!.
Qed.

(** From the registration on: what the registration's answer decides. *)
Lemma run_start_spec f w argv shellMode control client passphrase id tok :
  argv <> [] ->
  let create := CreateSessionWithOptions client id tok (f_ttl f) (f_multiViewer f) (w_http w) in
  let r := run_start f w argv shellMode control client passphrase id tok in
  (exists acts, r = (Register create.1 :: acts, inr 1%Z) /\
     Forall (fun a => prints a \/ a = StartCommand argv) acts /\
     (StartCommand argv ∈ acts -> is_ok create.2)) \/
  (exists info keys psess cs acts secret,
     create.2 = Ok info /\ w_rand_secret w = Some secret /\
     DeriveKeys secret id passphrase = Ok keys /\
     Forall prints acts /\ size_known psess /\ sess_state psess = None /\
     let s := run_session f w argv shellMode control keys id tok info psess in
     r = (Register create.1 :: acts ++ StartCommand argv :: PtyCalls cs :: s.1, s.2)).
Proof.
  intros Hargv create r. assert (r = run_start f w argv shellMode control client passphrase id tok)
    as Hr by done. clearbody r. revert Hr. unfold run_start. fold create.
  destruct create as [body [info|e]] eqn:Hcr; simpl fst; simpl snd.
  2: { intros ->. left. eexists. split; [reflexivity|]. split; [repeat constructor|].
    by intros [?|?%elem_of_nil]%elem_of_cons. }
  destruct (w_rand_secret w) as [secret|].
  2: { intros ->. left. eexists. split; [reflexivity|]. split; [repeat constructor|done]. }
  unfold act at 1. rewrite (R_bind_inl _ _ [Register body] tt) by done.
  rewrite (R_bind_inl _ _ [] info), (R_bind_inl _ _ [] secret) by done.
  destruct (DeriveKeys secret id passphrase) as [keys|e] eqn:Hk.
  2: { intros ->. left. eexists. split; [reflexivity|]. split; [repeat constructor|done]. }
  rewrite (R_bind_inl _ _ [] keys) by done.
  set (banner := Stderr _). unfold act at 1. rewrite (R_bind_inl _ _ [banner] tt) by done.
  set (gate := if gateLaunch _ _ _ then _ else _).
  assert (exists acts, gate = (acts, inl tt) /\ Forall prints acts) as (gacts & -> & Hg).
  { unfold gate, waitForStart, act, mbind, R_bind, mret, R_ret.
    case_match; eexists; (split; [reflexivity|]); repeat constructor. }
  rewrite (R_bind_inl _ _ gacts tt) by done.
  unfold act at 1. rewrite (R_bind_inl _ _ [StartCommand argv] tt) by done.
  unfold Start. destruct argv as [|a0 argv]; [done|].
  destruct (w_started w).
  - destruct (match w_size w with Some s => _ | None => _ end) as [cols rows].
    pose proof (SetSize_known (mkSession 0 0 None) cols rows ltac:(by left)) as Hknown.
    pose proof (SetSize_state (mkSession 0 0 None) cols rows) as Hstate.
    destruct (SetSize (mkSession 0 0 None) cols rows) as [psess cs].
    unfold act at 1. rewrite (R_bind_inl _ _ [PtyCalls cs] tt) by done. intros ->.
    right. exists info, keys, psess, cs, (banner :: gacts), secret.
    split_and!; [done..|by constructor|done|done|]. simpl. by rewrite <- ?(assoc_L (++)).
  - intros ->. left. exists (banner :: gacts ++ [StartCommand (a0 :: argv); StderrStartError]).
    split; [done|]. split; [|done].
    constructor; [by left|]. apply Forall_app. split.
    + eapply Forall_impl; [exact Hg|]. by left.
    + constructor; [by right|]. constructor; [by left|constructor].
Qed.

(** An orchestrator as New leaves it, on a session whose command runs. *)
Definition newly_made (o : Orchestrator) : Prop :=
  exists cfg s, Orch.New cfg s = Ok o /\ size_known s /\ sess_state s = None.

(** The session's stage: raw mode is left as it was found. *)
Lemma run_session_spec f w argv shellMode control keys id tok info psess :
  size_known psess -> sess_state psess = None ->
  let r := run_session f w argv shellMode control keys id tok info psess in
  exists acts,
    r.1 = (if in_tty w && w_raw w then [MakeRaw] else []) ++ acts
          ++ (if in_tty w && w_raw w then [RestoreRaw] else []) /\
    Forall (fun a => prints a \/ exists o, a = RunSession o) acts /\
    ((Forall prints acts /\ r.2 = inr 1%Z) \/
     (exists o, r.2 = inl (w_run w o) /\ filter (fun a => ~ prints a) acts = [RunSession o] /\ newly_made o)).
Proof.
  intros Hsize Hstate r. subst r. unfold run_session.
  set (body := match Orch.New _ _ with Ok _ => _ | Err _ => _ end).
  assert (exists acts, body.1 = acts /\ Forall (fun a => prints a \/ exists o, a = RunSession o) acts /\
    ((Forall prints acts /\ body.2 = inr 1%Z) \/
     (exists o, body.2 = inl (w_run w o) /\ filter (fun a => ~ prints a) acts = [RunSession o] /\ newly_made o)))
    as (acts & Hb & Ha & Hr).
  { exists body.1. split; [done|]. unfold body. destruct (Orch.New _ _) as [o|e] eqn:HN.
    - simpl. split; [constructor; [by left|]; constructor; [right; by eexists|];
        constructor; [by left|constructor]|]. right. exists o. split; [done|].
      split; [|by eexists _, psess].
      rewrite filter_cons_False by (intros H; by apply H).
      rewrite filter_cons_True by (by intros H).
      by rewrite filter_cons_False by (intros H; by apply H).
    - simpl. split; [constructor; [by left|constructor]|]. left. split; [repeat constructor|done]. }
  exists acts. destruct (in_tty w && w_raw w); unfold deferred.
  - unfold act at 1. rewrite (R_bind_inl _ _ [MakeRaw] tt) by done. simpl. rewrite Hb. done.
  - rewrite (R_bind_inl _ _ [] tt) by done. simpl. rewrite Hb, app_nil_r. done.
Qed.

Lemma resolveCommand_nonempty shell args : resolveCommand shell args <> [].
Proof. by destruct args. Qed.

(** A whole run, in its three shapes: it stops early; it stops around the
    registration; or it runs the session. *)
Lemma run_shapes f w :
  let fails := if f_showVer f then 0%Z else if decide (usage_ok f) then 1%Z else 2%Z in
  let argv := resolveCommand (w_shell w) (f_args f) in
  (Forall prints (run f w).1 /\ exit_code (run f w) = fails /\ registration f w = None) \/
  (f_showVer f = false /\ usage_ok f /\ exists client id tok pre post,
     let create := CreateSessionWithOptions client id tok (f_ttl f) (f_multiViewer f) (w_http w) in
     RelayClient.New (f_server f) (f_allowInsecure f) = Ok client /\
     randToken (w_rand_id w) = Some id /\ randToken (w_rand_tok w) = Some tok /\
     is_Some (match (obtain_passphrase f w).2 with inl p => Some p | inr _ => None end) /\
     Forall prints pre /\ registration f w = Some create.1 /\
     (run f w).1 = pre ++ Register create.1 :: post /\
     ((Forall (fun a => prints a \/ a = StartCommand argv) post /\
       (StartCommand argv ∈ post -> is_ok create.2) /\ exit_code (run f w) = fails) \/
      (is_ok create.2 /\ exists shown cs session raw,
         Forall prints shown /\
         post = shown ++ StartCommand argv :: PtyCalls cs ::
           (if raw : bool then [MakeRaw] else []) ++ session ++ (if raw then [RestoreRaw] else []) /\
         Forall (fun a => prints a \/ exists o, a = RunSession o) session /\
         ((Forall prints session /\ exit_code (run f w) = fails) \/
          (exists o, filter (fun a => ~ prints a) session = [RunSession o] /\
             exit_code (run f w) = w_run w o /\ newly_made o))))).
Proof.
  intros fails argv. subst fails.
  destruct (run_early f w) as [(acts & code & Hr & Ha & He & Hg)|
    (Hv & Hok & control & client & passphrase & id & tok & acts & _ & Hn & Hp & Hid & Htok & Ha & Hg & Hr)];
    [left; by rewrite Hr in *|].
  right. split; [done|]. split; [done|]. rewrite Hv. rewrite decide_True by done.
  fold argv in Hr.
  destruct (run_start_spec f w argv (bool_decide (f_args f = [])) control client passphrase id tok
    (resolveCommand_nonempty _ _)) as
    [(post & Hs & Hpost & Hst)|(info & keys & psess & cs & shown & secret & Hc & _ & _ & Hsh & Hsz & Hst & Hs)];
    cbv zeta in Hs; rewrite Hs in Hr; exists client, id, tok, acts.
  - exists post. split; [done|]. split; [done|]. split; [done|]. split; [by rewrite Hp|].
    split; [done|]. split; [done|]. rewrite Hr. split; [done|]. left. done.
  - eexists. split; [done|]. split; [done|]. split; [done|]. split; [by rewrite Hp|].
    split; [done|]. split; [done|]. rewrite Hr. split; [done|]. right. rewrite Hc. split; [done|].
    destruct (run_session_spec f w argv (bool_decide (f_args f = [])) control keys id tok info psess Hsz Hst)
      as (session & H1 & H2 & H3).
    exists shown, cs, session, (in_tty w && w_raw w). split; [done|]. rewrite H1. split; [done|].
    split; [done|]. unfold exit_code. simpl.
    destruct H3 as [[H3 ->]|(o & -> & H3 & Hf)]; [by left|right; by exists o].
Qed.

(** What is not printing is not among the printed. *)
Lemma not_printed a acts : ~ prints a -> Forall prints acts -> a ∉ acts.
Proof. intros Ha Hall Hin. rewrite Forall_forall in Hall. by apply Ha, Hall. Qed.

Lemma last_behind {A} (l k : list A) x : last k = Some x -> last (l ++ k) = Some x.
Proof. intros H. by rewrite last_app, H. Qed.

(** The commands started. *)
Definition started (acts : list cli_action) : list (list bytes) :=
  omap (fun a => match a with StartCommand argv => Some argv | _ => None end) acts.

Lemma started_elem acts argv : argv ∈ started acts -> StartCommand argv ∈ acts.
Proof. intros (a & Ha & Hs)%list_elem_of_omap. by destruct a; simplify_eq. Qed.

Lemma registered_app a b : registered (a ++ b) = registered a ++ registered b.
Proof. apply omap_app. Qed.

Lemma registered_none acts :
  Forall (fun a => forall body, a <> Register body) acts -> registered acts = [].
Proof.
  induction 1 as [|a acts Ha _ IH]; [done|]. unfold registered in *. csimpl.
  destruct a; try done. by edestruct Ha.
Qed.

Lemma prints_not_register acts : Forall prints acts -> registered acts = [].
Proof. intros H. apply registered_none. eapply Forall_impl; [exact H|]. by intros [] ? ?. Qed.

(** The registrations of a run's three shapes. *)
Lemma registered_post argv body cs raw shown session :
  Forall prints shown -> Forall (fun a => prints a \/ exists o, a = RunSession o) session ->
  registered (Register body :: shown ++ StartCommand argv :: PtyCalls cs ::
    (if raw : bool then [MakeRaw] else []) ++ session ++ (if raw then [RestoreRaw] else []))
  = [body].
Proof.
  intros Hsh Hse.
  change (body :: registered (shown ++ StartCommand argv :: PtyCalls cs ::
    (if raw : bool then [MakeRaw] else []) ++ session ++ (if raw then [RestoreRaw] else []))
    = [body]).
  f_equal. rewrite registered_app, prints_not_register by done. simpl.
  change (registered ((if raw : bool then [MakeRaw] else []) ++ session ++
    (if raw then [RestoreRaw] else [])) = []).
  rewrite !registered_app, (registered_none session); [by destruct raw|].
  eapply Forall_impl; [exact Hse|]. by intros a [Ha|[o ->]] ? ?; subst.
Qed.

Lemma registered_run f w : registered (run f w).1 = option_list (registration f w).
Proof.
  destruct (run_shapes f w) as
    [(H & _ & ->)|(_ & _ & client & id & tok & pre & post & _ & _ & _ & _ & Hpre & -> & -> & H)];
    [by apply prints_not_register|].
  rewrite registered_app, (prints_not_register pre) by done. simpl app.
  destruct H as [(H & _)|(_ & shown & cs & session & raw & Hsh & -> & Hse & _)];
    [|by apply registered_post].
  change (create_body id tok (f_ttl f) (f_multiViewer f) :: registered post =
    [create_body id tok (f_ttl f) (f_multiViewer f)]).
  f_equal. apply registered_none. eapply Forall_impl; [exact H|].
  by intros a [Ha| ->] ? ?; subst.
Qed.

End Facts.

(** ** Grouped texts *)

Definition dash (i : nat) : bytes := if decide (0 < i /\ i mod 4 = 0) then [x2d] else [].

(** [formatFingerprint] from offset [i] on. *)
Fixpoint grouped (i : nat) (t : bytes) : bytes :=
  match t with [] => [] | c :: t => dash i ++ [c] ++ grouped (S i) t end.

Lemma formatFingerprint_grouped t : ascii t -> formatFingerprint t = grouped 0 t.
Proof.
  intros Ht. unfold formatFingerprint, string_runes.
  assert (length t <= length t) as Hf by lia. revert Hf.
  generalize (length t) at 2 3 as fuel. intros fuel. revert fuel. generalize 0.
  induction Ht as [|c t Hc Ht IH]; intros i fuel Hf; [by destruct fuel|].
  destruct fuel as [|fuel]; [simpl in Hf; lia|]. cbn [range_runes grouped].
  rewrite DecodeRune_ascii by done. rewrite fmap_cons. cbn [concat].
  unfold fingerprint_rune at 1. cbn [fst snd]. rewrite EncodeRune_ascii by done.
  rewrite <- (assoc_L (++)). do 2 f_equal. change (drop 1 (c :: t)) with (drop 0 t).
  rewrite drop_0, IH by (simpl in Hf; lia). f_equal. lia.
Qed.

(** Dropping the dashes gives the text back. *)
Lemma ungroup i t : x2d ∉ t -> filter (fun c => c <> x2d) (grouped i t) = t.
Proof.
  revert i. induction t as [|c t IH]; intros i H; [done|]. apply not_elem_of_cons in H as [Hc H].
  cbn [grouped]. rewrite !filter_app, IH, filter_cons_True, filter_nil by done.
  assert (filter (fun c => c <> x2d) (dash i) = []) as ->; [|done].
  unfold dash. case_decide; [|done]. by rewrite filter_cons_False by (by intros ?).
Qed.

(** Every base32 text is grouped, and read back by dropping the dashes. *)
Lemma base32_nopad_text b : ascii (base32_nopad b) /\ x2d ∉ base32_nopad b.
Proof.
  assert (Forall (fun c => c ∈ base32_alphabet) (base32_nopad b)) as H
    by by apply radix_encode_alphabet.
  split.
  - eapply Forall_impl; [exact H|]. apply Forall_forall.
    apply (bool_decide_unpack (Forall (fun c => Z_of_byte c < 128)%Z base32_alphabet)). by vm_compute.
  - intros Hin. rewrite Forall_forall in H. apply H in Hin. revert Hin.
    apply (bool_decide_unpack (x2d ∉ base32_alphabet)). by vm_compute.
Qed.

#[export] Instance formatted_base32_inj : Inj (=) (=) (fun b => formatFingerprint (base32_nopad b)).
Proof.
  intros a b H. destruct (base32_nopad_text a), (base32_nopad_text b).
  rewrite !formatFingerprint_grouped in H by done.
  apply (f_equal (filter (fun c => c <> x2d))) in H. rewrite !ungroup in H by done.
  by apply (inj base32_nopad) in H.
Qed.

(** Sixteen characters make four groups. *)
Lemma grouped_16 t :
  length t = 16 ->
  grouped 0 t = take 4 t ++ [x2d] ++ take 4 (drop 4 t) ++ [x2d] ++ take 4 (drop 8 t) ++ [x2d]
                ++ drop 12 t.
Proof. intros H. do 16 (destruct t as [|? t]; [done|]). by destruct t. Qed.

(** ** A concrete world *)

(** A URL package for plain https links. *)
#[export] Instance demo_urls : UrlPackage := {|
  url_Parse s :=
    if decide (take 8 s = str "https://") then Some (origin_url (str "https") (drop 8 s))
    else None;
  url_String u :=
    Scheme u ++ str "://" ++ Host u ++ Path u
    ++ (if decide (Fragment u = []) then [] else str "#" ++ Fragment u);
  url_JoinPath u l := set_path (Path u ++ concat (app (str "/") <$> l)) u
|}.

Definition demo_flags : Flags :=
  mkFlags defaultPublicRelay (str "auto") false 0 false false true false false false [str "htop"].

(** A terminal, a relay that accepts, a command that ends with code 3. *)
Definition demo_world : World :=
  mkWorld (str "dev") None [] true true true true NotATerminal (Some (make_bytes 10))
    (Some (make_bytes 16)) (Some (make_bytes 16)) (Some (make_bytes 32))
    (HttpResponse 201 (json_map [(str "id", json_quote (str "i"));
                                 (str "runner_token", json_quote (str "t"));
                                 (str "expires_at", itoa 0)]))
    0 (fun _ => None) true (Some (80, 24)%Z) true (fun _ => 3%Z).

(** The world with another secret and other passphrases. *)
Definition with_secrets (w : World) (secret : option bytes) (prompt : bytes) (gen : bytes) : World :=
  mkWorld (w_version w) (w_buildInfo w) (w_shell w) (w_stdin_tty w) (w_stderr_tty w) (w_devtty w)
    (w_devtty_tty w) (ReadOk (x41 :: prompt)) (Some gen) (w_rand_id w) (w_rand_tok w) secret
    (w_http w) (w_now w) (w_qr w) (w_started w) (w_size w) (w_raw w) (w_run w).

(** ** Properties *)

(** No command starts without a session.  The command is started only when
    the flags are valid, the relay's URL passes its checks and the relay
    accepted the registration; up to the registration the program only prints;
    and the command is the one given, or the shell. *)
Theorem command_needs_a_session `{P : Primitives} `{UP : UrlPackage} f w argv :
  StartCommand argv ∈ (run f w).1 ->
  f_showVer f = false /\ usage_ok f /\ argv = resolveCommand (w_shell w) (f_args f) /\
  exists client id tok pre post,
    RelayClient.New (f_server f) (f_allowInsecure f) = Ok client /\
    let create := CreateSessionWithOptions client id tok (f_ttl f) (f_multiViewer f) (w_http w) in
    is_ok create.2 = true /\ (run f w).1 = pre ++ Register create.1 :: post /\
    Forall prints pre /\ StartCommand argv ∈ post.
Proof.
  intros Hin.
  destruct (run_shapes f w) as [[H _]|(Hv & Hok & client & id & tok & pre & post & Hn & _ & _ & _ & Hpre & _ & Hr & H)].
  { by destruct (not_printed (StartCommand argv) _ (fun x => x) H). }
  split; [done|]. split; [done|]. rewrite Hr in Hin.
  apply elem_of_app in Hin as [Hin|Hin]; [by destruct (not_printed (StartCommand argv) _ (fun x => x) Hpre)|].
  apply elem_of_cons in Hin as [?|Hin]; [done|].
  assert (argv = resolveCommand (w_shell w) (f_args f) /\
    is_ok (CreateSessionWithOptions client id tok (f_ttl f) (f_multiViewer f) (w_http w)).2 = true)
    as [Hargv Hc].
  { destruct H as [(H1 & H2 & _)|(H1 & shown & cs & session & raw & Hsh & Hp & Hse & _)].
    - rewrite Forall_forall in H1. destruct (H1 _ Hin) as [?|[= ->]]; [done|].
      split; [done|]. by apply Is_true_true, H2.
    - split; [|by apply Is_true_true]. rewrite Hp in Hin.
      apply elem_of_app in Hin as [Hin|Hin]; [by destruct (not_printed (StartCommand argv) _ (fun x => x) Hsh)|].
      apply elem_of_cons in Hin as [[= ->]|Hin]; [done|]. exfalso.
      apply elem_of_cons in Hin as [?|Hin]; [done|].
      rewrite Forall_forall in Hse.
      apply elem_of_app in Hin as [Hin|Hin]; [by destruct raw; set_solver|].
      apply elem_of_app in Hin as [Hin|Hin]; [by destruct (Hse _ Hin) as [?|[? ?]]|].
      destruct raw; set_solver. }
  split; [done|]. exists client, id, tok, pre, post. done.
Qed.

(** With go's primitives, the demo command starts. *)
Lemma command_needs_a_session_witness :
  usage_ok demo_flags /\ [str "htop"] = resolveCommand (w_shell demo_world) (f_args demo_flags).
Proof.
  destruct (command_needs_a_session (P := go_crypto) (UP := demo_urls) demo_flags demo_world
    [str "htop"]) as (_ & H1 & H2 & _); [|by split].
  apply started_elem. assert (started (run demo_flags demo_world).1 = [[str "htop"]]) as -> by
    (vm_compute; reflexivity).
  apply list_elem_of_here.
Defined.

(** The exit code is the command's: when the session ran, the program exits
    with the code the session ended with; otherwise with 0 for --version, 2 for
    a flag in error and 1 for any other failure. *)
Lemma exit_code_is_the_commands `{P : Primitives} `{UP : UrlPackage} f w :
  (exists o, RunSession o ∈ (run f w).1 /\ exit_code (run f w) = w_run w o /\ newly_made o) \/
  ((forall o, RunSession o ∉ (run f w).1) /\
   exit_code (run f w) =
     if f_showVer f then 0%Z else if decide (usage_ok f) then 1%Z else 2%Z).
Proof.
  assert (forall acts o, Forall prints acts -> RunSession o ∉ acts) as Hnp
    by (intros acts o; apply not_printed; by intros H).
  destruct (run_shapes f w) as
    [(H & -> & _)|(Hv & Hok & client & id & tok & pre & post & _ & _ & _ & _ & Hpre & _ & Hr & H)];
    [right; split; [intros o; by apply Hnp|done]|].
  rewrite Hr. destruct H as [(H & _ & ->)|(_ & shown & cs & session & raw & Hsh & -> & _ &
    [[Hse ->]|(o & Ho & -> & Hf)])].
  - right. split; [|done]. intros o [Hin|[?|Hin]%elem_of_cons]%elem_of_app; [by eapply Hnp|done|].
    rewrite Forall_forall in H. by destruct (H _ Hin) as [?|?].
  - right. split; [|done]. intros o Hin. specialize (Hnp session o Hse).
    specialize (not_printed _ pre (fun x : prints (RunSession o) => x) Hpre).
    specialize (not_printed _ shown (fun x : prints (RunSession o) => x) Hsh).
    destruct raw; set_solver.
  - left. exists o. split; [|done].
    assert (RunSession o ∈ session) by (eapply list_elem_of_filter; rewrite Ho; set_solver).
    set_solver.
Qed.

(** The host's terminal is left as it was found: a run either never
    touches its mode, or makes it raw once and, as the last thing it does,
    restores it - on every way out of the session. *)
Theorem raw_mode_is_restored `{P : Primitives} `{UP : UrlPackage} f w :
  terminal (run f w).1 = [] \/
  terminal (run f w).1 = [MakeRaw; RestoreRaw] /\ last (run f w).1 = Some RestoreRaw.
Proof.
  assert (forall acts, Forall (fun a => a <> MakeRaw /\ a <> RestoreRaw) acts -> terminal acts = [])
    as Hnone.
  { intros acts H.
    induction H as [|a acts [H1 H2] _ IH]; [done|]. unfold terminal.
    rewrite filter_cons_False by tauto. exact IH. }
  assert (forall acts, Forall prints acts -> terminal acts = []) as Hp.
  { intros acts H. apply Hnone. eapply Forall_impl; [exact H|]. by intros []. }
  destruct (run_shapes f w) as
    [(H & _)|(Hv & Hok & client & id & tok & pre & post & _ & _ & _ & _ & Hpre & _ & -> & H)];
    [left; by apply Hp|].
  destruct H as [(H & _)|(_ & shown & cs & session & raw & Hsh & -> & Hse & _)].
  - left. unfold terminal. rewrite filter_app. fold (terminal pre). rewrite Hp by done.
    rewrite filter_cons_False by naive_solver. apply Hnone.
    eapply Forall_impl; [exact H|]. intros a [Ha| ->]; [by destruct a|done].
  - unfold terminal. rewrite filter_app. fold (terminal pre). rewrite Hp by done.
    rewrite filter_cons_False by naive_solver. rewrite filter_app.
    fold (terminal shown). rewrite Hp by done. rewrite !filter_cons_False by naive_solver.
    rewrite !filter_app. fold (terminal session). rewrite (Hnone session).
    + destruct raw; [right|left; reflexivity]. split; [reflexivity|].
      apply last_behind, (last_behind [_]), last_behind, (last_behind [_; _; _]), last_behind.
      reflexivity.
    + eapply Forall_impl; [exact Hse|]. intros a [Ha|[o ->]]; [by destruct a|done].
Qed.

(** C23. The relay never learns the secret: the registration - the one thing the
    program tells the relay before the session - is at most one body, the
    session's id, token, lifetime and viewer policy, and it is the same
    whatever the session's secret and passphrase are. *)
Theorem registration_tells_no_secret `{P : Primitives} `{UP : UrlPackage} f w :
  (registered (run f w).1 = [] \/
   exists id tok, randToken (w_rand_id w) = Some id /\ randToken (w_rand_tok w) = Some tok /\
     registered (run f w).1 = [create_body id tok (f_ttl f) (f_multiViewer f)]) /\
  (forall s1 p1 g1 s2 p2 g2,
     registered (run f (with_secrets w s1 p1 g1)).1 = registered (run f (with_secrets w s2 p2 g2)).1).
Proof.
  split.
  - rewrite registered_run. unfold registration. case_decide; [|by left].
    destruct (obtain_passphrase f w).2; [|by left].
    destruct (randToken (w_rand_id w)) as [id|]; [|by left].
    destruct (randToken (w_rand_tok w)) as [tok|]; [|by left]. right. by exists id, tok.
  - intros s1 p1 g1 s2 p2 g2. rewrite !registered_run. f_equal. unfold registration.
    case_decide; [|done].
    assert (forall s p g, exists q, (obtain_passphrase f (with_secrets w s p g)).2 = inl q) as H0.
    { intros s p g. unfold obtain_passphrase, promptPassphrase. simpl.
      destruct (f_genPass f); [by eexists|]. destruct (f_passphrase f); by eexists. }
    destruct (H0 s1 p1 g1) as [q1 ->], (H0 s2 p2 g2) as [q2 ->]. done.
Qed.

(** A generated passphrase keeps all its 80 bits, and a token its 128: the
    passphrase of ten random bytes is four dash-separated groups of four
    characters of A-Z and 2-7, the token of sixteen random bytes 22 URL-safe
    characters, and different bytes give different texts. *)
Theorem random_texts_keep_their_entropy b t b' t' :
  length b = 10 -> length t = 16 ->
  (exists g1 g2 g3 g4,
     generatePassphrase (Some b) = Some (g1 ++ [x2d] ++ g2 ++ [x2d] ++ g3 ++ [x2d] ++ g4) /\
     Forall (fun g => length g = 4 /\ Forall (fun c => c ∈ base32_alphabet) g) [g1; g2; g3; g4]) /\
  (exists tok, randToken (Some t) = Some tok /\ length tok = 22 /\
     Forall (fun c => c ∈ base64_url_alphabet) tok) /\
  (generatePassphrase (Some b) = generatePassphrase (Some b') -> b = b') /\
  (randToken (Some t) = randToken (Some t') -> t = t').
Proof.
  intros Hb Ht. split; [|split; [|split]].
  - destruct (base32_nopad_text b). unfold generatePassphrase. simpl.
    rewrite formatFingerprint_grouped by done.
    assert (length (base32_nopad b) = 16) as H16
      by (unfold base32_nopad; by rewrite length_radix_encode, Hb).
    rewrite grouped_16 by done. do 4 eexists. split; [reflexivity|].
    assert (Forall (fun c => c ∈ base32_alphabet) (base32_nopad b)) as Ha
      by by apply radix_encode_alphabet.
    repeat (apply Forall_cons; split); [..|constructor];
      (split; [rewrite ?length_take, ?length_drop; lia|auto using Forall_take, Forall_drop]).
  - eexists. split; [reflexivity|]. split; [|by apply radix_encode_alphabet].
    unfold base64_rawurl. by rewrite length_radix_encode, Ht.
  - unfold generatePassphrase. simpl. intros H%(inj Some).
    by apply (inj (fun b => formatFingerprint (base32_nopad b))) in H.
  - unfold randToken. simpl. intros H%(inj Some). by apply (inj base64_rawurl) in H.
Qed.

Lemma random_texts_keep_their_entropy_witness :
  exists tok, randToken (Some (make_bytes 16)) = Some tok /\ length tok = 22.
Proof.
  destruct (random_texts_keep_their_entropy (make_bytes 10) (make_bytes 16) [] [])
    as (_ & (tok & H1 & H2 & _) & _); [done..|]. by exists tok.
Defined.

(** The expiry shown is the relay's, to the nearest second: within the range
    of a Duration, the banner shows a whole number of seconds at most half a
    second away from the time that is left. *)
Theorem expiry_is_shown_to_the_second expiresAt now :
  (0 < expiresAt < 2 ^ 33 -> 0 <= now < 2 ^ 33 * Second ->
   exists s, expiryLine expiresAt now = str "in " ++ duration_String (s * Second) /\
     2 * Z.abs (s * Second - (expiresAt * Second - now)) <= Second)%Z.
Proof.
  intros He Hn. unfold expiryLine. rewrite decide_False by lia. unfold remaining.
  assert (Unix expiresAt = expiresAt * Second)%Z as ->.
  { unfold Unix, i64, unixToInternal. rewrite Z.mod_small by lia. lia. }
  assert (Sub (expiresAt * Second) now = expiresAt * Second - now)%Z as ->.
  { unfold Sub, maxDuration, minDuration, Second in *. by repeat case_decide; lia. }
  destruct (Round_second_near (expiresAt * Second - now)) as [[s Hs] Hr].
  { unfold maxDuration, minDuration, Second in *. lia. }
  rewrite Hs in Hr |- *. by exists s.
Qed.

Lemma expiry_is_shown_to_the_second_witness :
  expiryLine 3600 0 = str "in 1h0m0s" /\
  exists s, expiryLine 3600 500 = str "in " ++ duration_String (s * Second).
Proof.
  split; [by vm_compute|].
  destruct (expiry_is_shown_to_the_second 3600 500) as (s & H & _);
    [by vm_compute|unfold Second; lia|]. by exists s.
Defined.
