(* ===== verification/Main.v ===== *)
(** * Main: the command line

    The flags of runner/cmd/onlytty/main.go, the usage text and [main], from the
    arguments to the exit code: flag.Parse with ExitOnError in front of [Cli.run]. *)
From S2P Require Import Prelude Utf8 Json GoTime GoFlag Crypto Session Orch Scenario.
From S2P Require Import Handlers Traces Invariant RelayClient Reconnect Run Qr Cli StdCrypto.
From stdpp Require Import sorting.
From Stdlib Require Import Strings.Byte.

(** ** The flags *)

Record Flag := mkFlag { Name : bytes; Kind : flag_kind; Usage : bytes; DefValue : bytes }.

(** The declarations of run, in its order; [server_env] is os.Getenv("ONLYTTY_SERVER"). *)
Definition declared (server_env : bytes) : list Flag := [
  mkFlag (str "server") FString
    (str "relay origin (or ONLYTTY_SERVER); e.g. a self-hosted https://relay.example.com")
    (envOr server_env defaultPublicRelay);
  mkFlag (str "control") FString
    (str "viewer control policy: auto (auto-grant control to any viewer that requests it — no host prompt; revoke with SIGUSR1), view-only (never), once (auto-grant the first request only)")
    (str "auto");
  mkFlag (str "multi-viewer") FBool
    (str "allow multiple browser viewers; only one viewer may control the terminal at a time")
    (str "false");
  mkFlag (str "ttl") FDuration
    (str "session lifetime before the link expires; 0 (default) = no expiry — the session lives as long as onlytty runs and ends when the command exits (the relay may impose a maximum)")
    (str "0s");
  mkFlag (str "passphrase") FBool
    (str "prompt for a passphrase to mix into the keys (shared out-of-band; the link alone won't decrypt)")
    (str "false");
  mkFlag (str "passphrase-generate") FBool
    (str "generate a strong passphrase host-side and display it (implies --passphrase)")
    (str "false");
  mkFlag (str "no-qr") FBool (str "print the link without a QR code") (str "false");
  mkFlag (str "allow-insecure") FBool
    (str "allow a plain http:// relay to a non-local host (local testing only)") (str "false");
  mkFlag (str "verbose") FBool
    (str "always print viewer connect/disconnect/control notices inline; by default they show only when no full-screen or line-drawing app (editor, Claude Code, …) is active")
    (str "false");
  mkFlag (str "version") FBool (str "print version and exit") (str "false")
].

(** flag.Lookup: the kind of a flag. *)
Definition formal (name : bytes) : option flag_kind :=
  Kind <$> head (filter (fun f => Name f = name) (declared [])).

(** The flags' variables after Parse set the values [l]: the last one set, or
    the default. *)
Section Variables.
Context (l : list (bytes * flag_value)).

Definition bool_flag (name : bytes) : bool :=
  match last_value name l with Some (VBool b) => b | _ => false end.
Definition string_flag (name default : bytes) : bytes :=
  match last_value name l with Some (VString s) => s | _ => default end.
Definition duration_flag (name : bytes) : Z :=
  match last_value name l with Some (VDuration d) => d | _ => 0%Z end.

Definition flags_of (server_env : bytes) (args : list bytes) : Flags :=
  mkFlags (string_flag (str "server") (envOr server_env defaultPublicRelay))
    (string_flag (str "control") (str "auto")) (bool_flag (str "multi-viewer"))
    (duration_flag (str "ttl")) (bool_flag (str "passphrase"))
    (bool_flag (str "passphrase-generate")) (bool_flag (str "no-qr"))
    (bool_flag (str "allow-insecure")) (bool_flag (str "verbose")) (bool_flag (str "version")) args.
End Variables.

(** ** usage *)

(** strings.Compare(a, b) <= 0 *)
Fixpoint string_le (a b : bytes) : bool :=
  match a, b with
  | [], _ => true
  | _ :: _, [] => false
  | x :: a, y :: b =>
    if decide (x = y) then string_le a b else bool_decide (Z_of_byte x < Z_of_byte y)%Z
  end.

(** flag.VisitAll: in the order of the names. *)
Definition VisitAll (fs : list Flag) : list Flag :=
  merge_sort (fun f g => Is_true (string_le (Name f) (Name g))) fs.

Definition width (fs : list Flag) : nat :=
  foldl (fun width f => let n := length (Name f) + length (str "--") in
    if decide (width < n) then n else width) 0 fs.

(** Sprintf of a text in a column, %-*s: as wide as the column, in runes. *)
Definition column (width : nat) (s : bytes) : bytes :=
  s ++ replicate (width - length (string_runes s)) x20.

Definition flag_line (width : nat) (f : Flag) : bytes :=
  let def :=
    if decide (DefValue f <> [] /\ DefValue f <> str "false")
    then str " (default " ++ DefValue f ++ str ")" else [] in
  str "  " ++ column width (str "--" ++ Name f) ++ str "  " ++ Usage f ++ def ++ [x0a].

Definition text_lines (l : list bytes) : bytes := concat ((fun s => s ++ [x0a]) <$> l).

Definition usage (server_env : bytes) : bytes :=
  let fs := VisitAll (declared server_env) in
  text_lines [
    str "onlytty — share a command or your shell to a browser, end-to-end encrypted.";
    [];
    str "Usage:";
    str "  onlytty [flags]              share your $SHELL";
    str "  onlytty [flags] -- <cmd>...  share one command";
    [];
    str "Flags:"]
  ++ concat (flag_line (width fs) <$> fs)
  ++ text_lines [
    [];
    str "Examples:";
    str "  onlytty -- claude";
    str "  onlytty --control view-only -- htop";
    str "  onlytty --multi-viewer -- claude";
    str "  onlytty --passphrase"].

(** ** main *)

Section Code.
Context `{P : Primitives} `{UP : UrlPackage}.

(** [args] is os.Args[1:]. flag.Parse exits with 0 after -help, with 2 after an
    error, each time with the usage printed. *)
Definition main (server_env : bytes) (args : list bytes) (w : World) : R Z :=
  let '(l, e) := Parse formal args in
  match e with
  | Parsed rest => run (flags_of l server_env rest) w
  | Help => act (Stderr (usage server_env)) ;; exit 0
  | Failed e => act (StderrFlagError e) ;; act (Stderr (usage server_env)) ;; exit 2
  end.

End Code.

Example usage_names_the_flags :
  Name <$> VisitAll (declared []) =
  [str "allow-insecure"; str "control"; str "multi-viewer"; str "no-qr"; str "passphrase";
   str "passphrase-generate"; str "server"; str "ttl"; str "verbose"; str "version"].
Proof. vm_compute. reflexivity. Qed.

Example usage_line :
  flag_line (width (declared [])) <$> drop 6 (take 8 (declared [])) =
  [text_lines [str "  --no-qr                print the link without a QR code"];
   text_lines [str "  --allow-insecure       allow a plain http:// relay to a non-local host (local testing only)"]].
Proof. vm_compute. reflexivity. Qed.

(** ** What Parse makes of the arguments *)

(** A value of a flag's type: a duration is an int64. *)
Definition has_kind (v : flag_value) (k : flag_kind) : Prop :=
  match v, k with
  | VBool _, FBool => True
  | VString _, FString => True
  | VDuration d, FDuration => (minDuration <= d <= maxDuration)%Z
  | _, _ => False
  end.

Lemma set_value_kind k s v : set_value k s = Some v -> has_kind v k.
Proof.
  destruct k; simpl.
  - destruct (ParseBool s); [by intros [= <-]|done].
  - by intros [= <-].
  - destruct (ParseDuration s) as [d|] eqn:Hd; [|done]. intros [= <-].
    by apply (ParseDuration_range s).
Qed.

Lemma parseOne_kind s rest x rest' :
  parseOne formal s rest = inl (x, rest') -> exists k, formal x.1 = Some k /\ has_kind x.2 k.
Proof.
  unfold parseOne. destruct (classify s) as [| |name value|]; try done.
  destruct (formal name) as [k|] eqn:Hk; [|done].
  assert (forall v r, set_flag k name v r = inl (x, rest') -> exists k, formal x.1 = Some k /\ has_kind x.2 k)
    as Hset.
  { intros v r. unfold set_flag. destruct (set_value k v) as [y|] eqn:Hs; [|done].
    intros [= <- <-]. exists k. split; [done|]. by apply set_value_kind in Hs. }
  destruct k, value as [v|]; try (by apply Hset); try by (destruct rest; [|apply Hset]).
  intros [= <- <-]. by exists FBool.
Qed.

(** The values Parse sets, and what it leaves. *)
Lemma Parse_values args :
  Forall (fun nv => exists k, formal nv.1 = Some k /\ has_kind nv.2 k) (Parse formal args).1 /\
  match (Parse formal args).2 with Parsed cmd => cmd `suffix_of` args | _ => True end.
Proof.
  induction args as [|s rest IH] using (parse_induction formal); [by split; [constructor|exists []]|].
  rewrite Parse_cons. destruct (parseOne formal s rest) as [[x rest']|e] eqn:Ho.
  - destruct (IH _ _ eq_refl) as [IH1 IH2]. pose proof (parseOne_kind _ _ _ _ Ho) as Hx.
    apply parseOne_inl in Ho as [Hr _]. destruct (Parse formal rest') as [l e]. simpl in *.
    split; [by constructor|]. destruct e; try done.
    assert (rest' `suffix_of` s :: rest) as Hs by
      (destruct Hr as [->|[v ->]]; [by exists [s]|by exists [s; v]]).
    by etrans.
  - split; [constructor|]. simpl. destruct e as [cmd| |]; try done.
    revert Ho. unfold parseOne. destruct (classify s) as [| |name value|]; try done.
    + by intros [= <-].
    + intros [= <-]. by exists [s].
    + destruct (formal name) as [k|]; [|by case_decide].
      assert (forall v r, set_flag k name v r <> inr (Parsed cmd)) as Hset
        by (intros v r; unfold set_flag; by destruct (set_value k v)).
      destruct k, value, rest; try done; intros H; by apply Hset in H.
Qed.

(** The program's variables, by the names of their flags. *)
Definition field (f : Flags) (name : bytes) : option flag_value :=
  if decide (name = str "server") then Some (VString (f_server f))
  else if decide (name = str "control") then Some (VString (f_control f))
  else if decide (name = str "multi-viewer") then Some (VBool (f_multiViewer f))
  else if decide (name = str "ttl") then Some (VDuration (f_ttl f))
  else if decide (name = str "passphrase") then Some (VBool (f_passphrase f))
  else if decide (name = str "passphrase-generate") then Some (VBool (f_genPass f))
  else if decide (name = str "no-qr") then Some (VBool (f_noQR f))
  else if decide (name = str "allow-insecure") then Some (VBool (f_allowInsecure f))
  else if decide (name = str "verbose") then Some (VBool (f_verbose f))
  else if decide (name = str "version") then Some (VBool (f_showVer f))
  else None.

Lemma declared_names env : NoDup (Name <$> declared env).
Proof. change (Name <$> declared env) with (Name <$> declared []). apply (bool_decide_unpack _). by vm_compute. Qed.

Lemma field_declared l env rest name :
  field (flags_of l env rest) name <> None <-> name ∈ Name <$> declared env.
Proof.
  unfold field. simpl. rewrite !elem_of_cons, elem_of_nil. repeat case_decide; naive_solver.
Qed.

Lemma declared_formal env d : d ∈ declared env -> formal (Name d) = Some (Kind d).
Proof.
  intros H. unfold declared in H.
  repeat (apply elem_of_cons in H as [->|H]; [by vm_compute|]). by apply elem_of_nil in H.
Qed.

Lemma formal_declared env name k : formal name = Some k -> name ∈ Name <$> declared env.
Proof.
  unfold formal. change (Name <$> declared env) with (Name <$> declared []). intros H.
  apply fmap_Some in H as (d & H & _). apply head_Some_elem_of in H.
  apply list_elem_of_filter in H as [<- H]. by apply list_elem_of_fmap_2.
Qed.

Lemma last_value_kind name l :
  Forall (fun nv => exists k, formal nv.1 = Some k /\ has_kind nv.2 k) l ->
  match last_value name l with
  | Some v => match formal name with Some k => has_kind v k | None => False end
  | None => True
  end.
Proof.
  induction 1 as [|[m v] l (k & Hf & Hk) _ IH]; [done|]. simpl.
  destruct (last_value name l); [done|]. case_decide; [subst; simpl in Hf; by rewrite Hf|done].
Qed.

Lemma field_value l env rest d :
  d ∈ declared env ->
  match last_value (Name d) l with Some v => has_kind v (Kind d) | None => True end ->
  field (flags_of l env rest) (Name d) = match last_value (Name d) l with
                                         | Some v => Some v
                                         | None => set_value (Kind d) (DefValue d)
                                         end /\
  forall v, field (flags_of l env rest) (Name d) = Some v -> has_kind v (Kind d).
Proof.
  intros H. unfold declared in H.
  repeat (apply elem_of_cons in H as [->|H];
    [unfold field, flags_of, string_flag, bool_flag, duration_flag; simpl; intros Hk;
     destruct (last_value _ l) as [[]|]; try done; (split; [done|by intros v [= <-]])|]).
  by apply elem_of_nil in H.
Qed.

(** Where the declared flags are: three take a value. *)
Lemma valued_flags name :
  name ∈ [str "server"; str "control"; str "ttl"] ->
  plain_name name = true /\ exists k, formal name = Some k /\ k <> FBool.
Proof.
  intros H. repeat (apply elem_of_cons in H as [->|H]; [split; [done|by eexists]|]).
  by apply elem_of_nil in H.
Qed.

Section Facts.
Context `{P : Primitives} `{UP : UrlPackage}.

(** Only what Parse says of the arguments counts. *)
Lemma main_Parse env w args args' : Parse formal args = Parse formal args' -> main env args w = main env args' w.
Proof. unfold main. by intros ->. Qed.

(** A flag's text with a value: the value goes to the flag, wherever it is. *)
Lemma parseOne_valued name k s v rest :
  formal name = Some k -> k <> FBool ->
  (classify s = FlagText name (Some v) -> parseOne formal s rest = set_flag k name v rest) /\
  (classify s = FlagText name None -> parseOne formal s (v :: rest) = set_flag k name v rest).
Proof. intros Hf Hk. unfold parseOne. split; intros ->; rewrite Hf; by destruct k. Qed.

End Facts.

(** ** Properties *)

(** The command behind the dashes is taken verbatim: when the arguments in
    front of -- are all flags, what is behind it - its own flags, another --,
    nothing - is the command, and the flags are those in front. *)
Theorem dashes_protect_the_command `{P : Primitives} `{UP : UrlPackage} env w args cmd l :
  Parse formal args = (l, Parsed []) -> str "--" ∉ args ->
  main env (args ++ str "--" :: cmd) w = run (flags_of l env cmd) w.
Proof.
  intros H Hd. unfold main. rewrite (Parse_app formal args l) by done.
  change (Parse formal (str "--" :: cmd)) with ([] : list (bytes * flag_value), Parsed cmd).
  by rewrite app_nil_r.
Qed.

Lemma dashes_protect_the_command_witness :
  main (P := go_crypto) (UP := demo_urls) [] [str "--no-qr"; str "--"; str "htop"; str "--version"] demo_world
  = run (P := go_crypto) (UP := demo_urls)
      (flags_of [(str "no-qr", VBool true)] [] [str "htop"; str "--version"]) demo_world.
Proof.
  apply (dashes_protect_the_command (P := go_crypto) (UP := demo_urls) [] demo_world [str "--no-qr"]);
    [by vm_compute|by apply (bool_decide_unpack (str "--" ∉ [str "--no-qr"])); vm_compute].
Defined.

(** A value can be given in four ways: with one dash or two, behind an equals
    sign or as the next argument.  Wherever the flag stands among flags, and
    whatever its value and what follows, the program does the same. *)
Theorem flag_spellings_agree `{P : Primitives} `{UP : UrlPackage} env w pre l name v post :
  Parse formal pre = (l, Parsed []) -> str "--" ∉ pre ->
  name ∈ [str "server"; str "control"; str "ttl"] ->
  Forall (fun spelling => main env (pre ++ spelling ++ post) w
                          = main env (pre ++ [str "--" ++ name; v] ++ post) w)
    [[str "-" ++ name; v]; [str "-" ++ name ++ str "=" ++ v]; [str "--" ++ name ++ str "=" ++ v]].
Proof.
  intros Hp Hd Hn. destruct (valued_flags name Hn) as [Hpl (k & Hf & Hk)].
  destruct (classify_spellings name v Hpl) as (H1 & H2 & H3 & H4).
  assert (forall s, classify s = FlagText name None ->
    parseOne formal s (v :: post) = set_flag k name v post) as Hnext
    by (intros s; apply parseOne_valued; done).
  assert (forall s, classify s = FlagText name (Some v) ->
    parseOne formal s post = set_flag k name v post) as Heq
    by (intros s; apply parseOne_valued; done).
  repeat (apply Forall_cons; split); [..|constructor]; apply main_Parse;
    rewrite !(Parse_app formal pre l) by done; cbn [app]; rewrite !Parse_cons;
    rewrite !Hnext by done; try rewrite Heq by done; done.
Qed.

Lemma flag_spellings_agree_witness :
  main (P := go_crypto) (UP := demo_urls) [] [str "--no-qr"; str "-ttl=1h30m"; str "htop"] demo_world
  = main (P := go_crypto) (UP := demo_urls) [] [str "--no-qr"; str "--ttl"; str "1h30m"; str "htop"] demo_world.
Proof.
  pose proof (flag_spellings_agree (P := go_crypto) (UP := demo_urls) [] demo_world
    [str "--no-qr"] [(str "no-qr", VBool true)] (str "ttl") (str "1h30m") [str "htop"]) as H.
  rewrite !Forall_cons in H. apply H; [by vm_compute| |];
    [by apply (bool_decide_unpack (str "--" ∉ [str "--no-qr"])); vm_compute|].
  by apply (bool_decide_unpack (str "ttl" ∈ [str "server"; str "control"; str "ttl"])); vm_compute.
Defined.

(** C39. The flags reach the program.  When Parse accepts the arguments, the
    variables the program runs with are exactly those of the ten declared flags,
    each declared once: each holds the last value the arguments give it, and a
    flag the arguments do not give holds the value its printed default stands
    for.  A value is of the declared kind - a boolean, a text, an int64 number
    of nanoseconds -, no other flag is set, and the command is the tail of the
    arguments. *)
Theorem flags_reach_the_program env args l rest :
  Parse formal args = (l, Parsed rest) ->
  let f := flags_of l env rest in
  NoDup (Name <$> declared env) /\
  (forall name, field f name <> None <-> name ∈ Name <$> declared env) /\
  (forall d, d ∈ declared env ->
     field f (Name d) = match last_value (Name d) l with
                        | Some v => Some v
                        | None => set_value (Kind d) (DefValue d)
                        end /\
     forall v, field f (Name d) = Some v -> has_kind v (Kind d)) /\
  (forall name v, (name, v) ∈ l -> name ∈ Name <$> declared env) /\
  f_args f = rest /\ rest `suffix_of` args.
Proof.
  intros HP f. destruct (Parse_values args) as [Hl He]. rewrite HP in Hl, He. simpl in Hl, He.
  split; [apply declared_names|]. split; [apply field_declared|]. split; [|split; [|done]].
  - intros d Hd. pose proof (last_value_kind (Name d) l Hl) as Hk.
    rewrite (declared_formal env d Hd) in Hk. by apply field_value.
  - intros name v Hv. rewrite Forall_forall in Hl. destruct (Hl _ Hv) as (k & Hk & _).
    by apply (formal_declared env name k).
Qed.

Lemma flags_reach_the_program_witness :
  field (flags_of [(str "ttl", VDuration 60000000000); (str "no-qr", VBool true)] [] [str "htop"]) (str "ttl")
  = Some (VDuration 60000000000) /\
  field (flags_of [(str "ttl", VDuration 60000000000); (str "no-qr", VBool true)] [] [str "htop"]) (str "server")
  = Some (VString defaultPublicRelay).
Proof.
  destruct (flags_reach_the_program [] [str "--ttl=1m"; str "-no-qr"; str "htop"]
    [(str "ttl", VDuration 60000000000); (str "no-qr", VBool true)] [str "htop"]) as (_ & _ & H & _);
    [vm_compute; reflexivity|].
  split; [exact (proj1 (H _ (list_elem_of_lookup_2 (declared []) 3 _ eq_refl)))
         |exact (proj1 (H _ (list_elem_of_lookup_2 (declared []) 0 _ eq_refl)))].
Defined.

(** The lifetime the banner shows can be given back: the text behind "in" is
    one --ttl takes, as the very duration shown, within half a second of the
    time that is left. *)
Theorem shown_expiry_is_a_ttl `{P : Primitives} `{UP : UrlPackage} env w cmd expiresAt now :
  (0 < expiresAt < 2 ^ 33 -> 0 <= now <= expiresAt * Second ->
   exists t s, expiryLine expiresAt now = str "in " ++ t /\
     2 * Z.abs (s * Second - (expiresAt * Second - now)) <= Second /\
     main env (str "--ttl" :: t :: str "--" :: cmd) w
     = run (flags_of [(str "ttl", VDuration (s * Second))] env cmd) w)%Z.
Proof.
  intros He Hn.
  destruct (expiry_is_shown_to_the_second expiresAt now) as (s & Ht & Hs); [done|unfold Second in *; lia|].
  assert (0 <= s /\ s * Second <= maxDuration)%Z as [Hs0 Hsm] by (unfold Second, maxDuration in *; lia).
  exists (duration_String (s * Second)), s. split; [done|]. split; [done|].
  unfold main. rewrite Parse_cons.
  change (parseOne formal (str "--ttl") (?v :: ?rest)) with (set_flag FDuration (str "ttl") v rest).
  unfold set_flag, set_value. rewrite duration_String_whole, clock_text_reads by done. done.
Qed.

Lemma shown_expiry_is_a_ttl_witness :
  expiryLine 3600 500 = str "in 1h0m0s" /\
  exists t, expiryLine 3600 500 = str "in " ++ t.
Proof.
  split; [by vm_compute|].
  destruct (shown_expiry_is_a_ttl (P := go_crypto) (UP := demo_urls) [] demo_world [] 3600 500)
    as (t & s & H & _); [by vm_compute|by vm_compute|by exists t].
Defined.

(** The code of an invocation that runs no session. *)
Definition failure_code (env : bytes) (args : list bytes) : Z :=
  match Parse formal args with
  | (_, Help) => 0
  | (_, Failed _) => 2
  | (l, Parsed rest) =>
    if f_showVer (flags_of l env rest) then 0 else if decide (usage_ok (flags_of l env rest)) then 1 else 2
  end.

(** C19. The program's exit code, from the arguments to the end: when a session
    ran, and ended the way Run ends, it is the command's exit code, or -1 for a
    command told to end or one that outlived the sharing; without a session it
    is 0 after -help or --version, 2 for arguments in error and 1 for any
    other failure. *)
Theorem program_exit_code `{E : Env} `{UP : UrlPackage} env args w :
  (forall o, newly_made o -> exists lc ls r, rsteps lc (start o) ls r /\ r_result r = Some (w_run w o)) ->
  let code := exit_code (main env args w) in
  (exists o lc ls r, RunSession o ∈ (main env args w).1 /\ rsteps lc (start o) ls r /\
     ((exists child, r_child r = Some child /\ code = i32 child) \/
      (code = (-1)%Z /\ (RParent ∈ ls \/ exists e, r_loop r = LoopEnded e /\ e <> EndCancelled)))) \/
  ((forall o, RunSession o ∉ (main env args w).1) /\ code = failure_code env args).
Proof.
  intros Hw code. subst code. unfold main, failure_code. destruct (Parse formal args) as [l [rest| |e]].
  - destruct (exit_code_is_the_commands (flags_of l env rest) w) as [(o & Ho & Hc & Hf)|H]; [|by right].
    left. destruct (Hw o Hf) as (lc & ls & r & Hr & Hres). destruct Hf as (cfg & s & HN & Hk & Hs).
    exists o, lc, ls, r. split; [done|]. split; [done|]. rewrite Hc.
    destruct (rsteps_inv _ _ _ _ _ _ _ (run_inv_start o) Hr) as [es Hi].
    by apply (run_inv_result cfg s o ls r es).
  - right. split; [|done]. intros o. simpl. rewrite elem_of_cons, elem_of_nil. naive_solver.
  - right. split; [|done]. intros o. simpl. rewrite !elem_of_cons, elem_of_nil. naive_solver.
Qed.

(** From any fresh orchestrator, Run can return the code 3. *)
Lemma demo_outcome o :
  newly_made o -> exists ls r, rsteps demo_loop (start o) ls r /\ r_result r = Some 3%Z.
Proof.
  intros (cfg & s & HN & Hk & Hs). pose proof (run_exitCode cfg s o [EvExit 3; EvShutdown] HN Hk Hs) as Hx.
  eexists [RChild 3; ROwn; ROwn; ROwn; ROwn; ROwn; ROwn], _. split.
  - eapply rsteps_cons; [by eapply Child|]. eapply rsteps_cons; [by eapply (Waited _ _ 3)|].
    eapply rsteps_cons; [by eapply Run.Cancel|]. eapply rsteps_cons; [by eapply WatcherShutdown|].
    eapply rsteps_cons; [by eapply LoopDone|].
    eapply rsteps_cons; [apply PumpEnd; [done..|left]|].
    { simpl. rewrite (step_terminated EvShutdown). apply orb_true_r. }
    eapply rsteps_cons; [by eapply Return|]. apply rsteps_nil.
  - cbn. f_equal. rewrite !run_cons_state in Hx. exact Hx.
Qed.

Lemma program_exit_code_witness :
  exit_code (main (P := go_crypto) (UP := demo_urls) [] [str "--no-qr"; str "--ttl"; str "soon"] demo_world)
  = 2%Z.
Proof.
  destruct (program_exit_code (UP := demo_urls) [] [str "--no-qr"; str "--ttl"; str "soon"] demo_world)
    as [(o & lc & ls & r & Ho & _)|[_ ->]]; [| |by vm_compute].
  - intros o Hf. exists demo_loop. by apply demo_outcome.
  - exfalso. revert Ho. vm_compute. intros H. by repeat (apply elem_of_cons in H as [?|H]; [done|]); apply elem_of_nil in H.
Defined.
