(* ===== verification/Soak.v ===== *)
(** * Soak: the load harness and its viewer

    Models runner/cmd/soak: main.go's Go viewer (the browser's role), one
    runner and viewer pair with its counters, the reconnect storm's request, and
    the report; rss.go's sampling of the relay's memory.  The socket, the
    clock, crypto/rand and /proc are inputs; a goroutine's loop is a function
    of what it receives. *)
From S2P Require Import Prelude Utf8 Wire Encodings Json GoTime Crypto Session.
From S2P Require Import Control Ring Screen Orch Sender Handlers Traces Access Refine.
From S2P Require Import RelayClient StdCrypto Scenario Authority Invariant.
From Stdlib Require Import Strings.Byte.

(** ** The viewer *)

Record viewer := mkViewer {
  v_open : Cipher;
  v_seal : Cipher;
  v_id : bytes;
  v_outSeq : Z
}.

Definition set_v_outSeq (x : Z) (v : viewer) : viewer := mkViewer (v_open v) (v_seal v) (v_id v) x.

(** What reading the socket gives: a message, or an error. *)
Inductive ws_event := WsMessage (binary : bool) (data : bytes) | WsError.

Inductive viewer_error := errConnRead | errConnOpen (e : crypto_error).

Section Code.
Context `{P : Primitives}.

(** read: what it returns, and what is left to read; [None] while it waits. *)
Fixpoint viewer_read (v : viewer) (ms : list ws_event)
    : option (result viewer_error (byte * bytes)) * list ws_event :=
  match ms with
  | [] => (None, [])
  | WsError :: ms => (Some (Err errConnRead), ms)
  | WsMessage false _ :: ms => viewer_read v ms
  | WsMessage true data :: ms =>
    (Some match Open (v_open v) data with
          | Err e => Err (errConnOpen e)
          | Ok (_, kind, payload) => Ok (kind, payload)
          end, ms)
  end.

(** send: the counter, and the frame to write; [rnd] is the nonce's bytes. *)
Definition viewer_send (v : viewer) (rnd : option bytes) (kind : byte) (payload : bytes)
    : viewer * result crypto_error bytes :=
  let v := set_v_outSeq (u64 (v_outSeq v + 1)) v in
  (v, Seal (v_seal v) rnd (v_outSeq v) kind (EncodeViewerPayload (v_id v) payload)).

(** ** A viewer session *)

(** What session's loop selects on. *)
Inductive session_event :=
| SDone                                         (* ctx.Done() *)
| SBounce                                       (* p.bounceCh *)
| SReadEnded                                    (* the reading goroutine's end *)
| STick (rnd : option bytes) (written : bool).  (* the ticker; does the write succeed *)

Inductive session_end :=
| EndDone | EndDial | EndRead (e : viewer_error) | EndHello (e : wire_error)
| EndSend | EndBounced | EndReadEnded | EndPanic.

Definition soak_ping : bytes := str "soak-ping" ++ [x0a].

(** The loop: the frames written, and how it ends; [None] while it runs. *)
Fixpoint session_loop (v : viewer) (evs : list session_event) : list bytes * option session_end :=
  match evs with
  | [] => ([], None)
  | SDone :: _ => ([], Some EndDone)
  | SBounce :: _ => ([], Some EndBounced)
  | SReadEnded :: _ => ([], Some EndReadEnded)
  | STick rnd written :: evs =>
    let '(v, r) := viewer_send v rnd KindInput soak_ping in
    match r with
    | Err _ => ([], Some EndSend)
    | Ok frame =>
      if written then
        let '(fs, e) := session_loop v evs in (frame :: fs, e)
      else ([], Some EndSend)
    end
  end.

(** The first frame read: a HELLO sets the counter just below its baseline. *)
Definition session_hello (v : viewer) (kind : byte) (payload : bytes) : result wire_error viewer :=
  if decide (kind = KindHello) then
    '(baseline, _, _) ← DecodeHello payload; Ok (set_v_outSeq (u64 (baseline - 1)) v)
  else Ok v.

(** session: [dialed] is whether the dial succeeds, [now] the clock, [ms] what
    the socket gives, [rnd] and [written] the control request's nonce and write. *)
Definition session (id : bytes) (keys : Keys) (dialed : bool) (now : Z) (ms : list ws_event)
    (rnd : option bytes) (written : bool) (evs : list session_event)
    : list bytes * option session_end :=
  if negb dialed then ([], Some EndDial)
  else
    match NewCipher (R2V keys) id, NewCipher (V2R keys) id with
    | Ok openC, Ok sealC =>
      let v := mkViewer openC sealC (str "viewer-" ++ itoa now) 0 in
      match (viewer_read v ms).1 with
      | None => ([], None)
      | Some (Err e) => ([], Some (EndRead e))
      | Some (Ok (kind, payload)) =>
        match session_hello v kind payload with
        | Err e => ([], Some (EndHello e))
        | Ok v =>
          let '(v, r) := viewer_send v rnd KindCtrlReq [] in
          match r with
          | Err _ => ([], Some EndSend)
          | Ok frame =>
            if written then
              let '(fs, e) := session_loop v evs in (frame :: fs, e)
            else ([], Some EndSend)
          end
        end
      end
    | _, _ => ([], Some EndPanic)     (* the nil cipher, used *)
    end.

(** The reading goroutine: the frames it counts, and whether it has ended; the
    fuel is the number of messages, and each read takes at least one. *)
Fixpoint reads (fuel : nat) (v : viewer) (ms : list ws_event) : nat * bool :=
  match fuel with
  | O => (0, false)
  | S fuel =>
    match viewer_read v ms with
    | (None, _) => (0, false)
    | (Some (Err _), _) => (0, true)
    | (Some (Ok _), ms) => let '(n, e) := reads fuel v ms in (S n, e)
    end
  end.

End Code.

(** ** One pair *)

(** atomic.Int64 counters. *)
Record stats := mkStats {
  sessions : Z;
  capRejects : Z;
  frames : Z;
  drops : Z;
  storms : Z;
  fatal : Z
}.

Definition stats0 : stats := mkStats 0 0 0 0 0 0.

(** One counter, and its Add(1): an int64 that wraps. *)
Inductive counter := CSessions | CCapRejects | CFrames | CDrops | CStorms | CFatal.
#[export] Instance counter_eq_dec : EqDecision counter.
Proof. solve_decision. Defined.

Definition count (c : counter) (s : stats) : stats :=
  let add d z := if decide (c = d) then i64 (z + 1) else z in
  mkStats (add CSessions (sessions s)) (add CCapRejects (capRejects s)) (add CFrames (frames s))
    (add CDrops (drops s)) (add CStorms (storms s)) (add CFatal (fatal s)).

(** bounceNow on the pair's channel, of capacity one: nil before the viewer's
    loop, then whether it holds a request. *)
Definition bounceNow (ch : option bool) : option bool :=
  match ch with None => None | Some _ => Some true end.

(** How many of [n] pairs a storm bounces, for a fraction of zero or more. *)
Definition storm_size (n : Z) (churnFrac : float64) : Z :=
  float_trunc (float_of_ratio (n * f_mant churnFrac) (2 ^ f_scale churnFrac)).

(** A storm over the pairs' channels; [picks] are the random indices drawn. *)
Definition storm (n : Z) (churnFrac : float64) (picks : list nat) (chs : list (option bool)) (st : stats)
    : list (option bool) * stats :=
  (foldl (fun chs i => alter bounceNow i chs) chs (take (Z.to_nat (storm_size n churnFrac)) picks),
   count CStorms st).

Example storm_default : storm_size 20 (mkFloat 1 2) = 5%Z.
Proof. vm_compute. reflexivity. Qed.

(** A fraction of at most one bounces at most as many pairs as there are. *)
Lemma storm_size_bound n f :
  (0 <= n -> 0 <= f_scale f -> 0 <= f_mant f <= 2 ^ f_scale f -> 0 <= storm_size n f <= n)%Z.
Proof.
  intros Hn Hs Hf. unfold storm_size. set (d := (2 ^ f_scale f)%Z) in *.
  assert (0 < d)%Z as Hd by by apply Z.pow_pos_nonneg.
  pose proof (scale_pos _ (float_of_ratio_scale (n * f_mant f) d)) as Hp.
  pose proof (float_of_ratio_ge (n * f_mant f) d 0 Hd ltac:(nia)) as H1.
  pose proof (float_of_ratio_le (n * f_mant f) d n Hd ltac:(nia)) as H2.
  unfold float_trunc. split; [apply Z.div_pos; lia|apply Z.div_le_upper_bound; lia].
Qed.

(** strings.Contains and strings.Replace(s, old, new, 1) *)
Fixpoint index_of (sub s : bytes) : option nat :=
  if decide (take (length sub) s = sub) then Some 0
  else match s with [] => None | _ :: s => option_map S (index_of sub s) end.

Definition contains (s sub : bytes) : bool := bool_decide (is_Some (index_of sub s)).

Definition replace1 (s old new : bytes) : bytes :=
  match index_of old s with
  | Some i => take i s ++ new ++ drop (i + length old) s
  | None => s
  end.

Definition ws_base (base : bytes) : bytes := replace1 base (str "http") (str "ws").

(** The harness's deterministic secret for pair [id]. *)
Definition soak_secret (id : Z) : bytes :=
  (fun i => byte_of_Z (Z.land (id * 31 + Z.of_nat i * 7) 255)) <$> seq 0 SecretLen.

Definition soak_config (keys : Keys) (s : SessionInfo) : Config :=
  mkConfig keys (ID s) (RunnerToken s) 0 false 0 ControlAuto false false false [].

Section Pair.
Context `{P : Primitives} `{UP : UrlPackage}.

(** The error of rand.Read is ignored: [rnd] is what the sixteen bytes hold
    after it. *)
Definition soak_randToken (rnd : bytes) : bytes := base64_rawurl rnd.

(** pair.run up to the viewer's loop: the counters it adds to, in order, and the
    session, its keys and its orchestrator when it gets there.  [id_rnd] and
    [tok_rnd] are the random bytes, [status_line] and [reason] the texts of the
    relay's status line and of net/http's or the decoder's error. *)
Definition pair_setup (base : bytes) (id : Z) (id_rnd tok_rnd : bytes) (http : http_result)
    (status_line reason : bytes) (started : bool)
    : list counter * option (SessionInfo * Keys * Orchestrator) :=
  match RelayClient.New base false with
  | Err _ => ([CFatal], None)
  | Ok client =>
    match (CreateSession client (soak_randToken id_rnd) (soak_randToken tok_rnd) (10 * Minute) http).2 with
    | Err e =>
      let err := create_error_Error status_line reason e in
      if contains err (str "capacity") || contains err (str "503")
      then ([CCapRejects], None) else ([CFatal], None)
    | Ok s =>
      match DeriveKeys (soak_secret id) (ID s) [] with
      | Err _ => ([CSessions; CFatal], None)
      | Ok keys =>
        match Start [str "cat"] started with
        | Err _ => ([CSessions; CFatal], None)
        | Ok psess =>
          let psess := (SetSize psess 80 24).1 in
          match Orch.New (soak_config keys s) psess with
          | Err _ => ([CSessions; CFatal], None)
          | Ok orch => ([CSessions], Some (s, keys, orch))
          end
        end
      end
    end
  end.

(** The end of a session, back in the loop: what is counted, [alive] being
    whether the context still lives; the drop is followed by a pause. *)
Definition session_counters (e : session_end) (alive : bool) : list counter :=
  match e with
  | EndDone => []
  | _ => if alive then [CDrops] else []
  end.

End Pair.

(** ** The relay's memory *)

(** The int a number's sign and digits give, as strconv.Atoi: 0 for a syntax
    error, the nearest int for a number out of range. *)
Definition Atoi (t : bytes) : option Z * Z :=
  let '(neg, ds) := match t with
                    | x2d :: ds => (true, ds)
                    | x2b :: ds => (false, ds)
                    | _ => (false, t)
                    end in
  if decide (ds <> [] /\ forallb is_digit ds) then
    let n := foldl (fun acc d => acc * 10 + (Z_of_byte d - 48))%Z 0%Z ds in
    let n := if neg : bool then (- n)%Z else n in
    if decide (- 2 ^ 63 <= n < 2 ^ 63)%Z then (Some n, n)
    else (None, if neg then - 2 ^ 63 else 2 ^ 63 - 1)%Z
  else (None, 0%Z).

(** strings.Fields: the runs of runes that are not spaces; [start] is where the
    current run began. *)
Fixpoint fields_from (s : bytes) (start : option nat) (rs : list (nat * Z)) : list bytes :=
  match rs with
  | [] => match start with Some i => [drop i s] | None => [] end
  | (i, r) :: rs =>
    if IsSpace r then
      match start with
      | Some j => slice s j i :: fields_from s None rs
      | None => fields_from s None rs
      end
    else fields_from s (Some (default i start)) rs
  end.
Definition Fields (s : bytes) : list bytes := fields_from s None (string_runes s).

(** strings.Split(s, "\n") *)
Fixpoint split_lines (s cur : bytes) : list bytes :=
  match s with
  | [] => [cur]
  | c :: s => if decide (c = x0a) then cur :: split_lines s [] else split_lines s (cur ++ [c])
  end.

(** rssKB, of what reading the status file gives. *)
Fixpoint rss_lines (lines : list bytes) : Z :=
  match lines with
  | [] => 0
  | line :: lines =>
    if decide (take 6 line = str "VmRSS:") then
      match Fields line with
      | _ :: kb :: _ => (Atoi kb).2
      | _ => rss_lines lines
      end
    else rss_lines lines
  end.
Definition rssKB (status : option bytes) : Z :=
  match status with Some data => rss_lines (split_lines data []) | None => 0 end.

(** findRelayPID over /proc's entries: the name, whether its comm reads as
    beam.smp, and its status. *)
Definition findRelayPID (entries : list (bytes * bool * option bytes)) : Z :=
  (foldl (fun '(best, bestKB) '(name, beam, status) =>
            match (Atoi name).1 with
            | Some pid =>
              if beam : bool then
                let kb := rssKB status in
                if decide (bestKB < kb)%Z then (pid, kb) else (best, bestKB)
              else (best, bestKB)
            | None => (best, bestKB)
            end) (0, 0)%Z entries).1.

(** The sampler's goroutine: it keeps samples until one is zero. *)
Fixpoint sample (kbs : list Z) (samplesKB : list Z) : list Z :=
  match kbs with
  | [] => samplesKB
  | kb :: kbs => if decide (kb = 0)%Z then samplesKB else sample kbs (samplesKB ++ [kb])
  end.

Definition leaked (samplesKB : list Z) : bool :=
  if decide (length samplesKB < 8) then false
  else
    let warm := default 0%Z (samplesKB !! (length samplesKB / 4)) in
    let last := default 0%Z (samplesKB !! (length samplesKB - 1)) in
    bool_decide (0 < warm /\ i64 (warm * 2) < last)%Z.

(** Go's integer division rounds towards zero. *)
Definition rss_report (pid : Z) (samplesKB : list Z) : bytes :=
  match samplesKB with
  | [] => str "  relay RSS          not sampled (relay not local)" ++ [x0a]
  | s0 :: _ =>
    if decide (pid = 0)%Z then str "  relay RSS          not sampled (relay not local)" ++ [x0a]
    else
      let '(min, max) := foldl (fun '(min, max) v =>
                             (if decide (v < min)%Z then v else min,
                              if decide (max < v)%Z then v else max)) (s0, s0) samplesKB in
      let final := default 0%Z (samplesKB !! (length samplesKB - 1)) in
      str "  relay RSS (pid " ++ itoa pid ++ str ") min " ++ itoa (Z.quot min 1024) ++ str " MB  max "
      ++ itoa (Z.quot max 1024) ++ str " MB  final " ++ itoa (Z.quot final 1024) ++ str " MB  ("
      ++ itoa (Z.of_nat (length samplesKB)) ++ str " samples)" ++ [x0a]
  end.

(** ** The report *)

Definition line (label : bytes) (n : Z) : bytes := label ++ itoa n ++ [x0a].

(** [printed] and [judged] are the samples when rss.report and rss.leaked read
    them: the sampler may add one in between. *)
Definition report (s : stats) (pid : Z) (printed judged : list Z) (n : Z) : bytes :=
  str "── soak report ──────────────────────────────" ++ [x0a]
  ++ line (str "  target pairs       ") n
  ++ line (str "  sessions created   ") (sessions s)
  ++ line (str "  cap rejects (503)  ") (capRejects s)
  ++ line (str "  frames decrypted   ") (frames s)
  ++ str "  reconnect drops    " ++ itoa (drops s) ++ str "  over " ++ itoa (storms s)
  ++ str " storms" ++ [x0a]
  ++ line (str "  fatal errors       ") (fatal s)
  ++ rss_report pid printed
  ++ (if decide (fatal s = 0%Z /\ leaked judged = false)
      then str "  RESULT: ok (no crash; cap held; memory bounded)" else str "  RESULT: FAIL")
  ++ [x0a].

(** main's exit status once the pairs have ended. *)
Definition soak_exit (s : stats) (samplesKB : list Z) : Z :=
  if bool_decide (0 < fatal s)%Z || leaked samplesKB then 1%Z else 0%Z.

(** [env] is os.Getenv("ONLYTTY_SERVER"); [status] the answer to GET /healthz. *)
Definition serverBase (env : bytes) : bytes :=
  if decide (env <> []) then env else str "http://127.0.0.1:4000".
Definition healthy (status : option Z) : bool := bool_decide (status = Some 200%Z).

Example rssKB_ex :
  rssKB (Some (str "Name:" ++ [x09] ++ str "beam.smp" ++ [x0a] ++ str "VmRSS:" ++ [x09]
               ++ str "  123456 kB" ++ [x0a])) = 123456%Z.
Proof. vm_compute. reflexivity. Qed.
Example ws_base_ex : ws_base (str "http://127.0.0.1:4000") = str "ws://127.0.0.1:4000".
Proof. vm_compute. reflexivity. Qed.

(** ** Delivery *)

(** Frames through the relay: each wrapped under some label, other events of
    the runner in between. *)
Definition deliver (gaps : list (list event * bytes)) (fs : list bytes) : list event :=
  concat (zip_with (fun g f => g.1 ++ [EvMessage false (EncodeRelayViewerFrame g.2 f)]) gaps fs).

(** Events that concern neither viewers nor the host's terminal. *)
Definition background (e : event) : bool :=
  match e with
  | EvClock _ | EvSender _ _ | EvOutput _ | EvKeepalive => true
  | _ => false
  end.

Section Facts.
Context `{L : PrimitivesLaws} `{E : Env}.

(** The state in which [v] holds control and has sent up to [seq]. *)
Definition holds (v : bytes) (seq : Z) (c : Cipher) (o : Orchestrator) : Prop :=
  conn o <> None /\ v2r o = c /\ controlOwner (vs o) = v /\ floor (vs o) v = seq.

Lemma step_keeps_conn e o :
  background e = true \/ (exists data, e = EvMessage false data) ->
  conn o <> None -> conn (state_of (step e) o) <> None.
Proof.
  intros He Hc.
  assert (conn_evolves o (state_of (step e) o)) as H.
  { by destruct e; destruct He as [?|[? ?]]; try done; apply step_evolves_wp. }
  unfold conn_evolves in H. destruct (conn o); [|done]. by destruct (conn (state_of _ _)).
Qed.

(** Background events leave the viewers' side and the pty alone. *)
Lemma background_run es o :
  Forall (fun e => background e = true) es -> conn o <> None ->
  let o' := state_of (run es) o in
  conn o' <> None /\ v2r o' = v2r o /\ vs o' = vs o /\ mode_of o' = mode_of o /\
  pty_calls (effects_of (run es) o) = [].
Proof.
  intros Hes. revert o. induction Hes as [|e es He _ IH]; intros o Hc; [done|].
  cbv zeta. rewrite run_cons_state, run_cons_effects, pty_calls_app, step_pty.
  destruct (IH (state_of (step e) o)) as (H1 & H2 & H3 & H4 & ->); [apply step_keeps_conn; auto|].
  destruct (step_config e o) as (H5 & _ & H6). split; [done|]. split; [by rewrite H2|].
  split; [|split]; [rewrite H3, step_vs; by destruct e|by rewrite H4, mode_step|].
  by destruct e.
Qed.

(** A frame sealed by [v] and relayed under any label is read as what it is. *)
Lemma read_sealed c route v seq kind payload nonce :
  valid_id route -> valid_id v -> (0 <= seq < 2 ^ 64)%Z -> length nonce = nonceLen ->
  read_frame c (EncodeRelayViewerFrame route
    (sealWithNonce c nonce seq kind (EncodeViewerPayload v payload)))
  = Some (mkFrame route v seq kind payload).
Proof. intros. apply read_frame_exactly. split; [done|]. by exists nonce. Qed.

(** One fresh frame of [v]. *)
Definition relayed (c : Cipher) (route v : bytes) (seq : Z) (kind : byte) (payload nonce : bytes)
    : event :=
  EvMessage false (EncodeRelayViewerFrame route
    (sealWithNonce c nonce seq kind (EncodeViewerPayload v payload))).

Lemma relayed_step route v seq kind payload nonce o :
  valid_id route -> valid_id v -> length nonce = nonceLen -> conn o <> None ->
  (0 <= floor (vs o) v < seq)%Z -> (seq < 2 ^ 64)%Z ->
  let e := relayed (v2r o) route v seq kind payload nonce in
  let f := mkFrame route v seq kind payload in
  let o' := state_of (step e) o in
  conn o' <> None /\ v2r o' = v2r o /\ mode_of o' = mode_of o /\
  vs o' = frame_viewers (mode_of o) f (vs o) /\
  pty_calls (effects_of (step e) o) = (request_session v (frame_request f) (vs o) (sess o)).2.
Proof.
  intros Hr Hv Hn Hc Hf Hs e f o'.
  assert (read_frame (v2r o) (EncodeRelayViewerFrame route
    (sealWithNonce (v2r o) nonce seq kind (EncodeViewerPayload v payload))) = Some f) as Hread
    by (apply read_sealed; [done..|lia|done]).
  split; [apply step_keeps_conn; [right; by eexists|done]|].
  split; [apply step_config|]. split; [apply mode_step|]. unfold o'.
  rewrite step_vs, step_pty. unfold e, relayed. cbn [host_after step_calls].
  destruct (conn o) as [cn|]; [|done]. rewrite Hread. unfold frame_after. simpl vf_seq. simpl vf_viewer.
  by rewrite !decide_False by lia.
Qed.

Lemma accept_floor v r w seq st :
  (floor st v < seq)%Z -> floor (bindRoute r w (acceptSeq v seq st).2) v = seq.
Proof.
  intros H. unfold acceptSeq. rewrite decide_False by lia. unfold floor. simpl.
  by rewrite lookup_insert_eq.
Qed.

(** A free session is taken. *)
Lemma take_step route v seq nonce o :
  valid_id route -> valid_id v -> length nonce = nonceLen -> conn o <> None ->
  mode_of o = ControlAuto -> controlOwner (vs o) = [] ->
  (0 <= floor (vs o) v < seq)%Z -> (seq < 2 ^ 64)%Z ->
  let e := relayed (v2r o) route v seq KindCtrlReq [] nonce in
  holds v seq (v2r o) (state_of (step e) o) /\ pty_calls (effects_of (step e) o) = [].
Proof.
  intros Hr Hv Hn Hc Hm Ho Hf Hs e.
  destruct (relayed_step route v seq KindCtrlReq [] nonce o) as (H1 & H2 & H3 & H4 & H5);
    [done..|lia|lia|]. fold e in H1, H2, H3, H4, H5.
  split; [|done]. unfold holds. rewrite H2, H4. split; [done|]. split; [done|].
  unfold frame_viewers. cbn [vf_viewer vf_route vf_seq]. rewrite Hm.
  pose proof (accept_floor v route v seq (vs o) ltac:(lia)) as Hfl.
  assert (controlOwner (bindRoute route v (acceptSeq v seq (vs o)).2) = []) as Hfree.
  { unfold acceptSeq. by rewrite decide_False by lia. }
  set (st := bindRoute route v (acceptSeq v seq (vs o)).2) in *.
  change (frame_request _) with RTake. simpl. unfold request_section.
  apply valid_id_nonempty in Hv.
  rewrite decide_False by congruence. rewrite decide_False by (by intros ?).
  rewrite decide_False by naive_solver. done.
Qed.

(** The owner's input is typed. *)
Lemma input_step route v seq c payload nonce o :
  valid_id route -> valid_id v -> length nonce = nonceLen -> holds v seq c o ->
  (0 <= seq)%Z -> (seq + 1 < 2 ^ 64)%Z ->
  let e := relayed c route v (seq + 1) KindInput payload nonce in
  holds v (seq + 1) c (state_of (step e) o) /\
  pty_calls (effects_of (step e) o) = [PtyWrite payload].
Proof.
  intros Hr Hv Hn (Hc & <- & Ho & Hf) H0 Hs e.
  destruct (relayed_step route v (seq + 1) KindInput payload nonce o) as (H1 & H2 & H3 & H4 & H5);
    [done..|lia|lia|]. fold e in H1, H2, H3, H4, H5. unfold holds.
  rewrite H2, H4, H5. split; [split; [done|]; split; [done|]|].
  - unfold frame_viewers. change (frame_request _) with (RInput payload). simpl. split.
    + unfold acceptSeq. by rewrite decide_False by lia.
    + apply (accept_floor v route v (seq + 1)). lia.
  - change (frame_request _) with (RInput payload). simpl. unfold viewerHasControl.
    by rewrite Ho, bool_decide_eq_true_2.
Qed.

Lemma holds_background v seq c es o :
  Forall (fun e => background e = true) es -> holds v seq c o ->
  holds v seq c (state_of (run es) o) /\ pty_calls (effects_of (run es) o) = [].
Proof.
  intros Hes (H1 & H2 & H3 & H4).
  destruct (background_run es o) as (K1 & K2 & K3 & _ & K5); [done..|].
  unfold holds. by rewrite K2, K3, K5.
Qed.

Lemma New_ciphers c s o :
  Orch.New c s = Ok o ->
  NewCipher (R2V (Config_Keys c)) (Config_SessionID c) = Ok (r2v o) /\
  NewCipher (V2R (Config_Keys c)) (Config_SessionID c) = Ok (v2r o) /\ cfg o = c.
Proof.
  unfold Orch.New. destruct (NewCipher (R2V _) _) as [c1|]; [|done]. simpl.
  destruct (NewCipher (V2R _) _) as [c2|]; [|done]. simpl. by intros <-%(inj Ok).
Qed.

Definition gap_ok (g : list event * bytes) : Prop :=
  Forall (fun e => background e = true) g.1 /\ valid_id g.2.

Lemma deliver_cons bg route gaps frame fs :
  deliver ((bg, route) :: gaps) (frame :: fs)
  = bg ++ EvMessage false (EncodeRelayViewerFrame route frame) :: deliver gaps fs.
Proof. unfold deliver. simpl. by rewrite <- (assoc_L (++)). Qed.

Definition ticks (nonces : list bytes) : list session_event :=
  (fun n => STick (Some n) true) <$> nonces.

(** The loop's frames are typed, one by one, while its viewer holds control. *)
Lemma pings_typed nonces gaps v o :
  Forall (fun n => length n = nonceLen) nonces -> Forall gap_ok gaps ->
  length gaps = length nonces -> valid_id (v_id v) ->
  holds (v_id v) (v_outSeq v) (v_seal v) o ->
  (0 <= v_outSeq v)%Z -> (v_outSeq v + Z.of_nat (length nonces) < 2 ^ 64)%Z ->
  exists fs, session_loop v (ticks nonces) = (fs, None) /\ length fs = length nonces /\
    pty_calls (effects_of (run (deliver gaps fs)) o) = replicate (length nonces) (PtyWrite soak_ping).
Proof.
  intros Hns Hgs Hl Hv. revert gaps Hgs Hl v Hv o.
  induction Hns as [|nonce nonces Hn _ IH]; intros gaps Hgs Hl v Hv o Ho H0 Hs;
    [by exists []; destruct gaps|].
  destruct Hgs as [|[bg route] gaps [Hbg Hr] Hgs]; [done|]. simpl in Hl, Hbg, Hr.
  set (v' := set_v_outSeq (v_outSeq v + 1) v).
  destruct (holds_background _ _ _ _ _ Hbg Ho) as [Ho1 Hp1].
  destruct (input_step route (v_id v) (v_outSeq v) (v_seal v) soak_ping nonce (state_of (run bg) o))
    as [Ho2 Hp2]; [done..|simpl length in Hs; lia|].
  destruct (IH gaps Hgs ltac:(lia) v' Hv _ Ho2) as (fs & Hf & Hlf & Hp3);
    [simpl; lia|simpl length in Hs; simpl; lia|].
  eexists. unfold ticks. rewrite fmap_cons. cbn [session_loop]. unfold viewer_send.
  assert (u64 (v_outSeq v + 1) = v_outSeq v + 1)%Z as ->
    by (unfold u64; apply Z.mod_small; simpl length in Hs; lia).
  fold v'. unfold Seal. simpl. fold (ticks nonces). rewrite Hf. split; [reflexivity|].
  split; [simpl; lia|].
  rewrite deliver_cons. set (e := EvMessage _ _).
  change e with (relayed (v_seal v) route (v_id v) (v_outSeq v + 1) KindInput soak_ping nonce).
  by rewrite run_app_effects, run_cons_effects, !pty_calls_app, Hp1, Hp2, Hp3.
Qed.

End Facts.

(** ** A concrete run *)

Definition demo_info : SessionInfo := mkSessionInfo vector_id (str "token") 0.

(** The harness's orchestrator with a runner socket, and what its repaint
    greets a new viewer with. *)
Definition demo_soak : Orchestrator :=
  mkOrch (soak_config vector_keys demo_info) (mkCipher (R2V vector_keys) vector_id)
    (mkCipher (V2R vector_keys) vector_id) demo_session (NewRing ringBytes) screen0 0 viewers0 0
    (-1) None false 0 0 0.

(** ** Properties *)

(** C18. The harness's viewer drives the runner end to end: against a connected
    runner whose control is free, a Go viewer that reads a HELLO with any
    baseline above the runner's floor for it asks for control and then types;
    relayed under any labels, with the runner's own events in between, its
    frames are all accepted and every ping reaches the pty, in order and once. *)
Theorem soak_viewer_types `{E : Env} `{L : PrimitivesLaws}
    keys info psess o0 es now cn hn hseq b cols rows (nonces : list bytes) gaps :
  let o := state_of (run es) o0 in
  let v := str "viewer-" ++ itoa now in
  let hello := sealWithNonce (r2v o) hn hseq KindHello (EncodeHello b cols rows) in
  Orch.New (soak_config keys info) psess = Ok o0 ->
  conn o <> None -> controlOwner (vs o) = [] -> valid_id v ->
  (0 <= floor (vs o) v < b)%Z -> (b + Z.of_nat (length nonces) < 2 ^ 64)%Z ->
  (0 <= hseq < 2 ^ 64)%Z -> (0 <= cols < 2 ^ 16)%Z -> (0 <= rows < 2 ^ 16)%Z ->
  Forall (fun n => length n = nonceLen) (hn :: cn :: nonces) ->
  Forall gap_ok gaps -> length gaps = S (length nonces) ->
  exists fs,
    session (ID info) keys true now [WsMessage true hello] (Some cn) true (ticks nonces)
      = (fs, None) /\
    length fs = S (length nonces) /\
    pty_calls (effects_of (run (deliver gaps fs)) o)
      = replicate (length nonces) (PtyWrite soak_ping).
Proof.
  intros o v hello HN Hc Hfree Hv Hf Hs Hhs Hcols Hrows Hns Hgs Hl.
  apply Forall_cons in Hns as [Hhn Hns]. apply Forall_cons in Hns as [Hcn Hns].
  destruct gaps as [|[bg route] gaps]; [done|]. apply Forall_cons in Hgs as [[Hbg Hr] Hgs].
  simpl in Hl, Hbg, Hr. apply (inj S) in Hl.
  destruct (run_config es o0) as (Hcfg & Hr2v & Hv2r). fold o in Hcfg, Hr2v, Hv2r.
  apply New_ciphers in HN as (HN1 & HN2 & HN3).
  assert (mode_of o = ControlAuto) as Hm by (unfold mode_of; by rewrite Hcfg, HN3).
  destruct (background_run bg o) as (K1 & K2 & K3 & K4 & K5); [done..|].
  destruct (take_step route v b cn (state_of (run bg) o)) as [Ho2 Hp2];
    [done|done|done|done|by rewrite K4|by rewrite K3|by rewrite K3|lia|].
  rewrite K2 in Ho2, Hp2.
  set (vw := mkViewer (r2v o) (v2r o) v b).
  destruct (pings_typed nonces gaps vw _ Hns Hgs Hl Hv Ho2) as (fs & Hfs & Hlf & Hp3);
    [simpl; lia..|].
  eexists. split; [|split; [shelve|]].
  - unfold session. fold v. clearbody v. simpl in HN1, HN2. rewrite HN1, HN2, <- Hr2v, <- Hv2r. simpl.
    unfold hello. rewrite Open_sealWithNonce by done.
    unfold session_hello. rewrite decide_True by done.
    rewrite <- (app_nil_r (EncodeHello b cols rows)), DecodeHello_EncodeHello by (done || lia).
    simpl. unfold viewer_send, set_v_outSeq. simpl.
    assert (u64 (u64 (b - 1) + 1) = b) as ->.
    { unfold u64. rewrite (Z.mod_small (b - 1)), Z.mod_small by lia. lia. }
    unfold Seal. simpl. fold vw. rewrite Hfs. reflexivity.
  - rewrite deliver_cons. set (e := EvMessage _ _).
    change e with (relayed (v2r o) route v b KindCtrlReq [] cn).
    by rewrite run_app_effects, run_cons_effects, !pty_calls_app, K5, Hp2, Hp3.
  Unshelve. simpl. lia.
Qed.

Lemma soak_viewer_types_witness :
  exists fs, length fs = 2 /\
    pty_calls (effects_of (run (deliver [([], str "r1"); ([EvKeepalive], str "r2")] fs))
                 (state_of (run [EvConnect]) demo_soak)) = [PtyWrite soak_ping].
Proof.
  destruct (soak_viewer_types vector_keys demo_info demo_session demo_soak [EvConnect] 5
    (make_bytes 12) (make_bytes 12) 1 1 80 24 [make_bytes 12]
    [([], str "r1"); ([EvKeepalive], str "r2")])
    as (fs & _ & Hl & Hp);
    [reflexivity|done|done|by apply (bool_decide_unpack (valid_id _)); vm_compute
    |by split; vm_compute|by vm_compute|lia|lia|lia|..].
  - repeat constructor.
  - apply Forall_cons. split; [split; [constructor|by apply (bool_decide_unpack (valid_id _)); vm_compute]|].
    apply Forall_cons. split; [|constructor].
    split; [repeat constructor|by apply (bool_decide_unpack (valid_id _)); vm_compute].
  - done.
  - by exists fs.
Defined.
