(* ===== verification/Harness.v ===== *)
(** * Harness: the load harness as a whole

    Models main of runner/cmd/soak/main.go from its parsed flags on, with
    startRSSSampler of rss.go: the pairs' goroutines, the viewers' readers, the
    reconnect storm and the deadline as steps in any interleaving over the shared
    atomic counters, then the report and the exit status.  What a pair meets on
    its way to a session (Soak.pair_setup) and how its sessions end are inputs. *)
From S2P Require Import Prelude Utf8 Encodings Json GoTime Crypto Session Control Orch.
From S2P Require Import RelayClient StdCrypto Cli Soak.
From Stdlib Require Import Strings.Byte.

(** ** Pairs *)

(** Where a pair is: with counters to add to on its way to [next], its session
    ready, at the loop's head, in a session, returned. *)
Inductive pair_pc :=
| PCount (cs : list counter) (next : pair_pc)
| PReady
| PLoop
| PSession
| PEnded.

(** What a pair meets on its way to a session. *)
Record pair_world := mkPairWorld {
  pw_id_rnd : bytes;
  pw_tok_rnd : bytes;
  pw_http : http_result;
  pw_status_line : bytes;
  pw_reason : bytes;
  pw_started : bool
}.

(** Where pair [i] starts: with the counters of its setup to add to. *)
Definition pair_start `{P : Primitives} `{UP : UrlPackage} (base : bytes) (i : nat) (w : pair_world)
    : pair_pc :=
  let r := pair_setup base (Z.of_nat i) (pw_id_rnd w) (pw_tok_rnd w) (pw_http w) (pw_status_line w)
             (pw_reason w) (pw_started w) in
  PCount r.1 (match r.2 with Some _ => PReady | None => PEnded end).

Record hstate := mkHState {
  h_done : bool;                  (* the deadline has passed *)
  h_stats : stats;
  h_pairs : list pair_pc;
  h_chs : list (option bool);     (* the pairs' bounce channels *)
  h_storming : bool               (* the storm's goroutine runs *)
}.

Definition set_pair (i : nat) (pc : pair_pc) (s : hstate) : hstate :=
  mkHState (h_done s) (h_stats s) (<[ i := pc ]> (h_pairs s)) (h_chs s) (h_storming s).
Definition set_ch (i : nat) (ch : option bool) (s : hstate) : hstate :=
  mkHState (h_done s) (h_stats s) (h_pairs s) (<[ i := ch ]> (h_chs s)) (h_storming s).
Definition add_count (c : counter) (s : hstate) : hstate :=
  mkHState (h_done s) (count c (h_stats s)) (h_pairs s) (h_chs s) (h_storming s).

(** Who moves. *)
Inductive hlabel := LPair | LReader | LStorm | LStormEnd | LDeadline.

Section Machine.
Context (churnFrac : float64).

Inductive hstep (s : hstate) : hlabel -> hstate -> Prop :=
(* a counter's Add(1) *)
| HCount i c cs next :
    h_pairs s !! i = Some (PCount (c :: cs) next) ->
    hstep s LPair (add_count c (set_pair i (PCount cs next) s))
| HNext i next :
    h_pairs s !! i = Some (PCount [] next) -> hstep s LPair (set_pair i next s)
(* p.bounceCh = make(chan struct{}, 1) *)
| HReady i :
    h_pairs s !! i = Some PReady -> hstep s LPair (set_ch i (Some false) (set_pair i PLoop s))
(* for ctx.Err() == nil *)
| HEnter i :
    h_pairs s !! i = Some PLoop -> h_done s = false -> hstep s LPair (set_pair i PSession s)
| HLeave i :
    h_pairs s !! i = Some PLoop -> h_done s = true -> hstep s LPair (set_pair i PEnded s)
(* session returns: nil once the context is done; a bounce takes the request *)
| HReturn i e :
    h_pairs s !! i = Some PSession -> (e = EndDone -> h_done s = true) -> e <> EndPanic ->
    (e = EndBounced -> h_chs s !! i = Some (Some true)) ->
    hstep s LPair
      ((match e with EndBounced => set_ch i (Some false) | _ => id end)
         (set_pair i (PCount (session_counters e (negb (h_done s))) PLoop) s))
(* a session's reading goroutine; it may outlive the session *)
| HFrame i b :
    h_chs s !! i = Some (Some b) -> hstep s LReader (add_count CFrames s)
(* a tick of the storm's ticker *)
| HStorm picks :
    h_storming s = true -> Forall (fun i => i < length (h_pairs s)) picks ->
    let r := storm (Z.of_nat (length (h_pairs s))) churnFrac picks (h_chs s) (h_stats s) in
    hstep s LStorm (mkHState (h_done s) r.2 (h_pairs s) r.1 true)
| HStormEnd :
    h_storming s = true -> h_done s = true ->
    hstep s LStormEnd (mkHState (h_done s) (h_stats s) (h_pairs s) (h_chs s) false)
(* context.WithTimeout *)
| HDeadline :
    hstep s LDeadline (mkHState true (h_stats s) (h_pairs s) (h_chs s) (h_storming s)).

Inductive hrun (s0 : hstate) : list hlabel -> hstate -> Prop :=
| hrun_nil : hrun s0 [] s0
| hrun_snoc ls s l s' : hrun s0 ls s -> hstep s l s' -> hrun s0 (ls ++ [l]) s'.

End Machine.

(** The pairs' goroutines started, and the storm's when churn is positive. *)
Definition harness_start `{P : Primitives} `{UP : UrlPackage} (base : bytes) (ws : list pair_world)
    (churn : Z) : hstate :=
  mkHState false stats0 (imap (pair_start base) ws) (replicate (length ws) None) (bool_decide (0 < churn)%Z).

(** wg.Wait() returns. *)
Definition all_ended (s : hstate) : Prop :=
  Forall (fun pc => pc = PEnded) (h_pairs s) /\ h_storming s = false.

(** ** main *)

Record SoakFlags := mkSoakFlags {
  sf_n : Z;
  sf_duration : Z;
  sf_churn : Z;
  sf_churnFrac : float64;
  sf_base : bytes
}.

(** fmt's %.0f of churnFrac*100 *)
Definition percent (f : float64) : bytes :=
  let p := float_of_ratio (f_mant f * 100) (2 ^ f_scale f) in
  itoa (round_even (f_mant p) (2 ^ f_scale p)).

Definition soak_banner (f : SoakFlags) : bytes :=
  str "soak: " ++ itoa (sf_n f) ++ str " pairs for " ++ duration_String (sf_duration f) ++ str " against "
  ++ sf_base f ++ str " (churn " ++ duration_String (sf_churn f) ++ str ", " ++ percent (sf_churnFrac f)
  ++ str "%)" ++ [x0a].

Definition soak_unreachable (base : bytes) : bytes :=
  str "soak: relay not reachable at " ++ base ++ str " — run `make soak` or start one" ++ [x0a].

Inductive soak_output := SoakStdout (s : bytes) | SoakStderr (s : bytes).

(** What main writes and its exit status, given the answer to GET /healthz, what
    each pair meets, and the memory samples when rss.report, the
    report's rss.leaked and main's read them.  make panics on a negative
    length, and a panic exits with 2. *)
Inductive soak_main `{P : Primitives} `{UP : UrlPackage} (f : SoakFlags) (status : option Z)
    (ws : list pair_world) (pid : Z) (printed judged final : list Z) : list soak_output -> Z -> Prop :=
| MainUnreachable :
    healthy status = false ->
    soak_main f status ws pid printed judged final [SoakStderr (soak_unreachable (sf_base f))] 1
| MainPanics :
    healthy status = true -> (sf_n f < 0)%Z ->
    soak_main f status ws pid printed judged final [SoakStdout (soak_banner f)] 2
| MainReports ls s :
    healthy status = true -> sf_n f = Z.of_nat (length ws) ->
    hrun (sf_churnFrac f) (harness_start (sf_base f) ws (sf_churn f)) ls s -> all_ended s ->
    soak_main f status ws pid printed judged final
      [SoakStdout (soak_banner f); SoakStdout (report (h_stats s) pid printed judged (sf_n f))]
      (soak_exit (h_stats s) final).

(** startRSSSampler: the pid, and the goroutine's samples of what the status
    file gives, second by second. *)
Definition startRSSSampler (entries : list (bytes * bool * option bytes)) (ticks : list (option bytes))
    : Z * list Z :=
  let pid := findRelayPID entries in
  if decide (pid = 0)%Z then (pid, []) else (pid, sample (rssKB <$> ticks) []).

(** ** Lemmas *)

Definition stat (c : counter) (st : stats) : Z :=
  match c with
  | CSessions => sessions st | CCapRejects => capRejects st | CFrames => frames st
  | CDrops => drops st | CStorms => storms st | CFatal => fatal st
  end.

Lemma stat_count c d st : stat c (count d st) = if decide (d = c) then i64 (stat c st + 1) else stat c st.
Proof. by destruct c, d. Qed.

(** How many times a pair is still to add to a counter before its loop. *)
Definition times (c : counter) (cs : list counter) : nat := length (filter (fun d => d = c) cs).
Fixpoint owed (c : counter) (pc : pair_pc) : nat :=
  match pc with PCount cs next => times c cs + owed c next | _ => 0 end.
Definition all_owed (c : counter) (s : hstate) : nat := sum_list_with (owed c) (h_pairs s).

(** The counters of a setup. *)
Definition setup_counter (c : counter) : Prop := c = CSessions \/ c = CCapRejects \/ c = CFatal.

Lemma times_cons c d cs : times c (d :: cs) = (if decide (d = c) then 1 else 0) + times c cs.
Proof. unfold times. rewrite filter_cons. by case_decide. Qed.

Lemma session_counters_owed c e alive : setup_counter c -> times c (session_counters e alive) = 0.
Proof. intros [-> | [-> | ->]]; by destruct e, alive. Qed.

(** What is counted and what is still owed make a constant sum. *)
Definition balanced (c : counter) (total : nat) (s : hstate) : Prop :=
  (0 <= stat c (h_stats s))%Z /\ (stat c (h_stats s) + Z.of_nat (all_owed c s) = Z.of_nat total)%Z.

Lemma owed_set_pair c i pc pc' s :
  h_pairs s !! i = Some pc -> all_owed c (set_pair i pc' s) + owed c pc = all_owed c s + owed c pc'.
Proof. intros H. unfold all_owed. simpl. by apply sum_list_with_insert. Qed.

Lemma balanced_move c total i pc pc' s s' :
  h_pairs s !! i = Some pc -> owed c pc' = owed c pc -> all_owed c s' = all_owed c (set_pair i pc' s) ->
  stat c (h_stats s') = stat c (h_stats s) -> balanced c total s -> balanced c total s'.
Proof.
  intros Hi Ho Hs Hst [H1 H2]. unfold balanced. rewrite Hs, Hst. split; [done|].
  pose proof (owed_set_pair c i pc pc' s Hi). lia.
Qed.

Lemma balanced_step f c total s l s' :
  setup_counter c -> (Z.of_nat total < 2 ^ 63)%Z -> balanced c total s -> hstep f s l s' ->
  balanced c total s'.
Proof.
  intros Hc Ht Hb Hs. destruct Hs as [i d cs next Hi|i next Hi|i Hi|i Hi _|i Hi _|i e Hi _ _ _|i b Hi|picks _ _ r| | ].
  - destruct Hb as [H1 H2]. pose proof (owed_set_pair c i _ (PCount cs next) s Hi) as Ho.
    simpl in Ho. rewrite times_cons in Ho. unfold balanced.
    change (all_owed c (add_count d (set_pair i (PCount cs next) s)))
      with (all_owed c (set_pair i (PCount cs next) s)).
    simpl h_stats. rewrite stat_count. case_decide; [rewrite i64_small by lia; lia|lia].
  - by eapply (balanced_move c total i _ next).
  - by eapply (balanced_move c total i _ PLoop).
  - by eapply (balanced_move c total i _ PSession).
  - by eapply (balanced_move c total i _ PEnded).
  - eapply (balanced_move c total i _ (PCount (session_counters e (negb (h_done s))) PLoop)); [done| | | |done].
    + simpl. by rewrite session_counters_owed.
    + by destruct e.
    + by destruct e.
  - destruct Hb as [H1 H2]. unfold balanced. simpl h_stats.
    rewrite stat_count. by rewrite decide_False by (destruct Hc as [-> | [-> | ->]]; done).
  - destruct Hb as [H1 H2]. unfold balanced. simpl h_stats.
    rewrite stat_count. by rewrite decide_False by (destruct Hc as [-> | [-> | ->]]; done).
  - done.
  - done.
Qed.

Lemma hrun_balanced f c total s0 ls s :
  setup_counter c -> (Z.of_nat total < 2 ^ 63)%Z -> balanced c total s0 -> hrun f s0 ls s ->
  balanced c total s.
Proof. intros. induction H2; [done|]. by eapply balanced_step. Qed.

Lemma all_ended_owed c s : Forall (fun pc => pc = PEnded) (h_pairs s) -> all_owed c s = 0.
Proof.
  unfold all_owed. generalize (h_pairs s). induction 1 as [|pc pcs -> _ IH]; [done|]. simpl. lia.
Qed.

(** What a setup counts: a session or a rejection, at most one of them, or a
    fatal error, at most one, perhaps after a session. *)
Definition shape (pc : pair_pc) : Prop :=
  owed CSessions pc + owed CCapRejects pc <= 1 /\
  1 <= owed CSessions pc + owed CCapRejects pc + owed CFatal pc /\ owed CFatal pc <= 1.

Lemma shapes_sum pcs :
  Forall shape pcs ->
  sum_list_with (owed CSessions) pcs + sum_list_with (owed CCapRejects) pcs <= length pcs /\
  length pcs <= sum_list_with (owed CSessions) pcs + sum_list_with (owed CCapRejects) pcs
                + sum_list_with (owed CFatal) pcs /\
  sum_list_with (owed CFatal) pcs <= length pcs.
Proof.
  induction 1 as [|pc pcs (H1 & H2 & H3) _ IH]; [by split_and!|]. simpl.
  destruct IH as (IH1 & IH2 & IH3). split_and!; lia.
Qed.

Section Code.
Context `{P : Primitives} `{UP : UrlPackage}.

Lemma pair_start_shape base i w : shape (pair_start base i w).
Proof.
  assert (forall r, r = pair_setup base (Z.of_nat i) (pw_id_rnd w) (pw_tok_rnd w) (pw_http w)
    (pw_status_line w) (pw_reason w) (pw_started w) ->
    r.1 = [CFatal] \/ r.1 = [CCapRejects] \/ r.1 = [CSessions; CFatal] \/ r.1 = [CSessions]) as H.
  { intros r ->. unfold pair_setup. repeat case_match; simpl; auto. }
  unfold pair_start, shape. cbn [owed]. destruct (H _ eq_refl) as [-> | [-> | [-> | ->]]];
    destruct (pair_setup _ _ _ _ _ _ _ _).2; clear; vm_compute; lia.
Qed.

Lemma pair_starts_shape base ws : Forall shape (imap (pair_start base) ws).
Proof.
  apply Forall_lookup. intros i pc. rewrite list_lookup_imap, fmap_Some.
  intros (w & _ & ->). apply pair_start_shape.
Qed.

(** How many of the pairs' setups count [c]. *)
Definition setups_total (base : bytes) (ws : list pair_world) (c : counter) : nat :=
  sum_list_with (owed c) (imap (pair_start base) ws).

Lemma setups_total_bound base ws c : setup_counter c -> setups_total base ws c <= length ws.
Proof.
  pose proof (shapes_sum _ (pair_starts_shape base ws)) as (H1 & _ & H3).
  rewrite length_imap in *. unfold setups_total. intros [-> | [-> | ->]]; lia.
Qed.

Lemma balanced_start base ws churn c :
  setup_counter c -> balanced c (setups_total base ws c) (harness_start base ws churn).
Proof. intros [-> | [-> | ->]]; by split. Qed.

(** What the counters say at the end. *)
Lemma final_counts f base ws churn ls s c :
  (Z.of_nat (length ws) < 2 ^ 63)%Z -> hrun f (harness_start base ws churn) ls s ->
  Forall (fun pc => pc = PEnded) (h_pairs s) -> setup_counter c ->
  stat c (h_stats s) = Z.of_nat (setups_total base ws c).
Proof.
  intros Hn Hr He Hc. pose proof (setups_total_bound base ws c Hc) as Hb.
  destruct (hrun_balanced f c (setups_total base ws c) _ ls s Hc ltac:(lia)
    (balanced_start base ws churn c Hc) Hr) as [_ H].
  rewrite all_ended_owed in H by done. lia.
Qed.

End Code.

(** ** After the deadline *)

Fixpoint left (pc : pair_pc) : nat :=
  match pc with
  | PCount cs next => S (length cs) + left next
  | PReady => 2 | PLoop => 1 | PSession => 3 | PEnded => 0
  end.
Definition pairs_left (s : hstate) : nat := sum_list_with left (h_pairs s).

Definition is_pair (l : hlabel) : bool := match l with LPair => true | _ => false end.
Definition pair_steps (ls : list hlabel) : nat := length (filter (fun l => is_pair l) ls).

Lemma pairs_left_set i pc pc' s :
  h_pairs s !! i = Some pc -> pairs_left (set_pair i pc' s) + left pc = pairs_left s + left pc'.
Proof. intros H. unfold pairs_left. simpl. by apply sum_list_with_insert. Qed.

Lemma hstep_left f s l s' :
  h_done s = true -> hstep f s l s' ->
  h_done s' = true /\ (if is_pair l then 1 else 0) + pairs_left s' <= pairs_left s.
Proof.
  intros Hd Hs. destruct Hs as [i d cs next Hi|i next Hi|i Hi|i Hi Hnd|i Hi _|i e Hi _ _ _|i b Hi|picks _ _ r| | ];
    try (by split; [|unfold pairs_left; simpl; lia]).
  - pose proof (pairs_left_set i _ (PCount cs next) s Hi) as H. simpl in H. split; [done|]. simpl.
    change (pairs_left (add_count d (set_pair i (PCount cs next) s))) with (pairs_left (set_pair i (PCount cs next) s)). lia.
  - pose proof (pairs_left_set i _ next s Hi) as H. simpl in H. split; [done|]. simpl. lia.
  - pose proof (pairs_left_set i _ PLoop s Hi) as H. simpl in H. split; [done|]. simpl.
    change (pairs_left (set_ch i (Some false) (set_pair i PLoop s))) with (pairs_left (set_pair i PLoop s)). lia.
  - by rewrite Hd in Hnd.
  - pose proof (pairs_left_set i _ PEnded s Hi) as H. simpl in H. split; [done|]. simpl. lia.
  - pose proof (pairs_left_set i _ (PCount (session_counters e (negb (h_done s))) PLoop) s Hi) as H.
    rewrite Hd in *. assert (session_counters e (negb true) = []) as E by (by destruct e).
    rewrite E in *. simpl in H. split; [by destruct e|].
    assert (pairs_left ((match e with EndBounced => set_ch i (Some false) | _ => id end) (set_pair i (PCount [] PLoop) s))
      = pairs_left (set_pair i (PCount [] PLoop) s)) as -> by (by destruct e). simpl. lia.
Qed.

Lemma hrun_left f s0 ls s :
  h_done s0 = true -> hrun f s0 ls s ->
  h_done s = true /\ pair_steps ls + pairs_left s <= pairs_left s0.
Proof.
  intros Hd. induction 1 as [|ls s l s' _ [IH1 IH2] Hs]; [by split|].
  destruct (hstep_left f s l s' IH1 Hs) as [H1 H2]. split; [done|].
  unfold pair_steps in *. rewrite filter_app, length_app.
  assert (length (filter (fun l => is_pair l) [l]) = if is_pair l then 1 else 0) as -> by (by destruct l). lia.
Qed.

Lemma harness_enabled f s :
  h_done s = true -> all_ended s \/ exists l s', (l = LPair \/ l = LStormEnd) /\ hstep f s l s'.
Proof.
  intros Hd. destruct (decide (Forall (fun pc => left pc = 0) (h_pairs s))) as [H|H].
  - destruct (h_storming s) eqn:Es; [right; do 2 eexists; split; [by right|by apply HStormEnd]|left].
    split; [|done]. eapply Forall_impl; [exact H|]. intros [] Hl; simpl in Hl; (lia || done).
  - right. apply not_Forall_Exists, Exists_exists in H; [|apply _].
    destruct H as (pc & [i Hi]%list_elem_of_lookup & Hl).
    destruct pc as [[|c cs] next| | | |]; [do 2 eexists; split; [by left|by eapply HNext]
      |do 2 eexists; split; [by left|by eapply HCount]|do 2 eexists; split; [by left|by apply HReady]
      |do 2 eexists; split; [by left|by apply HLeave]
      |do 2 eexists; split; [by left|by apply (HReturn f s i EndDone)]|by destruct Hl].
Qed.

(** ** Texts *)

Lemma index_of_found sub a b : exists i, index_of sub (a ++ sub ++ b) = Some i.
Proof.
  induction a as [|c a [i IH]].
  - exists 0. simpl. destruct (sub ++ b) eqn:E; simpl; (rewrite decide_True; [done|]);
      rewrite <- E; apply take_app_length.
  - simpl. destruct (decide _); [by exists 0|]. rewrite IH. by eexists.
Qed.

Lemma contains_app sub a b : contains (a ++ sub ++ b) sub = true.
Proof. unfold contains. apply bool_decide_eq_true_2. destruct (index_of_found sub a b) as [i ->]. by eexists. Qed.

Lemma index_of_split sub s i : index_of sub s = Some i -> exists a b, s = a ++ sub ++ b.
Proof.
  assert (forall s, take (length sub) s = sub -> exists b, s = sub ++ b) as Hhd.
  { intros t Ht. exists (drop (length sub) t). rewrite <- Ht at 1. symmetry. apply take_drop. }
  revert i. induction s as [|c s IH]; intros i; simpl.
  - case_decide as Ht; [|done]. destruct (Hhd _ Ht) as [b Hb]. by exists [], b.
  - case_decide as Ht; [destruct (Hhd _ Ht) as [b Hb]; by exists [], b|].
    destruct (index_of sub s) as [j|]; [|done]. destruct (IH j eq_refl) as (a & b & ->). by exists (c :: a), b.
Qed.

Lemma contains_spec s sub : contains s sub = true <-> exists a b, s = a ++ sub ++ b.
Proof.
  split; [|intros (a & b & ->); apply contains_app]. unfold contains.
  intros [i Hi]%bool_decide_eq_true. by eapply index_of_split.
Qed.

(** ** What became of a pair *)

Section Outcome.
Context `{P : Primitives} `{UP : UrlPackage} (base : bytes).

(** The pair got all the way to its viewer's loop. *)
Definition got_session (i : nat) (w : pair_world) : Prop :=
  exists client s keys psess orch,
    RelayClient.New base false = Ok client /\
    (CreateSession client (soak_randToken (pw_id_rnd w)) (soak_randToken (pw_tok_rnd w)) (10 * Minute)
       (pw_http w)).2 = Ok s /\
    DeriveKeys (soak_secret (Z.of_nat i)) (ID s) [] = Ok keys /\
    Start [str "cat"] (pw_started w) = Ok psess /\
    Orch.New (soak_config keys s) (SetSize psess 80 24).1 = Ok orch.

(** Its create failed, with a text that has "capacity" or "503" in it. *)
Definition turned_away (w : pair_world) : Prop :=
  exists client e a b,
    RelayClient.New base false = Ok client /\
    (CreateSession client (soak_randToken (pw_id_rnd w)) (soak_randToken (pw_tok_rnd w)) (10 * Minute)
       (pw_http w)).2 = Err e /\
    (create_error_Error (pw_status_line w) (pw_reason w) e = a ++ str "capacity" ++ b \/
     create_error_Error (pw_status_line w) (pw_reason w) e = a ++ str "503" ++ b).

Lemma pair_start_cases i w :
  (owed CSessions (pair_start base i w) = 1 /\ owed CCapRejects (pair_start base i w) = 0 /\
   owed CFatal (pair_start base i w) = 0 /\ got_session i w) \/
  (owed CSessions (pair_start base i w) = 0 /\ owed CCapRejects (pair_start base i w) = 1 /\
   owed CFatal (pair_start base i w) = 0 /\ turned_away w) \/
  (owed CFatal (pair_start base i w) = 1 /\ ~ got_session i w /\ ~ turned_away w).
Proof.
  unfold pair_start, pair_setup.
  destruct (RelayClient.New base false) as [client|ue] eqn:Hc.
  2: { right; right. split; [by vm_compute|]. split.
       - intros (? & ? & ? & ? & ? & ? & _). congruence.
       - intros (? & ? & ? & ? & ? & _). congruence. }
  set (created := (CreateSession client _ _ _ _).2). destruct created as [s|e] eqn:Hs; subst created.
  - assert (~ turned_away w) as Hn.
    { intros (client' & e & a & b & Hc' & He & _). rewrite Hc in Hc'. simplify_eq. congruence. }
    destruct (DeriveKeys _ _ _) as [keys|ke] eqn:Hk; [destruct (Start _ _) as [psess|se] eqn:Hp;
      [destruct (Orch.New _ _) as [orch|oe] eqn:Ho|]|].
    + left. split_and!; [by vm_compute..|]. by exists client, s, keys, psess, orch.
    + right; right. split; [by vm_compute|]. split; [|done].
      intros (? & ? & ? & ? & ? & ? & ? & ? & ? & ?); simplify_eq. congruence.
    + right; right. split; [by vm_compute|]. split; [|done].
      intros (? & ? & ? & ? & ? & ? & ? & ? & ? & ?); simplify_eq; congruence.
    + right; right. split; [by vm_compute|]. split; [|done].
      intros (? & ? & ? & ? & ? & ? & ? & ? & ? & ?); simplify_eq; congruence.
  - assert (~ got_session i w) as Hn.
    { intros (client' & s & ? & ? & ? & Hc' & He & _). rewrite Hc in Hc'. simplify_eq. congruence. }
    destruct (contains _ _ || contains _ _) eqn:Ht.
    + right; left. split_and!; [by vm_compute..|]. exists client, e.
      apply orb_true_iff in Ht as [(a & b & Ht)%contains_spec|(a & b & Ht)%contains_spec]; exists a, b; auto.
    + right; right. split; [by vm_compute|]. split; [done|]. intros (client' & e' & a & b & Hc' & He & Htext).
      simplify_eq. assert (e' = e) as -> by congruence. apply orb_false_iff in Ht as [H1 H2].
      destruct Htext as [Ht|Ht]; rewrite Ht, contains_app in *; done.
Qed.

#[local] Arguments owed : simpl never.

(** Outcomes in general, for pairs that start at index [k]. *)
Lemma outcomes ws : forall k,
  sum_list_with (owed CFatal) (imap (fun i => pair_start base (k + i)) ws) = 0 ->
  exists made, length made = length ws /\
    sum_list_with (owed CSessions) (imap (fun i => pair_start base (k + i)) ws)
      = length (filter (fun b => b = true) made) /\
    sum_list_with (owed CCapRejects) (imap (fun i => pair_start base (k + i)) ws)
      = length (filter (fun b => b = false) made) /\
    forall i w, ws !! i = Some w ->
      (made !! i = Some true /\ got_session (k + i) w) \/ (made !! i = Some false /\ turned_away w).
Proof.
  induction ws as [|w ws IH]; intros k H; [by exists []|]. simpl in *.
  assert (forall c, sum_list_with (owed c) (imap ((fun i => pair_start base (k + i)) ∘ S) ws)
    = sum_list_with (owed c) (imap (fun i => pair_start base (S k + i)) ws)) as Hshift.
  { intros c. f_equal. apply imap_ext. intros i x _. simpl. by rewrite Nat.add_succ_r. }
  rewrite !Hshift in *. rewrite Nat.add_0_r in *.
  destruct (IH (S k)) as (made & Hl & H1 & H2 & H3); [lia|].
  destruct (pair_start_cases k w) as [(E1 & E2 & E3 & Hg)|[(E1 & E2 & E3 & Ht)|(E3 & _)]]; [| |lia].
  - exists (true :: made). rewrite H1, H2, E1, E2. simpl. split_and!; [by rewrite Hl|done|done|].
    intros [|i] w' Hw; simpl in *; [simplify_eq; left; by rewrite Nat.add_0_r|].
    rewrite Nat.add_succ_r. by apply H3.
  - exists (false :: made). rewrite H1, H2, E1, E2. simpl. split_and!; [by rewrite Hl|done|done|].
    intros [|i] w' Hw; simpl in *; [simplify_eq; by right|]. rewrite Nat.add_succ_r. by apply H3.
Qed.

Lemma setups_without_fatal ws :
  setups_total base ws CFatal = 0 ->
  exists made, length made = length ws /\
    setups_total base ws CSessions = length (filter (fun b => b = true) made) /\
    setups_total base ws CCapRejects = length (filter (fun b => b = false) made) /\
    forall i w, ws !! i = Some w ->
      (made !! i = Some true /\ got_session i w) \/ (made !! i = Some false /\ turned_away w).
Proof. exact (outcomes ws 0). Qed.

Lemma some_setup_fatal ws :
  0 < setups_total base ws CFatal ->
  exists i w, ws !! i = Some w /\ ~ got_session i w /\ ~ turned_away w.
Proof.
  unfold setups_total. assert (forall k, 0 < sum_list_with (owed CFatal) (imap (fun i => pair_start base (k + i)) ws) ->
    exists i w, ws !! i = Some w /\ ~ got_session (k + i) w /\ ~ turned_away w) as H; [|exact (H 0)].
  induction ws as [|w ws IH]; intros k; simpl; [lia|]. intros H.
  assert (sum_list_with (owed CFatal) (imap ((fun i => pair_start base (k + i)) ∘ S) ws)
    = sum_list_with (owed CFatal) (imap (fun i => pair_start base (S k + i)) ws)) as Hshift.
  { f_equal. apply imap_ext. intros i x _. simpl. by rewrite Nat.add_succ_r. }
  rewrite Hshift, Nat.add_0_r in H.
  destruct (pair_start_cases k w) as [(_ & _ & E & _)|[(_ & _ & E & _)|(_ & Hn)]].
  - destruct (IH (S k)) as (i & w' & Hw & Hn); [lia|]. exists (S i), w'. by rewrite Nat.add_succ_r.
  - destruct (IH (S k)) as (i & w' & Hw & Hn); [lia|]. exists (S i), w'. by rewrite Nat.add_succ_r.
  - exists 0, w. by rewrite Nat.add_0_r.
Qed.

End Outcome.

(** ** A concrete run: two pairs, one of which the relay refuses *)

Definition demo_soak_flags : SoakFlags := mkSoakFlags 1 (30 * Second) 0 (mkFloat 1 2) (str "https://relay.test").
Definition demo_refused : pair_world :=
  mkPairWorld (make_bytes 16) (make_bytes 16) (HttpResponse 503 (str "{}")) (str "503 Service Unavailable") [] true.

Example soak_banner_ex :
  soak_banner demo_soak_flags
  = str "soak: 1 pairs for 30s against https://relay.test (churn 0s, 25%)" ++ [x0a].
Proof. vm_compute. reflexivity. Qed.

(** The run: the rejection counted, the goroutine returned. *)
Definition demo_end : hstate :=
  mkHState false (count CCapRejects stats0) [PEnded] [None] false.

Lemma demo_start :
  harness_start (P := go_crypto) (UP := demo_urls) (sf_base demo_soak_flags) [demo_refused] 0
  = mkHState false stats0 [PCount [CCapRejects] PEnded] [None] false.
Proof. vm_compute. reflexivity. Qed.

Lemma demo_hrun f :
  hrun f (harness_start (P := go_crypto) (UP := demo_urls) (sf_base demo_soak_flags) [demo_refused] 0)
    [LPair; LPair] demo_end.
Proof.
  rewrite demo_start.
  eapply (hrun_snoc _ _ [LPair]); [eapply (hrun_snoc _ _ []); [constructor|]|].
  - by apply (HCount _ (mkHState false stats0 [PCount [CCapRejects] PEnded] [None] false) 0 CCapRejects [] PEnded).
  - by apply (HNext _ (mkHState false (count CCapRejects stats0) [PCount [] PEnded] [None] false) 0 PEnded).
Qed.

(** A relay gone from port 5030, and the error's text. *)
Definition refused_text : bytes :=
  str "Post " ++ [x22] ++ str "https://relay.test:5030/api/sessions" ++ [x22]
  ++ str ": dial tcp 10.0.0.7:5030: connect: connection refused".

(** ** Properties *)

(** Every pair is accounted for.  However the pairs, their readers, the
    storms and the deadline interleave: when all pairs have returned, sessions,
    rejections and fatal errors have been counted exactly as often as the pairs'
    setups ask for; sessions and rejections are no more than the pairs, and with
    the fatal errors no fewer. *)
Theorem every_pair_is_accounted `{P : Primitives} `{UP : UrlPackage} f base ws churn ls s :
  (Z.of_nat (length ws) < 2 ^ 63)%Z -> hrun f (harness_start base ws churn) ls s ->
  Forall (fun pc => pc = PEnded) (h_pairs s) ->
  (forall c, setup_counter c -> stat c (h_stats s) = Z.of_nat (setups_total base ws c)) /\
  (sessions (h_stats s) + capRejects (h_stats s) <= Z.of_nat (length ws)
     <= sessions (h_stats s) + capRejects (h_stats s) + fatal (h_stats s))%Z.
Proof.
  intros Hn Hr He. pose proof (fun c => final_counts f base ws churn ls s c Hn Hr He) as Hc.
  split; [done|]. pose proof (shapes_sum _ (pair_starts_shape base ws)) as (H1 & H2 & _).
  rewrite length_imap in *. unfold setup_counter in Hc.
  pose proof (Hc CSessions ltac:(auto)) as E1. pose proof (Hc CCapRejects ltac:(auto)) as E2.
  pose proof (Hc CFatal ltac:(auto)) as E3. simpl in E1, E2, E3. unfold setups_total in *. lia.
Qed.

Lemma every_pair_is_accounted_witness :
  (sessions (h_stats demo_end) + capRejects (h_stats demo_end) <= 1)%Z.
Proof.
  refine (proj1 (proj2 (every_pair_is_accounted (P := go_crypto) (UP := demo_urls) (mkFloat 1 2) _ _ _ _ _
    _ (demo_hrun _) _))); [by vm_compute|by repeat constructor].
Defined.

(** C40. What the harness's exit status says.  It is 0 only when the relay was
    reachable, the samples do not look like a leak, and each pair either got all
    the way - the relay created its session, its keys were derived, its command
    started, its orchestrator was made - or had its create fail with an error
    whose text holds "capacity" or "503" somewhere; the report then counts the
    first as sessions and the others as rejections.  Such a text need not come
    from the session cap: a relay that is down behind an address with 503 in it
    gives one too ([cap_rejects_are_told_by_text]), and the status is 0.  In
    every other case the relay was unreachable, the number of pairs negative, a
    leak seen, or some pair did neither and the report counts fatal errors. *)
Theorem soak_status_is_honest `{P : Primitives} `{UP : UrlPackage} f status ws pid printed judged final outs code :
  (sf_n f < 2 ^ 63)%Z -> soak_main f status ws pid printed judged final outs code ->
  if decide (code = 0)%Z then
    healthy status = true /\ leaked final = false /\
    exists st made,
      outs = [SoakStdout (soak_banner f); SoakStdout (report st pid printed judged (sf_n f))] /\
      length made = length ws /\ fatal st = 0%Z /\
      sessions st = Z.of_nat (length (filter (fun b => b = true) made)) /\
      capRejects st = Z.of_nat (length (filter (fun b => b = false) made)) /\
      forall i w, ws !! i = Some w ->
        (made !! i = Some true /\ got_session (sf_base f) i w) \/
        (made !! i = Some false /\ turned_away (sf_base f) w)
  else
    healthy status = false \/ (sf_n f < 0)%Z \/ leaked final = true \/
    exists st, outs = [SoakStdout (soak_banner f); SoakStdout (report st pid printed judged (sf_n f))] /\
      (0 < fatal st)%Z /\
      exists i w, ws !! i = Some w /\ ~ got_session (sf_base f) i w /\ ~ turned_away (sf_base f) w.
Proof.
  intros Hn Hm. destruct Hm as [Hh|Hh Hneg|ls s Hh Hf Hr [He _]]; [by left|by right; left|].
  assert (Z.of_nat (length ws) < 2 ^ 63)%Z as Hlen by lia.
  pose proof (fun c => final_counts (sf_churnFrac f) (sf_base f) ws (sf_churn f) ls s c Hlen Hr He) as Hc.
  unfold setup_counter in Hc. pose proof (Hc CSessions ltac:(auto)) as E1.
  pose proof (Hc CCapRejects ltac:(auto)) as E2. pose proof (Hc CFatal ltac:(auto)) as E3. simpl in E1, E2, E3.
  unfold soak_exit. case_bool_decide as Hfatal; simpl.
  - right; right; right. eexists. split; [reflexivity|]. split; [done|].
    apply some_setup_fatal. lia.
  - destruct (leaked final) eqn:El; simpl; [by right; right; left|].
    destruct (setups_without_fatal (sf_base f) ws) as (made & Hl & H1 & H2 & H3); [lia|].
    split; [done|]. split; [done|]. exists (h_stats s), made. split_and!; [done|done|lia|lia|lia|done].
Qed.

Lemma soak_status_is_honest_witness :
  exists e, (CreateSession (mkClient (origin_url (str "https") (str "relay.test")))
       (soak_randToken (make_bytes 16)) (soak_randToken (make_bytes 16)) (10 * Minute)
       (HttpResponse 503 (str "{}"))).2 = Err e.
Proof.
  destruct (soak_status_is_honest (P := go_crypto) (UP := demo_urls) demo_soak_flags (Some 200%Z) [demo_refused]
    0 [] [] [] [SoakStdout (soak_banner demo_soak_flags); SoakStdout (report (h_stats demo_end) 0 [] [] 1)] 0)
    as (_ & _ & st & made & _ & Hl & _ & Hs & _ & H); [by vm_compute| |].
  - apply (MainReports (P := go_crypto) (UP := demo_urls) demo_soak_flags (Some 200%Z) [demo_refused] 0 [] [] []
      [LPair; LPair] demo_end); [done|done|apply demo_hrun|by repeat constructor].
  - destruct (H 0 demo_refused eq_refl) as [[_ Hg]|[_ (client & e & a & b & Hc & Hr & _)]].
    + exfalso. destruct Hg as (client & info & keys & ps & o & Hc & Hr & _).
      vm_compute in Hc. injection Hc as <-. by vm_compute in Hr.
    + vm_compute in Hc. injection Hc as <-. by exists e.
Defined.

(** The harness ends after its deadline.  From then on the pairs take at most
    as many steps as each has left - three from the middle of a session - and
    until all have returned and the storms have stopped, a pair or the storm's
    goroutine can move. *)
Theorem harness_ends_after_its_deadline f s0 ls s :
  h_done s0 = true -> hrun f s0 ls s ->
  pair_steps ls <= pairs_left s0 /\
  (all_ended s \/ exists l s', (l = LPair \/ l = LStormEnd) /\ hstep f s l s').
Proof.
  intros Hd Hr. destruct (hrun_left f s0 ls s Hd Hr) as [Hd' Hl]. split; [lia|]. by apply harness_enabled.
Qed.

Lemma harness_ends_after_its_deadline_witness :
  pair_steps [LPair] <= pairs_left (mkHState true stats0 [PLoop] [Some false] false).
Proof.
  refine (proj1 (harness_ends_after_its_deadline (mkFloat 1 2)
    (mkHState true stats0 [PLoop] [Some false] false) [LPair]
    (mkHState true stats0 [PEnded] [Some false] false) eq_refl _)).
  eapply (hrun_snoc _ _ []); [constructor|].
  by apply (HLeave _ (mkHState true stats0 [PLoop] [Some false] false) 0).
Defined.

(** A relay's 503 is a rejection by its cap, whatever the body says, and so is
    every other failed create whose error's text holds 503 or capacity anywhere
    - be it in the address of a relay that is down. *)
Theorem cap_rejects_are_told_by_text `{P : Primitives} `{UP : UrlPackage} base id id_rnd tok_rnd http
    status_line reason started client e :
  RelayClient.New base false = Ok client ->
  (CreateSession client (soak_randToken id_rnd) (soak_randToken tok_rnd) (10 * Minute) http).2 = Err e ->
  match e with
  | errStatus _ _ => exists a b, status_line = a ++ str "503" ++ b
  | errDo => exists a b, reason = a ++ str "503" ++ b
  | _ => False
  end ->
  pair_setup base id id_rnd tok_rnd http status_line reason started = ([CCapRejects], None).
Proof.
  intros Hc He Ht. unfold pair_setup. rewrite Hc, He.
  assert (exists a b, create_error_Error status_line reason e = a ++ str "503" ++ b) as (a & b & ->).
  { unfold create_error_Error. destruct e as [|st snip| |]; try done; destruct Ht as (a & b & ->).
    - exists (str "create session: " ++ a), b. by rewrite <- (assoc_L (++)).
    - exists (str "create session: " ++ a), (b ++ str ": " ++ TrimSpace snip).
      by rewrite <- !(assoc_L (++)). }
  by rewrite contains_app, orb_true_r.
Qed.

Lemma cap_rejects_are_told_by_text_witness :
  pair_setup (P := go_crypto) (UP := demo_urls) (str "https://relay.test:5030") 0 (make_bytes 16) (make_bytes 16)
    HttpError [] refused_text true = ([CCapRejects], None).
Proof.
  eapply (cap_rejects_are_told_by_text (P := go_crypto) (UP := demo_urls)); [vm_compute; reflexivity|reflexivity|].
  exists (take 25 refused_text), (drop 28 refused_text). by vm_compute.
Defined.
